(** * Quality-rule compiler and execution engine

    A shallow embedding of [SpecDrivenParser] (the statement-to-rule
    compiler: statement extraction, grammar templates, condition and action
    synthesis, validation, confidence aggregation, linking to executable
    rules) and of [AnalysisService.applySpecDrivenRules] (the execution
    engine), together with the properties the design document states about
    them; then of the services around them: the rest of [AnalysisService],
    the life cycle of specifications in [QualitySpecService], and the
    pre-commit check of [QualityGateService] with its configuration
    ([QualityGateConfigService]).

    Conventions of the embedding.
    - A JavaScript string is a [string]: a sequence of 8-bit characters.
      Case mapping, white space and word characters are the ASCII ones;
      characters above 127 have no case, are not white space and are not
      word characters.
    - A JavaScript number that is a count, an index or a parsed run of
      decimal digits is a [nat] or an [N], exact at every size (the host
      rounds integers beyond 2^53); a confidence is an exact rational
      ([Q]), so [0.9] is [9/10]. The threshold of a metric condition is a
      [number] (not-a-number, an infinity, or the rational a finite double
      stands for) or a string, which [parseFloat] reads.
    - Code that can throw returns a [result]; code that also touches the
      host (clock, random source) or a mutable array lives in the monad [M].
    - The wall-clock stamps [parsedAt] and [compiledAt] and what is written
      to the console are not represented: nothing reads them. *)

From Stdlib Require Import Ascii String QArith Qround Lqa DecimalString DecimalNat Sorted.
From stdpp Require Import base option list strings gmap sorting.

Local Open Scope string_scope.
Local Open Scope list_scope.

(** ** Exceptions *)

(** A thrown JavaScript value: only its message is kept. *)
Inductive result (A : Type) : Type :=
| Ok (a : A)
| Throw (msg : string).
Arguments Ok {A} a.
Arguments Throw {A} msg.

(** ** JavaScript strings *)

Module JsString.

Definition chars (s : string) : list ascii := list_ascii_of_string s.
Definition of_chars (l : list ascii) : string := string_of_list_ascii l.

Definition code (c : ascii) : nat := nat_of_ascii c.

Definition is_upper (c : ascii) : bool := (65 <=? code c)%nat && (code c <=? 90)%nat.
Definition is_lower (c : ascii) : bool := (97 <=? code c)%nat && (code c <=? 122)%nat.
Definition is_digit (c : ascii) : bool := (48 <=? code c)%nat && (code c <=? 57)%nat.

Definition lower_char (c : ascii) : ascii :=
  if is_upper c then ascii_of_nat (code c + 32) else c.
Definition upper_char (c : ascii) : ascii :=
  if is_lower c then ascii_of_nat (code c - 32) else c.

(** [WhiteSpace] and [LineTerminator]: TAB, LF, VT, FF, CR, SPACE. *)
Definition is_space (c : ascii) : bool :=
  let n := code c in
  ((9 <=? n)%nat && (n <=? 13)%nat) || (n =? 32)%nat.

(** [\w]: letters, digits and the underscore. *)
Definition is_word (c : ascii) : bool :=
  is_upper c || is_lower c || is_digit c || (code c =? 95)%nat.

(** [\n], [\r]: the characters [.] does not match. *)
Definition is_line_terminator (c : ascii) : bool :=
  (code c =? 10)%nat || (code c =? 13)%nat.

Definition newline : ascii := ascii_of_nat 10.

(** [s.toLowerCase()] *)
Definition toLowerCase (s : string) : string :=
  of_chars (map lower_char (chars s)).

(** [s.length] *)
Definition length (s : string) : nat := String.length s.

(** [s.split('\n')]: never empty, one more piece than there are newlines. *)
Fixpoint split_lines_aux (cur : list ascii) (l : list ascii) : list string :=
  match l with
  | [] => [of_chars (rev cur)]
  | c :: l' =>
      if Ascii.eqb c newline
      then of_chars (rev cur) :: split_lines_aux [] l'
      else split_lines_aux (c :: cur) l'
  end.
Definition split_lines (s : string) : list string := split_lines_aux [] (chars s).

Fixpoint drop_spaces (l : list ascii) : list ascii :=
  match l with
  | c :: l' => if is_space c then drop_spaces l' else l
  | [] => []
  end.

(** [s.trim()] *)
Definition trim (s : string) : string :=
  of_chars (rev (drop_spaces (rev (drop_spaces (chars s))))).

Fixpoint prefix_chars (p l : list ascii) : bool :=
  match p, l with
  | [], _ => true
  | a :: p', b :: l' => Ascii.eqb a b && prefix_chars p' l'
  | _ :: _, [] => false
  end.

(** [s.startsWith(p)] *)
Definition startsWith (s p : string) : bool := prefix_chars (chars p) (chars s).

Fixpoint includes_chars (p l : list ascii) : bool :=
  prefix_chars p l ||
  match l with
  | [] => false
  | _ :: l' => includes_chars p l'
  end.

(** [s.includes(p)] *)
Definition includes (s p : string) : bool := includes_chars (chars p) (chars s).

(** Rendering of a non-negative integer, as in a template literal. *)
Definition of_nat (n : nat) : string := NilEmpty.string_of_uint (Nat.to_uint n).

(** [parseInt] on a run of decimal digits. *)
Definition digit_value (c : ascii) : N := N.of_nat (code c - 48).
Definition parseInt_digits (s : string) : N :=
  fold_left (fun acc c => (10 * acc + digit_value c)%N) (chars s) 0%N.

(** Truthiness of a string: the empty string is falsy. *)
Definition truthy (s : string) : bool := negb (String.eqb s EmptyString).

(** Rendering of an integer. *)
Definition of_Z (z : Z) : string :=
  match z with
  | Zneg p => String "-" (of_nat (Pos.to_nat p))
  | _ => of_nat (Z.to_nat z)
  end.

(** The double-quote character, for messages that quote text. *)
Definition dquote : string := String (ascii_of_nat 34) EmptyString.

End JsString.

(** ** The host's regular expressions

    The fragment of ECMAScript patterns the parser's literals are written
    in, with the backtracking semantics of the language definition: a
    matcher takes a continuation and a state and returns the first
    successful state in priority order. *)

Module Regex.
Import JsString.

Inductive class_item : Type :=
| CChar (c : ascii)
| CRange (lo hi : ascii)
| CSpace (neg : bool)      (* \s \S *)
| CWord (neg : bool)       (* \w \W *)
| CDigit (neg : bool).     (* \d \D *)

Inductive regex : Type :=
| Empty
| Char (c : ascii)
| Dot
| Class (neg : bool) (items : list class_item)
| WordBoundary (neg : bool)
| InputStart
| InputEnd
| Seq (r1 r2 : regex)
| Alt (r1 r2 : regex)
| Group (n : nat) (r : regex)
| Repeat (r : regex) (min : nat) (max : option nat) (greedy : bool).

(** Matcher state: what is left of the input, the character just before,
    the position, and the captures (group number, start, end). *)
Record mstate : Type := MState {
  rest : list ascii;
  prev : option ascii;
  pos : nat;
  caps : list (nat * (nat * nat))
}.

Definition cont : Type := mstate -> option mstate.

Fixpoint lookup_cap (n : nat) (cs : list (nat * (nat * nat))) : option (nat * nat) :=
  match cs with
  | [] => None
  | (k, v) :: cs' => if (k =? n)%nat then Some v else lookup_cap n cs'
  end.

Fixpoint groups_of (r : regex) : list nat :=
  match r with
  | Seq r1 r2 | Alt r1 r2 => groups_of r1 ++ groups_of r2
  | Group n r' => n :: groups_of r'
  | Repeat r' _ _ _ => groups_of r'
  | _ => []
  end.

Definition clear_caps (gs : list nat) (x : mstate) : mstate :=
  MState (rest x) (prev x) (pos x)
    (filter (fun kv => negb (existsb (Nat.eqb (fst kv)) gs) = true) (caps x)).

Definition set_cap (n start : nat) (y : mstate) : mstate :=
  MState (rest y) (prev y) (pos y) ((n, (start, pos y)) :: caps y).

Definition in_range (lo hi c : ascii) : bool :=
  (code lo <=? code c)%nat && (code c <=? code hi)%nat.

Section Matcher.
(** The [i] flag. *)
Variable icase : bool.

Definition canon (c : ascii) : ascii := if icase then upper_char c else c.

Definition char_eq (a b : ascii) : bool := Ascii.eqb (canon a) (canon b).

Definition item_mem (it : class_item) (c : ascii) : bool :=
  match it with
  | CChar a => char_eq a c
  | CRange lo hi =>
      in_range lo hi c
      || (icase && (in_range lo hi (upper_char c) || in_range lo hi (lower_char c)))
  | CSpace neg => xorb neg (is_space c)
  | CWord neg => xorb neg (is_word c)
  | CDigit neg => xorb neg (is_digit c)
  end.

Definition class_mem (neg : bool) (items : list class_item) (c : ascii) : bool :=
  xorb neg (existsb (fun it => item_mem it c) items).

Definition step_char (p : ascii -> bool) (k : cont) (x : mstate) : option mstate :=
  match rest x with
  | c :: l => if p c then k (MState l (Some c) (S (pos x)) (caps x)) else None
  | [] => None
  end.

Definition at_word_boundary (x : mstate) : bool :=
  let a := match prev x with Some c => is_word c | None => false end in
  let b := match rest x with c :: _ => is_word c | [] => false end in
  xorb a b.

(** [RepeatMatcher]: an iteration that starts once the minimum is
    reached must consume input, and every iteration starts with the
    captures of the repeated atom cleared. Each turn either lowers
    [min] or shortens the input, which bounds the number of turns by
    [min] plus the length of the input. *)
Fixpoint repeat_loop (fuel : nat) (m : cont -> cont) (gs : list nat)
    (min : nat) (max : option nat) (greedy : bool) (k : cont) (x : mstate)
    : option mstate :=
  match fuel with
  | O => None
  | S fuel' =>
      match max with
      | Some O => k x
      | _ =>
          let d : cont := fun y =>
            if (min =? 0)%nat && (pos y =? pos x)%nat then None
            else repeat_loop fuel' m gs (Nat.pred min) (Nat.pred <$> max) greedy k y in
          let xr := clear_caps gs x in
          if negb (min =? 0)%nat then m d xr
          else if greedy then
            match m d xr with
            | Some z => Some z
            | None => k x
            end
          else
            match k x with
            | Some z => Some z
            | None => m d xr
            end
      end
  end.

Fixpoint rmatch (r : regex) (k : cont) (x : mstate) {struct r} : option mstate :=
  match r with
  | Empty => k x
  | Char c => step_char (char_eq c) k x
  | Dot => step_char (fun c => negb (is_line_terminator c)) k x
  | Class neg items => step_char (class_mem neg items) k x
  | WordBoundary neg => if xorb neg (at_word_boundary x) then k x else None
  | InputStart => if (pos x =? 0)%nat then k x else None
  | InputEnd => match rest x with [] => k x | _ :: _ => None end
  | Seq r1 r2 => rmatch r1 (rmatch r2 k) x
  | Alt r1 r2 =>
      match rmatch r1 k x with
      | Some z => Some z
      | None => rmatch r2 k x
      end
  | Group n r' => rmatch r' (fun y => k (set_cap n (pos x) y)) x
  | Repeat r' min max greedy =>
      repeat_loop (S (min + List.length (rest x))) (rmatch r') (groups_of r')
        min max greedy k x
  end.

(** Leftmost match: try every start position in turn. *)
Fixpoint search (r : regex) (l : list ascii) (pv : option ascii) (p : nat)
    : option (nat * mstate) :=
  match rmatch r Some (MState l pv p []) with
  | Some e => Some (p, e)
  | None =>
      match l with
      | [] => None
      | c :: l' => search r l' (Some c) (S p)
      end
  end.
End Matcher.

(** The array [exec] returns: [m_group 0] is the matched text,
    [m_group n] the text of capture [n] or [None] when it is undefined. *)
Record MatchArray : Type := {
  m_input : list ascii;
  m_index : nat;
  m_end : nat;
  m_caps : list (nat * (nat * nat))
}.

Definition slice (l : list ascii) (a b : nat) : string :=
  of_chars (firstn (b - a) (skipn a l)).

Definition m_group (m : MatchArray) (n : nat) : option string :=
  match n with
  | O => Some (slice (m_input m) (m_index m) (m_end m))
  | _ => (fun se => slice (m_input m) (fst se) (snd se)) <$> lookup_cap n (m_caps m)
  end.

Definition m_text (m : MatchArray) : string :=
  slice (m_input m) (m_index m) (m_end m).

(** [re.exec(s)] from [lastIndex = 0]. *)
Definition exec (icase : bool) (r : regex) (s : string) : option MatchArray :=
  let l := chars s in
  match search icase r l None 0 with
  | Some (i, e) => Some {| m_input := l; m_index := i; m_end := pos e; m_caps := caps e |}
  | None => None
  end.

(** [s.match(re)] for a global [re]: every match, left to right; after an
    empty match the scan moves one character on. *)
Fixpoint match_all_aux (fuel : nat) (icase : bool) (r : regex) (input : list ascii)
    (l : list ascii) (pv : option ascii) (p : nat) : list string :=
  match fuel with
  | O => []
  | S fuel' =>
      match search icase r l pv p with
      | None => []
      | Some (i, e) =>
          let here := slice input i (pos e) in
          if (pos e =? i)%nat then
            match rest e with
            | [] => [here]
            | c :: l' => here :: match_all_aux fuel' icase r input l' (Some c) (S (pos e))
            end
          else here :: match_all_aux fuel' icase r input (rest e) (prev e) (pos e)
      end
  end.

Definition match_all (icase : bool) (r : regex) (s : string) : list string :=
  let l := chars s in
  match_all_aux (S (List.length l)) icase r l l None 0.

(** [s.replace(re, '')] for a non-global [re]: the first match is cut out. *)
Definition remove_first (icase : bool) (r : regex) (s : string) : string :=
  match exec icase r s with
  | None => s
  | Some m => of_chars (firstn (m_index m) (m_input m) ++ skipn (m_end m) (m_input m))
  end.

(** [s.replace(re, f)] for a global [re]: every match is replaced by
    [f] of its text. *)
Fixpoint replace_all_aux (fuel : nat) (icase : bool) (r : regex) (f : string -> string)
    (input : list ascii) (l : list ascii) (pv : option ascii) (p : nat) : list ascii :=
  match fuel with
  | O => l
  | S fuel' =>
      match search icase r l pv p with
      | None => l
      | Some (i, e) =>
          let before := firstn (i - p) l in
          let here := chars (f (slice input i (pos e))) in
          if (pos e =? i)%nat then
            match rest e with
            | [] => before ++ here
            | c :: l' =>
                before ++ here ++ c :: replace_all_aux fuel' icase r f input l' (Some c) (S (pos e))
            end
          else before ++ here ++ replace_all_aux fuel' icase r f input (rest e) (prev e) (pos e)
      end
  end.

Definition replace_all (icase : bool) (r : regex) (f : string -> string) (s : string) : string :=
  let l := chars s in
  of_chars (replace_all_aux (S (List.length l)) icase r f l l None 0).

End Regex.

(** ** Reading a pattern source

    [new RegExp(source, flags)] on a source text built at run time. The
    reader covers the syntax the matcher above implements and tells a
    source the host rejects ([SyntaxError]) from one that is outside this
    fragment ([Unmodelled]: look-around, back-references, named groups,
    braces, [\c], [\x], [\u] and other letter or digit escapes). *)

Module RegexReader.
Import JsString Regex.

Inductive outcome (A : Type) : Type :=
| Parsed (a : A)
| SyntaxError
| Unmodelled.
Arguments Parsed {A} a.
Arguments SyntaxError {A}.
Arguments Unmodelled {A}.

Definition chr (c : ascii) (s : string) : bool :=
  match s with
  | String d EmptyString => Ascii.eqb c d
  | _ => false
  end.

Definition one_of (c : ascii) (s : string) : bool :=
  existsb (Ascii.eqb c) (chars s).

Definition is_alnum (c : ascii) : bool := is_upper c || is_lower c || is_digit c.

(** A character-class escape, shared by atoms and classes. *)
Definition class_escape (c : ascii) : option class_item :=
  if chr c "d" then Some (CDigit false) else
  if chr c "D" then Some (CDigit true) else
  if chr c "s" then Some (CSpace false) else
  if chr c "S" then Some (CSpace true) else
  if chr c "w" then Some (CWord false) else
  if chr c "W" then Some (CWord true) else None.

(** A control escape. *)
Definition control_escape (c : ascii) : option ascii :=
  if chr c "t" then Some (ascii_of_nat 9) else
  if chr c "n" then Some (ascii_of_nat 10) else
  if chr c "v" then Some (ascii_of_nat 11) else
  if chr c "f" then Some (ascii_of_nat 12) else
  if chr c "r" then Some (ascii_of_nat 13) else None.

(** The quantifier, if any, that follows an atom. *)
Definition quantifier (r : regex) (cs : list ascii) : outcome (regex * list ascii) :=
  match cs with
  | c :: cs' =>
      if chr c "{" then Unmodelled else
      if one_of c "*+?" then
        let '(lazy, cs'') :=
          match cs' with
          | q :: cs'' => if chr q "?" then (true, cs'') else (false, cs')
          | [] => (false, cs')
          end in
        let '(min, max) :=
          if chr c "*" then (0, None) else
          if chr c "+" then (1, None) else (0, Some 1) in
        Parsed (Repeat r min max (negb lazy), cs'')
      else Parsed (r, cs)
  | [] => Parsed (r, cs)
  end.

(** An assertion cannot be repeated. *)
Definition no_quantifier (r : regex) (cs : list ascii) : outcome (regex * list ascii) :=
  match cs with
  | c :: _ =>
      if one_of c "*+?" then SyntaxError else
      if chr c "{" then Unmodelled else Parsed (r, cs)
  | [] => Parsed (r, cs)
  end.

(** One member of a class, after the opening bracket. *)
Definition class_atom (cs : list ascii) : outcome (class_item * list ascii) :=
  match cs with
  | [] => SyntaxError
  | c :: cs' =>
      if chr c "\" then
        match cs' with
        | [] => SyntaxError
        | e :: cs'' =>
            match class_escape e with
            | Some it => Parsed (it, cs'')
            | None =>
                match control_escape e with
                | Some a => Parsed (CChar a, cs'')
                | None =>
                    if chr e "b" then Parsed (CChar (ascii_of_nat 8), cs'')
                    else if is_alnum e then Unmodelled
                    else Parsed (CChar e, cs'')
                end
            end
        end
      else Parsed (CChar c, cs')
  end.

Fixpoint class_items (fuel : nat) (cs : list ascii) (acc : list class_item)
    : outcome (list class_item * list ascii) :=
  match fuel with
  | O => Unmodelled
  | S fuel' =>
      match cs with
      | [] => SyntaxError
      | c :: cs' =>
          if chr c "]" then Parsed (rev acc, cs') else
          match class_atom cs with
          | Parsed (it, cs1) =>
              match cs1 with
              | d :: hi_cs =>
                  if chr d "-" then
                    match hi_cs with
                    | [] => SyntaxError
                    | h :: _ =>
                        if chr h "]" then class_items fuel' cs1 (it :: acc) else
                        match it, class_atom hi_cs with
                        | CChar lo, Parsed (CChar hi, cs2) =>
                            if (code hi <? code lo)%nat then SyntaxError
                            else class_items fuel' cs2 (CRange lo hi :: acc)
                        | _, Parsed _ => Unmodelled
                        | _, SyntaxError => SyntaxError
                        | _, Unmodelled => Unmodelled
                        end
                    end
                  else class_items fuel' cs1 (it :: acc)
              | [] => SyntaxError
              end
          | SyntaxError => SyntaxError
          | Unmodelled => Unmodelled
          end
      end
  end.

Definition with_quantifier {A} (q : outcome (regex * list ascii)) (g : A)
    : outcome (regex * list ascii * A) :=
  match q with
  | Parsed (r, cs) => Parsed (r, cs, g)
  | SyntaxError => SyntaxError
  | Unmodelled => Unmodelled
  end.

(** Disjunction, alternative and term, by recursive descent; [g] is the
    number the next capturing group gets. *)
Fixpoint disjunction (fuel : nat) (cs : list ascii) (g : nat)
    : outcome (regex * list ascii * nat) :=
  match fuel with
  | O => Unmodelled
  | S fuel' =>
      match alternative fuel' cs g with
      | Parsed (r1, cs1, g1) =>
          match cs1 with
          | c :: cs2 =>
              if chr c "|" then
                match disjunction fuel' cs2 g1 with
                | Parsed (r2, cs3, g2) => Parsed (Alt r1 r2, cs3, g2)
                | e => e
                end
              else Parsed (r1, cs1, g1)
          | [] => Parsed (r1, cs1, g1)
          end
      | e => e
      end
  end
with alternative (fuel : nat) (cs : list ascii) (g : nat)
    : outcome (regex * list ascii * nat) :=
  match fuel with
  | O => Unmodelled
  | S fuel' =>
      match cs with
      | [] => Parsed (Empty, cs, g)
      | c :: _ =>
          if one_of c "|)" then Parsed (Empty, cs, g) else
          match term fuel' cs g with
          | Parsed (r1, cs1, g1) =>
              match alternative fuel' cs1 g1 with
              | Parsed (r2, cs2, g2) => Parsed (Seq r1 r2, cs2, g2)
              | e => e
              end
          | e => e
          end
      end
  end
with term (fuel : nat) (cs : list ascii) (g : nat)
    : outcome (regex * list ascii * nat) :=
  match fuel with
  | O => Unmodelled
  | S fuel' =>
      match cs with
      | [] => SyntaxError
      | c :: cs' =>
          if chr c "^" then with_quantifier (no_quantifier InputStart cs') g else
          if chr c "$" then with_quantifier (no_quantifier InputEnd cs') g else
          if chr c "." then with_quantifier (quantifier Dot cs') g else
          if one_of c "*+?" then SyntaxError else
          if chr c "{" then Unmodelled else
          if chr c "\" then
            match cs' with
            | [] => SyntaxError
            | e :: cs'' =>
                if chr e "b" then with_quantifier (no_quantifier (WordBoundary false) cs'') g else
                if chr e "B" then with_quantifier (no_quantifier (WordBoundary true) cs'') g else
                match class_escape e with
                | Some it => with_quantifier (quantifier (Class false [it]) cs'') g
                | None =>
                    match control_escape e with
                    | Some a => with_quantifier (quantifier (Char a) cs'') g
                    | None =>
                        if is_alnum e then Unmodelled
                        else with_quantifier (quantifier (Char e) cs'') g
                    end
                end
            end
          else if chr c "[" then
            let '(neg, body) :=
              match cs' with
              | n :: cs'' => if chr n "^" then (true, cs'') else (false, cs')
              | [] => (false, cs')
              end in
            match class_items (S (List.length body)) body [] with
            | Parsed (items, cs1) => with_quantifier (quantifier (Class neg items) cs1) g
            | SyntaxError => SyntaxError
            | Unmodelled => Unmodelled
            end
          else if chr c "(" then
            match cs' with
            | q :: cs'' =>
                if chr q "?" then
                  match cs'' with
                  | k :: cs3 =>
                      if chr k ":" then
                        match disjunction fuel' cs3 g with
                        | Parsed (r, cs4, g') =>
                            match cs4 with
                            | p :: cs5 =>
                                if chr p ")" then with_quantifier (quantifier r cs5) g'
                                else SyntaxError
                            | [] => SyntaxError
                            end
                        | e => e
                        end
                      else Unmodelled
                  | [] => SyntaxError
                  end
                else
                  match disjunction fuel' cs' (S g) with
                  | Parsed (r, cs4, g') =>
                      match cs4 with
                      | p :: cs5 =>
                          if chr p ")" then with_quantifier (quantifier (Group g r) cs5) g'
                          else SyntaxError
                      | [] => SyntaxError
                      end
                  | e => e
                  end
            | [] => SyntaxError
            end
          else with_quantifier (quantifier (Char c) cs') g
      end
  end.

(** The whole source: a disjunction up to the end; a closing parenthesis
    that is left over has no opening one. *)
Definition read_pattern (src : string) : outcome regex :=
  let cs := chars src in
  match disjunction (4 * S (List.length cs)) cs 1 with
  | Parsed (r, [], _) => Parsed r
  | Parsed (_, _ :: _, _) => SyntaxError
  | SyntaxError => SyntaxError
  | Unmodelled => Unmodelled
  end.

End RegexReader.

(** ** The parser's data *)

(** A [RegExp] object, by what the parser asks of it: [exec] from the
    start of a string, and the [g] flag. *)
Record RegExp : Type := {
  re_exec : string -> option Regex.MatchArray;
  re_global : bool
}.

(** A pattern literal of the source text. *)
Definition literal (src : string) : Regex.regex :=
  match RegexReader.read_pattern src with
  | RegexReader.Parsed r => r
  | _ => Regex.Empty
  end.

Definition regexp_of (icase global : bool) (r : Regex.regex) : RegExp :=
  {| re_exec := Regex.exec icase r; re_global := global |}.

Record QualitySpecMetadata : Type := {
  version : option string;
  author : option string;
  description : option string
}.

Record QualitySpec : Type := {
  content : string;
  spec_metadata : option QualitySpecMetadata
}.

(** A number of the host, by the value it stands for: every finite
    double is a rational, and comparing two doubles is comparing the
    rationals they stand for. *)
Inductive number : Type :=
| NaN
| Rat (q : Q)
| Infinity (negative : bool).

(** [number | string] *)
Inductive NumberOrString : Type :=
| NumberValue (x : number)
| StringValue (s : string).

(** A whole number as a threshold. *)
Definition whole (n : N) : NumberOrString := NumberValue (Rat (inject_Z (Z.of_N n))).

Record Metric : Type := {
  name : string;
  operator : string;
  value : NumberOrString
}.

Inductive ConditionType : Type := TPattern | TAst | TMetric | TCustom.

Inductive PatternSource : Type :=
| PString (s : string)
| PRegExp (r : RegExp).

Record RuleCondition : Type := {
  ctype : ConditionType;
  pattern : option PatternSource;
  astQuery : option string;
  metric : option Metric;
  custom : option (string -> string -> bool)
}.

Record RuleAction : Type := {
  atype : string;
  a_message : string;
  a_suggestion : option string;
  autoFix : option string
}.

Record RuleMetadata : Type := {
  originalText : string;
  confidence : Q
}.

(** [condition] and [action] are optional here although every builder sets
    them: the validator tests for their absence. The severity is the string
    the rule carries at run time. *)
Record ParsedRule : Type := {
  id : string;
  condition : option RuleCondition;
  action : option RuleAction;
  severity : string;
  message : string;
  suggestion : option string;
  metadata : RuleMetadata
}.

Record ParseError : Type := {
  e_line : nat;
  e_column : nat;
  e_message : string;
  e_originalText : string;
  e_suggestion : option string
}.

Record ParseMetadata : Type := {
  totalRules : nat;
  successfullyParsed : nat;
  p_confidence : Q
}.

Record SpecParseResult : Type := {
  rules : list ParsedRule;
  errors : list ParseError;
  warnings : list string;
  p_metadata : ParseMetadata
}.

Record RuleStatement : Type := {
  text : string;
  lineNumber : nat
}.

Record RulePattern : Type := {
  rp_pattern : RegExp;
  rp_confidence : Q;
  parser : Regex.MatchArray -> RuleStatement -> nat -> result ParsedRule
}.

Record RuleMatch : Type := {
  m_line : nat;
  m_column : nat;
  m_text : string;
  m_context : string
}.

Record RuleViolation : Type := {
  v_id : string;
  v_severity : string;
  v_message : string;
  v_line : nat;
  v_column : nat;
  v_rule : string;
  v_suggestion : option string
}.

Record AnalysisRequest : Type := {
  filePath : string;
  req_content : string;
  language : string;
  userId : string;
  standards : option (list string);
  context_teamId : option string
}.

(** ** State and exceptions

    A computation over a state [S] that can throw; the state reached when
    it throws is kept, as a mutated object is. *)

Definition M (S A : Type) : Type := S -> result A * S.

Definition ret {S A} (a : A) : M S A := fun s => (Ok a, s).

Definition throw {S A} (msg : string) : M S A := fun s => (Throw msg, s).

Definition bind {S A B} (m : M S A) (f : A -> M S B) : M S B :=
  fun s =>
    match m s with
    | (Ok a, s') => f a s'
    | (Throw msg, s') => (Throw msg, s')
    end.

Definition try_catch {S A} (m : M S A) (handler : string -> M S A) : M S A :=
  fun s =>
    match m s with
    | (Ok a, s') => (Ok a, s')
    | (Throw msg, s') => handler msg s'
    end.

Definition of_result {S A} (r : result A) : M S A := fun s => (r, s).

Notation "'let!' x ':=' m 'in' k" := (bind m (fun x => k))
  (at level 10, x name, m at level 100, k at level 200, only parsing).

(** [for (const x of xs) body(x)] *)
Fixpoint for_each {S A} (xs : list A) (body : A -> M S unit) : M S unit :=
  match xs with
  | [] => ret tt
  | x :: xs' => let! _ := body x in for_each xs' body
  end.

(** The same for code that only throws. *)
Definition rbind {A B} (r : result A) (f : A -> result B) : result B :=
  match r with
  | Ok a => f a
  | Throw msg => Throw msg
  end.

Notation "'let?' x ':=' r 'in' k" := (rbind r (fun x => k))
  (at level 10, x name, r at level 100, k at level 200, only parsing).

(** [match[n]] where the code goes on to call a method on it: an undefined
    capture makes that call throw. *)
Definition grp (m : Regex.MatchArray) (n : nat) : result string :=
  match Regex.m_group m n with
  | Some s => Ok s
  | None => Throw "TypeError: cannot read properties of undefined"
  end.

Definition Qltb (a b : Q) : bool := negb (Qle_bool b a).

(** [Math.round] *)
Definition Math_round (x : Q) : Z := Qfloor (x + (1 # 2))%Q.

(** ** SpecDrivenParser *)

(** The pattern literals of the class, read from their source text. *)
Definition when_then_re : Regex.regex :=
  Eval vm_compute in literal "WHEN\s+(.+?)\s+THEN\s+(.+?)(?:\s+SHALL\s+(.+?))?$".
Definition if_then_re : Regex.regex :=
  Eval vm_compute in literal "IF\s+(.+?)\s+THEN\s+(.+?)(?:\s+SHALL\s+(.+?))?$".
Definition function_rule_re : Regex.regex :=
  Eval vm_compute in literal "(function|method)\s+(.+?)\s+(should|must|shall)\s+(.+)".
Definition naming_rule_re : Regex.regex :=
  Eval vm_compute in
    literal "(variable|constant|class|interface)\s+(.+?)\s+(should|must|shall)\s+(.+)".
Definition quality_rule_re : Regex.regex :=
  Eval vm_compute in literal "code\s+(should|must|shall)\s+(.+)".
Definition metric_re : Regex.regex :=
  Eval vm_compute in literal "(.*?)\s*(>|<|>=|<=|==|!=)\s*(\d+)".
Definition console_log_re : Regex.regex :=
  Eval vm_compute in literal "console\.log".
Definition var_declaration_re : Regex.regex :=
  Eval vm_compute in literal "\bvar\s+\w+".
Definition more_than_re : Regex.regex :=
  Eval vm_compute in literal "more than (\d+)".
Definition contains_re : Regex.regex :=
  Eval vm_compute in literal "(.*?)(contains|includes|has)\s+".
Definition metachar_re : Regex.regex :=
  Eval vm_compute in literal "[.*+?^${}()|[\]\\]".
Definition function_decl_re : Regex.regex :=
  Eval vm_compute in literal "function\s+\w+".

(** [s.replace(/[.*+?^${}()|[\]\\]/g, '\\$&')] *)
Definition escapeRegExp (s : string) : string :=
  Regex.replace_all false metachar_re (fun hit => String "\" hit) s.

Definition keywordMappings : gmap string string :=
  list_to_map
    [ ("must", "error"); ("shall", "error"); ("should", "warning"); ("may", "info");
      ("critical", "critical"); ("error", "error"); ("warning", "warning");
      ("info", "info");
      ("warn", "warning"); ("flag", "violation"); ("suggest", "suggestion");
      ("block", "violation"); ("allow", "suggestion") ].

Definition mapSeverity (severityText : string) : string :=
  let text := JsString.toLowerCase severityText in
  match keywordMappings !! text with
  | Some v => if JsString.truthy v then v else "warning"
  | None => "warning"
  end.

Definition generateSuggestion (originalText : string) : string :=
  "Try using patterns like " +:+ JsString.dquote +:+ "WHEN [condition] THEN [action]"
  +:+ JsString.dquote +:+ " or " +:+ JsString.dquote +:+ "IF [condition] THEN [action]"
  +:+ JsString.dquote +:+ ". Example: " +:+ JsString.dquote
  +:+ "WHEN function has more than 20 lines THEN warn about complexity" +:+ JsString.dquote.

Definition pattern_condition (p : PatternSource) : RuleCondition :=
  {| ctype := TPattern; pattern := Some p; astQuery := None; metric := None; custom := None |}.

Definition metric_condition (m : Metric) : RuleCondition :=
  {| ctype := TMetric; pattern := None; astQuery := None; metric := Some m; custom := None |}.

Definition custom_condition (f : string -> string -> bool) : RuleCondition :=
  {| ctype := TCustom; pattern := None; astQuery := None; metric := None; custom := Some f |}.

Definition parseAction (actionText : string) : RuleAction :=
  let text := JsString.trim (JsString.toLowerCase actionText) in
  if JsString.includes text "warn" || JsString.includes text "warning" then
    {| atype := "warning"; a_message := actionText;
       a_suggestion := Some ("Consider addressing: " +:+ actionText); autoFix := None |}
  else if JsString.includes text "suggest" || JsString.includes text "recommend" then
    {| atype := "suggestion"; a_message := actionText;
       a_suggestion := Some actionText; autoFix := None |}
  else
    {| atype := "violation"; a_message := actionText;
       a_suggestion := Some ("Fix: " +:+ actionText); autoFix := None |}.

Fixpoint extractRuleStatements_from (i : nat) (lines : list string) : list RuleStatement :=
  match lines with
  | [] => []
  | l :: lines' =>
      let line := JsString.trim l in
      if negb (JsString.truthy line) || JsString.startsWith line "#"
         || JsString.startsWith line "//"
      then extractRuleStatements_from (S i) lines'
      else {| text := line; lineNumber := i + 1 |} :: extractRuleStatements_from (S i) lines'
  end.

Definition extractRuleStatements (content : string) : list RuleStatement :=
  extractRuleStatements_from 0 (JsString.split_lines content).

Definition parseGenericRule (statement : RuleStatement) (index : nat) : option ParsedRule :=
  let lowered := JsString.toLowerCase (text statement) in
  let severity :=
    if JsString.includes lowered "must" || JsString.includes lowered "shall"
       || JsString.includes lowered "critical" then "error"
    else if JsString.includes lowered "should" || JsString.includes lowered "warning"
    then "warning"
    else "info" in
  Some {| id := "generic_" +:+ JsString.of_nat index;
          condition := Some (custom_condition (fun _ _ => false));
          action := Some {| atype := "suggestion"; a_message := text statement;
                            a_suggestion := Some "Review this quality requirement";
                            autoFix := None |};
          severity := severity;
          message := text statement;
          suggestion := None;
          metadata := {| originalText := text statement; confidence := 3 # 10 |} |}.

Definition calculateMetric (content metricName : string) : nat :=
  let n := JsString.toLowerCase metricName in
  if String.eqb n "lines" || String.eqb n "line count"
  then List.length (JsString.split_lines content)
  else if String.eqb n "characters" || String.eqb n "character count"
  then JsString.length content
  else if String.eqb n "functions"
  then List.length (Regex.match_all false function_decl_re content)
  else 0.

(** [<], [===] and [<=] on numbers: a comparison with [NaN] is false. *)
Definition number_lt (a b : number) : bool :=
  match a, b with
  | Rat x, Rat y => Qltb x y
  | Infinity true, Rat _ | Infinity true, Infinity false | Rat _, Infinity false => true
  | _, _ => false
  end.

Definition number_eq (a b : number) : bool :=
  match a, b with
  | Rat x, Rat y => Qeq_bool x y
  | Infinity s, Infinity s' => Bool.eqb s s'
  | _, _ => false
  end.

Definition number_le (a b : number) : bool := number_lt a b || number_eq a b.

(** The longest run of decimal digits at the front, and what follows it. *)
Fixpoint span_digits (l : list ascii) : list ascii * list ascii :=
  match l with
  | c :: l' =>
      if JsString.is_digit c
      then let '(digits, rest) := span_digits l' in (c :: digits, rest)
      else ([], l)
  | [] => ([], [])
  end.

Definition digits_value (digits : list ascii) : N :=
  fold_left (fun acc c => (10 * acc + JsString.digit_value c)%N) digits 0%N.

(** An optional sign at the front: whether it is a minus, and what follows. *)
Definition read_sign (l : list ascii) : bool * list ascii :=
  match l with
  | c :: l' =>
      if Ascii.eqb c "-" then (true, l')
      else if Ascii.eqb c "+" then (false, l')
      else (false, l)
  | [] => (false, l)
  end.

(** [parseFloat(s)]: leading white space, a sign, then [Infinity] or the
    longest decimal literal (digits, a fraction, an exponent). The value is
    the one the literal denotes; the host rounds it to the nearest double. *)
Definition parseFloat (s : string) : number :=
  let '(negative, l) := read_sign (JsString.drop_spaces (JsString.chars s)) in
  if JsString.prefix_chars (JsString.chars "Infinity") l then Infinity negative
  else
    let '(integer, l) := span_digits l in
    let '(fraction, l) :=
      match l with
      | c :: l' => if Ascii.eqb c "." then span_digits l' else ([], l)
      | [] => ([], l)
      end in
    match integer ++ fraction with
    | [] => NaN
    | mantissa =>
        let exponent :=
          match l with
          | c :: l' =>
              if Ascii.eqb c "e" || Ascii.eqb c "E" then
                let '(minus, l'') := read_sign l' in
                match fst (span_digits l'') with
                | [] => 0%Z
                | digits =>
                    if minus then (- Z.of_N (digits_value digits))%Z
                    else Z.of_N (digits_value digits)
                end
              else 0%Z
          | [] => 0%Z
          end in
        let q := (inject_Z (Z.of_N (digits_value mantissa))
                  * Qpower 10 (exponent - Z.of_nat (List.length fraction)))%Q in
        Rat (if negative then (- q)%Q else q)
    end.

Definition compareMetric (value : nat) (operator : string) (threshold : NumberOrString)
    : bool :=
  let v := Rat (inject_Z (Z.of_nat value)) in
  let numThreshold :=
    match threshold with
    | StringValue s => parseFloat s
    | NumberValue x => x
    end in
  if String.eqb operator ">" then number_lt numThreshold v
  else if String.eqb operator "<" then number_lt v numThreshold
  else if String.eqb operator ">=" then number_le numThreshold v
  else if String.eqb operator "<=" then number_le v numThreshold
  else if String.eqb operator "==" then number_eq v numThreshold
  else if String.eqb operator "!=" then negb (number_eq v numThreshold)
  else false.

Definition calculateConfidence (rules : list ParsedRule) (errors : list ParseError)
    (totalStatements : nat) : Q :=
  if (totalStatements =? 0)%nat then 0%Q
  else
    let successRate :=
      (inject_Z (Z.of_nat totalStatements - Z.of_nat (List.length errors))
       / inject_Z (Z.of_nat totalStatements))%Q in
    let avgRuleConfidence :=
      if (0 <? List.length rules)%nat
      then (fold_left (fun sum rule => sum + confidence (metadata rule)) rules 0
            / inject_Z (Z.of_nat (List.length rules)))%Q
      else 0%Q in
    ((successRate + avgRuleConfidence) / 2)%Q.

(** One turn of the validator's loop over the rules. *)
Definition validate_step (st : gmap string nat * list string * list ParseError)
    (rule : ParsedRule) : gmap string nat * list string * list ParseError :=
  let '(ruleIds, warnings, errors) := st in
  let count := default 0 (ruleIds !! id rule) in
  let ruleIds := <[id rule := count + 1]> ruleIds in
  let warnings :=
    if (0 <? count)%nat then warnings ++ ["Duplicate rule ID found: " +:+ id rule]
    else warnings in
  let errors :=
    match condition rule, action rule with
    | Some _, Some _ => errors
    | _, _ =>
        errors ++ [ {| e_line := 0; e_column := 0;
                       e_message := "Incomplete rule: " +:+ id rule;
                       e_originalText := originalText (metadata rule);
                       e_suggestion := Some "Ensure rule has both condition and action" |} ]
    end in
  let warnings :=
    if Qltb (confidence (metadata rule)) (7 # 10)
    then warnings ++ [ "Low confidence rule: " +:+ id rule +:+ " ("
                       +:+ JsString.of_Z (Math_round (confidence (metadata rule) * 100)%Q)
                       +:+ "%)" ]
    else warnings in
  (ruleIds, warnings, errors).

Definition validateRules (rules : list ParsedRule) : list string * list ParseError :=
  let '(_, warnings, errors) := fold_left validate_step rules (∅, [], []) in
  (warnings, errors).

Section SpecDrivenParser.

(** [new RegExp(source, flags)] of the host, on a source built at run
    time: the object, or the [SyntaxError] it throws. *)
Variable RegExp_new : string -> string -> result RegExp.

Definition parseCondition (conditionText : string) : result RuleCondition :=
  let text := JsString.trim (JsString.toLowerCase conditionText) in
  match Regex.exec false metric_re text with
  | Some metricMatch =>
      let? n := grp metricMatch 1 in
      let? op := grp metricMatch 2 in
      let? v := grp metricMatch 3 in
      Ok (metric_condition
            {| name := JsString.trim n; operator := op;
               value := whole (JsString.parseInt_digits v) |})
  | None =>
      if JsString.includes text "console.log" then
        Ok (pattern_condition (PRegExp (regexp_of true true console_log_re)))
      else if JsString.includes text "var declaration" || JsString.includes text "uses var"
      then Ok (pattern_condition (PRegExp (regexp_of true true var_declaration_re)))
      else
        match (if JsString.includes text "function" && JsString.includes text "more than"
               then Regex.exec false more_than_re text else None) with
        | Some numberMatch =>
            let? v := grp numberMatch 1 in
            Ok (metric_condition
                  {| name := "function lines"; operator := ">";
                     value := whole (JsString.parseInt_digits v) |})
        | None =>
            if JsString.includes text "contains" || JsString.includes text "includes"
               || JsString.includes text "has"
            then
              let pattern := Regex.remove_first false contains_re text in
              let? re := RegExp_new (escapeRegExp pattern) "gi" in
              Ok (pattern_condition (PRegExp re))
            else
              let? re := RegExp_new (escapeRegExp text) "gi" in
              Ok (pattern_condition (PRegExp re))
        end
  end.

(** [match[3] ? this.mapSeverity(match[3]) : 'warning'] *)
Definition clause_severity (m : Regex.MatchArray) : string :=
  match Regex.m_group m 3 with
  | Some clause => if JsString.truthy clause then mapSeverity clause else "warning"
  | None => "warning"
  end.

Definition parseWhenThenRule (m : Regex.MatchArray) (statement : RuleStatement)
    (index : nat) : result ParsedRule :=
  let? g1 := grp m 1 in
  let condition := JsString.trim g1 in
  let? g2 := grp m 2 in
  let action := JsString.trim g2 in
  let severity := clause_severity m in
  let? c := parseCondition condition in
  Ok {| id := "when_then_" +:+ JsString.of_nat index;
        condition := Some c;
        action := Some (parseAction action);
        severity := severity;
        message := condition +:+ " - " +:+ action;
        suggestion := None;
        metadata := {| originalText := text statement; confidence := 9 # 10 |} |}.

Definition parseIfThenRule (m : Regex.MatchArray) (statement : RuleStatement)
    (index : nat) : result ParsedRule :=
  let? g1 := grp m 1 in
  let condition := JsString.trim g1 in
  let? g2 := grp m 2 in
  let action := JsString.trim g2 in
  let severity := clause_severity m in
  let? c := parseCondition condition in
  Ok {| id := "if_then_" +:+ JsString.of_nat index;
        condition := Some c;
        action := Some (parseAction action);
        severity := severity;
        message := condition +:+ " - " +:+ action;
        suggestion := None;
        metadata := {| originalText := text statement; confidence := 85 # 100 |} |}.

Definition parseFunctionRule (m : Regex.MatchArray) (statement : RuleStatement)
    (index : nat) : result ParsedRule :=
  let? g2 := grp m 2 in
  let target := JsString.trim g2 in
  let? g3 := grp m 3 in
  let severity := mapSeverity g3 in
  let? g4 := grp m 4 in
  let requirement := JsString.trim g4 in
  let? re := RegExp_new ("function\s+\w*" +:+ target +:+ "\w*") "i" in
  Ok {| id := "function_" +:+ JsString.of_nat index;
        condition := Some (pattern_condition (PRegExp re));
        action := Some {| atype := "violation";
                          a_message := "Function " +:+ target +:+ " " +:+ requirement;
                          a_suggestion :=
                            Some ("Ensure function " +:+ target
                                  +:+ " meets requirement: " +:+ requirement);
                          autoFix := None |};
        severity := severity;
        message := "Function " +:+ target +:+ " " +:+ requirement;
        suggestion := None;
        metadata := {| originalText := text statement; confidence := 8 # 10 |} |}.

Definition parseNamingRule (m : Regex.MatchArray) (statement : RuleStatement)
    (index : nat) : result ParsedRule :=
  let? g1 := grp m 1 in
  let elementType := JsString.trim g1 in
  let? g2 := grp m 2 in
  let target := JsString.trim g2 in
  let? g3 := grp m 3 in
  let severity := mapSeverity g3 in
  let? g4 := grp m 4 in
  let requirement := JsString.trim g4 in
  let? re := RegExp_new ("(" +:+ elementType +:+ ")\s+\w*" +:+ target +:+ "\w*") "i" in
  Ok {| id := "naming_" +:+ JsString.of_nat index;
        condition := Some (pattern_condition (PRegExp re));
        action := Some {| atype := "violation";
                          a_message := elementType +:+ " " +:+ target +:+ " " +:+ requirement;
                          a_suggestion :=
                            Some ("Ensure " +:+ elementType
                                  +:+ " naming follows requirement: " +:+ requirement);
                          autoFix := None |};
        severity := severity;
        message := elementType +:+ " " +:+ target +:+ " " +:+ requirement;
        suggestion := None;
        metadata := {| originalText := text statement; confidence := 75 # 100 |} |}.

Definition parseQualityRule (m : Regex.MatchArray) (statement : RuleStatement)
    (index : nat) : result ParsedRule :=
  let? g1 := grp m 1 in
  let severity := mapSeverity g1 in
  let? g2 := grp m 2 in
  let requirement := JsString.trim g2 in
  Ok {| id := "quality_" +:+ JsString.of_nat index;
        condition := Some (custom_condition (fun _ _ => true));
        action := Some {| atype := "suggestion";
                          a_message := "Code " +:+ requirement;
                          a_suggestion := Some requirement;
                          autoFix := None |};
        severity := severity;
        message := "Code " +:+ requirement;
        suggestion := None;
        metadata := {| originalText := text statement; confidence := 7 # 10 |} |}.

(** The templates, in the order the map was filled: that is the order its
    iteration visits them. *)
Definition rulePatterns : list (string * RulePattern) :=
  [ ("when_then",
     {| rp_pattern := regexp_of true false when_then_re;
        rp_confidence := 9 # 10; parser := parseWhenThenRule |});
    ("if_then",
     {| rp_pattern := regexp_of true false if_then_re;
        rp_confidence := 85 # 100; parser := parseIfThenRule |});
    ("function_rule",
     {| rp_pattern := regexp_of true false function_rule_re;
        rp_confidence := 8 # 10; parser := parseFunctionRule |});
    ("naming_rule",
     {| rp_pattern := regexp_of true false naming_rule_re;
        rp_confidence := 75 # 100; parser := parseNamingRule |});
    ("quality_rule",
     {| rp_pattern := regexp_of true false quality_rule_re;
        rp_confidence := 7 # 10; parser := parseQualityRule |}) ].

(** [rule.metadata.confidence = pattern.confidence] *)
Definition set_confidence (rule : ParsedRule) (c : Q) : ParsedRule :=
  {| id := id rule; condition := condition rule; action := action rule;
     severity := severity rule; message := message rule; suggestion := suggestion rule;
     metadata := {| originalText := originalText (metadata rule); confidence := c |} |}.

(** The loop over the templates: a template that does not match, or whose
    builder throws, hands over to the next one. The name of the template
    that built the rule is returned with it. *)
Fixpoint try_patterns (patterns : list (string * RulePattern))
    (statement : RuleStatement) (index : nat) : option (string * ParsedRule) :=
  match patterns with
  | [] => None
  | (patternName, p) :: patterns' =>
      match re_exec (rp_pattern p) (text statement) with
      | Some m =>
          match parser p m statement index with
          | Ok rule => Some (patternName, set_confidence rule (rp_confidence p))
          | Throw _ => try_patterns patterns' statement index
          end
      | None => try_patterns patterns' statement index
      end
  end.

Definition parseRuleStatement (statement : RuleStatement) (index : nat)
    : result (option ParsedRule) :=
  match try_patterns rulePatterns statement index with
  | Some (_, rule) => Ok (Some rule)
  | None => Ok (parseGenericRule statement index)
  end.

(** The loop over the statements, with the two arrays it fills. *)
Fixpoint parse_statements (statements : list RuleStatement) (i : nat)
    (rules : list ParsedRule) (errors : list ParseError)
    : list ParsedRule * list ParseError :=
  match statements with
  | [] => (rules, errors)
  | statement :: statements' =>
      match parseRuleStatement statement (i + 1) with
      | Ok (Some parsedRule) => parse_statements statements' (S i) (rules ++ [parsedRule]) errors
      | Ok None => parse_statements statements' (S i) rules errors
      | Throw msg =>
          parse_statements statements' (S i) rules
            (errors ++ [ {| e_line := i + 1; e_column := 1; e_message := msg;
                            e_originalText := text statement;
                            e_suggestion := Some (generateSuggestion (text statement)) |} ])
      end
  end.

(** The rules built for a text, before the confidence filter. *)
Definition constructed_rules (content : string) : list ParsedRule :=
  fst (parse_statements (extractRuleStatements content) 0 [] []).

(** The outer [try] re-throws what its body throws; every call in the body
    returns, so the result is always built. *)
Definition parseQualitySpec (spec : QualitySpec) : result SpecParseResult :=
  let statements := extractRuleStatements (content spec) in
  let '(rules, errors) := parse_statements statements 0 [] [] in
  let '(vwarnings, verrors) := validateRules rules in
  let warnings := [] ++ vwarnings in
  let errors := errors ++ verrors in
  let overall := calculateConfidence rules errors (List.length statements) in
  Ok {| rules := filter (fun rule => Qltb (1 # 2) (confidence (metadata rule)) = true) rules;
        errors := errors;
        warnings := warnings;
        p_metadata := {| totalRules := List.length statements;
                         successfullyParsed := List.length rules;
                         p_confidence := overall |} |}.

End SpecDrivenParser.

(** ** Linking and execution *)

Section Execution.

Variable RegExp_new : string -> string -> result RegExp.

(** The host as the action executor sees it: [H] is the state of the clock
    and of the random source, and [stamp] reads both and renders
    [${Date.now()}_${Math.random().toString(36).substr(2, 5)}]. *)
Variable H : Type.
Variable stamp : H -> string * H.

Record ExecutableRule : Type := {
  x_id : string;
  matcher : string -> string -> M H (list RuleMatch);
  x_action : RuleMatch -> M H RuleViolation;
  originalRule : option ParsedRule
}.

(** [line.match(regex)] read the way [findMatches] reads it: the text of
    the first match, and its index, which a global pattern does not give. *)
Definition line_match (regex : RegExp) (line : string) : option (nat * string) :=
  match re_exec regex line with
  | Some m => Some (if re_global regex then 0 else Regex.m_index m, Regex.m_text m)
  | None => None
  end.

Fixpoint scan_lines (regex : RegExp) (lines : list string) (index : nat) : list RuleMatch :=
  match lines with
  | [] => []
  | line :: lines' =>
      match line_match regex line with
      | Some (col, hit) =>
          {| m_line := index + 1; m_column := col; m_text := hit; m_context := line |}
          :: scan_lines regex lines' (S index)
      | None => scan_lines regex lines' (S index)
      end
  end.

Definition pattern_truthy (p : PatternSource) : bool :=
  match p with
  | PString s => JsString.truthy s
  | PRegExp _ => true
  end.

Definition findMatches (condition : option RuleCondition) (content language : string)
    : result (list RuleMatch) :=
  match condition with
  | None => Throw "TypeError: cannot read properties of undefined"
  | Some condition =>
      match ctype condition with
      | TPattern =>
          match pattern condition with
          | Some p =>
              if pattern_truthy p then
                let? regex :=
                  match p with
                  | PRegExp r => Ok r
                  | PString s => RegExp_new s "gi"
                  end in
                Ok (scan_lines regex (JsString.split_lines content) 0)
              else Ok []
          | None => Ok []
          end
      | TMetric =>
          match metric condition with
          | Some m =>
              let measured := calculateMetric content (name m) in
              if compareMetric measured (operator m) (value m)
              then Ok [ {| m_line := 1; m_column := 1;
                           m_text := name m +:+ ": " +:+ JsString.of_nat measured;
                           m_context := "File-level metric" |} ]
              else Ok []
          | None => Ok []
          end
      | TCustom =>
          match custom condition with
          | Some f =>
              if f content language
              then Ok [ {| m_line := 1; m_column := 1;
                           m_text := "Custom condition matched";
                           m_context := "File-level check" |} ]
              else Ok []
          | None => Ok []
          end
      | TAst => Ok []
      end
  end.

Definition createMatcher (condition : option RuleCondition)
    : string -> string -> M H (list RuleMatch) :=
  fun content language => of_result (findMatches condition content language).

Definition createAction (action : option RuleAction) (severity message : string)
    : RuleMatch -> M H RuleViolation :=
  fun m h =>
    let '(tag, h') := stamp h in
    match action with
    | None => (Throw "TypeError: cannot read properties of undefined", h')
    | Some action =>
        (Ok {| v_id := "spec_rule_" +:+ tag;
               v_severity := severity;
               v_message := if JsString.truthy (a_message action)
                            then a_message action else message;
               v_line := m_line m;
               v_column := m_column m;
               v_rule := "spec-driven-rule";
               v_suggestion := a_suggestion action |}, h')
    end.

Definition convertToExecutableRules (parsedRules : list ParsedRule) : list ExecutableRule :=
  map (fun rule =>
         {| x_id := id rule;
            matcher := createMatcher (condition rule);
            x_action := createAction (action rule) (severity rule) (message rule);
            originalRule := Some rule |})
      parsedRules.

(** *** AnalysisService *)

Record AnalysisService : Type := {
  customRules : gmap string (list ExecutableRule)
}.

Definition loadQualityStandards (svc : AnalysisService) (teamId : string)
    (spec : QualitySpec) : result AnalysisService :=
  match parseQualitySpec RegExp_new spec with
  | Ok parseResult =>
      let executableRules := convertToExecutableRules (rules parseResult) in
      Ok {| customRules := <[teamId := executableRules]> (customRules svc) |}
  | Throw msg =>
      Throw ("Failed to load quality standards for team " +:+ teamId +:+ ": " +:+ msg)
  end.

(** The engine's state: the host and the [violations] array it pushes to. *)
Definition lift {A} (m : M H A) : M (H * list RuleViolation) A :=
  fun s =>
    let '(r, h') := m (fst s) in
    (r, (h', snd s)).

Definition push (v : RuleViolation) : M (H * list RuleViolation) unit :=
  fun s => (Ok tt, (fst s, snd s ++ [v])).

(** The loop over one collection of rules; what a rule throws is caught
    (and reported on the console, which is not represented). *)
Definition apply_rules (rules : list ExecutableRule) (request : AnalysisRequest)
    : M (H * list RuleViolation) unit :=
  for_each rules (fun rule =>
    try_catch
      (let! matches := lift (matcher rule (req_content request) (language request)) in
       for_each matches (fun m =>
         let! violation := lift (x_action rule m) in
         push violation))
      (fun _ => ret tt)).

Definition applySpecDrivenRules (svc : AnalysisService) (request : AnalysisRequest)
    : M H (list RuleViolation) :=
  fun h =>
    let body : M (H * list RuleViolation) unit :=
      let! _ :=
        match context_teamId request with
        | Some teamId =>
            if JsString.truthy teamId then
              match customRules svc !! teamId with
              | Some teamRules => apply_rules teamRules request
              | None => ret tt
              end
            else ret tt
        | None => ret tt
        end in
      match standards request with
      | Some stds =>
          for_each stds (fun standard =>
            match customRules svc !! standard with
            | Some globalRules => apply_rules globalRules request
            | None => ret tt
            end)
      | None => ret tt
      end in
    match body (h, []) with
    | (Ok _, (h', violations)) => (Ok violations, h')
    | (Throw msg, (h', _)) => (Throw msg, h')
    end.

End Execution.

(** ** A host for worked examples

    The pattern reader as the [RegExp] constructor. A source outside the
    reader's fragment is reported as thrown too, under its own message; the
    examples below only build sources the reader parses or rejects. *)
Definition host_RegExp_new (src flags : string) : result RegExp :=
  match RegexReader.read_pattern src with
  | RegexReader.Parsed r =>
      Ok (regexp_of (JsString.includes flags "i") (JsString.includes flags "g") r)
  | RegexReader.SyntaxError => Throw "SyntaxError: Invalid regular expression"
  | RegexReader.Unmodelled => Throw "pattern outside the modelled fragment"
  end.

(** A clock that counts the stamps it has handed out. *)
Definition host_stamp (h : nat) : string * nat :=
  (JsString.of_nat h +:+ "_00000", S h).

Definition spec_of (content : string) : QualitySpec :=
  {| content := content; spec_metadata := None |}.

(** Lines of a text joined by newlines, for writing examples down. *)
Definition unlines (ls : list string) : string :=
  String.concat (String JsString.newline EmptyString) ls.

(** ** The properties, in the design document's words *)

(** The four severities of the interface. *)
Definition is_severity (s : string) : Prop :=
  s = "info" ∨ s = "warning" ∨ s = "error" ∨ s = "critical".

(** The prefix a template's builder gives its identifiers. *)
Definition id_prefix (templateName : string) : string :=
  if String.eqb templateName "function_rule" then "function"
  else if String.eqb templateName "naming_rule" then "naming"
  else if String.eqb templateName "quality_rule" then "quality"
  else templateName.

(** What a rule a template built looks like: its identifier is the given
    prefix and the statement's number, and it has a condition and an
    action. *)
Definition well_built (prefix : string) (index : nat) (rule : ParsedRule) : Prop :=
  id rule = prefix +:+ "_" +:+ JsString.of_nat index
  ∧ is_Some (condition rule) ∧ is_Some (action rule).

(** The confidences the templates stamp. *)
Definition template_confidence (c : Q) : Prop :=
  c = 9 # 10 ∨ c = 85 # 100 ∨ c = 8 # 10 ∨ c = 75 # 100 ∨ c = 7 # 10.

(** No template's pattern finds a match in the statement. *)
Definition matches_no_template (statement : RuleStatement) : bool :=
  forallb
    (fun r => match Regex.exec true r (text statement) with Some _ => false | None => true end)
    [when_then_re; if_then_re; function_rule_re; naming_rule_re; quality_rule_re].

Section Stated.

Variable RegExp_new : string -> string -> result RegExp.

(** The template that builds the rule of a statement, when one does. *)
Definition template_of (statement : RuleStatement) (index : nat) : option string :=
  fst <$> try_patterns (rulePatterns RegExp_new) statement index.

(** How many of the statements, numbered from [i + 1] on, are built by
    template [t]. *)
Fixpoint count_template (t : string) (statements : list RuleStatement) (i : nat) : nat :=
  match statements with
  | [] => 0
  | statement :: statements' =>
      (if decide (template_of statement (i + 1) = Some t) then 1 else 0)
      + count_template t statements' (S i)
  end.

(** The 1-based position of statement number [i] among the statements its
    template [t] builds. *)
Definition template_ordinal (content : string) (i : nat) (t : string) : nat :=
  count_template t (take (S i) (extractRuleStatements content)) 0.

(** Identifiers numbered by one counter per template. *)
Definition ids_count_per_template (content : string) : Prop :=
  ∀ (i : nat) (r : ParsedRule) (statement : RuleStatement) (t : string),
    constructed_rules RegExp_new content !! i = Some r →
    extractRuleStatements content !! i = Some statement →
    template_of statement (i + 1) = Some t →
    id r = t +:+ "_" +:+ JsString.of_nat (template_ordinal content i t).

End Stated.

(** The aggregate confidence as the design document defines it. *)
Definition spec_success_rate (total_statements error_count : nat) : Q :=
  if (total_statements =? 0)%nat then 0%Q
  else (inject_Z (Z.of_nat total_statements - Z.of_nat error_count)
        / inject_Z (Z.of_nat total_statements))%Q.

Definition sum_confidence (rules : list ParsedRule) : Q :=
  fold_right (fun rule acc => (confidence (metadata rule) + acc)%Q) 0%Q rules.

Definition spec_avg_rule_confidence (rules : list ParsedRule) : Q :=
  match rules with
  | [] => 0%Q
  | _ :: _ => (sum_confidence rules / inject_Z (Z.of_nat (List.length rules)))%Q
  end.

Definition spec_overall_confidence (total_statements error_count : nat)
    (rules : list ParsedRule) : Q :=
  ((spec_success_rate total_statements error_count + spec_avg_rule_confidence rules) / 2)%Q.

Section Contributions.

Variable H : Type.

(** What one rule adds to the violation sequence: nothing when its matcher
    throws; otherwise the violations of its matches, in match order, up to
    the first match on which its action throws. *)
Fixpoint violations_until_throw (act : RuleMatch -> M H RuleViolation)
    (matches : list RuleMatch) (h : H) : list RuleViolation * H :=
  match matches with
  | [] => ([], h)
  | m :: matches' =>
      match act m h with
      | (Ok v, h1) =>
          let '(vs, h2) := violations_until_throw act matches' h1 in
          (v :: vs, h2)
      | (Throw _, h1) => ([], h1)
      end
  end.

Definition contribution (rule : ExecutableRule H) (content language : string) (h : H)
    : list RuleViolation * H :=
  match matcher H rule content language h with
  | (Ok matches, h1) => violations_until_throw (x_action H rule) matches h1
  | (Throw _, h1) => ([], h1)
  end.

(** The contributions of a sequence of rules, in registration order. *)
Fixpoint contributions (rules : list (ExecutableRule H)) (content language : string)
    (h : H) : list RuleViolation * H :=
  match rules with
  | [] => ([], h)
  | rule :: rules' =>
      let '(vs, h1) := contribution rule content language h in
      let '(ws, h2) := contributions rules' content language h1 in
      (vs ++ ws, h2)
  end.

(** The rules a request runs: the team's, then those of each standard. *)
Definition selected_rules (svc : AnalysisService H) (request : AnalysisRequest)
    : list (ExecutableRule H) :=
  (match context_teamId request with
   | Some teamId =>
       if JsString.truthy teamId then default [] (customRules H svc !! teamId) else []
   | None => []
   end)
  ++ flat_map (fun standard => default [] (customRules H svc !! standard))
       (default [] (standards request)).

(** A rule throws while it runs from host state [h]: its matcher does, or
    its action does on one of the matches. *)
Definition throws_during_execution (rule : ExecutableRule H) (content language : string)
    (h : H) : Prop :=
  match matcher H rule content language h with
  | (Throw _, _) => True
  | (Ok matches, h1) =>
      List.length (fst (violations_until_throw (x_action H rule) matches h1))
      < List.length matches
  end.

End Contributions.

(** Compilation reports the failure of a builder: whenever a template
    matches a statement and its builder throws, the result's errors hold a
    diagnostic at that statement's line with a suggested correction. *)
Definition diagnoses_builder_failures (RegExp_new : string -> string -> result RegExp)
    (content : string) : Prop :=
  ∀ res i statement patternName p m msg,
    parseQualitySpec RegExp_new (spec_of content) = Ok res →
    extractRuleStatements content !! i = Some statement →
    In (patternName, p) (rulePatterns RegExp_new) →
    re_exec (rp_pattern p) (text statement) = Some m →
    parser p m statement (i + 1) = Throw msg →
    ∃ e, e ∈ errors res ∧ e_line e = lineNumber statement ∧ is_Some (e_suggestion e).

(** The function/method template of the class, and the ones after it. *)
Definition function_rule_pattern (RegExp_new : string -> string -> result RegExp)
    : RulePattern :=
  {| rp_pattern := regexp_of true false function_rule_re;
     rp_confidence := 8 # 10; parser := parseFunctionRule RegExp_new |}.

Definition patterns_after_function_rule (RegExp_new : string -> string -> result RegExp)
    : list (string * RulePattern) :=
  drop 3 (rulePatterns RegExp_new).

(** A requirement on functions whose target is an opening parenthesis. *)
Definition unbalanced_statement : RuleStatement :=
  {| text := "function ( should x"; lineNumber := 1 |}.

(** A WHEN/THEN statement followed by an IF/THEN statement. *)
Definition two_templates_text : string :=
  unlines ["WHEN lines > 100 THEN warn about file size";
           "IF functions > 10 THEN flag for review"].

(** The pattern ends in capturing group [n]: whatever it matches, the
    group is the last thing it goes through. *)
Fixpoint ends_with_group (n : nat) (r : Regex.regex) : bool :=
  match r with
  | Regex.Group m _ => (m =? n)%nat
  | Regex.Seq r1 Regex.Empty => ends_with_group n r1
  | Regex.Seq _ r2 => ends_with_group n r2
  | _ => false
  end.

(** Every state the continuation returns satisfies [P]. *)
Definition returns_in (P : Regex.mstate -> Prop) (k : Regex.cont) : Prop :=
  ∀ y z, k y = Some z → P z.

(** The statement the compiler is exercised with on a SHALL clause. *)
Definition shall_flag_text : string :=
  "WHEN lines > 100 THEN report it SHALL flag".

(** The condition heuristic (d) synthesizes. *)
Definition function_lines_condition (n : N) : RuleCondition :=
  metric_condition {| name := "function lines"; operator := ">"; value := whole n |}.

(** Every phrase that combines [function] with [more than N] gives the
    metric [function lines], and a condition that never matches. *)
Definition combined_phrase_never_matches
    (RegExp_new : string -> string -> result RegExp) (phrase : string) : Prop :=
  let text := JsString.trim (JsString.toLowerCase phrase) in
  JsString.includes text "function" = true →
  is_Some (Regex.exec false more_than_re text) →
  ∀ c, parseCondition RegExp_new phrase = Ok c →
    (∃ n, c = function_lines_condition n)
    ∧ ∀ code language, findMatches RegExp_new (Some c) code language = Ok [].

(** The metric rule of the scenario, and the contents it is run against. *)
Definition lines_rule_text : string := "WHEN lines > 5 THEN warn about file size".

Definition seven_lines : string :=
  unlines ["line 1"; "line 2"; "line 3"; "line 4"; "line 5"; "line 6"; "line 7"].

Definition three_lines : string := unlines ["line 1"; "line 2"; "line 3"].

Definition team_request (teamId code : string) : AnalysisRequest :=
  {| filePath := "test.ts"; req_content := code; language := "typescript";
     userId := "user"; standards := None; context_teamId := Some teamId |}.

(** The rule the scenario's statement compiles to. *)
Definition lines_rule : ParsedRule :=
  {| id := "when_then_1";
     condition := Some (metric_condition {| name := "lines"; operator := ">"; value := whole 5 |});
     action := Some {| atype := "warning"; a_message := "warn about file size";
                       a_suggestion := Some "Consider addressing: warn about file size";
                       autoFix := None |};
     severity := "warning";
     message := "lines > 5 - warn about file size";
     suggestion := None;
     metadata := {| originalText := lines_rule_text; confidence := 9 # 10 |} |}.

(** The engine drops the whole contribution of a rule that throws: for
    every rule among those the request selects that throws while it runs,
    the result is what the rules before it and the rules after it
    contribute. *)
Definition omits_throwing_rule (H : Type) (svc : AnalysisService H)
    (request : AnalysisRequest) (h : H) : Prop :=
  ∀ before rule after,
    selected_rules H svc request = before ++ rule :: after →
    let code := req_content request in
    let lang := language request in
    let h1 := (contributions H before code lang h).2 in
    throws_during_execution H rule code lang h1 →
    let h2 := (contribution H rule code lang h1).2 in
    (applySpecDrivenRules H svc request h).1
    = Ok ((contributions H before code lang h).1 ++ (contributions H after code lang h2).1).

(** A rule whose matcher and action neither throw nor touch the host. *)
Definition pure_rule (H : Type)
    (fg : (string → string → list RuleMatch) * (RuleMatch → RuleViolation))
    : ExecutableRule H :=
  {| x_id := "pure";
     matcher := fun code lang => ret (fg.1 code lang);
     x_action := fun m => ret (fg.2 m);
     originalRule := None |}.

(** A rule that finds two matches and whose action throws on the second. *)
Definition violation_at (m : RuleMatch) : RuleViolation :=
  {| v_id := "v"; v_severity := "warning"; v_message := "found";
     v_line := m_line m; v_column := m_column m; v_rule := "spec-driven-rule";
     v_suggestion := None |}.

Definition match_at_line (n : nat) : RuleMatch :=
  {| m_line := n; m_column := 0; m_text := "x"; m_context := "x" |}.

Definition second_match_throws : ExecutableRule unit :=
  {| x_id := "partial";
     matcher := fun _ _ => ret [match_at_line 1; match_at_line 2];
     x_action := fun m =>
       if (m_line m =? 1)%nat then ret (violation_at m) else throw "action failed";
     originalRule := None |}.

Definition partial_service : AnalysisService unit :=
  {| customRules := {["team" := [second_match_throws]]} |}.

(** The sources of the pattern literals. *)
Definition literal_sources : list string :=
  [ "WHEN\s+(.+?)\s+THEN\s+(.+?)(?:\s+SHALL\s+(.+?))?$";
    "IF\s+(.+?)\s+THEN\s+(.+?)(?:\s+SHALL\s+(.+?))?$";
    "(function|method)\s+(.+?)\s+(should|must|shall)\s+(.+)";
    "(variable|constant|class|interface)\s+(.+?)\s+(should|must|shall)\s+(.+)";
    "code\s+(should|must|shall)\s+(.+)";
    "(.*?)\s*(>|<|>=|<=|==|!=)\s*(\d+)";
    "console\.log"; "\bvar\s+\w+"; "more than (\d+)";
    "(.*?)(contains|includes|has)\s+"; "[.*+?^${}()|[\]\\]"; "function\s+\w+" ].

Definition is_parsed (o : RegexReader.outcome Regex.regex) : bool :=
  match o with RegexReader.Parsed _ => true | _ => false end.

(** What the test suite looks at in a compilation result. *)
Definition summary (r : result SpecParseResult)
    : option (list (string * string) * nat * nat * nat) :=
  match r with
  | Ok res =>
      Some (map (fun rule => (id rule, severity rule)) (rules res),
            List.length (errors res),
            totalRules (p_metadata res), successfullyParsed (p_metadata res))
  | Throw _ => None
  end.

Definition compile_summary (lines : list string) :=
  summary (parseQualitySpec host_RegExp_new (spec_of (unlines lines))).

(** Line and text of the matches the first usable rule of a text finds. *)
Definition first_rule_matches (specLines codeLines : list string)
    : option (list (nat * string)) :=
  match parseQualitySpec host_RegExp_new (spec_of (unlines specLines)) with
  | Ok res =>
      match rules res with
      | rule :: _ =>
          match findMatches host_RegExp_new (condition rule) (unlines codeLines)
                  "typescript" with
          | Ok ms => Some (map (fun m => (m_line m, m_text m)) ms)
          | Throw _ => None
          end
      | [] => None
      end
  | Throw _ => None
  end.

(** Severity and line of the violations a text's rules report on a code,
    loaded and run for one team. *)
Definition run_summary (specLines codeLines : list string)
    : option (list (string * nat)) :=
  match loadQualityStandards host_RegExp_new nat host_stamp {| customRules := ∅ |} "team"
          (spec_of (unlines specLines)) with
  | Ok svc =>
      match (applySpecDrivenRules nat svc (team_request "team" (unlines codeLines)) 0).1 with
      | Ok vs => Some (map (fun v => (v_severity v, v_line v)) vs)
      | Throw _ => None
      end
  | Throw _ => None
  end.

(** State [y] lies ahead of state [x] in the same input. *)
Definition ahead (x y : Regex.mstate) : Prop :=
  (List.length (Regex.rest y) ≤ List.length (Regex.rest x))%nat
  ∧ (Regex.pos y + List.length (Regex.rest y)
     = Regex.pos x + List.length (Regex.rest x))%nat.

(** A matcher only hands its continuation states ahead of its own. *)
Definition looks_ahead (m : Regex.cont → Regex.cont) : Prop :=
  ∀ k1 k2 x, (∀ y, ahead x y → k1 y = k2 y) → m k1 x = m k2 x.

(** ** The validator, rule by rule *)

Definition duplicate_warning (r : ParsedRule) : string :=
  "Duplicate rule ID found: " +:+ id r.

Definition low_confidence_warning (r : ParsedRule) : string :=
  "Low confidence rule: " +:+ id r +:+ " ("
  +:+ JsString.of_Z (Math_round (confidence (metadata r) * 100)%Q) +:+ "%)".

Definition incomplete_error (r : ParsedRule) : ParseError :=
  {| e_line := 0; e_column := 0;
     e_message := "Incomplete rule: " +:+ id r;
     e_originalText := originalText (metadata r);
     e_suggestion := Some "Ensure rule has both condition and action" |}.

Definition is_incomplete (r : ParsedRule) : bool :=
  match condition r, action r with
  | Some _, Some _ => false
  | _, _ => true
  end.

(** The warnings of one rule, given the rules before it. *)
Definition rule_warnings (earlier : list ParsedRule) (r : ParsedRule) : list string :=
  (if decide (id r ∈ map id earlier) then [duplicate_warning r] else [])
  ++ (if Qltb (confidence (metadata r)) (7 # 10) then [low_confidence_warning r] else []).

Fixpoint warnings_from (earlier rules : list ParsedRule) : list string :=
  match rules with
  | [] => []
  | r :: rules' => rule_warnings earlier r ++ warnings_from (earlier ++ [r]) rules'
  end.

(** ** Statements *)

(** The test that keeps a trimmed line as a statement. *)
Definition is_statement_text (line : string) : bool :=
  negb (negb (JsString.truthy line) || JsString.startsWith line "#"
        || JsString.startsWith line "//").

(** ** AnalysisService: validation and the rule store *)

Record SpecValidation : Type := {
  isValid : bool;
  val_errors : list string;
  val_warnings : list string
}.

Section RuleStore.

Variable RegExp_new : string -> string -> result RegExp.
Variable H : Type.

(** [validateQualitySpec]: the [catch] turns what the compiler throws into
    the one error of an invalid verdict. *)
Definition validateQualitySpec (spec : QualitySpec) : SpecValidation :=
  match parseQualitySpec RegExp_new spec with
  | Ok parseResult =>
      {| isValid := (List.length (errors parseResult) =? 0)%nat
                    && Qltb (7 # 10) (p_confidence (p_metadata parseResult))
                    && (0 <? List.length (rules parseResult))%nat;
         val_errors :=
           map (fun e => "Line " +:+ JsString.of_nat (e_line e) +:+ ": " +:+ e_message e)
             (errors parseResult);
         val_warnings := warnings parseResult |}
  | Throw msg => {| isValid := false; val_errors := [msg]; val_warnings := [] |}
  end.

(** [this.customRules.get(identifier) || []] *)
Definition getLoadedRules (svc : AnalysisService H) (identifier : string)
    : list (ExecutableRule H) :=
  default [] (customRules H svc !! identifier).

Definition clearRules (svc : AnalysisService H) (identifier : string) : AnalysisService H :=
  {| customRules := delete identifier (customRules H svc) |}.

End RuleStore.

(** ** What a request asks for *)

(** The identifiers whose rules a request runs: the team's, when it is
    given and not empty, then the standards. *)
Definition requested_identifiers (request : AnalysisRequest) : list string :=
  (match context_teamId request with
   | Some teamId => if JsString.truthy teamId then [teamId] else []
   | None => []
   end) ++ default [] (standards request).

(** A violation built from a match by the action of a linked rule. *)
Definition built_from (r : ParsedRule) (a : RuleAction) (m : RuleMatch)
    (v : RuleViolation) : Prop :=
  (∃ tag, v_id v = "spec_rule_" +:+ tag)
  ∧ v_severity v = severity r
  ∧ v_message v = (if JsString.truthy (a_message a) then a_message a else message r)
  ∧ v_line v = m_line m
  ∧ v_column v = m_column m
  ∧ v_rule v = "spec-driven-rule"
  ∧ v_suggestion v = a_suggestion a.

(** ** AnalysisService: the built-in line rules and the score *)

(** [l.indexOf(p)] on characters; [None] stands for [-1]. *)
Fixpoint indexOf_chars (p l : list ascii) : option nat :=
  if JsString.prefix_chars p l then Some 0
  else match l with
       | [] => None
       | _ :: l' => S <$> indexOf_chars p l'
       end.

(** [s.indexOf(p) + 1] *)
Definition indexOf_plus_1 (s p : string) : nat :=
  match indexOf_chars (JsString.chars p) (JsString.chars s) with
  | Some i => i + 1
  | None => 0
  end.

Definition analyzeJavaScriptLine (line : string) (lineNumber : nat)
    (violations : list RuleViolation) : list RuleViolation :=
  let violations :=
    if JsString.includes line "console.log" then
      violations ++
      [ {| v_id := "console-log-" +:+ JsString.of_nat lineNumber;
           v_severity := "warning";
           v_message := "console.log statement found";
           v_line := lineNumber;
           v_column := indexOf_plus_1 line "console.log";
           v_rule := "no-console";
           v_suggestion := Some "Use proper logging instead of console.log" |} ]
    else violations in
  if JsString.startsWith (JsString.trim line) "var " then
    violations ++
    [ {| v_id := "var-declaration-" +:+ JsString.of_nat lineNumber;
         v_severity := "error";
         v_message := "Use let or const instead of var";
         v_line := lineNumber;
         v_column := indexOf_plus_1 line "var";
         v_rule := "no-var";
         v_suggestion := Some "Replace var with let or const" |} ]
  else violations.

Definition analyzePythonLine (line : string) (lineNumber : nat)
    (violations : list RuleViolation) : list RuleViolation :=
  if JsString.includes line "print(" then
    violations ++
    [ {| v_id := "print-statement-" +:+ JsString.of_nat lineNumber;
         v_severity := "info";
         v_message := "print statement found";
         v_line := lineNumber;
         v_column := indexOf_plus_1 line "print(";
         v_rule := "no-print";
         v_suggestion := Some "Consider using logging instead of print" |} ]
  else violations.

(** The body of the [forEach] of [performBasicAnalysis]. *)
Definition analyzeLine (language line : string) (index : nat)
    (violations : list RuleViolation) : list RuleViolation :=
  let lineNumber := index + 1 in
  let violations :=
    if (120 <? JsString.length line)%nat then
      violations ++
      [ {| v_id := "long-line-" +:+ JsString.of_nat lineNumber;
           v_severity := "warning";
           v_message := "Line exceeds 120 characters ("
                        +:+ JsString.of_nat (JsString.length line) +:+ " characters)";
           v_line := lineNumber;
           v_column := 121;
           v_rule := "max-line-length";
           v_suggestion := Some "Consider breaking this line into multiple lines" |} ]
    else violations in
  let violations :=
    if JsString.includes (JsString.toLowerCase line) "todo" then
      violations ++
      [ {| v_id := "todo-" +:+ JsString.of_nat lineNumber;
           v_severity := "info";
           v_message := "TODO comment found";
           v_line := lineNumber;
           v_column := indexOf_plus_1 (JsString.toLowerCase line) "todo";
           v_rule := "no-todo-comments";
           v_suggestion := Some "Consider creating a proper issue or task" |} ]
    else violations in
  if String.eqb language "typescript" || String.eqb language "javascript"
  then analyzeJavaScriptLine line lineNumber violations
  else if String.eqb language "python"
  then analyzePythonLine line lineNumber violations
  else violations.

Fixpoint analyzeLines (language : string) (lines : list string) (index : nat)
    (violations : list RuleViolation) : list RuleViolation :=
  match lines with
  | [] => violations
  | line :: lines' =>
      analyzeLines language lines' (S index) (analyzeLine language line index violations)
  end.

Definition performBasicAnalysis (content language : string) : list RuleViolation :=
  analyzeLines language (JsString.split_lines content) 0 [].

(** [content.split('\n').filter(line => line.trim().length > 0).length] *)
Definition countLines (content : string) : nat :=
  List.length
    (filter (fun line => (0 <? JsString.length (JsString.trim line))%nat = true)
       (JsString.split_lines content)).

Definition Math_min (a b : Q) : Q := if Qle_bool a b then a else b.
Definition Math_max (a b : Q) : Q := if Qle_bool a b then b else a.

Definition severity_penalty (penalty : Z) (violation : RuleViolation) : Z :=
  if String.eqb (v_severity violation) "critical" then penalty + 10
  else if String.eqb (v_severity violation) "error" then penalty + 5
  else if String.eqb (v_severity violation) "warning" then penalty + 2
  else if String.eqb (v_severity violation) "info" then penalty + 1
  else penalty.

(** [calculateQualityScore] of the service: the content is measured and
    the measure is then left unused. *)
Definition calculateQualityScore (violations : list RuleViolation) (content : string) : Q :=
  let baseScore := 100%Q in
  let linesOfCode := countLines content in
  let violationPenalty := fold_left severity_penalty violations 0%Z in
  let normalizedPenalty := Math_min (inject_Z violationPenalty) (baseScore * (8 # 10)) in
  Math_max 0 (inject_Z (Math_round (baseScore - normalizedPenalty))).

(** [isTypeScriptOrJavaScript] *)
Definition isTypeScriptOrJavaScript (language : string) : bool :=
  existsb (String.eqb (JsString.toLowerCase language))
    ["typescript"; "javascript"; "ts"; "js"; "tsx"; "jsx"].

(** A text of ASCII characters: on such a text the case mapping and the
    white space of this embedding are those of the host. *)
Definition ascii_text (s : string) : Prop :=
  forallb (fun c => (JsString.code c <? 128)%nat) (JsString.chars s) = true.

(** What a violation of the built-in line rules says about its line. *)
Definition basic_violation (language line : string) (lineNumber : nat)
    (v : RuleViolation) : Prop :=
  v_line v = lineNumber
  ∧ (1 ≤ v_column v ≤ JsString.length line)%nat
  ∧ ((v_rule v = "max-line-length" ∧ v_severity v = "warning"
      ∧ v_id v = "long-line-" +:+ JsString.of_nat lineNumber
      ∧ (120 < JsString.length line)%nat ∧ v_column v = 121)
     ∨ (v_rule v = "no-todo-comments" ∧ v_severity v = "info"
        ∧ v_id v = "todo-" +:+ JsString.of_nat lineNumber
        ∧ JsString.includes (JsString.toLowerCase line) "todo" = true)
     ∨ (v_rule v = "no-console" ∧ v_severity v = "warning"
        ∧ v_id v = "console-log-" +:+ JsString.of_nat lineNumber
        ∧ (language = "typescript" ∨ language = "javascript")
        ∧ JsString.includes line "console.log" = true)
     ∨ (v_rule v = "no-var" ∧ v_severity v = "error"
        ∧ v_id v = "var-declaration-" +:+ JsString.of_nat lineNumber
        ∧ (language = "typescript" ∨ language = "javascript")
        ∧ JsString.startsWith (JsString.trim line) "var " = true)
     ∨ (v_rule v = "no-print" ∧ v_severity v = "info"
        ∧ v_id v = "print-statement-" +:+ JsString.of_nat lineNumber
        ∧ language = "python"
        ∧ JsString.includes line "print(" = true)).

(** ** AnalysisService: one analysis *)

Record AnalysisResult : Type := {
  analysisId : string;
  r_filePath : string;
  r_violations : list RuleViolation;
  qualityScore : Q;
  processingTime : Z;
  r_language : string;
  linesOfCode : nat;
  complexity : option Q
}.

Section Analysis.

(** The host: [now] is [Date.now()], [analysis_stamp] renders
    [${Date.now()}_${Math.random().toString(36).substring(2, 11)}]. The
    syntax-tree analyzer is a collaborator of the service: its three
    entry points are taken as they come, each free to throw. *)
Variable H : Type.
Variable now : H -> Z * H.
Variable analysis_stamp : H -> string * H.
Variable CodeAST : Type.
Variable ast_complexity : CodeAST -> Q.
Variable analyzeWithAST : AnalysisRequest -> M H (list RuleViolation).
Variable parseCode : string -> string -> M H CodeAST.
Variable overallQualityScore : list RuleViolation -> CodeAST -> M H Q.

Definition read {A} (f : H -> A * H) : M H A :=
  fun h => let '(a, h') := f h in (Ok a, h').

Definition generateAnalysisId : M H string :=
  let! tag := read analysis_stamp in
  ret ("analysis_" +:+ tag).

Definition analyzeCode (svc : AnalysisService H) (request : AnalysisRequest)
    : M H AnalysisResult :=
  let! startTime := read now in
  try_catch
    (let! outcome :=
       if isTypeScriptOrJavaScript (language request) then
         let! astViolations := analyzeWithAST request in
         let! ast := parseCode (req_content request) (filePath request) in
         let basicViolations :=
           performBasicAnalysis (req_content request) (language request) in
         let! specViolations := applySpecDrivenRules H svc request in
         let violations := astViolations ++ basicViolations ++ specViolations in
         let! score := overallQualityScore violations ast in
         ret (violations, score, Some (ast_complexity ast))
       else
         let basicViolations :=
           performBasicAnalysis (req_content request) (language request) in
         let! specViolations := applySpecDrivenRules H svc request in
         let violations := basicViolations ++ specViolations in
         ret (violations, calculateQualityScore violations (req_content request), None) in
     let '(violations, score, complexity) := outcome in
     let! analysisId := generateAnalysisId in
     let! endTime := read now in
     ret {| analysisId := analysisId;
            r_filePath := filePath request;
            r_violations := violations;
            qualityScore := score;
            processingTime := endTime - startTime;
            r_language := language request;
            linesOfCode := countLines (req_content request);
            complexity := complexity |})
    (fun msg => throw ("Analysis failed: " +:+ msg)).

End Analysis.

(** ** QualitySpecService *)

(** [s.split(sep)] on a one-character separator. *)
Fixpoint split_on_aux (sep : ascii) (cur l : list ascii) : list string :=
  match l with
  | [] => [JsString.of_chars (rev cur)]
  | c :: l' =>
      if Ascii.eqb c sep
      then JsString.of_chars (rev cur) :: split_on_aux sep [] l'
      else split_on_aux sep (c :: cur) l'
  end.

Definition split_on (sep : ascii) (s : string) : list string :=
  split_on_aux sep [] (JsString.chars s).

Definition decimal_digit (c : ascii) : option N :=
  if JsString.is_digit c then Some (N.of_nat (JsString.code c - 48)) else None.

Definition hexadecimal_digit (c : ascii) : option N :=
  let n := JsString.code c in
  if JsString.is_digit c then Some (N.of_nat (n - 48))
  else if (97 <=? n)%nat && (n <=? 102)%nat then Some (N.of_nat (n - 87))
  else if (65 <=? n)%nat && (n <=? 70)%nat then Some (N.of_nat (n - 55))
  else None.

(** The longest run of digits at the front, as a number; [acc] is [None]
    until a digit has been read. *)
Fixpoint read_digits (digit : ascii -> option N) (radix : N) (l : list ascii)
    (acc : option N) : option N :=
  match l with
  | c :: l' =>
      match digit c with
      | Some d => read_digits digit radix l' (Some (radix * default 0 acc + d))%N
      | None => acc
      end
  | [] => acc
  end.

(** [parseInt(s)]: leading white space, a sign, then hexadecimal digits
    after [0x] or [0X] and decimal digits otherwise; [None] is [NaN]. *)
Definition parseInt (s : string) : option Z :=
  let l := JsString.drop_spaces (JsString.chars s) in
  let '(negative, l) :=
    match l with
    | c :: l' =>
        if Ascii.eqb c "-" then (true, l')
        else if Ascii.eqb c "+" then (false, l')
        else (false, l)
    | [] => (false, l)
    end in
  let '(digit, radix, l) :=
    match l with
    | z :: x :: l' =>
        if Ascii.eqb z "0" && (Ascii.eqb x "x" || Ascii.eqb x "X")
        then (hexadecimal_digit, 16%N, l')
        else (decimal_digit, 10%N, l)
    | _ => (decimal_digit, 10%N, l)
    end in
  match read_digits digit radix l None with
  | Some n => Some (if negative then - Z.of_N n else Z.of_N n)%Z
  | None => None
  end.

(** A number in a template literal; [None] is [NaN]. *)
Definition number_text (n : option Z) : string :=
  match n with
  | Some z => JsString.of_Z z
  | None => "NaN"
  end.

Definition incrementVersion (version : string) : string :=
  let parts := split_on "." version in
  match parts with
  | major :: minor :: third :: _ =>
      let patch := fmap (fun n => (n + 1)%Z) (parseInt third) in
      major +:+ "." +:+ minor +:+ "." +:+ number_text patch
  | _ => version
  end.

Record OperationResult : Type := {
  success : bool;
  op_errors : list string;
  op_warnings : list string
}.

Section SpecService.

Variable RegExp_new : string -> string -> result RegExp.
Variable H : Type.
Variable stamp : H -> string * H.

(** The service and the analysis service it was constructed with. *)
Record QualitySpecService : Type := {
  analysisService : AnalysisService H;
  specStorage : gmap string QualitySpec
}.

(** [{ version: m?.version || '1.0.0', ..., ...m }]: a property the caller
    gives overrides the default, also when it is the empty string. *)
Definition created_metadata (identifier : string) (metadata : option QualitySpecMetadata)
    : QualitySpecMetadata :=
  {| version := Some (default "1.0.0" (metadata ≫= version));
     author := Some (default "Unknown" (metadata ≫= author));
     description :=
       Some (default ("Quality specification for " +:+ identifier)
               (metadata ≫= description)) |}.

Definition outcome_of (ok : bool) (validation : SpecValidation) : OperationResult :=
  {| success := ok; op_errors := val_errors validation;
     op_warnings := val_warnings validation |}.

Definition createQualitySpec (identifier content : string)
    (metadata : option QualitySpecMetadata) : M QualitySpecService OperationResult :=
  fun s =>
    let spec := {| content := content;
                   spec_metadata := Some (created_metadata identifier metadata) |} in
    let validation := validateQualitySpec RegExp_new spec in
    if isValid validation then
      let stored := <[identifier := spec]> (specStorage s) in
      match loadQualityStandards RegExp_new H stamp (analysisService s) identifier spec with
      | Ok loaded =>
          (Ok (outcome_of true validation),
           {| analysisService := loaded; specStorage := stored |})
      | Throw msg =>
          (Throw msg, {| analysisService := analysisService s; specStorage := stored |})
      end
    else (Ok (outcome_of false validation), s).

(** [a || b] on a string that may be missing. *)
Definition or_else (a : option string) (b : string) : string :=
  match a with
  | Some v => if JsString.truthy v then v else b
  | None => b
  end.

(** [{ ...existing, ...m, version: incrementVersion(existing?.version || '1.0.0') }] *)
Definition updated_metadata (existing metadata : option QualitySpecMetadata)
    : QualitySpecMetadata :=
  {| version := Some (incrementVersion (or_else (existing ≫= version) "1.0.0"));
     author := match metadata ≫= author with
               | Some a => Some a
               | None => existing ≫= author
               end;
     description := match metadata ≫= description with
                    | Some d => Some d
                    | None => existing ≫= description
                    end |}.

Definition updateQualitySpec (identifier content : string)
    (metadata : option QualitySpecMetadata) : M QualitySpecService OperationResult :=
  fun s =>
    match specStorage s !! identifier with
    | None =>
        (Ok {| success := false;
               op_errors := ["Quality specification '" +:+ identifier +:+ "' not found"];
               op_warnings := [] |}, s)
    | Some existingSpec =>
        let updatedSpec :=
          {| content := content;
             spec_metadata := Some (updated_metadata (spec_metadata existingSpec) metadata) |} in
        let validation := validateQualitySpec RegExp_new updatedSpec in
        if isValid validation then
          let cleared := clearRules H (analysisService s) identifier in
          let stored := <[identifier := updatedSpec]> (specStorage s) in
          match loadQualityStandards RegExp_new H stamp cleared identifier updatedSpec with
          | Ok loaded =>
              (Ok (outcome_of true validation),
               {| analysisService := loaded; specStorage := stored |})
          | Throw msg => (Throw msg, {| analysisService := cleared; specStorage := stored |})
          end
        else (Ok (outcome_of false validation), s)
    end.

(** [this.specStorage.get(identifier) || null] *)
Definition getQualitySpec (s : QualitySpecService) (identifier : string)
    : option QualitySpec :=
  specStorage s !! identifier.

Definition deleteQualitySpec (identifier : string) (s : QualitySpecService)
    : bool * QualitySpecService :=
  match specStorage s !! identifier with
  | Some _ =>
      (true, {| analysisService := clearRules H (analysisService s) identifier;
                specStorage := delete identifier (specStorage s) |})
  | None => (false, s)
  end.

End SpecService.

(** ** Summaries for the worked examples of the services *)

Definition rule_positions (violations : list RuleViolation) : list (string * nat * nat) :=
  map (fun v => (v_rule v, v_line v, v_column v)) violations.

Definition new_spec_service : QualitySpecService nat :=
  {| analysisService := {| customRules := ∅ |}; specStorage := ∅ |}.

(** The outcome of an operation (success, number of errors, number of
    warnings) and the service after it. *)
Definition operation_summary (m : M (QualitySpecService nat) OperationResult)
    (s : QualitySpecService nat) : option (bool * nat * nat) :=
  match m s with
  | (Ok r, _) => Some (success r, List.length (op_errors r), List.length (op_warnings r))
  | (Throw _, _) => None
  end.

Definition then_service (m : M (QualitySpecService nat) OperationResult)
    (s : QualitySpecService nat) : QualitySpecService nat :=
  snd (m s).

Definition stored_version (s : QualitySpecService nat) (identifier : string)
    : option string :=
  (getQualitySpec nat s identifier ≫= spec_metadata) ≫= version.

Definition loaded_count (s : QualitySpecService nat) (identifier : string) : nat :=
  List.length (getLoadedRules nat (analysisService nat s) identifier).

Definition create (identifier source : string) (metadata : option QualitySpecMetadata)
    : M (QualitySpecService nat) OperationResult :=
  createQualitySpec host_RegExp_new nat host_stamp identifier source metadata.

Definition update (identifier source : string) (metadata : option QualitySpecMetadata)
    : M (QualitySpecService nat) OperationResult :=
  updateQualitySpec host_RegExp_new nat host_stamp identifier source metadata.

(** ** QualityGateService: aggregation and decision *)

Inductive CommitAction : Type := ALLOW | BLOCK | WARN.

Record ViolationCounts : Type := {
  n_critical : nat;
  n_error : nat;
  n_warning : nat;
  n_info : nat
}.

Record AggregatedAnalysis : Type := {
  totalFiles : nat;
  averageQualityScore : Z;
  allViolations : list RuleViolation;
  violationCounts : ViolationCounts
}.

(** The thresholds of a configuration, as whole numbers. *)
Record QualityThresholds : Type := {
  minQualityScore : Z;
  maxCriticalViolations : Z;
  maxErrorViolations : Z;
  maxWarningViolations : Z;
  blockOnCritical : bool;
  warnOnLowScore : bool
}.

Record QualityGateDecision : Type := {
  d_action : CommitAction;
  d_message : string
}.

(** [violationCounts[violation.severity]++] on the four counters: under
    any other severity the increment lands on a property of its own, which
    nothing reads. *)
Definition count_violation (counts : ViolationCounts) (violation : RuleViolation)
    : ViolationCounts :=
  if String.eqb (v_severity violation) "critical" then
    {| n_critical := n_critical counts + 1; n_error := n_error counts;
       n_warning := n_warning counts; n_info := n_info counts |}
  else if String.eqb (v_severity violation) "error" then
    {| n_critical := n_critical counts; n_error := n_error counts + 1;
       n_warning := n_warning counts; n_info := n_info counts |}
  else if String.eqb (v_severity violation) "warning" then
    {| n_critical := n_critical counts; n_error := n_error counts;
       n_warning := n_warning counts + 1; n_info := n_info counts |}
  else if String.eqb (v_severity violation) "info" then
    {| n_critical := n_critical counts; n_error := n_error counts;
       n_warning := n_warning counts; n_info := n_info counts + 1 |}
  else counts.

(** One turn of the loop over the results. *)
Definition aggregate_step (acc : list RuleViolation * Q * ViolationCounts)
    (result : AnalysisResult) : list RuleViolation * Q * ViolationCounts :=
  let '(allViolations, totalQualityScore, counts) := acc in
  (allViolations ++ r_violations result,
   (totalQualityScore + qualityScore result)%Q,
   fold_left count_violation (r_violations result) counts).

Definition no_violations : ViolationCounts :=
  {| n_critical := 0; n_error := 0; n_warning := 0; n_info := 0 |}.

Definition aggregateAnalysisResults (results : list AnalysisResult) : AggregatedAnalysis :=
  match results with
  | [] => {| totalFiles := 0; averageQualityScore := 100; allViolations := [];
             violationCounts := no_violations |}
  | _ :: _ =>
      let '(allViolations, totalQualityScore, counts) :=
        fold_left aggregate_step results ([], 0%Q, no_violations) in
      {| totalFiles := List.length results;
         averageQualityScore :=
           Math_round (totalQualityScore / inject_Z (Z.of_nat (List.length results)));
         allViolations := allViolations;
         violationCounts := counts |}
  end.

Fixpoint join (sep : string) (parts : list string) : string :=
  match parts with
  | [] => EmptyString
  | [part] => part
  | part :: parts' => part +:+ sep +:+ join sep parts'
  end.

Definition createViolationSummary (counts : ViolationCounts) : string :=
  let parts := [] in
  let parts := if (0 <? n_critical counts)%nat
               then parts ++ [JsString.of_nat (n_critical counts) +:+ " critical"]
               else parts in
  let parts := if (0 <? n_error counts)%nat
               then parts ++ [JsString.of_nat (n_error counts) +:+ " error(s)"]
               else parts in
  let parts := if (0 <? n_warning counts)%nat
               then parts ++ [JsString.of_nat (n_warning counts) +:+ " warning(s)"]
               else parts in
  let parts := if (0 <? n_info counts)%nat
               then parts ++ [JsString.of_nat (n_info counts) +:+ " info"]
               else parts in
  if (List.length parts =? 0)%nat then "No violations found."
  else "Found: " +:+ join ", " parts +:+ ".".

Definition makeQualityGateDecision (analysis : AggregatedAnalysis)
    (thresholds : QualityThresholds) : QualityGateDecision :=
  let counts := violationCounts analysis in
  let score := averageQualityScore analysis in
  if blockOnCritical thresholds
     && (maxCriticalViolations thresholds <? Z.of_nat (n_critical counts))%Z then
    {| d_action := BLOCK;
       d_message := "Commit blocked: " +:+ JsString.of_nat (n_critical counts)
                    +:+ " critical violation(s) found (max allowed: "
                    +:+ JsString.of_Z (maxCriticalViolations thresholds) +:+ ")" |}
  else if (maxErrorViolations thresholds <? Z.of_nat (n_error counts))%Z then
    {| d_action := BLOCK;
       d_message := "Commit blocked: " +:+ JsString.of_nat (n_error counts)
                    +:+ " error violation(s) found (max allowed: "
                    +:+ JsString.of_Z (maxErrorViolations thresholds) +:+ ")" |}
  else if (maxWarningViolations thresholds <? Z.of_nat (n_warning counts))%Z then
    {| d_action := BLOCK;
       d_message := "Commit blocked: " +:+ JsString.of_nat (n_warning counts)
                    +:+ " warning violation(s) found (max allowed: "
                    +:+ JsString.of_Z (maxWarningViolations thresholds) +:+ ")" |}
  else if (score <? minQualityScore thresholds)%Z then
    if warnOnLowScore thresholds then
      {| d_action := WARN;
         d_message := "Quality score is " +:+ JsString.of_Z score +:+ "/100 (minimum required: "
                      +:+ JsString.of_Z (minQualityScore thresholds)
                      +:+ "). Consider improving code quality before committing." |}
    else
      {| d_action := BLOCK;
         d_message := "Commit blocked: Quality score is " +:+ JsString.of_Z score
                      +:+ "/100 (minimum required: "
                      +:+ JsString.of_Z (minQualityScore thresholds) +:+ ")" |}
  else
    {| d_action := ALLOW;
       d_message := "Quality gate passed. " +:+ createViolationSummary counts
                    +:+ " Quality score: " +:+ JsString.of_Z score +:+ "/100" |}.

(** ** Captures that spell a word *)

(** The text a pattern of plain characters spells. *)
Fixpoint literal_of (r : Regex.regex) : option (list ascii) :=
  match r with
  | Regex.Empty => Some []
  | Regex.Char c => Some [c]
  | Regex.Seq a b =>
      match literal_of a, literal_of b with
      | Some u, Some v => Some (u ++ v)
      | _, _ => None
      end
  | _ => None
  end.

(** The words an alternation of such patterns offers. *)
Fixpoint words_of (r : Regex.regex) : option (list (list ascii)) :=
  match r with
  | Regex.Alt a b =>
      match words_of a, words_of b with
      | Some us, Some vs => Some (us ++ vs)
      | _, _ => None
      end
  | _ => (fun w => [w]) <$> literal_of r
  end.

Definition keeps_group (n : nat) (r : Regex.regex) : bool :=
  negb (existsb (Nat.eqb n) (Regex.groups_of r)).

(** In a sequence, group [n] is an alternation of words of [ws], and
    nothing after it sets the group again. *)
Fixpoint captures_word (n : nat) (ws : list string) (r : Regex.regex) : bool :=
  match r with
  | Regex.Seq a b =>
      captures_word n ws b || (captures_word n ws a && keeps_group n b)
  | Regex.Group m r' =>
      (m =? n)%nat
      && match words_of r' with
         | Some us => forallb (fun u => existsb (String.eqb (JsString.of_chars u)) ws) us
         | None => false
         end
  | _ => false
  end.

(** The matcher state [x] is a state on the text [input]. *)
Definition on_input (input : list ascii) (x : Regex.mstate) : Prop :=
  Regex.rest x = skipn (Regex.pos x) input.

(** Whenever the matcher [m] returns, its result is that of its
    continuation on a state related to the start by [R]. *)
Definition reaches (m : Regex.cont → Regex.cont)
    (R : Regex.mstate → Regex.mstate → Prop) : Prop :=
  ∀ k x z, m k x = Some z → ∃ y, R x y ∧ k y = Some z.

(** From [x] to [y] the input stays the same text, and, when [b] holds,
    so does group [n]. *)
Definition steady (input : list ascii) (n : nat) (b : bool) (x y : Regex.mstate) : Prop :=
  (on_input input x → on_input input y)
  ∧ (b = true → Regex.lookup_cap n (Regex.caps y) = Regex.lookup_cap n (Regex.caps x)).

(** From [x] to [y] the text [w] was read, up to the case rule. *)
Definition spelled (icase : bool) (w : list ascii) (x y : Regex.mstate) : Prop :=
  ∃ w', Regex.rest x = w' ++ Regex.rest y
    ∧ Regex.pos y = Regex.pos x + List.length w'
    ∧ Regex.caps y = Regex.caps x
    ∧ map (Regex.canon icase) w' = map (Regex.canon icase) w.

(** Group [n] of the state is a stretch of the input that spells a word of
    [ws], up to the case rule. *)
Definition word_captured (icase : bool) (input : list ascii) (n : nat) (ws : list string)
    (z : Regex.mstate) : Prop :=
  ∃ s e w, Regex.lookup_cap n (Regex.caps z) = Some (s, e)
    ∧ w ∈ ws
    ∧ map (Regex.canon icase) (firstn (e - s) (skipn s input))
      = map (Regex.canon icase) (JsString.chars w).

(** The three modal verbs of the function, naming and quality templates. *)
Definition modal_verbs : list string := ["should"; "must"; "shall"].

Definition all_ascii : list ascii := map ascii_of_nat (seq 0 256).

(** ** Escaping *)

(** The characters [escapeRegExp] looks for. *)
Definition is_metachar (c : ascii) : bool :=
  existsb (Ascii.eqb c) (JsString.chars ".*+?^${}()|[]\").

Definition escape_char (c : ascii) : list ascii :=
  if is_metachar c then ["\"%char; c] else [c].

(** The first special character of a text read from position [p]. *)
Fixpoint find_metachar (l : list ascii) (p : nat) : option (nat * Regex.mstate) :=
  match l with
  | [] => None
  | c :: l' =>
      if is_metachar c then Some (p, Regex.MState l' (Some c) (S p) [])
      else find_metachar l' (S p)
  end.

(** The comparison operators a metric condition can be written with. *)
Definition comparison_operators : list string := [">"; "<"; ">="; "<="; "=="; "!="].

(** ** QualityGateConfigService *)

Record QualityGateConfig : Type := {
  enabled : bool;
  thresholds : QualityThresholds;
  excludePatterns : list string;
  config_teamId : option string
}.

(** [Partial<QualityThresholds>] and [Partial<QualityGateConfig>]: [None]
    is a property the object does not have. *)
Record PartialThresholds : Type := {
  p_minQualityScore : option Z;
  p_maxCriticalViolations : option Z;
  p_maxErrorViolations : option Z;
  p_maxWarningViolations : option Z;
  p_blockOnCritical : option bool;
  p_warnOnLowScore : option bool
}.

Record PartialConfig : Type := {
  p_enabled : option bool;
  p_thresholds : option PartialThresholds;
  p_excludePatterns : option (list string);
  p_teamId : option string
}.

Record QualityGateConfigService : Type := {
  configs : gmap string QualityGateConfig;
  defaultConfig : QualityGateConfig
}.

Definition createDefaultConfig : QualityGateConfig :=
  {| enabled := true;
     thresholds := {| minQualityScore := 70; maxCriticalViolations := 0;
                      maxErrorViolations := 3; maxWarningViolations := 10;
                      blockOnCritical := true; warnOnLowScore := true |};
     excludePatterns := ["node_modules/**"; "dist/**"; "build/**"; "*.test.ts";
                         "*.test.js"; "*.spec.ts"; "*.spec.js"; "*.md"; "*.json"];
     config_teamId := None |}.

(** The constructor: the default configuration, and [loadConfigurations]. *)
Definition new_QualityGateConfigService : QualityGateConfigService :=
  let defaultConfig := createDefaultConfig in
  let strictTeamConfig :=
    {| enabled := true;
       thresholds := {| minQualityScore := 85; maxCriticalViolations := 0;
                        maxErrorViolations := 1; maxWarningViolations := 5;
                        blockOnCritical := true; warnOnLowScore := true |};
       excludePatterns := excludePatterns defaultConfig;
       config_teamId := Some "strict-team" |} in
  {| configs := <["strict-team" := strictTeamConfig]> (<["default" := defaultConfig]> ∅);
     defaultConfig := defaultConfig |}.

Definition getConfig (svc : QualityGateConfigService) (teamId : option string)
    : QualityGateConfig :=
  match teamId with
  | Some teamId =>
      if JsString.truthy teamId then
        match configs svc !! teamId with
        | Some config => config
        | None => defaultConfig svc
        end
      else defaultConfig svc
  | None => defaultConfig svc
  end.

(** [{ ...existing, ...given }] on thresholds. *)
Definition spread_thresholds (existing : QualityThresholds) (given : PartialThresholds)
    : QualityThresholds :=
  {| minQualityScore := default (minQualityScore existing) (p_minQualityScore given);
     maxCriticalViolations :=
       default (maxCriticalViolations existing) (p_maxCriticalViolations given);
     maxErrorViolations := default (maxErrorViolations existing) (p_maxErrorViolations given);
     maxWarningViolations :=
       default (maxWarningViolations existing) (p_maxWarningViolations given);
     blockOnCritical := default (blockOnCritical existing) (p_blockOnCritical given);
     warnOnLowScore := default (warnOnLowScore existing) (p_warnOnLowScore given) |}.

(** [{}] *)
Definition no_thresholds : PartialThresholds :=
  {| p_minQualityScore := None; p_maxCriticalViolations := None;
     p_maxErrorViolations := None; p_maxWarningViolations := None;
     p_blockOnCritical := None; p_warnOnLowScore := None |}.

(** [{ ...existingConfig, ...config, thresholds: { ...existingConfig.thresholds,
    ...(config.thresholds || {}) } }] *)
Definition spread_config (existingConfig : QualityGateConfig) (config : PartialConfig)
    : QualityGateConfig :=
  {| enabled := default (enabled existingConfig) (p_enabled config);
     thresholds := spread_thresholds (thresholds existingConfig)
                     (default no_thresholds (p_thresholds config));
     excludePatterns := default (excludePatterns existingConfig) (p_excludePatterns config);
     config_teamId := match p_teamId config with
                      | Some t => Some t
                      | None => config_teamId existingConfig
                      end |}.

Definition updateConfig (svc : QualityGateConfigService) (teamId : string)
    (config : PartialConfig) : QualityGateConfigService :=
  let existingConfig := getConfig svc (Some teamId) in
  let updatedConfig := spread_config existingConfig config in
  {| configs := <[teamId := updatedConfig]> (configs svc);
     defaultConfig := defaultConfig svc |}.

Definition validateThresholds (thresholds : PartialThresholds) : list string :=
  (match p_minQualityScore thresholds with
   | Some score =>
       if (score <? 0)%Z || (100 <? score)%Z
       then ["minQualityScore must be between 0 and 100"] else []
   | None => []
   end)
  ++ (match p_maxCriticalViolations thresholds with
      | Some n => if (n <? 0)%Z then ["maxCriticalViolations must be non-negative"] else []
      | None => []
      end)
  ++ (match p_maxErrorViolations thresholds with
      | Some n => if (n <? 0)%Z then ["maxErrorViolations must be non-negative"] else []
      | None => []
      end)
  ++ (match p_maxWarningViolations thresholds with
      | Some n => if (n <? 0)%Z then ["maxWarningViolations must be non-negative"] else []
      | None => []
      end).

(** [{ ...first, ...second }] on partial thresholds and configurations,
    with the thresholds spread one level down, the way [updateConfig]
    spreads them. *)
Definition later_of {A} (first second : option A) : option A :=
  match second with
  | Some v => Some v
  | None => first
  end.

Definition spread_partial_thresholds (first second : PartialThresholds)
    : PartialThresholds :=
  {| p_minQualityScore := later_of (p_minQualityScore first) (p_minQualityScore second);
     p_maxCriticalViolations :=
       later_of (p_maxCriticalViolations first) (p_maxCriticalViolations second);
     p_maxErrorViolations :=
       later_of (p_maxErrorViolations first) (p_maxErrorViolations second);
     p_maxWarningViolations :=
       later_of (p_maxWarningViolations first) (p_maxWarningViolations second);
     p_blockOnCritical := later_of (p_blockOnCritical first) (p_blockOnCritical second);
     p_warnOnLowScore := later_of (p_warnOnLowScore first) (p_warnOnLowScore second) |}.

Definition spread_partial (first second : PartialConfig) : PartialConfig :=
  {| p_enabled := later_of (p_enabled first) (p_enabled second);
     p_thresholds :=
       match p_thresholds first, p_thresholds second with
       | Some a, Some b => Some (spread_partial_thresholds a b)
       | Some a, None => Some a
       | None, given => given
       end;
     p_excludePatterns := later_of (p_excludePatterns first) (p_excludePatterns second);
     p_teamId := later_of (p_teamId first) (p_teamId second) |}.

(** The three pattern literals of [isFileExcluded]. *)
Definition double_star_re : Regex.regex := Eval vm_compute in literal "\*\*".
Definition star_re : Regex.regex := Eval vm_compute in literal "\*".
Definition question_mark_re : Regex.regex := Eval vm_compute in literal "\?".

(** [pattern.replace(/\*\*/g, '.*').replace(/\*/g, '[^/]*').replace(/\?/g, '.')] *)
Definition glob_source (pattern : string) : string :=
  Regex.replace_all false question_mark_re (fun _ => ".")
    (Regex.replace_all false star_re (fun _ => "[^/]*")
       (Regex.replace_all false double_star_re (fun _ => ".*") pattern)).

(** [regex.test(s)] on an expression that has just been built: the scan
    starts at the beginning of [s]. *)
Definition re_test (regex : RegExp) (s : string) : bool :=
  match re_exec regex s with
  | Some _ => true
  | None => false
  end.

Section Exclusion.

Variable RegExp_new : string -> string -> result RegExp.

(** [patterns.some(pattern => new RegExp(...).test(filePath))] *)
Fixpoint some_pattern_matches (patterns : list string) (filePath : string) : result bool :=
  match patterns with
  | [] => Ok false
  | pattern :: patterns' =>
      let? regex := RegExp_new (glob_source pattern) EmptyString in
      if re_test regex filePath then Ok true
      else some_pattern_matches patterns' filePath
  end.

Definition isFileExcluded (filePath : string) (config : QualityGateConfig) : result bool :=
  some_pattern_matches (excludePatterns config) filePath.

End Exclusion.

(** One pass over a glob that does what the three replacements do one
    after the other: a pair of stars, a star, a question mark. *)
Fixpoint glob_chars (l : list ascii) : list ascii :=
  match l with
  | [] => []
  | c :: l' =>
      if Ascii.eqb c "*" then
        match l' with
        | c' :: l'' =>
            if Ascii.eqb c' "*" then JsString.chars ".[^/]*" ++ glob_chars l''
            else JsString.chars "[^/]*" ++ glob_chars l'
        | [] => JsString.chars "[^/]*"
        end
      else if Ascii.eqb c "?" then "."%char :: glob_chars l'
      else c :: glob_chars l'
  end.

(** Whether a text starts with a pair of stars. *)
Definition double_star_first (l : list ascii) : bool :=
  match l with
  | c :: c' :: _ => Ascii.eqb c "*" && Ascii.eqb c' "*"
  | _ => false
  end.

(** The first replacement alone. *)
Fixpoint double_stars (l : list ascii) : list ascii :=
  match l with
  | [] => []
  | c :: l' =>
      match l' with
      | c' :: l'' =>
          if Ascii.eqb c "*" && Ascii.eqb c' "*"
          then JsString.chars ".*" ++ double_stars l''
          else c :: double_stars l'
      | [] => [c]
      end
  end.

(** The first pair of stars of a text read from position [p]. *)
Fixpoint find_double_star (l : list ascii) (p : nat) : option (nat * Regex.mstate) :=
  match l with
  | [] => None
  | c :: l' =>
      if double_star_first l
      then Some (p, Regex.MState (skipn 1 l') (Some "*"%char) (S (S p)) [])
      else find_double_star l' (S p)
  end.

(** Complete thresholds, as [validateThresholds] is given them. *)
Definition all_thresholds (thresholds : QualityThresholds) : PartialThresholds :=
  {| p_minQualityScore := Some (minQualityScore thresholds);
     p_maxCriticalViolations := Some (maxCriticalViolations thresholds);
     p_maxErrorViolations := Some (maxErrorViolations thresholds);
     p_maxWarningViolations := Some (maxWarningViolations thresholds);
     p_blockOnCritical := Some (blockOnCritical thresholds);
     p_warnOnLowScore := Some (warnOnLowScore thresholds) |}.

(** ** QualityGateService: enforceQualityGate *)

Record FileChange : Type := {
  c_filePath : string;
  c_content : string;
  c_language : string;
  changeType : string
}.

Record PreCommitEvent : Type := {
  e_userId : string;
  e_teamId : option string;
  changes : list FileChange;
  commitMessage : string;
  e_timestamp : Z
}.

Record CommitResult : Type := {
  commit_action : CommitAction;
  commit_message : string;
  commit_violations : option (list RuleViolation);
  commit_qualityScore : option Z;
  commit_processingTime : Z
}.

(** The request the service builds for a changed file: it names no standard
    and carries no context. *)
Definition change_request (change : FileChange) (userId : string) : AnalysisRequest :=
  {| filePath := c_filePath change;
     req_content := c_content change;
     language := c_language change;
     userId := userId;
     standards := None;
     context_teamId := None |}.

Section QualityGate.

Variable RegExp_new : string -> string -> result RegExp.
Variable H : Type.
Variable now : H -> Z * H.
Variable analysis_stamp : H -> string * H.
Variable CodeAST : Type.
Variable ast_complexity : CodeAST -> Q.
Variable analyzeWithAST : AnalysisRequest -> M H (list RuleViolation).
Variable parseCode : string -> string -> M H CodeAST.
Variable overallQualityScore : list RuleViolation -> CodeAST -> M H Q.

Record QualityGateService : Type := {
  gate_analysisService : AnalysisService H;
  gate_configService : QualityGateConfigService
}.

(** [changes.filter(change => change.changeType !== 'deleted'
    && !isFileExcluded(change.filePath, config))] *)
Fixpoint files_to_analyze (config : QualityGateConfig) (changes : list FileChange)
    : result (list FileChange) :=
  match changes with
  | [] => Ok []
  | change :: changes' =>
      let? keep :=
        if String.eqb (changeType change) "deleted" then Ok false
        else let? excluded := isFileExcluded RegExp_new (c_filePath change) config in
             Ok (negb excluded) in
      let? kept := files_to_analyze config changes' in
      Ok (if keep then change :: kept else kept)
  end.

Definition analyze (svc : AnalysisService H) (request : AnalysisRequest)
    : M H AnalysisResult :=
  analyzeCode H now analysis_stamp CodeAST ast_complexity analyzeWithAST parseCode
    overallQualityScore svc request.

(** The loop over the files: a file whose analysis throws is passed over. *)
Fixpoint analyze_files (svc : AnalysisService H) (userId : string)
    (files : list FileChange) (analysisResults : list AnalysisResult)
    : M H (list AnalysisResult) :=
  match files with
  | [] => ret analysisResults
  | change :: files' =>
      let! analysisResults :=
        try_catch
          (let! result := analyze svc (change_request change userId) in
           ret (analysisResults ++ [result]))
          (fun _ => ret analysisResults) in
      analyze_files svc userId files' analysisResults
  end.

(** The results of the files whose analysis returns, one file after the
    other from a state of the host: a file whose analysis throws gives no
    result and leaves the host where the failed analysis left it. *)
Inductive analysed (svc : AnalysisService H) (userId : string)
    : list FileChange -> H -> list AnalysisResult -> H -> Prop :=
| analysed_none (h : H) : analysed svc userId [] h [] h
| analysed_returned change files h result h1 results h2 :
    analyze svc (change_request change userId) h = (Ok result, h1) ->
    analysed svc userId files h1 results h2 ->
    analysed svc userId (change :: files) h (result :: results) h2
| analysed_thrown change files h msg h1 results h2 :
    analyze svc (change_request change userId) h = (Throw msg, h1) ->
    analysed svc userId files h1 results h2 ->
    analysed svc userId (change :: files) h results h2.

Definition enforceQualityGate (gate : QualityGateService) (event : PreCommitEvent)
    : M H CommitResult :=
  let! startTime := read H now in
  try_catch
    (let config := getConfig (gate_configService gate) (e_teamId event) in
     if negb (enabled config) then
       let! endTime := read H now in
       ret {| commit_action := ALLOW;
              commit_message := "Quality gate is disabled";
              commit_violations := None;
              commit_qualityScore := None;
              commit_processingTime := endTime - startTime |}
     else
       let! filesToAnalyze := of_result (files_to_analyze config (changes event)) in
       if (List.length filesToAnalyze =? 0)%nat then
         let! endTime := read H now in
         ret {| commit_action := ALLOW;
                commit_message := "No files to analyze (all excluded or deleted)";
                commit_violations := None;
                commit_qualityScore := None;
                commit_processingTime := endTime - startTime |}
       else
         let! analysisResults :=
           analyze_files (gate_analysisService gate) (e_userId event) filesToAnalyze [] in
         let aggregatedResult := aggregateAnalysisResults analysisResults in
         let decision := makeQualityGateDecision aggregatedResult (thresholds config) in
         let! endTime := read H now in
         ret {| commit_action := d_action decision;
                commit_message := d_message decision;
                commit_violations := Some (allViolations aggregatedResult);
                commit_qualityScore := Some (averageQualityScore aggregatedResult);
                commit_processingTime := endTime - startTime |})
    (fun msg =>
       let! endTime := read H now in
       ret {| commit_action := WARN;
              commit_message := "Quality gate check failed: " +:+ msg;
              commit_violations := None;
              commit_qualityScore := None;
              commit_processingTime := endTime - startTime |}).

End QualityGate.

(** ** Summaries for the worked examples of QualityGateService *)

(** The service as its constructor builds it. *)
Definition new_gate : QualityGateService nat :=
  {| gate_analysisService := {| customRules := ∅ |};
     gate_configService := new_QualityGateConfigService |}.

(** A run of the service on a host without a syntax-tree analyzer, whose
    clock counts its readings: the action, the message, the violations and
    the score. *)
Definition gate_summary (gate : QualityGateService nat) (event : PreCommitEvent)
    : option (CommitAction * string * option (list (string * nat * nat)) * option Z) :=
  match enforceQualityGate host_RegExp_new nat (fun h => (Z.of_nat h, S h)) host_stamp unit
          (fun _ => 0%Q) (fun _ => throw "no analyzer") (fun _ _ => throw "no analyzer")
          (fun _ _ => throw "no analyzer") gate event 0 with
  | (Ok r, _) =>
      Some (commit_action r, commit_message r, rule_positions <$> commit_violations r,
            commit_qualityScore r)
  | (Throw _, _) => None
  end.

Definition commit_of (teamId : option string) (changes : list FileChange) : PreCommitEvent :=
  {| e_userId := "user"; e_teamId := teamId; changes := changes;
     commitMessage := "change"; e_timestamp := 0 |}.

Definition excluded_by_default (filePath : string) : result bool :=
  isFileExcluded host_RegExp_new filePath createDefaultConfig.

(** * Proofs *)

(** ** The builders *)

Lemma rbind_Ok {A B} (r : result A) (f : A -> result B) (b : B) :
  rbind r f = Ok b → ∃ a, r = Ok a ∧ f a = Ok b.
Proof. destruct r as [a|msg]; simpl; [eauto | discriminate]. Qed.

Ltac invert_builder :=
  repeat match goal with
  | Hb : rbind _ _ = Ok _ |- _ =>
      apply rbind_Ok in Hb; destruct Hb as (? & _ & Hb); cbv beta zeta in Hb
  | Hb : Ok _ = Ok _ |- _ => injection Hb as <-
  end.

Section BuilderFacts.

Variable RegExp_new : string -> string -> result RegExp.

Lemma parseWhenThenRule_built m statement index rule :
  parseWhenThenRule RegExp_new m statement index = Ok rule →
  well_built "when_then" index rule.
Proof. unfold parseWhenThenRule. intros Hb. invert_builder. repeat split; simpl; eauto. Qed.

Lemma parseIfThenRule_built m statement index rule :
  parseIfThenRule RegExp_new m statement index = Ok rule →
  well_built "if_then" index rule.
Proof. unfold parseIfThenRule. intros Hb. invert_builder. repeat split; simpl; eauto. Qed.

Lemma parseFunctionRule_built m statement index rule :
  parseFunctionRule RegExp_new m statement index = Ok rule →
  well_built "function" index rule.
Proof. unfold parseFunctionRule. intros Hb. invert_builder. repeat split; simpl; eauto. Qed.

Lemma parseNamingRule_built m statement index rule :
  parseNamingRule RegExp_new m statement index = Ok rule →
  well_built "naming" index rule.
Proof. unfold parseNamingRule. intros Hb. invert_builder. repeat split; simpl; eauto. Qed.

Lemma parseQualityRule_built m statement index rule :
  parseQualityRule m statement index = Ok rule →
  well_built "quality" index rule.
Proof. unfold parseQualityRule. intros Hb. invert_builder. repeat split; simpl; eauto. Qed.

Lemma well_built_set_confidence prefix index rule c :
  well_built prefix index rule → well_built prefix index (set_confidence rule c).
Proof. intros (? & ? & ?). repeat split; simpl; assumption. Qed.

(** A rule that comes out of the template loop was built by a template of
    the list whose pattern matched and whose builder returned. *)
Lemma try_patterns_Some patterns statement index t rule :
  try_patterns patterns statement index = Some (t, rule) →
  ∃ p m r0, In (t, p) patterns
    ∧ re_exec (rp_pattern p) (text statement) = Some m
    ∧ parser p m statement index = Ok r0
    ∧ rule = set_confidence r0 (rp_confidence p).
Proof.
  induction patterns as [|[name p] patterns IH]; simpl; [discriminate|].
  destruct (re_exec (rp_pattern p) (text statement)) as [m|] eqn:Hm.
  - destruct (parser p m statement index) as [r0|msg] eqn:Hp.
    + intros [= <- <-]. exists p, m, r0. auto.
    + intros Ht. destruct (IH Ht) as (p' & m' & r' & ? & ? & ? & ?).
      exists p', m', r'. auto.
  - intros Ht. destruct (IH Ht) as (p' & m' & r' & ? & ? & ? & ?).
    exists p', m', r'. auto.
Qed.

(** With the class's templates: the rule carries the prefix of the
    template named with it, and that template's confidence. *)
Lemma try_patterns_built statement index t rule :
  try_patterns (rulePatterns RegExp_new) statement index = Some (t, rule) →
  well_built (id_prefix t) index rule ∧ template_confidence (confidence (metadata rule)).
Proof.
  intros Ht. apply try_patterns_Some in Ht.
  destruct Ht as (p & m & r0 & Hin & _ & Hp & ->).
  unfold template_confidence.
  simpl in Hin.
  destruct Hin as [Hin|[Hin|[Hin|[Hin|[Hin|[]]]]]];
    injection Hin as <- <-; simpl in Hp |- *;
    (split; [apply well_built_set_confidence | tauto]).
  - by apply parseWhenThenRule_built in Hp.
  - by apply parseIfThenRule_built in Hp.
  - by apply parseFunctionRule_built in Hp.
  - by apply parseNamingRule_built in Hp.
  - by apply parseQualityRule_built in Hp.
Qed.

End BuilderFacts.

(** ** Compilation, statement by statement *)

Section CompileFacts.

Variable RegExp_new : string -> string -> result RegExp.

Lemma parseGenericRule_Some statement index :
  ∃ r, parseGenericRule statement index = Some r
    ∧ id r = "generic_" +:+ JsString.of_nat index
    ∧ is_Some (condition r) ∧ is_Some (action r)
    ∧ confidence (metadata r) = 3 # 10.
Proof. unfold parseGenericRule. eexists. repeat split; simpl; eauto. Qed.

(** Every statement gets exactly one rule: a template's or the fallback's. *)
Lemma parseRuleStatement_total statement index :
  ∃ r, parseRuleStatement RegExp_new statement index = Ok (Some r)
    ∧ is_Some (condition r) ∧ is_Some (action r)
    ∧ ((∃ t, try_patterns (rulePatterns RegExp_new) statement index = Some (t, r)
          ∧ well_built (id_prefix t) index r
          ∧ template_confidence (confidence (metadata r)))
       ∨ (try_patterns (rulePatterns RegExp_new) statement index = None
          ∧ parseGenericRule statement index = Some r
          ∧ id r = "generic_" +:+ JsString.of_nat index
          ∧ confidence (metadata r) = 3 # 10)).
Proof.
  unfold parseRuleStatement.
  destruct (try_patterns (rulePatterns RegExp_new) statement index) as [[t r]|] eqn:Ht.
  - destruct (try_patterns_built RegExp_new _ _ _ _ Ht) as [Hwb Hc].
    exists r. destruct Hwb as (Hid & Hcond & Hact).
    repeat split; auto. left. exists t. repeat split; auto.
  - destruct (parseGenericRule_Some statement index) as (r & Hr & Hid & Hc & Ha & Hq).
    exists r. rewrite Hr. repeat split; auto.
Qed.

(** The statement loop appends one rule per statement, in order, and
    leaves the error array as it found it. *)
Lemma parse_statements_spec statements :
  ∀ i rules errors,
  ∃ new, parse_statements RegExp_new statements i rules errors = (rules ++ new, errors)
    ∧ List.length new = List.length statements
    ∧ ∀ j statement, statements !! j = Some statement →
        ∃ r, new !! j = Some r
          ∧ parseRuleStatement RegExp_new statement (i + j + 1) = Ok (Some r).
Proof.
  induction statements as [|st sts IH]; intros i rules errors; simpl.
  - exists []. rewrite app_nil_r. repeat split; auto. intros j s Hj. discriminate.
  - destruct (parseRuleStatement_total st (i + 1)) as (r & Hr & _).
    rewrite Hr.
    destruct (IH (S i) (rules ++ [r]) errors) as (new & Hnew & Hlen & Hall).
    exists (r :: new). rewrite Hnew, <- app_assoc. simpl.
    repeat split; auto.
    intros [|j] s Hj; simpl in Hj.
    + injection Hj as <-. exists r. split; [reflexivity|].
      by replace (i + 0 + 1) with (i + 1) by lia.
    + destruct (Hall j s Hj) as (r' & Hr' & Hp).
      exists r'. split; [assumption|].
      by replace (i + S j + 1) with (S i + j + 1) by lia.
Qed.

Lemma constructed_rules_spec content :
  parse_statements RegExp_new (extractRuleStatements content) 0 [] []
    = (constructed_rules RegExp_new content, [])
  ∧ List.length (constructed_rules RegExp_new content)
    = List.length (extractRuleStatements content)
  ∧ ∀ j statement, extractRuleStatements content !! j = Some statement →
      ∃ r, constructed_rules RegExp_new content !! j = Some r
        ∧ parseRuleStatement RegExp_new statement (j + 1) = Ok (Some r).
Proof.
  unfold constructed_rules.
  destruct (parse_statements_spec (extractRuleStatements content) 0 [] [])
    as (new & Hnew & Hlen & Hall).
  rewrite Hnew. simpl. auto.
Qed.

(** Every constructed rule comes from the statement at its position. *)
Lemma constructed_rules_lookup content j r :
  constructed_rules RegExp_new content !! j = Some r →
  ∃ statement, extractRuleStatements content !! j = Some statement
    ∧ parseRuleStatement RegExp_new statement (j + 1) = Ok (Some r).
Proof.
  intros Hj.
  destruct (constructed_rules_spec content) as (_ & Hlen & Hall).
  assert (Hlt : j < List.length (extractRuleStatements content)).
  { rewrite <- Hlen. by eapply lookup_lt_Some. }
  destruct (lookup_lt_is_Some_2 _ _ Hlt) as [st Hst].
  exists st. split; [assumption|].
  destruct (Hall j st Hst) as (r' & Hr' & Hp).
  congruence.
Qed.

(** A constructed rule has a condition, an action, and a confidence that
    is the fallback's or a template's. *)
Lemma constructed_rules_complete content r :
  r ∈ constructed_rules RegExp_new content →
  is_Some (condition r) ∧ is_Some (action r)
  ∧ (confidence (metadata r) = 3 # 10 ∨ template_confidence (confidence (metadata r))).
Proof.
  intros Hin. apply list_elem_of_lookup in Hin. destruct Hin as [j Hj].
  apply constructed_rules_lookup in Hj. destruct Hj as (st & _ & Hp).
  destruct (parseRuleStatement_total st (j + 1)) as (r' & Hr' & Hc & Ha & Hk).
  assert (r' = r) as -> by congruence.
  repeat split; auto.
  destruct Hk as [(t & _ & _ & Hq)|(_ & _ & _ & Hq)]; auto.
Qed.

End CompileFacts.

(** ** Validation *)

Lemma validate_step_errors st rule :
  is_Some (condition rule) → is_Some (action rule) →
  snd (validate_step st rule) = snd st.
Proof.
  intros [c Hc] [a Ha]. destruct st as [[ids ws] es].
  unfold validate_step. rewrite Hc, Ha. reflexivity.
Qed.

Lemma validate_fold_errors rules :
  Forall (fun rule => is_Some (condition rule) ∧ is_Some (action rule)) rules →
  ∀ st, snd (fold_left validate_step rules st) = snd st.
Proof.
  induction 1 as [|rule rules [Hc Ha] _ IH]; intros st; simpl; [reflexivity|].
  rewrite IH. by apply validate_step_errors.
Qed.

(** On rules that all have a condition and an action the validator
    reports no error. *)
Lemma validateRules_no_errors rules :
  Forall (fun rule => is_Some (condition rule) ∧ is_Some (action rule)) rules →
  snd (validateRules rules) = [].
Proof.
  intros Hall. unfold validateRules.
  pose proof (validate_fold_errors rules Hall (∅, [], [])) as Hf.
  destruct (fold_left validate_step rules (∅, [], [])) as [[ids ws] es].
  simpl in *. assumption.
Qed.

(** ** The shape of a compilation result *)

Section ResultFacts.

Variable RegExp_new : string -> string -> result RegExp.

Lemma constructed_rules_validate content :
  snd (validateRules (constructed_rules RegExp_new content)) = [].
Proof.
  apply validateRules_no_errors, Forall_forall.
  intros r Hr.
  destruct (constructed_rules_complete RegExp_new content r Hr) as (? & ? & _). auto.
Qed.

Lemma parseQualitySpec_result spec :
  parseQualitySpec RegExp_new spec
  = Ok {| rules := filter (fun rule => Qltb (1 # 2) (confidence (metadata rule)) = true)
                     (constructed_rules RegExp_new (content spec));
          errors := [];
          warnings := fst (validateRules (constructed_rules RegExp_new (content spec)));
          p_metadata :=
            {| totalRules := List.length (extractRuleStatements (content spec));
               successfullyParsed :=
                 List.length (constructed_rules RegExp_new (content spec));
               p_confidence :=
                 calculateConfidence (constructed_rules RegExp_new (content spec)) []
                   (List.length (extractRuleStatements (content spec))) |} |}.
Proof.
  unfold parseQualitySpec.
  destruct (constructed_rules_spec RegExp_new (content spec)) as (Hps & _ & _).
  rewrite Hps.
  pose proof (constructed_rules_validate (content spec)) as Hv.
  destruct (validateRules (constructed_rules RegExp_new (content spec))) as [ws es].
  simpl in Hv. subst es. reflexivity.
Qed.

End ResultFacts.

Lemma Qltb_lt a b : Qltb a b = true ↔ (a < b)%Q.
Proof.
  unfold Qltb. rewrite negb_true_iff.
  split.
  - intros Hb. apply Qnot_le_lt. intros Hle.
    apply Qle_bool_iff in Hle. congruence.
  - intros Hlt. destruct (Qle_bool b a) eqn:Hb; [|reflexivity].
    apply Qle_bool_iff in Hb. exfalso. by apply (Qlt_not_le a b).
Qed.

(** ** Compilation results *)

(** C2 — For every specification text, the usable rule collection that
    compilation returns holds no rule of confidence at most 0.5, while
    [totalRules] is the number of extracted statements and
    [successfullyParsed] the number of rules constructed before the filter:
    the rules the filter drops are still counted. *)
Theorem C2_filtering_contract (RegExp_new : string -> string -> result RegExp)
    (spec : QualitySpec) :
  ∃ res, parseQualitySpec RegExp_new spec = Ok res
    ∧ Forall (fun r => ¬ (confidence (metadata r) <= 1 # 2)%Q) (rules res)
    ∧ rules res
      = filter (fun r => Qltb (1 # 2) (confidence (metadata r)) = true)
          (constructed_rules RegExp_new (content spec))
    ∧ totalRules (p_metadata res) = List.length (extractRuleStatements (content spec))
    ∧ successfullyParsed (p_metadata res)
      = List.length (constructed_rules RegExp_new (content spec))
    ∧ successfullyParsed (p_metadata res)
      = List.length (rules res)
        + List.length
            (filter (fun r => ¬ (Qltb (1 # 2) (confidence (metadata r)) = true))
               (constructed_rules RegExp_new (content spec))).
Proof.
  eexists. split; [apply parseQualitySpec_result|]. simpl.
  repeat split.
  - apply Forall_forall. intros r Hr.
    apply list_elem_of_filter in Hr. destruct Hr as [Hq _].
    apply Qltb_lt in Hq. by apply Qlt_not_le.
  - rewrite <- length_app. apply Permutation_length. symmetry.
    apply filter_app_complement.
Qed.

(** C9 — For every specification text, every extracted statement yields
    exactly one constructed rule, which has a condition and an action (the
    fallback builder always returns one); so compilation returns no error,
    [successfullyParsed] equals [totalRules], and the validator's
    incomplete-rule branch adds nothing. *)
Theorem C9_one_rule_per_statement (RegExp_new : string -> string -> result RegExp)
    (spec : QualitySpec) :
  ∃ res, parseQualitySpec RegExp_new spec = Ok res
    ∧ errors res = []
    ∧ successfullyParsed (p_metadata res) = totalRules (p_metadata res)
    ∧ Forall2
        (fun numbered r =>
           parseRuleStatement RegExp_new (snd numbered) (fst numbered + 1) = Ok (Some r))
        (imap pair (extractRuleStatements (content spec)))
        (constructed_rules RegExp_new (content spec))
    ∧ Forall (fun r => is_Some (condition r) ∧ is_Some (action r))
        (constructed_rules RegExp_new (content spec))
    ∧ snd (validateRules (constructed_rules RegExp_new (content spec))) = []
    ∧ ∀ statement index,
        ∃ r, parseGenericRule statement index = Some r
          ∧ is_Some (condition r) ∧ is_Some (action r).
Proof.
  destruct (constructed_rules_spec RegExp_new (content spec)) as (_ & Hlen & Hall).
  eexists. split; [apply parseQualitySpec_result|]. simpl.
  repeat split.
  - assumption.
  - apply Forall2_same_length_lookup. split.
    + by rewrite length_imap.
    + intros j [k st] r Hj Hr.
      rewrite list_lookup_imap in Hj.
      destruct (extractRuleStatements (content spec) !! j) as [st'|] eqn:Hst;
        [|discriminate].
      injection Hj as <- <-. simpl.
      destruct (Hall j st' Hst) as (r' & Hr' & Hp). congruence.
  - apply Forall_forall. intros r Hr.
    destruct (constructed_rules_complete RegExp_new _ r Hr) as (? & ? & _). auto.
  - apply constructed_rules_validate.
  - intros statement index.
    destruct (parseGenericRule_Some statement index) as (r & ? & _ & ? & ? & _).
    eauto.
Qed.

Lemma try_patterns_app (before after : list (string * RulePattern))
    (statement : RuleStatement) (index : nat) :
  try_patterns (before ++ after) statement index
  = match try_patterns before statement index with
    | Some built => Some built
    | None => try_patterns after statement index
    end.
Proof.
  induction before as [|[patternName p] before IH]; [reflexivity|].
  cbn [app try_patterns].
  destruct (re_exec (rp_pattern p) (text statement)) as [m|]; [|exact IH].
  destruct (parser p m statement index); [reflexivity|exact IH].
Qed.

(** C5, as the code has it — When the template loop reaches a template
    that matches the statement and whose builder throws, nothing is
    recorded: the result of the compilation holds no diagnostic error. The
    loop goes on with the templates after that one, in order, and the rule
    of the statement is the one the first of them builds, or the generic
    rule of the fallback builder when none does. The rule stands at the
    statement's position among the constructed rules, every statement has
    its rule, and the compilation returns. *)
Theorem C5_builder_failure_falls_through
    (RegExp_new : string -> string -> result RegExp) (spec : QualitySpec) (i : nat)
    (statement : RuleStatement) (before after : list (string * RulePattern))
    (patternName : string) (p : RulePattern) (m : Regex.MatchArray) (msg : string) :
  extractRuleStatements (content spec) !! i = Some statement →
  rulePatterns RegExp_new = before ++ (patternName, p) :: after →
  try_patterns before statement (i + 1) = None →
  re_exec (rp_pattern p) (text statement) = Some m →
  parser p m statement (i + 1) = Throw msg →
  ∃ res r,
    parseQualitySpec RegExp_new spec = Ok res
    ∧ errors res = []
    ∧ constructed_rules RegExp_new (content spec) !! i = Some r
    ∧ parseRuleStatement RegExp_new statement (i + 1) = Ok (Some r)
    ∧ try_patterns (rulePatterns RegExp_new) statement (i + 1)
      = try_patterns after statement (i + 1)
    ∧ match try_patterns after statement (i + 1) with
      | Some (later, built) => built = r ∧ later ∈ map fst after
      | None =>
          parseGenericRule statement (i + 1) = Some r
          ∧ id r = "generic_" +:+ JsString.of_nat (i + 1)
          ∧ r ∉ rules res
      end
    ∧ List.length (constructed_rules RegExp_new (content spec))
      = List.length (extractRuleStatements (content spec))
    ∧ ∀ j next, extractRuleStatements (content spec) !! j = Some next →
        ∃ r', constructed_rules RegExp_new (content spec) !! j = Some r'
          ∧ parseRuleStatement RegExp_new next (j + 1) = Ok (Some r').
Proof.
  intros Hstatement Hpatterns Hbefore Hm Hp.
  destruct (constructed_rules_spec RegExp_new (content spec)) as (_ & Hlen & Hall).
  destruct (Hall i statement Hstatement) as (r & Hr & Hparsed).
  assert (Hloop : try_patterns (rulePatterns RegExp_new) statement (i + 1)
                  = try_patterns after statement (i + 1)).
  { rewrite Hpatterns, try_patterns_app, Hbefore. cbn [try_patterns].
    by rewrite Hm, Hp. }
  eexists. exists r. split; [apply parseQualitySpec_result|]. cbn [errors rules].
  split; [reflexivity|]. split; [exact Hr|]. split; [exact Hparsed|].
  split; [exact Hloop|]. split; [|split; [exact Hlen|exact Hall]].
  unfold parseRuleStatement in Hparsed. rewrite Hloop in Hparsed.
  destruct (try_patterns after statement (i + 1)) as [[later built]|] eqn:Hafter.
  - injection Hparsed as ->. split; [reflexivity|].
    destruct (try_patterns_Some _ _ _ _ _ Hafter) as (p' & _ & _ & Hin & _).
    apply list_elem_of_In. apply (in_map fst) in Hin. exact Hin.
  - assert (Hgeneric : parseGenericRule statement (i + 1) = Some r) by congruence.
    split; [exact Hgeneric|].
    unfold parseGenericRule in Hgeneric. injection Hgeneric as <-.
    split; [reflexivity|].
    intros Hin. apply list_elem_of_filter in Hin. destruct Hin as [Hq _].
    cbn in Hq. discriminate.
Qed.

(** The source the function/method builder assembles for the statement
    [function ( should x] opens a group it never closes. *)
Lemma unbalanced_source_rejected :
  RegexReader.read_pattern "function\s+\w*(\w*" = RegexReader.SyntaxError.
Proof. vm_compute. reflexivity. Qed.

(** The same on the statement [function ( should x]: the WHEN/THEN and
    IF/THEN templates do not match it, the builder of the function/method
    template throws, the two templates after it do not match, and the
    statement gets the generic rule. *)
Lemma C5_builder_failure_falls_through_witness :
  ∃ res r,
    parseQualitySpec host_RegExp_new (spec_of "function ( should x") = Ok res
    ∧ errors res = []
    ∧ constructed_rules host_RegExp_new "function ( should x" !! 0 = Some r
    ∧ parseGenericRule unbalanced_statement 1 = Some r
    ∧ id r = "generic_1".
Proof.
  assert (Hstatement : extractRuleStatements (content (spec_of "function ( should x")) !! 0
                       = Some unbalanced_statement) by (vm_compute; reflexivity).
  assert (Hpatterns : rulePatterns host_RegExp_new
                      = take 2 (rulePatterns host_RegExp_new)
                        ++ ("function_rule", function_rule_pattern host_RegExp_new)
                           :: patterns_after_function_rule host_RegExp_new)
    by reflexivity.
  assert (Hbefore : try_patterns (take 2 (rulePatterns host_RegExp_new))
                      unbalanced_statement (0 + 1) = None) by (vm_compute; reflexivity).
  assert (Hthrown : ∃ m msg,
            re_exec (rp_pattern (function_rule_pattern host_RegExp_new))
              (text unbalanced_statement) = Some m
            ∧ parser (function_rule_pattern host_RegExp_new) m unbalanced_statement (0 + 1)
              = Throw msg).
  { eexists _, _. split; [vm_compute; reflexivity | vm_compute; reflexivity]. }
  destruct Hthrown as (m & msg & Hm & Hp).
  destruct (C5_builder_failure_falls_through host_RegExp_new
              (spec_of "function ( should x") 0 unbalanced_statement
              (take 2 (rulePatterns host_RegExp_new))
              (patterns_after_function_rule host_RegExp_new)
              "function_rule" (function_rule_pattern host_RegExp_new) m msg
              Hstatement Hpatterns Hbefore Hm Hp)
    as (res & r & Hres & Herrors & Hr & _ & _ & Hrule & _).
  assert (Hafter : try_patterns (patterns_after_function_rule host_RegExp_new)
                     unbalanced_statement (0 + 1) = None) by (vm_compute; reflexivity).
  rewrite Hafter in Hrule. destruct Hrule as (Hgeneric & Hid & _).
  exists res, r. split; [exact Hres|]. split; [exact Herrors|]. split; [exact Hr|].
  split; [exact Hgeneric|exact Hid].
Defined.

(** C5, as stated, fails: in the text [function ( should x] the
    function/method template matches and its builder throws, yet the
    result carries no diagnostic error. *)
Lemma C5_counterexample :
  ¬ diagnoses_builder_failures host_RegExp_new "function ( should x".
Proof.
  intros Hclaim.
  pose proof (parseQualitySpec_result host_RegExp_new (spec_of "function ( should x"))
    as Hres.
  match type of Hres with _ = Ok ?r => set (res := r) in Hres end.
  assert (Herr : errors res = []) by reflexivity.
  assert (Hm : ∃ m msg,
             re_exec (rp_pattern (function_rule_pattern host_RegExp_new))
               (text unbalanced_statement) = Some m
             ∧ parser (function_rule_pattern host_RegExp_new) m unbalanced_statement (0 + 1)
               = Throw msg).
  { eexists _, _. split; [vm_compute; reflexivity | vm_compute; reflexivity]. }
  destruct Hm as (m & msg & Hm & Hp).
  destruct (Hclaim res 0 unbalanced_statement "function_rule"
              (function_rule_pattern host_RegExp_new) m msg Hres)
    as (e & He & _); try assumption.
  - vm_compute. reflexivity.
  - simpl. right. right. left. reflexivity.
  - rewrite Herr in He. by apply not_elem_of_nil in He.
Qed.

(** C1, as the code has it — The identifier of a constructed rule is
    [<prefix>_<ordinal>]: the prefix is [when_then], [if_then], [function],
    [naming] or [quality] after the template that built the rule, or
    [generic] for the fallback, and the ordinal is the 1-based position of
    the statement among all extracted statements of the compilation, one
    numbering shared by all templates and the fallback. *)
Theorem C1_rule_identifier (RegExp_new : string -> string -> result RegExp)
    (content : string) (i : nat) (r : ParsedRule) :
  constructed_rules RegExp_new content !! i = Some r →
  ∃ statement, extractRuleStatements content !! i = Some statement
    ∧ ((∃ t, try_patterns (rulePatterns RegExp_new) statement (i + 1) = Some (t, r)
          ∧ t ∈ ["when_then"; "if_then"; "function_rule"; "naming_rule"; "quality_rule"]
          ∧ id r = id_prefix t +:+ "_" +:+ JsString.of_nat (i + 1))
       ∨ (try_patterns (rulePatterns RegExp_new) statement (i + 1) = None
          ∧ id r = "generic_" +:+ JsString.of_nat (i + 1))).
Proof.
  intros Hr. apply constructed_rules_lookup in Hr.
  destruct Hr as (st & Hst & Hp). exists st. split; [assumption|].
  destruct (parseRuleStatement_total RegExp_new st (i + 1)) as (r' & Hr' & _ & _ & Hk).
  assert (r' = r) as -> by congruence.
  destruct Hk as [(t & Ht & (Hid & _ & _) & _)|(Ht & _ & Hid & _)].
  - left. exists t. repeat split; try assumption.
    apply try_patterns_Some in Ht. destruct Ht as (p & _ & _ & Hin & _).
    simpl in Hin.
    destruct Hin as [Hin|[Hin|[Hin|[Hin|[Hin|[]]]]]]; injection Hin as <- _;
      set_solver.
  - right. auto.
Qed.

(** The same on the second rule of the two-template text. *)
Lemma C1_rule_identifier_witness :
  ∃ r, constructed_rules host_RegExp_new two_templates_text !! 1 = Some r
    ∧ ∃ statement, extractRuleStatements two_templates_text !! 1 = Some statement
      ∧ ((∃ t, try_patterns (rulePatterns host_RegExp_new) statement (1 + 1) = Some (t, r)
            ∧ t ∈ ["when_then"; "if_then"; "function_rule"; "naming_rule"; "quality_rule"]
            ∧ id r = id_prefix t +:+ "_" +:+ JsString.of_nat (1 + 1))
         ∨ (try_patterns (rulePatterns host_RegExp_new) statement (1 + 1) = None
            ∧ id r = "generic_" +:+ JsString.of_nat (1 + 1))).
Proof.
  eexists. split.
  - vm_compute. reflexivity.
  - apply (C1_rule_identifier host_RegExp_new two_templates_text 1).
    vm_compute. reflexivity.
Defined.

(** C1, as stated, fails: in a text whose first statement is a WHEN/THEN
    and whose second is an IF/THEN, the second rule is the first that the
    IF/THEN template builds, and its identifier is [if_then_2], not
    [if_then_1]. *)
Lemma C1_counterexample : ¬ ids_count_per_template host_RegExp_new two_templates_text.
Proof.
  intros Hclaim.
  assert (Hr : ∃ r, constructed_rules host_RegExp_new two_templates_text !! 1 = Some r
                 ∧ id r = "if_then_2").
  { eexists. split; [vm_compute; reflexivity | vm_compute; reflexivity]. }
  destruct Hr as (r & Hr & Hid).
  specialize (Hclaim 1 r {| text := "IF functions > 10 THEN flag for review";
                            lineNumber := 2 |} "if_then" Hr).
  rewrite Hid in Hclaim.
  assert (Hgoal : "if_then_2"
                  = "if_then" +:+ "_"
                    +:+ JsString.of_nat (template_ordinal host_RegExp_new two_templates_text 1 "if_then")).
  { apply Hclaim; vm_compute; reflexivity. }
  vm_compute in Hgoal. discriminate.
Qed.

(** ** The matcher: what holds of every state a continuation returns
    holds of every state the matcher returns *)

Section MatcherPost.

Import Regex.

Variable icase : bool.
Variable P : mstate -> Prop.

Local Abbreviation returns_in := (returns_in P).

Lemma step_char_post p k :
  returns_in k → returns_in (step_char p k).
Proof.
  intros Hk x z. unfold step_char.
  destruct (rest x) as [|c l]; [discriminate|].
  destruct (p c); [apply Hk | discriminate].
Qed.

Lemma repeat_loop_post (m : cont -> cont) gs greedy :
  (∀ k, returns_in k → returns_in (m k)) →
  ∀ fuel min max k, returns_in k → returns_in (repeat_loop fuel m gs min max greedy k).
Proof.
  intros Hm. induction fuel as [|fuel IH]; intros min max k Hk x z; simpl; [discriminate|].
  assert (Hd : returns_in (fun y =>
            if (min =? 0)%nat && (pos y =? pos x)%nat then None
            else repeat_loop fuel m gs (Nat.pred min) (Nat.pred <$> max) greedy k y)).
  { intros y z'. destruct ((min =? 0)%nat && (pos y =? pos x)%nat); [discriminate|].
    by apply IH. }
  pose proof (Hm _ Hd (clear_caps gs x)) as Hbody.
  destruct max as [[|max']|].
  - apply Hk.
  - destruct (negb (min =? 0)%nat); [apply Hbody|].
    destruct greedy.
    + destruct (m _ (clear_caps gs x)) eqn:Hz.
      * intros [= <-]. by eapply Hbody.
      * apply Hk.
    + destruct (k x) eqn:Hz.
      * intros [= <-]. by eapply Hk.
      * apply Hbody.
  - destruct (negb (min =? 0)%nat); [apply Hbody|].
    destruct greedy.
    + destruct (m _ (clear_caps gs x)) eqn:Hz.
      * intros [= <-]. by eapply Hbody.
      * apply Hk.
    + destruct (k x) eqn:Hz.
      * intros [= <-]. by eapply Hk.
      * apply Hbody.
Qed.

Lemma rmatch_post r : ∀ k, returns_in k → returns_in (rmatch icase r k).
Proof.
  induction r as [| c | | neg items | neg | | | r1 IH1 r2 IH2 | r1 IH1 r2 IH2
                 | n r IH | r IH min max greedy]; intros k Hk x z; cbn [rmatch].
  - apply Hk.
  - by apply step_char_post.
  - by apply step_char_post.
  - by apply step_char_post.
  - destruct (xorb neg (at_word_boundary x)); [apply Hk | discriminate].
  - destruct (pos x =? 0)%nat; [apply Hk | discriminate].
  - destruct (rest x); [apply Hk | discriminate].
  - apply IH1. by apply IH2.
  - destruct (rmatch icase r1 k x) eqn:Hz.
    + intros [= <-]. by eapply IH1.
    + by apply IH2.
  - apply IH. intros y z'. apply Hk.
  - intros Hz. eapply repeat_loop_post; [apply IH | exact Hk | exact Hz].
Qed.

End MatcherPost.

(** ** The matcher: the fuel of the repetition loop is never used up *)

Section MatcherFuel.

Import Regex.

Variable icase : bool.

Lemma ahead_refl x : ahead x x.
Proof. unfold ahead. lia. Qed.

Lemma ahead_trans x y z : ahead x y → ahead y z → ahead x z.
Proof. unfold ahead. lia. Qed.

Lemma step_char_ahead p : looks_ahead (step_char p).
Proof.
  intros k1 k2 x Hk. unfold step_char.
  destruct (rest x) as [|c l] eqn:Hrest; [reflexivity|].
  destruct (p c); [|reflexivity].
  apply Hk. unfold ahead. simpl. rewrite Hrest. simpl. lia.
Qed.

Lemma repeat_loop_ahead (m : cont → cont) gs greedy :
  looks_ahead m →
  ∀ fuel min max, looks_ahead (repeat_loop fuel m gs min max greedy).
Proof.
  intros Hm. induction fuel as [|fuel IH]; intros min max k1 k2 x Hk; [reflexivity|].
  cbn [repeat_loop].
  assert (Hbody :
    m (fun y => if (min =? 0)%nat && (pos y =? pos x)%nat then None
                else repeat_loop fuel m gs (Nat.pred min) (Nat.pred <$> max) greedy k1 y)
      (clear_caps gs x)
    = m (fun y => if (min =? 0)%nat && (pos y =? pos x)%nat then None
                  else repeat_loop fuel m gs (Nat.pred min) (Nat.pred <$> max) greedy k2 y)
        (clear_caps gs x)).
  { apply Hm. intros y Hy.
    destruct ((min =? 0)%nat && (pos y =? pos x)%nat); [reflexivity|].
    apply IH. intros z Hz. apply Hk.
    apply ahead_trans with y; [exact Hy | exact Hz]. }
  rewrite Hbody, (Hk x (ahead_refl x)). reflexivity.
Qed.

Lemma rmatch_ahead r : looks_ahead (rmatch icase r).
Proof.
  induction r as [| c | | neg items | neg | | | r1 IH1 r2 IH2 | r1 IH1 r2 IH2
                 | n r IH | r IH min max greedy]; intros k1 k2 x Hk; cbn [rmatch].
  - apply Hk, ahead_refl.
  - by apply step_char_ahead.
  - by apply step_char_ahead.
  - by apply step_char_ahead.
  - by rewrite (Hk x (ahead_refl x)).
  - by rewrite (Hk x (ahead_refl x)).
  - by rewrite (Hk x (ahead_refl x)).
  - apply IH1. intros y Hy. apply IH2. intros z Hz. apply Hk.
    by apply ahead_trans with y.
  - by rewrite (IH1 k1 k2 x Hk), (IH2 k1 k2 x Hk).
  - apply IH. intros y Hy. apply Hk. exact Hy.
  - apply repeat_loop_ahead; assumption.
Qed.

(** With at least [S (min + length (rest x))] units the loop gives the same
    result whatever the fuel: the bound [rmatch] starts it with is never
    what stops it. *)
Lemma repeat_loop_fuel (m : cont → cont) gs greedy k :
  looks_ahead m →
  ∀ fuel1 fuel2 min max x,
    (S (min + List.length (rest x)) ≤ fuel1)%nat →
    (S (min + List.length (rest x)) ≤ fuel2)%nat →
    repeat_loop fuel1 m gs min max greedy k x = repeat_loop fuel2 m gs min max greedy k x.
Proof.
  intros Hm. induction fuel1 as [|fuel1 IH]; intros fuel2 min max x H1 H2; [lia|].
  destruct fuel2 as [|fuel2]; [lia|]. cbn [repeat_loop].
  assert (Hbody :
    m (fun y => if (min =? 0)%nat && (pos y =? pos x)%nat then None
                else repeat_loop fuel1 m gs (Nat.pred min) (Nat.pred <$> max) greedy k y)
      (clear_caps gs x)
    = m (fun y => if (min =? 0)%nat && (pos y =? pos x)%nat then None
                  else repeat_loop fuel2 m gs (Nat.pred min) (Nat.pred <$> max) greedy k y)
        (clear_caps gs x)).
  { apply Hm. intros y [Hlen Hpos]. simpl in Hlen, Hpos.
    destruct (min =? 0)%nat eqn:Hmin; simpl.
    - destruct (pos y =? pos x)%nat eqn:Hp; [reflexivity|].
      apply Nat.eqb_eq in Hmin. apply Nat.eqb_neq in Hp. subst min.
      apply IH; simpl; lia.
    - apply Nat.eqb_neq in Hmin. apply IH; lia. }
  by rewrite Hbody.
Qed.

(** The loop as [rmatch] starts it agrees with the loop on any larger
    fuel. *)
Corollary rmatch_repeat_fuel r min max greedy k x extra :
  rmatch icase (Repeat r min max greedy) k x
  = repeat_loop (S (min + List.length (rest x)) + extra) (rmatch icase r) (groups_of r)
      min max greedy k x.
Proof.
  cbn [rmatch]. apply repeat_loop_fuel; [apply rmatch_ahead | lia | lia].
Qed.

End MatcherFuel.

(** A pattern that ends in group [n] leaves that group defined in every
    match it finds. *)
Lemma ends_with_group_captured icase n r :
  ends_with_group n r = true →
  ∀ x z, Regex.rmatch icase r Some x = Some z →
    is_Some (Regex.lookup_cap n (Regex.caps z)).
Proof.
  induction r as [| c | | neg items | neg | | | r1 IH1 r2 IH2 | r1 IH1 r2 IH2
                 | m r IH | r IH min max greedy]; simpl; try discriminate.
  - intros He x z Hz.
    assert (Hcases : (r2 = Regex.Empty ∧ ends_with_group n r1 = true)
                     ∨ ends_with_group n r2 = true).
    { destruct r2; auto. }
    destruct Hcases as [[-> He1]|He2].
    + by eapply IH1.
    + revert Hz. apply (rmatch_post icase
        (fun z => is_Some (Regex.lookup_cap n (Regex.caps z)))).
      intros y z'. by apply IH2.
  - intros He x z. apply Nat.eqb_eq in He. subst m.
    apply (rmatch_post icase (fun z => is_Some (Regex.lookup_cap n (Regex.caps z)))).
    intros y z' [= <-]. simpl. rewrite Nat.eqb_refl. eauto.
Qed.

Lemma search_captured icase n r :
  ends_with_group n r = true →
  ∀ l pv p i e, Regex.search icase r l pv p = Some (i, e) →
    is_Some (Regex.lookup_cap n (Regex.caps e)).
Proof.
  intros He. induction l as [|c l IH]; intros pv p i e; simpl.
  - destruct (Regex.rmatch icase r Some _) eqn:Hz; [|discriminate].
    intros [= <- <-]. by eapply ends_with_group_captured.
  - destruct (Regex.rmatch icase r Some _) eqn:Hz.
    + intros [= <- <-]. by eapply ends_with_group_captured.
    + apply IH.
Qed.

Lemma exec_captured icase n r s m :
  ends_with_group n r = true → (0 < n)%nat →
  Regex.exec icase r s = Some m → ∃ g, grp m n = Ok g.
Proof.
  intros He Hn. unfold Regex.exec.
  destruct (Regex.search icase r (JsString.chars s) None 0) as [[i e]|] eqn:Hs;
    [|discriminate].
  intros [= <-]. unfold grp, Regex.m_group. simpl.
  destruct n as [|n]; [lia|].
  destruct (search_captured icase (S n) r He _ _ _ _ _ Hs) as [se Hse].
  rewrite Hse. simpl. eauto.
Qed.

(** C4, at its failing input — The text
    [WHEN lines > 100 THEN report it SHALL flag] compiles to
    one usable rule whose severity is [violation]: the SHALL clause [flag]
    is looked up in the lexicon, which maps it to an action category, and
    that is neither [info], [warning], [error] nor [critical]. The
    violation the linked rule reports carries the same severity. *)
Theorem C4_shall_clause_severity (RegExp_new : string -> string -> result RegExp) :
  ∃ res r, parseQualitySpec RegExp_new (spec_of shall_flag_text) = Ok res
    ∧ rules res = [r]
    ∧ severity r = "violation"
    ∧ ¬ is_severity (severity r)
    ∧ ∀ (H : Type) (stamp : H → string * H) (m : RuleMatch) (h : H),
        ∃ v, fst (createAction H stamp (action r) (severity r) (message r) m h) = Ok v
          ∧ v_severity v = "violation".
Proof.
  eexists _, _. split; [|split]; [vm_compute; reflexivity | reflexivity |].
  split; [reflexivity|]. split.
  - unfold is_severity. simpl. intros [Hs|[Hs|[Hs|Hs]]]; discriminate.
  - intros H stamp m h. unfold createAction. simpl.
    destruct (stamp h) as [tag h']. simpl. eexists. split; reflexivity.
Qed.

(** ** The fallback *)

Lemma matches_no_template_None (RegExp_new : string -> string -> result RegExp)
    statement index :
  matches_no_template statement = true →
  try_patterns (rulePatterns RegExp_new) statement index = None.
Proof.
  unfold matches_no_template. cbn [forallb]. intros Hn.
  repeat match type of Hn with
  | (_ && _) = true => apply andb_true_iff in Hn; destruct Hn as [? Hn]
  end.
  unfold rulePatterns. cbn [try_patterns rp_pattern regexp_of re_exec].
  repeat match goal with
  | Hx : match ?e with Some _ => false | None => true end = true |- _ =>
      destruct e eqn:?; [discriminate Hx | clear Hx]
  end.
  reflexivity.
Qed.

(** C7 — A statement that matches none of the grammar templates compiles
    to a fallback rule whose condition never holds (no match on any
    content and language, also once linked), whose action replays the
    statement's text, and whose confidence is 0.3: below the 0.5 threshold,
    so the rule is not in the usable set. *)
Theorem C7_fallback_rule (RegExp_new : string -> string -> result RegExp)
    (content : string) (i : nat) (statement : RuleStatement) :
  extractRuleStatements content !! i = Some statement →
  matches_no_template statement = true →
  ∃ r, constructed_rules RegExp_new content !! i = Some r
    ∧ parseRuleStatement RegExp_new statement (i + 1) = Ok (Some r)
    ∧ parseGenericRule statement (i + 1) = Some r
    ∧ (∀ code language, findMatches RegExp_new (condition r) code language = Ok [])
    ∧ (∀ (H : Type) (h : H) code language,
         createMatcher RegExp_new H (condition r) code language h = (Ok [], h))
    ∧ a_message <$> action r = Some (text statement)
    ∧ confidence (metadata r) = 3 # 10
    ∧ (confidence (metadata r) < 1 # 2)%Q
    ∧ ∃ res, parseQualitySpec RegExp_new (spec_of content) = Ok res ∧ r ∉ rules res.
Proof.
  intros Hst Hn.
  destruct (constructed_rules_spec RegExp_new content) as (_ & _ & Hall).
  destruct (Hall i statement Hst) as (r & Hr & Hp).
  exists r. split; [assumption|]. split; [assumption|].
  pose proof (matches_no_template_None RegExp_new statement (i + 1) Hn) as Hnone.
  assert (Hg : parseGenericRule statement (i + 1) = Some r).
  { unfold parseRuleStatement in Hp. rewrite Hnone in Hp. congruence. }
  split; [assumption|].
  unfold parseGenericRule in Hg. injection Hg as <-. simpl.
  repeat split.
  - eexists. split; [apply parseQualitySpec_result|]. simpl.
    intros Hin. apply list_elem_of_filter in Hin. destruct Hin as [Hq _].
    simpl in Hq. discriminate.
Qed.

(** The same on a text of one statement that no template matches. *)
Lemma C7_fallback_rule_witness :
  let statement := {| text := "This is not a valid rule format"; lineNumber := 1 |} in
  ∃ r, constructed_rules host_RegExp_new "This is not a valid rule format" !! 0 = Some r
    ∧ parseRuleStatement host_RegExp_new statement (0 + 1) = Ok (Some r)
    ∧ parseGenericRule statement (0 + 1) = Some r
    ∧ (∀ code language, findMatches host_RegExp_new (condition r) code language = Ok [])
    ∧ (∀ (H : Type) (h : H) code language,
         createMatcher host_RegExp_new H (condition r) code language h = (Ok [], h))
    ∧ a_message <$> action r = Some (text statement)
    ∧ confidence (metadata r) = 3 # 10
    ∧ (confidence (metadata r) < 1 # 2)%Q
    ∧ ∃ res, parseQualitySpec host_RegExp_new (spec_of "This is not a valid rule format")
             = Ok res ∧ r ∉ rules res.
Proof.
  apply (C7_fallback_rule host_RegExp_new "This is not a valid rule format" 0).
  - vm_compute. reflexivity.
  - vm_compute. reflexivity.
Defined.

(** ** Metric rules *)

Lemma compareMetric_zero_gt (n : N) : compareMetric 0 ">" (whole n) = false.
Proof.
  unfold compareMetric, whole. cbn [String.eqb Ascii.eqb Bool.eqb number_lt].
  unfold Qltb. apply negb_false_iff, Qle_bool_iff.
  unfold Qle, inject_Z. simpl. lia.
Qed.

(** C10, as the code has it — When the phrase of a condition reaches the
    heuristic that combines [function] with [more than N], that is when,
    lower-cased and trimmed, it holds no comparison operator followed by
    digits, no [console.log], no [var declaration] and no [uses var], the
    condition is the metric [function lines > N]; the metric evaluator does
    not know that name and gives 0, so for every threshold, content and
    language the matcher returns no match and the linked rule contributes
    no violation. *)
Theorem C10_function_lines_rule_never_fires
    (RegExp_new : string -> string -> result RegExp)
    (phrase : string) (numberMatch : Regex.MatchArray) :
  let text := JsString.trim (JsString.toLowerCase phrase) in
  Regex.exec false metric_re text = None →
  JsString.includes text "console.log" = false →
  JsString.includes text "var declaration" = false →
  JsString.includes text "uses var" = false →
  JsString.includes text "function" = true →
  JsString.includes text "more than" = true →
  Regex.exec false more_than_re text = Some numberMatch →
  ∃ n, parseCondition RegExp_new phrase = Ok (function_lines_condition n)
    ∧ ∀ (threshold : N) (code language : string),
        calculateMetric code "function lines" = 0
        ∧ findMatches RegExp_new (Some (function_lines_condition threshold)) code language
          = Ok []
        ∧ ∀ (H : Type) (h : H) (act : RuleMatch → M H RuleViolation) (ruleId : string),
            contribution H
              {| x_id := ruleId;
                 matcher := createMatcher RegExp_new H
                              (Some (function_lines_condition threshold));
                 x_action := act; originalRule := None |}
              code language h
            = ([], h).
Proof.
  intros text Hmetric Hlog Hvar1 Hvar2 Hfun Hmore Hnum.
  destruct (exec_captured false 1 more_than_re text numberMatch) as [g Hg];
    [reflexivity | lia | assumption |].
  exists (JsString.parseInt_digits g). split.
  - unfold parseCondition. fold text.
    rewrite Hmetric, Hlog, Hvar1, Hvar2, Hfun, Hmore. simpl.
    rewrite Hnum, Hg. reflexivity.
  - intros threshold code language.
    assert (Hfind : findMatches RegExp_new (Some (function_lines_condition threshold))
                      code language = Ok []).
    { unfold findMatches, function_lines_condition, metric_condition.
      cbn [ctype metric name operator value].
      change (calculateMetric code "function lines") with 0.
      by rewrite compareMetric_zero_gt. }
    split; [reflexivity|]. split; [assumption|].
    intros H h act ruleId. unfold contribution, createMatcher, of_result.
    cbn [matcher]. rewrite Hfind. reflexivity.
Qed.

(** The same on the phrase [function has more than 20 lines]. *)
Lemma C10_function_lines_rule_never_fires_witness :
  ∃ n, parseCondition host_RegExp_new "function has more than 20 lines"
       = Ok (function_lines_condition n)
    ∧ ∀ (threshold : N) (code language : string),
        calculateMetric code "function lines" = 0
        ∧ findMatches host_RegExp_new (Some (function_lines_condition threshold))
            code language
          = Ok []
        ∧ ∀ (H : Type) (h : H) (act : RuleMatch → M H RuleViolation) (ruleId : string),
            contribution H
              {| x_id := ruleId;
                 matcher := createMatcher host_RegExp_new H
                              (Some (function_lines_condition threshold));
                 x_action := act; originalRule := None |}
              code language h
            = ([], h).
Proof.
  eapply (C10_function_lines_rule_never_fires host_RegExp_new
            "function has more than 20 lines");
    vm_compute; reflexivity.
Defined.

(** C10, as stated, fails: the phrases [function uses var more than 3
    times] and [function has more than 3 lines >= 0] combine [function]
    with [more than N], yet an earlier heuristic takes them. The first
    gives the pattern of a [var] declaration, the second the metric
    [function has more than 3 lines >= 0], and both conditions match. *)
Lemma C10_counterexample :
  ¬ combined_phrase_never_matches host_RegExp_new "function uses var more than 3 times"
  ∧ ¬ combined_phrase_never_matches host_RegExp_new "function has more than 3 lines >= 0".
Proof.
  split; intros Hclaim; unfold combined_phrase_never_matches in Hclaim; cbv zeta in Hclaim.
  - assert (Hfunction :
      JsString.includes
        (JsString.trim (JsString.toLowerCase "function uses var more than 3 times"))
        "function" = true) by (vm_compute; reflexivity).
    assert (Hmore :
      is_Some (Regex.exec false more_than_re
                 (JsString.trim (JsString.toLowerCase "function uses var more than 3 times"))))
      by (vm_compute; eexists; reflexivity).
    assert (Hcondition :
      parseCondition host_RegExp_new "function uses var more than 3 times"
      = Ok (pattern_condition (PRegExp (regexp_of true true var_declaration_re)))).
    { unfold parseCondition. cbv zeta.
      set (text := JsString.trim (JsString.toLowerCase "function uses var more than 3 times")).
      replace (Regex.exec false metric_re text) with (@None Regex.MatchArray)
        by (vm_compute; reflexivity).
      replace (JsString.includes text "console.log") with false
        by (vm_compute; reflexivity).
      replace (JsString.includes text "uses var") with true by (vm_compute; reflexivity).
      by rewrite orb_true_r. }
    destruct (Hclaim Hfunction Hmore _ Hcondition) as [_ Hnone].
    specialize (Hnone "var x = 1;" "javascript"). vm_compute in Hnone. discriminate.
  - assert (Hfunction :
      JsString.includes
        (JsString.trim (JsString.toLowerCase "function has more than 3 lines >= 0"))
        "function" = true) by (vm_compute; reflexivity).
    assert (Hmore :
      is_Some (Regex.exec false more_than_re
                 (JsString.trim (JsString.toLowerCase "function has more than 3 lines >= 0"))))
      by (vm_compute; eexists; reflexivity).
    assert (Hcondition :
      parseCondition host_RegExp_new "function has more than 3 lines >= 0"
      = Ok (metric_condition {| name := "function has more than 3 lines";
                                operator := ">="; value := whole 0 |}))
      by (vm_compute; reflexivity).
    destruct (Hclaim Hfunction Hmore _ Hcondition) as [_ Hnone].
    specialize (Hnone EmptyString "javascript"). vm_compute in Hnone. discriminate.
Qed.


(** ** The execution engine *)

Section EngineFacts.

Variable H : Type.

(** The loop over the matches of one rule pushes the violations built
    before the first throw. *)
Lemma actions_loop (act : RuleMatch → M H RuleViolation) matches :
  ∀ h vs,
  ∃ r, for_each matches (fun m => let! violation := lift H (act m) in push H violation)
         (h, vs)
       = (r, ((violations_until_throw H act matches h).2,
              vs ++ (violations_until_throw H act matches h).1)).
Proof.
  induction matches as [|m matches IH]; intros h vs; simpl.
  - exists (Ok tt). unfold ret. by rewrite app_nil_r.
  - unfold bind at 1. unfold bind at 1. unfold lift at 1. simpl.
    destruct (act m h) as [[v|msg] h1]; simpl.
    + destruct (IH h1 (vs ++ [v])) as [r Hr]. exists r. rewrite Hr.
      destruct (violations_until_throw H act matches h1) as [ws h2]. simpl.
      by rewrite <- app_assoc.
    + exists (Throw msg). by rewrite app_nil_r.
Qed.

(** One rule, with its [try]: whatever it throws, the loop goes on, and
    the array has grown by the rule's contribution. *)
Lemma apply_one (rule : ExecutableRule H) code lang h vs :
  try_catch
    (let! matches := lift H (matcher H rule code lang) in
     for_each matches (fun m =>
       let! violation := lift H (x_action H rule m) in push H violation))
    (fun _ => ret tt) (h, vs)
  = (Ok tt, ((contribution H rule code lang h).2,
             vs ++ (contribution H rule code lang h).1)).
Proof.
  unfold try_catch, contribution. unfold bind at 1. unfold lift at 1. simpl.
  destruct (matcher H rule code lang h) as [[matches|msg] h1]; simpl.
  - destruct (actions_loop (x_action H rule) matches h1 vs) as [r Hr].
    rewrite Hr. by destruct r as [[]|].
  - unfold ret. by rewrite app_nil_r.
Qed.

Lemma apply_rules_spec (rules : list (ExecutableRule H)) request :
  ∀ h vs,
  apply_rules H rules request (h, vs)
  = (Ok tt, ((contributions H rules (req_content request) (language request) h).2,
             vs ++ (contributions H rules (req_content request) (language request) h).1)).
Proof.
  induction rules as [|rule rules IH]; intros h vs.
  - simpl. unfold ret. by rewrite app_nil_r.
  - unfold apply_rules. cbn [for_each]. unfold bind at 1.
    rewrite apply_one. fold (apply_rules H rules request). rewrite IH. simpl.
    destruct (contribution H rule _ _ h) as [ws h1]. simpl.
    destruct (contributions H rules _ _ h1) as [us h2]. simpl.
    by rewrite app_assoc.
Qed.

Lemma contributions_app (rules1 rules2 : list (ExecutableRule H)) code lang h :
  contributions H (rules1 ++ rules2) code lang h
  = ((contributions H rules1 code lang h).1
       ++ (contributions H rules2 code lang (contributions H rules1 code lang h).2).1,
     (contributions H rules2 code lang (contributions H rules1 code lang h).2).2).
Proof.
  revert h. induction rules1 as [|rule rules1 IH]; intros h; simpl.
  - by destruct (contributions H rules2 code lang h).
  - destruct (contribution H rule code lang h) as [ws h1].
    rewrite IH.
    destruct (contributions H rules1 code lang h1) as [us h2]. simpl.
    destruct (contributions H rules2 code lang h2) as [ts h3]. simpl.
    by rewrite app_assoc.
Qed.

(** The loop over the standards of a request. *)
Lemma standards_loop (svc : AnalysisService H) request stds :
  ∀ h vs,
  for_each stds (fun standard =>
    match customRules H svc !! standard with
    | Some globalRules => apply_rules H globalRules request
    | None => ret tt
    end) (h, vs)
  = (Ok tt,
     ((contributions H
         (flat_map (fun standard => default [] (customRules H svc !! standard)) stds)
         (req_content request) (language request) h).2,
      vs ++ (contributions H
               (flat_map (fun standard => default [] (customRules H svc !! standard)) stds)
               (req_content request) (language request) h).1)).
Proof.
  induction stds as [|standard stds IH]; intros h vs.
  - simpl. unfold ret. by rewrite app_nil_r.
  - cbn [for_each flat_map]. unfold bind at 1.
    rewrite contributions_app.
    destruct (customRules H svc !! standard) as [globalRules|]; simpl.
    + rewrite apply_rules_spec, IH. simpl. by rewrite app_assoc.
    + unfold ret. rewrite IH. reflexivity.
Qed.

(** The engine returns the contributions of the rules the request
    selects, in order, and never throws. *)
Lemma applySpecDrivenRules_spec (svc : AnalysisService H) request h :
  applySpecDrivenRules H svc request h
  = (Ok (contributions H (selected_rules H svc request)
           (req_content request) (language request) h).1,
     (contributions H (selected_rules H svc request)
        (req_content request) (language request) h).2).
Proof.
  unfold applySpecDrivenRules, selected_rules. unfold bind at 1.
  rewrite contributions_app.
  set (team := match context_teamId request with
               | Some teamId =>
                   if JsString.truthy teamId
                   then default [] (customRules H svc !! teamId) else []
               | None => []
               end).
  assert (Hteam :
    (match context_teamId request with
     | Some teamId =>
         if JsString.truthy teamId then
           match customRules H svc !! teamId with
           | Some teamRules => apply_rules H teamRules request
           | None => ret tt
           end
         else ret tt
     | None => ret tt
     end) (h, [])
    = (Ok tt, ((contributions H team (req_content request) (language request) h).2,
               (contributions H team (req_content request) (language request) h).1))).
  { subst team. destruct (context_teamId request) as [teamId|]; [|reflexivity].
    destruct (JsString.truthy teamId); [|reflexivity].
    destruct (customRules H svc !! teamId) as [teamRules|]; [|reflexivity].
    by rewrite apply_rules_spec. }
  rewrite Hteam.
  destruct (standards request) as [stds|]; simpl.
  - by rewrite standards_loop.
  - unfold ret. by rewrite app_nil_r.
Qed.

End EngineFacts.

Lemma violations_pure (H : Type) (g : RuleMatch → RuleViolation) matches (h : H) :
  violations_until_throw H (fun m => ret (g m)) matches h = (map g matches, h).
Proof.
  induction matches as [|m matches IH]; [reflexivity|].
  cbn [violations_until_throw]. cbv beta.
  change (@ret H _ (g m) h) with (Ok (g m), h).
  cbv iota. by rewrite IH.
Qed.

Lemma contributions_pure (H : Type)
    (fgs : list ((string → string → list RuleMatch) * (RuleMatch → RuleViolation)))
    code lang (h : H) :
  contributions H (map (pure_rule H) fgs) code lang h
  = (flat_map (fun fg => map fg.2 (fg.1 code lang)) fgs, h).
Proof.
  induction fgs as [|fg fgs IH]; [reflexivity|].
  cbn [map contributions]. unfold contribution.
  change (matcher H (pure_rule H fg) code lang h) with (Ok (fg.1 code lang), h).
  change (x_action H (pure_rule H fg)) with (fun m => @ret H _ (fg.2 m)).
  cbv beta iota. by rewrite violations_pure, IH.
Qed.

(** An action the linker built from a defined action never throws: every
    match gets its violation. *)
Lemma linked_action_total (H : Type) (stamp : H → string * H) a sev msg matches (h : H) :
  List.length (violations_until_throw H (createAction H stamp (Some a) sev msg) matches h).1
  = List.length matches.
Proof.
  revert h. induction matches as [|m matches IH]; intros h; [reflexivity|].
  cbn [violations_until_throw]. unfold createAction at 1.
  destruct (stamp h) as [tag h1].
  specialize (IH h1).
  destruct (violations_until_throw H (createAction H stamp (Some a) sev msg) matches h1).
  simpl in *. by rewrite IH.
Qed.

(** An action the linker built from a missing action throws on the first
    match already. *)
Lemma linked_action_missing (H : Type) (stamp : H → string * H) sev msg matches (h : H) :
  (violations_until_throw H (createAction H stamp None sev msg) matches h).1 = [].
Proof.
  destruct matches as [|m matches]; [reflexivity|].
  cbn [violations_until_throw]. unfold createAction at 1.
  by destruct (stamp h).
Qed.

(** C3, as the code has it — The engine never throws and returns, for the
    rules a request selects (the team's, then each standard's, in
    registration order), the concatenation of their contributions: a rule
    whose matcher throws contributes nothing; a rule whose action throws on
    some match contributes the violations of its earlier matches, in match
    order, and its later matches are skipped; every other rule contributes
    the violations of all its matches. A rule the linker built either
    reports every match or, when its matcher throws or its action is
    missing, nothing. *)
Theorem C3_partial_failure_isolation (H : Type) (svc : AnalysisService H)
    (request : AnalysisRequest) (h : H) :
  applySpecDrivenRules H svc request h
    = (Ok (contributions H (selected_rules H svc request)
             (req_content request) (language request) h).1,
       (contributions H (selected_rules H svc request)
          (req_content request) (language request) h).2)
  ∧ (∀ before rule after code lang h0,
       (contributions H (before ++ rule :: after) code lang h0).1
       = (contributions H before code lang h0).1
         ++ (contribution H rule code lang (contributions H before code lang h0).2).1
         ++ (contributions H after code lang
               (contribution H rule code lang (contributions H before code lang h0).2).2).1)
  ∧ (∀ rule code lang h0,
       match matcher H rule code lang h0 with
       | (Throw _, h1) => contribution H rule code lang h0 = ([], h1)
       | (Ok matches, h1) =>
           contribution H rule code lang h0
           = violations_until_throw H (x_action H rule) matches h1
       end)
  ∧ (∀ fgs code lang h0,
       contributions H (map (pure_rule H) fgs) code lang h0
       = (flat_map (fun fg => map fg.2 (fg.1 code lang)) fgs, h0))
  ∧ (∀ RegExp_new stamp (r : ParsedRule) code lang h0,
       match findMatches RegExp_new (condition r) code lang, action r with
       | Throw _, _ | Ok _, None =>
           (contributions H (convertToExecutableRules RegExp_new H stamp [r])
              code lang h0).1 = []
       | Ok matches, Some _ =>
           List.length (contributions H (convertToExecutableRules RegExp_new H stamp [r])
                          code lang h0).1
           = List.length matches
       end).
Proof.
  split; [apply applySpecDrivenRules_spec|]. split; [|split; [|split]].
  - intros before rule after code lang h0.
    rewrite contributions_app. cbn [contributions fst].
    destruct (contributions H before code lang h0) as [us h1]. simpl.
    destruct (contribution H rule code lang h1) as [ws h2]. simpl.
    by destruct (contributions H after code lang h2).
  - intros rule code lang h0. unfold contribution.
    by destruct (matcher H rule code lang h0) as [[matches|msg] h1].
  - intros. apply contributions_pure.
  - intros RegExp_new stamp r code lang h0.
    cbn [convertToExecutableRules map contributions].
    unfold contribution, createMatcher, of_result. cbn [matcher x_action].
    destruct (findMatches RegExp_new (condition r) code lang) as [matches|msg];
      [|reflexivity].
    destruct (action r) as [a|].
    + pose proof (linked_action_total H stamp a (severity r) (message r) matches h0) as Hl.
      destruct (violations_until_throw H _ matches h0) as [vs h1].
      simpl in *. by rewrite app_nil_r.
    + pose proof (linked_action_missing H stamp (severity r) (message r) matches h0) as Hl.
      destruct (violations_until_throw H _ matches h0) as [vs h1].
      simpl in *. by rewrite app_nil_r.
Qed.

(** C3, as stated, fails: a rule that finds two matches and whose action
    throws on the second still contributes the violation of the first. *)
Lemma C3_counterexample :
  ¬ omits_throwing_rule unit partial_service (team_request "team" "x") tt.
Proof.
  intros Hclaim.
  specialize (Hclaim [] second_match_throws []).
  assert (Hres : (applySpecDrivenRules unit partial_service (team_request "team" "x") tt).1
                 = Ok [violation_at (match_at_line 1)])
    by (vm_compute; reflexivity).
  rewrite Hres in Hclaim.
  assert (Hbad : Ok [violation_at (match_at_line 1)] = @Ok (list RuleViolation) ([] ++ [])).
  { apply Hclaim.
    - vm_compute. reflexivity.
    - vm_compute. lia. }
  discriminate.
Qed.

Lemma lines_rule_compiled (RegExp_new : string -> string -> result RegExp) :
  ∃ res, parseQualitySpec RegExp_new (spec_of lines_rule_text) = Ok res
    ∧ rules res = [lines_rule].
Proof. eexists. split; [vm_compute; reflexivity | reflexivity]. Qed.

(** The rules a request of team [team] selects when only that team has
    rules and the request names no standard. *)
Lemma selected_rules_team (H : Type) (teamRules : list (ExecutableRule H)) code :
  selected_rules H {| customRules := <["team" := teamRules]> ∅ |} (team_request "team" code)
  = teamRules.
Proof.
  unfold selected_rules. cbn [context_teamId team_request standards customRules].
  change (JsString.truthy "team") with true. cbv iota.
  rewrite lookup_insert_eq. simpl. apply app_nil_r.
Qed.

(** C8 — The statement [WHEN lines > 5 THEN warn about file size] compiles
    to one usable rule with the metric condition [lines > 5]; loaded for a
    team and run by the engine, it reports exactly one violation, at line
    1, on a content of seven lines and none on a content of three lines. *)
Theorem C8_lines_metric_scenario (RegExp_new : string -> string -> result RegExp)
    (H : Type) (stamp : H → string * H) (h : H) :
  ∃ res r svc,
    parseQualitySpec RegExp_new (spec_of lines_rule_text) = Ok res
    ∧ rules res = [r]
    ∧ (condition r ≫= metric) = Some {| name := "lines"; operator := ">"; value := whole 5 |}
    ∧ loadQualityStandards RegExp_new H stamp {| customRules := ∅ |} "team"
        (spec_of lines_rule_text) = Ok svc
    ∧ (∃ v, (applySpecDrivenRules H svc (team_request "team" seven_lines) h).1 = Ok [v]
          ∧ v_line v = 1)
    ∧ (applySpecDrivenRules H svc (team_request "team" three_lines) h).1 = Ok [].
Proof.
  destruct (lines_rule_compiled RegExp_new) as (res & Hres & Hrules).
  exists res, lines_rule,
    {| customRules := <["team" := convertToExecutableRules RegExp_new H stamp [lines_rule]]> ∅ |}.
  split; [assumption|]. split; [assumption|]. split; [reflexivity|].
  split.
  { unfold loadQualityStandards. rewrite Hres, Hrules. reflexivity. }
  assert (Hseven : findMatches RegExp_new (condition lines_rule) seven_lines "typescript"
                   = Ok [ {| m_line := 1; m_column := 1; m_text := "lines: 7";
                             m_context := "File-level metric" |} ])
    by (vm_compute; reflexivity).
  assert (Hthree : findMatches RegExp_new (condition lines_rule) three_lines "typescript"
                   = Ok []) by (vm_compute; reflexivity).
  rewrite !applySpecDrivenRules_spec, !selected_rules_team.
  cbn [convertToExecutableRules map contributions req_content language team_request fst].
  unfold contribution, createMatcher, of_result. cbn [matcher x_action].
  rewrite Hseven, Hthree. cbn [violations_until_throw].
  unfold createAction at 1. destruct (stamp h) as [tag h']. cbn [action lines_rule].
  split; [|reflexivity].
  eexists. split; reflexivity.
Qed.

(** ** Confidence *)

Lemma fold_left_sum_confidence rules (a : Q) :
  (fold_left (fun sum rule => sum + confidence (metadata rule)) rules a
   == a + sum_confidence rules)%Q.
Proof.
  revert a. induction rules as [|rule rules IH]; intros a; simpl.
  - ring.
  - rewrite IH. ring.
Qed.

Lemma inject_Z_succ (n : nat) :
  (inject_Z (Z.of_nat (S n)) == 1 + inject_Z (Z.of_nat n))%Q.
Proof. rewrite Nat2Z.inj_succ, <- Z.add_1_l, inject_Z_plus. reflexivity. Qed.

Lemma inject_Z_nat_nonneg (n : nat) : (0 <= inject_Z (Z.of_nat n))%Q.
Proof. change 0%Q with (inject_Z 0). rewrite <- Zle_Qle. lia. Qed.

(** Hide the injected integers before handing a goal to [lra]. *)
Ltac hide_injections :=
  repeat match goal with
  | |- context [inject_Z ?z] =>
      let q := fresh "q" in set (q := inject_Z z) in *; clearbody q
  | Hq : context [inject_Z ?z] |- _ =>
      let q := fresh "q" in set (q := inject_Z z) in *; clearbody q
  end.

Lemma sum_confidence_bounds rules :
  Forall (fun r => (0 <= confidence (metadata r) <= 1)%Q) rules →
  (0 <= sum_confidence rules <= inject_Z (Z.of_nat (List.length rules)))%Q.
Proof.
  induction 1 as [|rule rules [Hlo Hhi] _ [IHlo IHhi]].
  - simpl. split; apply Qle_refl.
  - cbn [sum_confidence fold_right List.length]. fold (sum_confidence rules).
    pose proof (inject_Z_succ (List.length rules)) as Hs.
    hide_injections. split; lra.
Qed.

Lemma spec_avg_bounds rules :
  Forall (fun r => (0 <= confidence (metadata r) <= 1)%Q) rules →
  (0 <= spec_avg_rule_confidence rules <= 1)%Q.
Proof.
  intros Hall. destruct rules as [|rule rules]; [simpl; split; lra|].
  cbn [spec_avg_rule_confidence].
  destruct (sum_confidence_bounds _ Hall) as [Hlo Hhi].
  assert (Hpos : (0 < inject_Z (Z.of_nat (List.length (rule :: rules))))%Q).
  { pose proof (inject_Z_succ (List.length rules)) as Hs.
    pose proof (inject_Z_nat_nonneg (List.length rules)). cbn [List.length].
    hide_injections. lra. }
  split.
  - apply Qle_shift_div_l; [assumption|]. hide_injections. lra.
  - apply Qle_shift_div_r; [assumption|]. hide_injections. lra.
Qed.

Lemma template_confidence_bounds c :
  c = 3 # 10 ∨ template_confidence c → (0 <= c <= 1)%Q.
Proof.
  unfold template_confidence.
  intros [->|[->|[->|[->|[->| ->]]]]]; split; unfold Qle; simpl; lia.
Qed.

(** The code's aggregate on an empty error array is the design document's
    formula, whenever there are as many rules as statements. *)
Lemma calculateConfidence_spec rules :
  (calculateConfidence rules [] (List.length rules)
   == spec_overall_confidence (List.length rules) 0 rules)%Q.
Proof.
  unfold calculateConfidence, spec_overall_confidence, spec_success_rate.
  destruct rules as [|rule rules].
  - simpl. reflexivity.
  - cbn [List.length Nat.eqb Nat.ltb Nat.leb spec_avg_rule_confidence].
    rewrite fold_left_sum_confidence.
    rewrite Qplus_0_l. reflexivity.
Qed.

Lemma spec_overall_bounds rules :
  Forall (fun r => (0 <= confidence (metadata r) <= 1)%Q) rules →
  (0 <= spec_overall_confidence (List.length rules) 0 rules <= 1)%Q.
Proof.
  intros Hall. destruct (spec_avg_bounds rules Hall) as [Hlo Hhi].
  unfold spec_overall_confidence, spec_success_rate.
  destruct rules as [|rule rules].
  - simpl. split; unfold Qle; simpl; lia.
  - cbn [List.length Nat.eqb].
    assert (Hpos : (0 < inject_Z (Z.of_nat (S (List.length rules))))%Q).
    { pose proof (inject_Z_succ (List.length rules)) as Hs.
    pose proof (inject_Z_nat_nonneg (List.length rules)). cbn [List.length].
    hide_injections. lra. }
    assert (Hone : (inject_Z (Z.of_nat (S (List.length rules)) - Z.of_nat 0)
                    / inject_Z (Z.of_nat (S (List.length rules))) == 1)%Q).
    { rewrite Z.sub_0_r. field. lra. }
    rewrite Hone.
    set (avg := spec_avg_rule_confidence (rule :: rules)) in *.
    split.
    + apply Qle_shift_div_l; lra.
    + apply Qle_shift_div_r; lra.
Qed.

(** C6 — For every specification text the overall confidence that
    compilation returns is the average of the success rate (statements
    minus errors over statements, 0 when there is no statement) and of the
    mean confidence of all constructed rules (0 when there is none); it
    lies between 0 and 1, and it is 0 for the empty text. *)
Theorem C6_overall_confidence (RegExp_new : string -> string -> result RegExp)
    (spec : QualitySpec) :
  ∃ res, parseQualitySpec RegExp_new spec = Ok res
    ∧ (p_confidence (p_metadata res)
       == spec_overall_confidence (totalRules (p_metadata res))
            (List.length (errors res))
            (constructed_rules RegExp_new (content spec)))%Q
    ∧ (0 <= p_confidence (p_metadata res) <= 1)%Q
    ∧ ∀ md, ∃ res0,
        parseQualitySpec RegExp_new {| content := EmptyString; spec_metadata := md |}
          = Ok res0
        ∧ (p_confidence (p_metadata res0) == 0)%Q.
Proof.
  eexists. split; [apply parseQualitySpec_result|]. simpl.
  destruct (constructed_rules_spec RegExp_new (content spec)) as (_ & Hlen & _).
  rewrite <- Hlen.
  assert (Hall : Forall (fun r => (0 <= confidence (metadata r) <= 1)%Q)
                   (constructed_rules RegExp_new (content spec))).
  { apply Forall_forall. intros r Hr. apply template_confidence_bounds.
    by destruct (constructed_rules_complete RegExp_new _ r Hr) as (_ & _ & Hq). }
  split; [apply calculateConfidence_spec|]. split.
  - rewrite calculateConfidence_spec. by apply spec_overall_bounds.
  - intros md. eexists. split; [apply parseQualitySpec_result|]. simpl.
    reflexivity.
Qed.

(** * Further properties of the compiler and the engine *)

(** ** The validator *)

(** The identifier counts the validator keeps: an identifier has a
    positive count exactly when a rule seen so far carries it. *)
Lemma validate_step_spec (ids : gmap string nat) ws es earlier r :
  (∀ k, (0 < default 0 (ids !! k))%nat ↔ k ∈ map id earlier) →
  ∃ ids', validate_step (ids, ws, es) r
          = (ids', ws ++ rule_warnings earlier r,
             es ++ (if is_incomplete r then [incomplete_error r] else []))
    ∧ ∀ k, (0 < default 0 (ids' !! k))%nat ↔ k ∈ map id (earlier ++ [r]).
Proof.
  intros Hinv. eexists. split.
  - unfold validate_step, rule_warnings, is_incomplete.
    assert (Hdup : (0 <? default 0 (ids !! id r))%nat
                   = bool_decide (id r ∈ map id earlier)).
    { destruct (0 <? default 0 (ids !! id r))%nat eqn:Hc.
      - apply Nat.ltb_lt, Hinv in Hc. by rewrite bool_decide_eq_true_2.
      - rewrite bool_decide_eq_false_2; [reflexivity|].
        intros Hin. apply Hinv, Nat.ltb_lt in Hin. congruence. }
    rewrite Hdup. unfold bool_decide.
    destruct (decide_rel elem_of (id r) (map id earlier)) as [Hin|Hin];
      destruct (decide (id r ∈ map id earlier)) as [Hin'|Hin']; try contradiction;
      destruct (Qltb (confidence (metadata r)) (7 # 10));
      destruct (condition r), (action r); simpl;
      rewrite ?app_nil_r, <- ?app_assoc; reflexivity.
  - intros k. rewrite map_app, elem_of_app. simpl. rewrite list_elem_of_singleton.
    destruct (decide (k = id r)) as [->|Hne].
    + rewrite lookup_insert_eq. simpl. split; [auto | lia].
    + rewrite lookup_insert_ne by congruence. rewrite Hinv. tauto.
Qed.

Lemma validate_fold_spec rules :
  ∀ (ids : gmap string nat) ws es earlier,
    (∀ k, (0 < default 0 (ids !! k))%nat ↔ k ∈ map id earlier) →
    ∃ ids', fold_left validate_step rules (ids, ws, es)
            = (ids', ws ++ warnings_from earlier rules,
               es ++ map incomplete_error (filter (fun r => is_incomplete r = true) rules)).
Proof.
  induction rules as [|r rules IH]; intros ids ws es earlier Hinv.
  - exists ids. simpl. by rewrite !app_nil_r.
  - destruct (validate_step_spec ids ws es earlier r Hinv) as (ids1 & Hstep & Hinv1).
    cbn [fold_left]. rewrite Hstep.
    destruct (IH ids1 (ws ++ rule_warnings earlier r)
                (es ++ (if is_incomplete r then [incomplete_error r] else []))
                (earlier ++ [r]) Hinv1) as (ids2 & Hfold).
    exists ids2. rewrite Hfold. cbn [warnings_from]. rewrite <- !app_assoc.
    f_equal. f_equal.
    rewrite filter_cons. destruct (is_incomplete r) eqn:Hi.
    + rewrite decide_True by reflexivity. reflexivity.
    + rewrite decide_False by discriminate. reflexivity.
Qed.

(** X1 — The validator gives a rule a duplicate warning exactly when an
    earlier rule of the list carries the same identifier, a low-confidence
    warning exactly when its confidence is below 0.7, in that order and
    rule by rule; and it gives one incomplete-rule error, in order, for
    every rule that lacks a condition or an action. *)
Theorem validateRules_characterised (rules : list ParsedRule) :
  validateRules rules
  = (warnings_from [] rules,
     map incomplete_error (filter (fun r => is_incomplete r = true) rules)).
Proof.
  unfold validateRules.
  destruct (validate_fold_spec rules ∅ [] [] []) as (ids & Hfold).
  - intros k. rewrite lookup_empty. simpl. split; [lia|].
    intros Hin. by apply not_elem_of_nil in Hin.
  - rewrite Hfold. reflexivity.
Qed.

(** ** Identifiers *)

Lemma chars_app (a b : string) :
  JsString.chars (a +:+ b) = JsString.chars a ++ JsString.chars b.
Proof. induction a as [|c a IH]; simpl; [reflexivity|]. by rewrite <- IH. Qed.

Lemma chars_inj (a b : string) : JsString.chars a = JsString.chars b → a = b.
Proof.
  intros Heq. rewrite <- (string_of_list_ascii_of_string a),
    <- (string_of_list_ascii_of_string b). unfold JsString.chars in Heq. by rewrite Heq.
Qed.

Lemma string_of_uint_digits (d : Decimal.uint) :
  Forall (fun c => JsString.is_digit c = true) (JsString.chars (NilEmpty.string_of_uint d)).
Proof. induction d; simpl; constructor; auto. Qed.

Lemma of_nat_digits (n : nat) :
  Forall (fun c => JsString.is_digit c = true) (JsString.chars (JsString.of_nat n)).
Proof. apply string_of_uint_digits. Qed.

Lemma of_nat_inj (n m : nat) : JsString.of_nat n = JsString.of_nat m → n = m.
Proof.
  unfold JsString.of_nat. intros Heq.
  assert (Hu : Nat.to_uint n = Nat.to_uint m).
  { pose proof (NilEmpty.usu (Nat.to_uint n)) as Hn.
    pose proof (NilEmpty.usu (Nat.to_uint m)) as Hm.
    rewrite Heq in Hn. congruence. }
  rewrite <- (DecimalNat.Unsigned.of_to n), <- (DecimalNat.Unsigned.of_to m).
  by rewrite Hu.
Qed.

(** Two texts that agree, each a run of digits followed by an underscore
    and more, start with the same digits. *)
Lemma digits_then_underscore (x y u v : list ascii) :
  Forall (fun c => JsString.is_digit c = true) x →
  Forall (fun c => JsString.is_digit c = true) y →
  x ++ "_"%char :: u = y ++ "_"%char :: v → x = y.
Proof.
  intros Hx. revert y. induction Hx as [|c x Hc Hx IH]; intros y Hy Heq.
  - destruct Hy as [|d y Hd Hy]; [reflexivity|].
    simpl in Heq. injection Heq as <- _. discriminate Hd.
  - destruct Hy as [|d y Hd Hy].
    + simpl in Heq. injection Heq as -> _. discriminate Hc.
    + simpl in Heq. injection Heq as -> Heq. f_equal. by apply IH.
Qed.

(** The number after the last underscore of an identifier determines it:
    identifiers with different numbers differ, whatever their prefixes. *)
Lemma numbered_id_inj (p q : string) (n m : nat) :
  p +:+ "_" +:+ JsString.of_nat n = q +:+ "_" +:+ JsString.of_nat m → n = m.
Proof.
  intros Heq. apply (f_equal JsString.chars) in Heq.
  rewrite !chars_app in Heq. simpl in Heq.
  apply (f_equal (@rev ascii)) in Heq.
  rewrite !rev_app_distr in Heq. simpl in Heq. rewrite <- !app_assoc in Heq. simpl in Heq.
  apply digits_then_underscore in Heq.
  - apply of_nat_inj, chars_inj. by apply rev_inj.
  - apply Forall_rev, of_nat_digits.
  - apply Forall_rev, of_nat_digits.
Qed.

Section IdFacts.

Variable RegExp_new : string -> string -> result RegExp.

(** The identifier of the rule at position [j] ends in [_<j + 1>]. *)
Lemma constructed_rule_id content j r :
  constructed_rules RegExp_new content !! j = Some r →
  ∃ p, id r = p +:+ "_" +:+ JsString.of_nat (j + 1).
Proof.
  intros Hr. apply constructed_rules_lookup in Hr. destruct Hr as (st & _ & Hp).
  destruct (parseRuleStatement_total RegExp_new st (j + 1)) as (r' & Hr' & _ & _ & Hk).
  assert (r' = r) as -> by congruence.
  destruct Hk as [(t & _ & (Hid & _ & _) & _)|(_ & _ & Hid & _)].
  - by exists (id_prefix t).
  - by exists "generic".
Qed.

Lemma constructed_ids_NoDup content :
  NoDup (map id (constructed_rules RegExp_new content)).
Proof.
  apply NoDup_alt. intros i j k Hi Hj.
  rewrite list_lookup_fmap in Hi, Hj.
  destruct (constructed_rules RegExp_new content !! i) as [ri|] eqn:Hri; [|discriminate].
  destruct (constructed_rules RegExp_new content !! j) as [rj|] eqn:Hrj; [|discriminate].
  simpl in Hi, Hj.
  destruct (constructed_rule_id content i ri Hri) as [p Hp].
  destruct (constructed_rule_id content j rj Hrj) as [q Hq].
  assert (Heq : p +:+ "_" +:+ JsString.of_nat (i + 1)
                = q +:+ "_" +:+ JsString.of_nat (j + 1)) by congruence.
  apply numbered_id_inj in Heq. lia.
Qed.

End IdFacts.

Lemma filter_ext_elem {A} (P Q : A → Prop) `{∀ x, Decision (P x)} `{∀ x, Decision (Q x)}
    (l : list A) :
  (∀ x, x ∈ l → (P x ↔ Q x)) → filter P l = filter Q l.
Proof.
  induction l as [|a l IH]; intros Hext; [reflexivity|].
  rewrite !filter_cons.
  rewrite IH by (intros x Hx; apply Hext; by right).
  pose proof (Hext a (list_elem_of_here a l)) as Ha.
  destruct (decide (P a)), (decide (Q a)); tauto.
Qed.

(** Without a repeated identifier the validator's warnings are the
    low-confidence ones. *)
Lemma warnings_from_NoDup rules :
  ∀ earlier, NoDup (map id (earlier ++ rules)) →
  warnings_from earlier rules
  = map low_confidence_warning
      (filter (fun r => Qltb (confidence (metadata r)) (7 # 10) = true) rules).
Proof.
  induction rules as [|r rules IH]; intros earlier Hnd; [reflexivity|].
  cbn [warnings_from]. rewrite IH by (by rewrite <- app_assoc).
  unfold rule_warnings.
  rewrite decide_False.
  - rewrite filter_cons. simpl.
    destruct (Qltb (confidence (metadata r)) (7 # 10)) eqn:Hq.
    + by rewrite decide_True.
    + by rewrite decide_False.
  - rewrite map_app in Hnd. simpl in Hnd.
    apply NoDup_app in Hnd. destruct Hnd as (_ & Hdisj & _).
    intros Hin. apply (Hdisj _ Hin). left.
Qed.

(** X2 — The identifiers of the rules constructed for a text are pairwise
    distinct, so the validator never reports a duplicate on a compilation:
    the warnings are one low-confidence warning for each constructed rule
    that is not usable (the fallback rules), and the usable rules and the
    warnings together number the statements. *)
Theorem compiled_ids_distinct (RegExp_new : string -> string -> result RegExp)
    (spec : QualitySpec) :
  ∃ res, parseQualitySpec RegExp_new spec = Ok res
    ∧ NoDup (map id (constructed_rules RegExp_new (content spec)))
    ∧ NoDup (map id (rules res))
    ∧ warnings res
      = map low_confidence_warning
          (filter (fun r => ¬ (Qltb (1 # 2) (confidence (metadata r)) = true))
             (constructed_rules RegExp_new (content spec)))
    ∧ totalRules (p_metadata res)
      = List.length (rules res) + List.length (warnings res).
Proof.
  eexists. split; [apply parseQualitySpec_result|]. simpl.
  pose proof (constructed_ids_NoDup RegExp_new (content spec)) as Hnd.
  assert (Hw : (validateRules (constructed_rules RegExp_new (content spec))).1
               = map low_confidence_warning
                   (filter (fun r => ¬ (Qltb (1 # 2) (confidence (metadata r)) = true))
                      (constructed_rules RegExp_new (content spec)))).
  { unfold validateRules.
    destruct (validate_fold_spec (constructed_rules RegExp_new (content spec)) ∅ [] [] [])
      as (ids & Hfold).
    { intros k. rewrite lookup_empty. simpl. split; [lia|].
      intros Hin. by apply not_elem_of_nil in Hin. }
    rewrite Hfold. simpl. rewrite warnings_from_NoDup by assumption.
    f_equal. apply filter_ext_elem. intros r Hr.
    destruct (constructed_rules_complete RegExp_new _ r Hr) as (_ & _ & Hq).
    unfold template_confidence in Hq.
    destruct Hq as [->|[->|[->|[->|[->| ->]]]]]; vm_compute; split; congruence. }
  split; [assumption|]. split.
  - apply NoDup_fmap_2_strong; [|apply NoDup_filter; by apply (NoDup_fmap_1 id)].
    intros r1 r2 Hr1 Hr2 Heq.
    apply list_elem_of_filter in Hr1, Hr2. destruct Hr1 as [_ Hr1], Hr2 as [_ Hr2].
    apply list_elem_of_lookup in Hr1, Hr2. destruct Hr1 as [i Hi], Hr2 as [j Hj].
    assert (i = j); [|congruence].
    apply (proj1 (NoDup_alt _) Hnd i j (id r1)); rewrite list_lookup_fmap.
    + by rewrite Hi.
    + rewrite Hj. simpl. by rewrite Heq.
  - split; [assumption|]. rewrite Hw, length_map.
    destruct (constructed_rules_spec RegExp_new (content spec)) as (_ & Hlen & _).
    rewrite <- Hlen, <- length_app. apply Permutation_length. symmetry.
    apply filter_app_complement.
Qed.

(** ** Statement extraction *)

Lemma chars_of_chars (l : list ascii) : JsString.chars (JsString.of_chars l) = l.
Proof. apply list_ascii_of_string_of_list_ascii. Qed.

Lemma drop_spaces_head (l : list ascii) (c : ascii) :
  head (JsString.drop_spaces l) = Some c → JsString.is_space c = false.
Proof.
  induction l as [|a l IH]; simpl; [discriminate|].
  destruct (JsString.is_space a) eqn:Ha; [assumption|].
  simpl. intros [= <-]. assumption.
Qed.

Lemma drop_spaces_suffix (l : list ascii) : ∃ k, l = k ++ JsString.drop_spaces l.
Proof.
  induction l as [|a l [k IH]]; simpl; [by exists []|].
  destruct (JsString.is_space a).
  - exists (a :: k). simpl. by rewrite <- IH.
  - by exists [].
Qed.

Lemma last_rev_head {A} (l : list A) : last (rev l) = head l.
Proof. destruct l as [|a l]; [reflexivity|]. simpl. apply last_snoc. Qed.

Lemma head_rev_last {A} (l : list A) : head (rev l) = last l.
Proof. rewrite <- (rev_involutive l) at 2. by rewrite last_rev_head. Qed.

(** [trim] leaves no white space at either end. *)
Lemma trim_ends (s : string) (c : ascii) :
  head (JsString.chars (JsString.trim s)) = Some c
  ∨ last (JsString.chars (JsString.trim s)) = Some c →
  JsString.is_space c = false.
Proof.
  unfold JsString.trim. rewrite chars_of_chars.
  set (l1 := JsString.drop_spaces (JsString.chars s)).
  intros [Hh|Hl].
  - rewrite head_rev_last in Hh.
    destruct (drop_spaces_suffix (rev l1)) as [k Hk].
    assert (Hlast : last (rev l1) = Some c).
    { rewrite Hk. apply last_app_Some. left. exact Hh. }
    rewrite last_rev_head in Hlast.
    by apply (drop_spaces_head (JsString.chars s)).
  - rewrite last_rev_head in Hl. by apply drop_spaces_head in Hl.
Qed.

Lemma is_statement_text_spec (t : string) :
  is_statement_text t = true →
  t ≠ EmptyString ∧ JsString.startsWith t "#" = false ∧ JsString.startsWith t "//" = false.
Proof.
  unfold is_statement_text, JsString.truthy.
  rewrite negb_true_iff, !orb_false_iff, negb_false_iff, negb_true_iff.
  intros [[Ht Hh] Hs]. repeat split; try assumption.
  intros ->. discriminate Ht.
Qed.

Lemma extractRuleStatements_from_spec (lines : list string) :
  ∀ i,
    map text (extractRuleStatements_from i lines)
    = filter (fun t => is_statement_text t = true) (map JsString.trim lines)
    ∧ Forall (fun st => ∃ l, lines !! (lineNumber st - 1 - i) = Some l
                          ∧ (i + 1 ≤ lineNumber st)%nat
                          ∧ text st = JsString.trim l
                          ∧ is_statement_text (text st) = true)
        (extractRuleStatements_from i lines)
    ∧ StronglySorted lt (map lineNumber (extractRuleStatements_from i lines)).
Proof.
  induction lines as [|l lines IH]; intros i.
  - simpl. repeat split; constructor.
  - destruct (IH (S i)) as (Htext & Hall & Hsorted).
    assert (Hshift : Forall (fun st => ∃ l0, (l :: lines) !! (lineNumber st - 1 - i) = Some l0
                          ∧ (i + 1 ≤ lineNumber st)%nat
                          ∧ text st = JsString.trim l0
                          ∧ is_statement_text (text st) = true)
                       (extractRuleStatements_from (S i) lines)).
    { eapply Forall_impl; [exact Hall|].
      intros st (l0 & Hl0 & Hge & Ht & Hk). exists l0.
      replace (lineNumber st - 1 - i) with (S (lineNumber st - 1 - S i)) by lia.
      repeat split; try assumption. lia. }
    cbn [extractRuleStatements_from map]. cbv zeta. rewrite filter_cons.
    destruct (is_statement_text (JsString.trim l)) eqn:Hk;
      pose proof Hk as Hk'; unfold is_statement_text in Hk';
      [apply negb_true_iff in Hk'|apply negb_false_iff in Hk']; rewrite Hk'.
    + rewrite decide_True by reflexivity.
      cbn [map text lineNumber]. rewrite Htext. split; [reflexivity|]. split.
      * constructor; [|assumption].
        exists l. cbn [lineNumber text].
        replace (i + 1 - 1 - i) with 0 by lia. repeat split; auto.
      * constructor; [assumption|].
        apply Forall_fmap. eapply Forall_impl; [exact Hall|].
        intros st (_ & _ & Hge & _). simpl. lia.
    + rewrite decide_False by discriminate. auto.
Qed.

(** X3 — The statements extracted from a text are the trimmed lines that
    are neither empty nor comments ([#] or [//]), in source order; each
    carries the 1-based number of its line, so the line numbers increase
    strictly, and its text has no white space at either end. *)
Theorem extractRuleStatements_shape (content : string) :
  map text (extractRuleStatements content)
  = filter (fun t => is_statement_text t = true)
      (map JsString.trim (JsString.split_lines content))
  ∧ Forall (fun st =>
              ∃ l, JsString.split_lines content !! (lineNumber st - 1) = Some l
                ∧ (1 ≤ lineNumber st)%nat
                ∧ text st = JsString.trim l
                ∧ text st ≠ EmptyString
                ∧ JsString.startsWith (text st) "#" = false
                ∧ JsString.startsWith (text st) "//" = false
                ∧ ∀ c, head (JsString.chars (text st)) = Some c
                       ∨ last (JsString.chars (text st)) = Some c →
                       JsString.is_space c = false)
      (extractRuleStatements content)
  ∧ StronglySorted lt (map lineNumber (extractRuleStatements content)).
Proof.
  unfold extractRuleStatements.
  destruct (extractRuleStatements_from_spec (JsString.split_lines content) 0)
    as (Htext & Hall & Hsorted).
  split; [assumption|]. split; [|assumption].
  eapply Forall_impl; [exact Hall|].
  intros st (l & Hl & Hge & Ht & Hk). exists l.
  rewrite Nat.sub_0_r in Hl.
  destruct (is_statement_text_spec _ Hk) as (Hne & Hh & Hs).
  repeat split; try assumption.
  intros c Hc. rewrite Ht in Hc. by apply trim_ends in Hc.
Qed.

(** ** Severity keywords and metrics *)

Lemma keywordMappings_lookup (k v : string) :
  keywordMappings !! k = Some v →
  (k, v) ∈ [ ("must", "error"); ("shall", "error"); ("should", "warning"); ("may", "info");
             ("critical", "critical"); ("error", "error"); ("warning", "warning");
             ("info", "info");
             ("warn", "warning"); ("flag", "violation"); ("suggest", "suggestion");
             ("block", "violation"); ("allow", "suggestion") ].
Proof. unfold keywordMappings. apply elem_of_list_to_map_2. Qed.

(** X4 — Whatever the keyword, [mapSeverity] returns one of six strings;
    the result is outside the four severities exactly when the keyword,
    lower-cased, is [flag], [block], [suggest] or [allow]. *)
Theorem mapSeverity_range (severityText : string) :
  mapSeverity severityText
    ∈ ["critical"; "error"; "warning"; "info"; "violation"; "suggestion"]
  ∧ (¬ is_severity (mapSeverity severityText)
     ↔ JsString.toLowerCase severityText ∈ ["flag"; "block"; "suggest"; "allow"]).
Proof.
  unfold mapSeverity, is_severity.
  remember (JsString.toLowerCase severityText) as k eqn:Hlow. clear Hlow.
  destruct (keywordMappings !! k) as [v|] eqn:Hk.
  - pose proof (keywordMappings_lookup _ _ Hk) as Hin. clear Hk.
    rewrite !elem_of_cons, elem_of_nil in Hin.
    repeat match goal with Hx : _ ∨ _ |- _ => destruct Hx as [Hx|Hx] end;
      try contradiction; injection Hin as -> ->;
      (split; [apply (bool_decide_eq_true_1 _); vm_compute; reflexivity|]);
      apply (bool_decide_eq_true_1 _); vm_compute; reflexivity.
  - split; [apply (bool_decide_eq_true_1 _); vm_compute; reflexivity|]. split.
    + intros Hn. exfalso. apply Hn. tauto.
    + rewrite !elem_of_cons, elem_of_nil.
      intros [Hl|[Hl|[Hl|[Hl|[]]]]]; rewrite Hl in Hk; vm_compute in Hk; discriminate.
Qed.

Lemma split_lines_aux_length (l : list ascii) :
  ∀ cur, List.length (JsString.split_lines_aux cur l)
         = S (List.length (filter (fun c => c = JsString.newline) l)).
Proof.
  induction l as [|c l IH]; intros cur; [reflexivity|].
  cbn [JsString.split_lines_aux]. rewrite filter_cons.
  destruct (Ascii.eqb_spec c JsString.newline) as [->|Hne].
  - rewrite decide_True by reflexivity. cbn [List.length]. by rewrite IH.
  - rewrite decide_False by assumption. apply IH.
Qed.

(** X5 — Under either of its names, in any letter case, the lines metric
    of a content is one more than the number of its newline characters:
    it is never 0, and it is 1 for the empty content. *)
Theorem calculateMetric_lines (content metricName : string) :
  JsString.toLowerCase metricName ∈ ["lines"; "line count"] →
  calculateMetric content metricName
  = S (List.length (filter (fun c => c = JsString.newline) (JsString.chars content))).
Proof.
  intros Hname. unfold calculateMetric, JsString.split_lines.
  rewrite <- split_lines_aux_length with (cur := []).
  rewrite !elem_of_cons, elem_of_nil in Hname.
  destruct Hname as [-> | [-> | []]]; reflexivity.
Qed.

Lemma calculateMetric_lines_witness :
  let content := "a" +:+ JsString.of_chars [JsString.newline] +:+ "b" in
  JsString.toLowerCase "Line Count" ∈ ["lines"; "line count"]
  ∧ calculateMetric content "Line Count"
    = S (List.length (filter (fun c => c = JsString.newline) (JsString.chars content))).
Proof.
  split; [|apply calculateMetric_lines];
    apply (bool_decide_eq_true_1 _); vm_compute; reflexivity.
Defined.

Lemma number_le_lt (a b : number) :
  a ≠ NaN → b ≠ NaN → number_le a b = negb (number_lt b a).
Proof.
  intros Ha Hb. unfold number_le.
  destruct a as [|x|[]], b as [|y|[]]; try congruence; try reflexivity.
  cbn [number_lt number_eq]. unfold Qltb, Qle_bool, Qeq_bool.
  destruct (Z.leb_spec (Qnum y * QDen x) (Qnum x * QDen y));
    destruct (Z.leb_spec (Qnum x * QDen y) (Qnum y * QDen x));
    destruct (Z.eqb_spec (Qnum x * QDen y) (Qnum y * QDen x));
    cbn [negb orb]; try reflexivity; lia.
Qed.

Lemma inject_N_eq (a b : N) : (inject_Z (Z.of_N a) == inject_Z (Z.of_N b))%Q ↔ a = b.
Proof. rewrite inject_Z_injective. lia. Qed.

Lemma inject_N_lt (a b : N) : (inject_Z (Z.of_N a) < inject_Z (Z.of_N b))%Q ↔ (a < b)%N.
Proof. rewrite <- Zlt_Qlt. lia. Qed.

(** X6 — A threshold that is a string is compared as the number
    [parseFloat] reads from it. Against a threshold that is not a number
    every comparison is false but [!=], which is true. Against any other
    threshold the operators [<=] and [>] are complementary, and so are [>=]
    and [<]; [!=] is always the negation of [==]; [==], [>] and [<] are
    equality and the strict orders of the measured value and the
    threshold; a comparison under any other operator text is false. *)
Theorem compareMetric_operators (measured : nat) (threshold : NumberOrString) :
  let v := inject_Z (Z.of_nat measured) in
  let numThreshold :=
    match threshold with
    | StringValue s => parseFloat s
    | NumberValue x => x
    end in
  (∀ op, compareMetric measured op threshold
         = compareMetric measured op (NumberValue numThreshold))
  ∧ (numThreshold = NaN →
     compareMetric measured "!=" threshold = true
     ∧ ∀ op, op ≠ "!=" → compareMetric measured op threshold = false)
  ∧ (numThreshold ≠ NaN →
     compareMetric measured "<=" threshold = negb (compareMetric measured ">" threshold)
     ∧ compareMetric measured ">=" threshold
       = negb (compareMetric measured "<" threshold))
  ∧ compareMetric measured "!=" threshold = negb (compareMetric measured "==" threshold)
  ∧ (∀ q, numThreshold = Rat q →
       (compareMetric measured "==" threshold = true ↔ (v == q)%Q)
       ∧ (compareMetric measured ">" threshold = true ↔ (q < v)%Q)
       ∧ (compareMetric measured "<" threshold = true ↔ (v < q)%Q))
  ∧ (∀ n, threshold = whole n →
       (compareMetric measured "==" threshold = true ↔ N.of_nat measured = n)
       ∧ (compareMetric measured ">" threshold = true ↔ (n < N.of_nat measured)%N)
       ∧ (compareMetric measured "<" threshold = true ↔ (N.of_nat measured < n)%N))
  ∧ ∀ op, op ∉ [">"; "<"; ">="; "<="; "=="; "!="] →
      compareMetric measured op threshold = false.
Proof.
  cbv zeta. unfold compareMetric.
  set (numThreshold := match threshold with
                       | StringValue s => parseFloat s
                       | NumberValue x => x
                       end).
  cbn [String.eqb Ascii.eqb Bool.eqb].
  split; [reflexivity|]. split; [|split; [|split; [reflexivity|split; [|split]]]].
  - intros ->. split; [reflexivity|]. intros op Hop.
    repeat match goal with
    | |- context [String.eqb op ?s] => destruct (String.eqb_spec op s); [try reflexivity|]
    end; try reflexivity.
    congruence.
  - intros Hnan. split; apply number_le_lt; congruence.
  - intros q ->. cbn [number_eq number_lt]. split; [|split].
    + apply Qeq_bool_iff.
    + apply Qltb_lt.
    + apply Qltb_lt.
  - intros n Hn. subst threshold. unfold whole in numThreshold. subst numThreshold.
    cbn [number_eq number_lt].
    replace (Z.of_nat measured) with (Z.of_N (N.of_nat measured)) by lia.
    rewrite Qeq_bool_iff, !Qltb_lt, inject_N_eq, !inject_N_lt. tauto.
  - intros op Hop. rewrite !not_elem_of_cons in Hop.
    destruct Hop as (H1 & H2 & H3 & H4 & H5 & H6 & _).
    repeat match goal with
    | |- context [String.eqb op ?s] =>
        destruct (String.eqb_spec op s); [contradiction|]
    end.
    reflexivity.
Qed.

(** ** Confidence of a non-empty text, and the verdict on it *)

Lemma sum_confidence_between (lo hi : Q) rules :
  Forall (fun r => (lo <= confidence (metadata r) <= hi)%Q) rules →
  (lo * inject_Z (Z.of_nat (List.length rules)) <= sum_confidence rules
   <= hi * inject_Z (Z.of_nat (List.length rules)))%Q.
Proof.
  induction 1 as [|rule rules [Hlo Hhi] _ [IHlo IHhi]].
  - simpl. split; ring_simplify; apply Qle_refl.
  - cbn [sum_confidence fold_right List.length]. fold (sum_confidence rules).
    pose proof (inject_Z_succ (List.length rules)) as Hs.
    hide_injections. rewrite Hs. split; lra.
Qed.

Lemma calculateConfidence_between (lo hi : Q) rules :
  rules ≠ [] →
  Forall (fun r => (lo <= confidence (metadata r) <= hi)%Q) rules →
  ((1 + lo) / 2 <= calculateConfidence rules [] (List.length rules) <= (1 + hi) / 2)%Q.
Proof.
  intros Hne Hall. destruct rules as [|rule rules]; [congruence|].
  destruct (sum_confidence_between lo hi _ Hall) as [Hlo Hhi].
  rewrite calculateConfidence_spec.
  unfold spec_overall_confidence, spec_success_rate, spec_avg_rule_confidence.
  cbn [List.length Nat.eqb] in *.
  assert (Hpos : (0 < inject_Z (Z.of_nat (S (List.length rules))))%Q).
  { pose proof (inject_Z_succ (List.length rules)) as Hs.
    pose proof (inject_Z_nat_nonneg (List.length rules)).
    hide_injections. lra. }
  assert (Hone : (inject_Z (Z.of_nat (S (List.length rules)) - Z.of_nat 0)
                  / inject_Z (Z.of_nat (S (List.length rules))) == 1)%Q).
  { rewrite Z.sub_0_r. field. lra. }
  rewrite Hone.
  set (n := inject_Z (Z.of_nat (S (List.length rules)))) in *.
  set (total := sum_confidence (rule :: rules)) in *.
  assert (Havg : (lo <= total / n <= hi)%Q).
  { split.
    - apply Qle_shift_div_l; assumption.
    - apply Qle_shift_div_r; assumption. }
  destruct Havg as [Ha Hb]. set (avg := (total / n)%Q) in *. clearbody avg.
  unfold Qdiv. change (/ 2)%Q with (1 # 2)%Q. split; lra.
Qed.

Section VerdictFacts.

Variable RegExp_new : string -> string -> result RegExp.

Lemma constructed_warnings content :
  (validateRules (constructed_rules RegExp_new content)).1
  = map low_confidence_warning
      (filter (fun r => Qltb (confidence (metadata r)) (7 # 10) = true)
         (constructed_rules RegExp_new content)).
Proof.
  unfold validateRules.
  destruct (validate_fold_spec (constructed_rules RegExp_new content) ∅ [] [] [])
    as (ids & Hfold).
  { intros k. rewrite lookup_empty. simpl. split; [lia|].
    intros Hin. by apply not_elem_of_nil in Hin. }
  rewrite Hfold. simpl. apply warnings_from_NoDup. apply constructed_ids_NoDup.
Qed.

Lemma constructed_confidence_range content r :
  r ∈ constructed_rules RegExp_new content →
  (3 # 10 <= confidence (metadata r) <= 9 # 10)%Q.
Proof.
  intros Hr. destruct (constructed_rules_complete RegExp_new _ r Hr) as (_ & _ & Hq).
  unfold template_confidence in Hq.
  destruct Hq as [->|[->|[->|[->|[->| ->]]]]]; split; unfold Qle; simpl; lia.
Qed.

(** Without a warning every constructed rule has a template's confidence. *)
Lemma no_warning_confidence content r :
  (validateRules (constructed_rules RegExp_new content)).1 = [] →
  r ∈ constructed_rules RegExp_new content →
  (7 # 10 <= confidence (metadata r) <= 9 # 10)%Q
  ∧ Qltb (1 # 2) (confidence (metadata r)) = true.
Proof.
  rewrite constructed_warnings. intros Hw Hr.
  apply fmap_nil_inv in Hw.
  destruct (constructed_rules_complete RegExp_new _ r Hr) as (_ & _ & Hq).
  unfold template_confidence in Hq.
  destruct Hq as [Hq|[Hq|[Hq|[Hq|[Hq|Hq]]]]]; rewrite Hq;
    try (split; [split; unfold Qle; simpl; lia | reflexivity]).
  exfalso. eapply (filter_nil_not_elem_of _ _ r Hw); [|exact Hr].
  by rewrite Hq.
Qed.

(** Without a usable rule every constructed rule is a fallback rule. *)
Lemma no_rule_confidence content r :
  filter (fun rule => Qltb (1 # 2) (confidence (metadata rule)) = true)
    (constructed_rules RegExp_new content) = [] →
  r ∈ constructed_rules RegExp_new content →
  (3 # 10 <= confidence (metadata r) <= 3 # 10)%Q.
Proof.
  intros Hf Hr.
  destruct (constructed_rules_complete RegExp_new _ r Hr) as (_ & _ & Hq).
  unfold template_confidence in Hq.
  destruct Hq as [Hq|[Hq|[Hq|[Hq|[Hq|Hq]]]]]; rewrite Hq;
    try (split; unfold Qle; simpl; lia);
    exfalso; (eapply (filter_nil_not_elem_of _ _ r Hf); [|exact Hr]); by rewrite Hq.
Qed.

Lemma constructed_rules_nonempty content :
  extractRuleStatements content ≠ [] → constructed_rules RegExp_new content ≠ [].
Proof.
  intros Hne Hnil.
  destruct (constructed_rules_spec RegExp_new content) as (_ & Hlen & _).
  rewrite Hnil in Hlen. destruct (extractRuleStatements content); [congruence|discriminate].
Qed.

End VerdictFacts.

(** X7 — For a text with at least one statement the overall confidence
    lies strictly between 0.6 and 1; it is below 0.7 when no usable rule
    is returned, and above 0.8 when compilation gives no warning. Each
    bound stands 0.05 away from the value the formula takes in exact
    arithmetic (0.65 and 0.95, 0.65, 0.85), which leaves room for the
    rounding of the host's sums. *)
Theorem compiled_confidence_bounds (RegExp_new : string -> string -> result RegExp)
    (spec : QualitySpec) :
  extractRuleStatements (content spec) ≠ [] →
  ∃ res, parseQualitySpec RegExp_new spec = Ok res
    ∧ (6 # 10 < p_confidence (p_metadata res) < 1)%Q
    ∧ (rules res = [] → (p_confidence (p_metadata res) < 7 # 10)%Q)
    ∧ (warnings res = [] → (8 # 10 < p_confidence (p_metadata res))%Q).
Proof.
  intros Hne. eexists. split; [apply parseQualitySpec_result|]. simpl.
  destruct (constructed_rules_spec RegExp_new (content spec)) as (_ & Hlen & _).
  rewrite <- Hlen.
  pose proof (constructed_rules_nonempty RegExp_new _ Hne) as Hrules.
  split; [|split].
  - assert (Hb := calculateConfidence_between (3 # 10) (9 # 10) _ Hrules).
    destruct Hb as [Hlo Hhi].
    { apply Forall_forall. intros r Hr. by apply constructed_confidence_range in Hr. }
    revert Hlo Hhi. unfold Qdiv. change (/ 2)%Q with (1 # 2)%Q. intros. split; lra.
  - intros Hnil.
    assert (Hb := calculateConfidence_between (3 # 10) (3 # 10) _ Hrules).
    destruct Hb as [Hlo Hhi].
    { apply Forall_forall. intros r Hr. by apply (no_rule_confidence _ _ _ Hnil). }
    revert Hlo Hhi. unfold Qdiv. change (/ 2)%Q with (1 # 2)%Q. intros. lra.
  - intros Hnil.
    assert (Hb := calculateConfidence_between (7 # 10) (9 # 10) _ Hrules).
    destruct Hb as [Hlo Hhi].
    { apply Forall_forall. intros r Hr. by apply (no_warning_confidence _ _ _ Hnil). }
    revert Hlo Hhi. unfold Qdiv. change (/ 2)%Q with (1 # 2)%Q. intros. lra.
Qed.

Lemma compiled_confidence_bounds_witness :
  extractRuleStatements (content (spec_of two_templates_text)) ≠ []
  ∧ ∃ res, parseQualitySpec host_RegExp_new (spec_of two_templates_text) = Ok res
      ∧ (6 # 10 < p_confidence (p_metadata res) < 1)%Q
      ∧ (rules res = [] → (p_confidence (p_metadata res) < 7 # 10)%Q)
      ∧ (warnings res = [] → (8 # 10 < p_confidence (p_metadata res))%Q).
Proof.
  assert (Hne : extractRuleStatements (content (spec_of two_templates_text)) ≠ [])
    by (vm_compute; discriminate).
  split; [exact Hne|].
  exact (compiled_confidence_bounds host_RegExp_new (spec_of two_templates_text) Hne).
Defined.

(** X8 — Validation of a specification never reports an error; it is
    positive only if some statement matches a template, and it is positive
    whenever the text has a statement and compilation gives no warning. *)
Theorem validateQualitySpec_verdict (RegExp_new : string -> string -> result RegExp)
    (spec : QualitySpec) :
  let verdict := validateQualitySpec RegExp_new spec in
  val_errors verdict = []
  ∧ (isValid verdict = true →
     ∃ j statement t r,
       extractRuleStatements (content spec) !! j = Some statement
       ∧ try_patterns (rulePatterns RegExp_new) statement (j + 1) = Some (t, r))
  ∧ (extractRuleStatements (content spec) ≠ [] → val_warnings verdict = [] →
     isValid verdict = true).
Proof.
  unfold validateQualitySpec. rewrite parseQualitySpec_result.
  cbn [isValid val_errors val_warnings errors warnings rules p_metadata p_confidence
       List.length Nat.eqb map andb].
  split; [reflexivity|]. split.
  - intros Hv. apply andb_true_iff in Hv. destruct Hv as [_ Hpos].
    apply Nat.ltb_lt in Hpos.
    destruct (filter _ _) as [|r rs] eqn:Hf; [simpl in Hpos; lia|].
    assert (Hr : r ∈ filter (fun rule => Qltb (1 # 2) (confidence (metadata rule)) = true)
                       (constructed_rules RegExp_new (content spec)))
      by (rewrite Hf; left).
    apply list_elem_of_filter in Hr. destruct Hr as [Hq Hr].
    apply list_elem_of_lookup in Hr. destruct Hr as [j Hj].
    destruct (constructed_rules_lookup RegExp_new _ _ _ Hj) as (statement & Hs & Hp).
    destruct (parseRuleStatement_total RegExp_new statement (j + 1))
      as (r' & Hp' & _ & _ & [(t & Ht & _)|(_ & _ & _ & Hc)]).
    + exists j, statement, t, r'. split; [assumption|]. exact Ht.
    + exfalso. assert (r' = r) by congruence. subst r'.
      rewrite Hc in Hq. vm_compute in Hq. discriminate.
  - intros Hne Hw.
    pose proof (constructed_rules_nonempty RegExp_new _ Hne) as Hrules.
    destruct (constructed_rules_spec RegExp_new (content spec)) as (_ & Hlen & _).
    rewrite <- Hlen.
    assert (Hb := calculateConfidence_between (7 # 10) (9 # 10) _ Hrules).
    destruct Hb as [Hlo _].
    { apply Forall_forall. intros r Hr. by apply (no_warning_confidence _ _ _ Hw). }
    apply andb_true_iff. split.
    + apply Qltb_lt. revert Hlo. unfold Qdiv. change (/ 2)%Q with (1 # 2)%Q. intros. lra.
    + apply Nat.ltb_lt.
      assert (Hall : ∀ r, r ∈ constructed_rules RegExp_new (content spec) →
                          Qltb (1 # 2) (confidence (metadata r)) = true)
        by (intros r Hr; by apply (no_warning_confidence _ _ _ Hw)).
      destruct (constructed_rules RegExp_new (content spec)) as [|r rs];
        [congruence|].
      rewrite filter_cons, decide_True; [simpl; lia|].
      apply Hall. left.
Qed.

Lemma validateQualitySpec_verdict_witness :
  isValid (validateQualitySpec host_RegExp_new (spec_of two_templates_text)) = true.
Proof.
  apply (validateQualitySpec_verdict host_RegExp_new (spec_of two_templates_text));
    [vm_compute; discriminate | vm_compute; reflexivity].
Defined.

(** X9 — Loading standards under an identifier always succeeds: it
    replaces what is loaded there by one executable rule per usable rule of
    the specification, in order and under pairwise distinct identifiers,
    and leaves every other identifier as it is; clearing the identifier
    afterwards leaves nothing there, and the others as they were. *)
Theorem loadQualityStandards_store (RegExp_new : string -> string -> result RegExp)
    (H : Type) (stamp : H → string * H) (svc : AnalysisService H)
    (teamId : string) (spec : QualitySpec) :
  ∃ svc' res,
    loadQualityStandards RegExp_new H stamp svc teamId spec = Ok svc'
    ∧ parseQualitySpec RegExp_new spec = Ok res
    ∧ map (x_id H) (getLoadedRules H svc' teamId) = map id (rules res)
    ∧ map (originalRule H) (getLoadedRules H svc' teamId) = map Some (rules res)
    ∧ NoDup (map (x_id H) (getLoadedRules H svc' teamId))
    ∧ getLoadedRules H (clearRules H svc' teamId) teamId = []
    ∧ ∀ other, other ≠ teamId →
        getLoadedRules H svc' other = getLoadedRules H svc other
        ∧ getLoadedRules H (clearRules H svc' teamId) other = getLoadedRules H svc other.
Proof.
  unfold loadQualityStandards. rewrite parseQualitySpec_result.
  eexists. eexists. split; [reflexivity|]. split; [reflexivity|].
  unfold getLoadedRules, clearRules. cbn [customRules rules].
  rewrite lookup_insert_eq, lookup_delete_eq. cbn [from_option]. unfold Datatypes.id.
  unfold convertToExecutableRules. rewrite !map_map. cbn [x_id originalRule].
  split; [reflexivity|]. split; [reflexivity|]. split; [|split; [reflexivity|]].
  - pose proof (constructed_ids_NoDup RegExp_new (content spec)) as Hnd.
    apply NoDup_fmap_2_strong; [|apply NoDup_filter; by apply (NoDup_fmap_1 id)].
    intros r1 r2 Hr1 Hr2 Heq.
    apply list_elem_of_filter in Hr1, Hr2. destruct Hr1 as [_ Hr1], Hr2 as [_ Hr2].
    apply list_elem_of_lookup in Hr1, Hr2. destruct Hr1 as [i Hi], Hr2 as [j Hj].
    assert (i = j); [|congruence].
    apply (proj1 (NoDup_alt _) Hnd i j (id r1)); rewrite list_lookup_fmap.
    + by rewrite Hi.
    + rewrite Hj. simpl. by rewrite Heq.
  - intros other Hne.
    rewrite lookup_delete_ne, lookup_insert_ne by congruence. split; reflexivity.
Qed.

(** ** Matches, violations and the rules a request selects *)

Section MatcherShape.

Variable RegExp_new : string -> string -> result RegExp.

Lemma scan_lines_spec (regex : RegExp) (lines : list string) :
  ∀ index,
    Forall (fun m => ∃ j, m_line m = index + j + 1
                       ∧ lines !! j = Some (m_context m)
                       ∧ line_match regex (m_context m) = Some (m_column m, m_text m))
      (scan_lines regex lines index)
    ∧ StronglySorted lt (map m_line (scan_lines regex lines index))
    ∧ map m_context (scan_lines regex lines index)
      = filter (fun line => is_Some (line_match regex line)) lines.
Proof.
  induction lines as [|line lines IH]; intros index.
  - simpl. repeat split; constructor.
  - destruct (IH (S index)) as (Hall & Hsorted & Hctx).
    assert (Hshift :
      Forall (fun m => ∃ j, m_line m = index + j + 1
                         ∧ (line :: lines) !! j = Some (m_context m)
                         ∧ line_match regex (m_context m) = Some (m_column m, m_text m))
        (scan_lines regex lines (S index))).
    { eapply Forall_impl; [exact Hall|].
      intros m (j & Hj & Hl & Hm). exists (S j). repeat split; try assumption. lia. }
    cbn [scan_lines]. rewrite filter_cons.
    destruct (line_match regex line) as [[col hit]|] eqn:Hm.
    + rewrite decide_True by (by eexists).
      cbn [map m_line m_context]. rewrite Hctx. split; [|split; [|reflexivity]].
      * constructor; [|assumption]. exists 0. cbn. repeat split; try assumption. lia.
      * constructor; [assumption|].
        apply Forall_fmap. eapply Forall_impl; [exact Hall|].
        intros m (j & Hj & _). simpl. lia.
    + rewrite decide_False by (intros [? ?]; discriminate). auto.
Qed.

End MatcherShape.

(** X10 — The matches a matcher returns lie on lines of the content, with
    strictly increasing line numbers (at most one match on a line). A
    metric or custom condition gives at most one match, at line 1, column
    1. A pattern condition gives, for each line the pattern matches and in
    order, one match whose context is that line, whose text is the first
    occurrence and whose column is 0 when the pattern is global. *)
Theorem findMatches_shape (RegExp_new : string -> string -> result RegExp)
    (c : RuleCondition) (content language : string) (matches : list RuleMatch) :
  findMatches RegExp_new (Some c) content language = Ok matches →
  Forall (fun m => (1 ≤ m_line m ≤ List.length (JsString.split_lines content))%nat) matches
  ∧ StronglySorted lt (map m_line matches)
  ∧ (ctype c ≠ TPattern →
     (List.length matches ≤ 1)%nat
     ∧ Forall (fun m => m_line m = 1 ∧ m_column m = 1) matches)
  ∧ (∀ regex, ctype c = TPattern → pattern c = Some (PRegExp regex) →
     map m_context matches
     = filter (fun line => is_Some (line_match regex line)) (JsString.split_lines content)
     ∧ Forall (fun m =>
                 JsString.split_lines content !! (m_line m - 1) = Some (m_context m)
                 ∧ line_match regex (m_context m) = Some (m_column m, m_text m)
                 ∧ (re_global regex = true → m_column m = 0))
         matches).
Proof.
  assert (Hlines : (1 ≤ List.length (JsString.split_lines content))%nat).
  { unfold JsString.split_lines. rewrite split_lines_aux_length. lia. }
  assert (Hscan : ∀ regex,
    Forall (fun m => (1 ≤ m_line m ≤ List.length (JsString.split_lines content))%nat)
      (scan_lines regex (JsString.split_lines content) 0)).
  { intros regex.
    destruct (scan_lines_spec regex (JsString.split_lines content) 0) as (Hall & _).
    eapply Forall_impl; [exact Hall|].
    intros m (j & Hj & Hl & _). apply lookup_lt_Some in Hl. lia. }
  assert (Hone : ∀ m : RuleMatch, m_line m = 1 → m_column m = 1 →
    Forall (fun m => (1 ≤ m_line m ≤ List.length (JsString.split_lines content))%nat) [m]
    ∧ StronglySorted lt (map m_line [m])
    ∧ ((List.length [m] ≤ 1)%nat ∧ Forall (fun m => m_line m = 1 ∧ m_column m = 1) [m])).
  { intros m Hl Hc. repeat split; repeat constructor; try lia; try assumption. }
  assert (Hnone :
    Forall (fun m => (1 ≤ m_line m ≤ List.length (JsString.split_lines content))%nat) []
    ∧ StronglySorted lt (map m_line [])
    ∧ ((List.length (A := RuleMatch) [] ≤ 1)%nat
       ∧ Forall (fun m : RuleMatch => m_line m = 1 ∧ m_column m = 1) [])).
  { repeat split; repeat constructor. }
  assert (Hother : ∀ ms : list RuleMatch,
    Forall (fun m => (1 ≤ m_line m ≤ List.length (JsString.split_lines content))%nat) ms
    ∧ StronglySorted lt (map m_line ms)
    ∧ ((List.length ms ≤ 1)%nat ∧ Forall (fun m => m_line m = 1 ∧ m_column m = 1) ms) →
    (∀ regex, ctype c = TPattern → pattern c = Some (PRegExp regex) → False) →
    Forall (fun m => (1 ≤ m_line m ≤ List.length (JsString.split_lines content))%nat) ms
    ∧ StronglySorted lt (map m_line ms)
    ∧ (ctype c ≠ TPattern →
       (List.length ms ≤ 1)%nat ∧ Forall (fun m => m_line m = 1 ∧ m_column m = 1) ms)
    ∧ (∀ regex, ctype c = TPattern → pattern c = Some (PRegExp regex) →
       map m_context ms
       = filter (fun line => is_Some (line_match regex line)) (JsString.split_lines content)
       ∧ Forall (fun m =>
                   JsString.split_lines content !! (m_line m - 1) = Some (m_context m)
                   ∧ line_match regex (m_context m) = Some (m_column m, m_text m)
                   ∧ (re_global regex = true → m_column m = 0))
           ms)).
  { intros ms (Ha & Hb & Hc) Hno. split; [assumption|]. split; [assumption|].
    split; [intros _; assumption|].
    intros regex Ht Hpat. destruct (Hno regex Ht Hpat). }
  unfold findMatches.
  destruct (ctype c) eqn:Hty.
  - destruct (pattern c) as [p|] eqn:Hp.
    2:{ intros [= <-]. apply Hother; [exact Hnone|]. intros regex _ [=]. }
    destruct (pattern_truthy p) eqn:Htruthy.
    2:{ intros [= <-]. apply Hother; [exact Hnone|].
        intros regex _ [= ->]. discriminate Htruthy. }
    intros Hfound. apply rbind_Ok in Hfound. destruct Hfound as (regex & Hregex & Hms).
    injection Hms as <-.
    destruct (scan_lines_spec regex (JsString.split_lines content) 0)
      as (Hall & Hsorted & Hctx).
    split; [apply Hscan|]. split; [assumption|]. split; [congruence|].
    intros regex' _ [= ->]. injection Hregex as <-.
    split; [assumption|].
    eapply Forall_impl; [exact Hall|].
    intros m (j & Hj & Hl & Hm).
    replace (m_line m - 1) with j by lia. repeat split; try assumption.
    intros Hg. unfold line_match in Hm.
    destruct (re_exec regex' (m_context m)); [|discriminate].
    rewrite Hg in Hm. congruence.
  - intros [= <-]. apply Hother; [exact Hnone|]. intros regex [=].
  - destruct (metric c) as [m|];
      [destruct (compareMetric _ _ _)|]; intros [= <-];
      (apply Hother; [first [exact Hnone | by apply Hone] | intros regex [=]]).
  - destruct (custom c) as [f|];
      [destruct (f content language)|]; intros [= <-];
      (apply Hother; [first [exact Hnone | by apply Hone] | intros regex [=]]).
Qed.

Lemma findMatches_shape_witness :
  let c := metric_condition {| name := "lines"; operator := ">"; value := whole 5 |} in
  let found := [ {| m_line := 1; m_column := 1; m_text := "lines: 7";
                    m_context := "File-level metric" |} ] in
  findMatches host_RegExp_new (Some c) seven_lines "typescript" = Ok found
  ∧ Forall (fun m => (1 ≤ m_line m ≤ List.length (JsString.split_lines seven_lines))%nat)
      found
  ∧ StronglySorted lt (map m_line found).
Proof.
  intros c found.
  assert (Hfound : findMatches host_RegExp_new (Some c) seven_lines "typescript" = Ok found)
    by (vm_compute; reflexivity).
  split; [exact Hfound|].
  destruct (findMatches_shape host_RegExp_new c seven_lines "typescript" found Hfound)
    as (Hrange & Hsorted & _).
  split; assumption.
Defined.

Section Provenance.

Variable RegExp_new : string -> string -> result RegExp.
Variable H : Type.
Variable stamp : H -> string * H.

Lemma linked_action_built (r : ParsedRule) (a : RuleAction) matches (h : H) :
  Forall2 (built_from r a) matches
    (violations_until_throw H (createAction H stamp (Some a) (severity r) (message r))
       matches h).1.
Proof.
  revert h. induction matches as [|m matches IH]; intros h; [constructor|].
  cbn [violations_until_throw]. unfold createAction at 1.
  destruct (stamp h) as [tag h1].
  specialize (IH h1).
  destruct (violations_until_throw H _ matches h1) as [vs h2].
  constructor; [|exact IH].
  unfold built_from. cbn. repeat split. by exists tag.
Qed.

End Provenance.

(** X11 — What a linked rule contributes to a run: nothing when its
    matcher throws or its action is missing; otherwise one violation per
    match, in match order, which carries the match's line and column, the
    rule's severity, the action's message (the rule's when that is empty)
    and suggestion, the rule name [spec-driven-rule] and an identifier
    that starts with [spec_rule_]. *)
Theorem linked_rule_contribution (RegExp_new : string -> string -> result RegExp)
    (H : Type) (stamp : H → string * H) (r : ParsedRule) (content language : string)
    (h : H) :
  ∃ x, convertToExecutableRules RegExp_new H stamp [r] = [x]
    ∧ x_id H x = id r
    ∧ match findMatches RegExp_new (condition r) content language, action r with
      | Ok matches, Some a =>
          Forall2 (built_from r a) matches (contribution H x content language h).1
      | _, _ => (contribution H x content language h).1 = []
      end.
Proof.
  eexists. split; [reflexivity|]. split; [reflexivity|].
  unfold contribution, createMatcher, of_result. cbn [matcher x_action].
  destruct (findMatches RegExp_new (condition r) content language) as [matches|msg];
    [|reflexivity].
  destruct (action r) as [a|].
  - apply linked_action_built.
  - apply linked_action_missing.
Qed.

Lemma selected_rules_agree (H : Type) (svc1 svc2 : AnalysisService H) request :
  (∀ k, k ∈ requested_identifiers request →
        customRules H svc1 !! k = customRules H svc2 !! k) →
  selected_rules H svc1 request = selected_rules H svc2 request.
Proof.
  unfold requested_identifiers, selected_rules. intros Hagree. f_equal.
  - destruct (context_teamId request) as [teamId|]; [|reflexivity].
    destruct (JsString.truthy teamId); [|reflexivity].
    rewrite Hagree; [reflexivity|]. apply elem_of_app. left. left.
  - assert (Hstd : ∀ k, k ∈ default [] (standards request) →
                        customRules H svc1 !! k = customRules H svc2 !! k).
    { intros k Hk. apply Hagree. apply elem_of_app. by right. }
    revert Hstd. generalize (default [] (standards request)). intros ks.
    induction ks as [|k ks IH]; intros Hstd; [reflexivity|].
    cbn [flat_map]. rewrite (Hstd k) by (rewrite elem_of_cons; by left). f_equal.
    apply IH. intros k' Hk'. apply Hstd. rewrite elem_of_cons. by right.
Qed.

Lemma selected_rules_unloaded (H : Type) (svc : AnalysisService H) request :
  (∀ k, k ∈ requested_identifiers request → customRules H svc !! k = None) →
  selected_rules H svc request = [].
Proof.
  intros Hnone.
  rewrite (selected_rules_agree H svc {| customRules := ∅ |} request).
  - unfold selected_rules. cbn [customRules].
    assert (Hteam : match context_teamId request with
                    | Some teamId =>
                        if JsString.truthy teamId
                        then default [] ((∅ : gmap string (list (ExecutableRule H))) !! teamId)
                        else []
                    | None => []
                    end = []).
    { destruct (context_teamId request) as [t|]; [|reflexivity].
      destruct (JsString.truthy t); [|reflexivity]. by rewrite lookup_empty. }
    rewrite Hteam. simpl.
    induction (default [] (standards request)) as [|k ks IH]; [reflexivity|].
    cbn [flat_map]. rewrite lookup_empty. exact IH.
  - intros k Hk. cbn [customRules]. rewrite lookup_empty. by apply Hnone.
Qed.

(** X12 — A run depends on the rule store only through the identifiers
    the request names (its team, when that is not empty, and its
    standards): two stores that agree on them give the same run, and when
    nothing is loaded under any of them the run returns no violation and
    leaves the host as it was. *)
Theorem applySpecDrivenRules_frame (H : Type) (svc1 svc2 : AnalysisService H)
    (request : AnalysisRequest) (h : H) :
  (∀ k, k ∈ requested_identifiers request →
        customRules H svc1 !! k = customRules H svc2 !! k) →
  applySpecDrivenRules H svc1 request h = applySpecDrivenRules H svc2 request h
  ∧ ((∀ k, k ∈ requested_identifiers request → customRules H svc2 !! k = None) →
     applySpecDrivenRules H svc1 request h = (Ok [], h)).
Proof.
  intros Hagree. rewrite !applySpecDrivenRules_spec.
  rewrite (selected_rules_agree H svc1 svc2 request Hagree).
  split; [reflexivity|].
  intros Hnone. by rewrite (selected_rules_unloaded H svc2 request Hnone).
Qed.

Lemma applySpecDrivenRules_frame_witness :
  let loaded : AnalysisService nat :=
    {| customRules := <["other" := convertToExecutableRules host_RegExp_new nat host_stamp
                                     [lines_rule]]> ∅ |} in
  applySpecDrivenRules nat loaded (team_request "team" seven_lines) 0
  = applySpecDrivenRules nat {| customRules := ∅ |} (team_request "team" seven_lines) 0.
Proof.
  intros loaded.
  refine (proj1 (applySpecDrivenRules_frame nat loaded {| customRules := ∅ |}
                   (team_request "team" seven_lines) 0 _)).
  intros k Hk. cbn in Hk. apply list_elem_of_singleton in Hk. subst k.
  cbn [customRules loaded]. rewrite lookup_insert_ne by discriminate. reflexivity.
Defined.

(** ** The built-in score *)

Lemma severity_penalty_step (penalty : Z) (v : RuleViolation) :
  severity_penalty penalty v = (penalty + severity_penalty 0 v)%Z
  ∧ (0 ≤ severity_penalty 0 v ≤ 10)%Z.
Proof.
  unfold severity_penalty.
  repeat match goal with
  | |- context [String.eqb ?a ?b] => destruct (String.eqb a b)
  end; lia.
Qed.

Lemma fold_severity_penalty (violations : list RuleViolation) :
  ∀ penalty,
    fold_left severity_penalty violations penalty
    = (penalty + fold_left severity_penalty violations 0)%Z
    ∧ (0 ≤ fold_left severity_penalty violations 0)%Z.
Proof.
  induction violations as [|v violations IH]; intros penalty; cbn [fold_left].
  - lia.
  - destruct (severity_penalty_step penalty v) as [Hstep _].
    destruct (severity_penalty_step 0%Z v) as [_ Hrange].
    destruct (IH (severity_penalty penalty v)) as [Ha _].
    destruct (IH (severity_penalty 0%Z v)) as [Hb Hc].
    rewrite Ha, Hb, Hstep. lia.
Qed.

Lemma penalty_app (vs ws : list RuleViolation) :
  fold_left severity_penalty (vs ++ ws) 0%Z
  = (fold_left severity_penalty vs 0 + fold_left severity_penalty ws 0)%Z.
Proof. rewrite fold_left_app. apply fold_severity_penalty. Qed.

Lemma penalty_Permutation (vs ws : list RuleViolation) :
  Permutation vs ws →
  fold_left severity_penalty vs 0%Z = fold_left severity_penalty ws 0%Z.
Proof.
  induction 1 as [|v vs ws _ IH|v w vs|vs ws us _ IH1 _ IH2]; cbn [fold_left].
  - reflexivity.
  - destruct (fold_severity_penalty vs (severity_penalty 0%Z v)) as [-> _].
    destruct (fold_severity_penalty ws (severity_penalty 0%Z v)) as [-> _].
    by rewrite IH.
  - destruct (fold_severity_penalty vs (severity_penalty (severity_penalty 0%Z w) v))
      as [-> _].
    destruct (fold_severity_penalty vs (severity_penalty (severity_penalty 0%Z v) w))
      as [-> _].
    destruct (severity_penalty_step (severity_penalty 0%Z w) v) as [-> _].
    destruct (severity_penalty_step (severity_penalty 0%Z v) w) as [-> _].
    lia.
  - congruence.
Qed.

Lemma calculateQualityScore_value (violations : list RuleViolation) (content : string) :
  calculateQualityScore violations content
  = inject_Z (100 - Z.min (fold_left severity_penalty violations 0%Z) 80).
Proof.
  unfold calculateQualityScore.
  destruct (fold_severity_penalty violations 0%Z) as [_ Hpos].
  set (p := fold_left severity_penalty violations 0%Z) in *. clearbody p.
  unfold Math_min.
  destruct (Qle_bool (inject_Z p) (100 * (8 # 10))) eqn:Hle.
  - apply Qle_bool_iff in Hle. unfold Qle in Hle. simpl in Hle.
    assert (Hr : Math_round (100 - inject_Z p) = (100 - p)%Z).
    { unfold Math_round, Qfloor, Qminus, Qplus, Qopp, inject_Z. simpl.
      symmetry. apply Z.div_unique with (r := 1%Z); lia. }
    rewrite Hr. rewrite Z.min_l by lia. unfold Math_max.
    assert (Hq : Qle_bool 0 (inject_Z (100 - p)) = true).
    { apply Qle_bool_iff. unfold Qle. simpl. lia. }
    by rewrite Hq.
  - assert (Hgt : (80 < p)%Z).
    { destruct (Z.lt_ge_cases 80 p) as [Hlt|Hge]; [assumption|].
      assert (Hq : Qle_bool (inject_Z p) (100 * (8 # 10)) = true)
        by (apply Qle_bool_iff; unfold Qle; simpl; lia).
      congruence. }
    rewrite Z.min_r by lia. reflexivity.
Qed.

(** X13 — The built-in quality score is 100 minus the summed penalties of
    the violations (10, 5, 2 and 1 for critical, error, warning and info,
    nothing for any other severity), the deduction being capped at 80: it
    is a whole number between 20 and 100, it does not depend on the
    content or on the order of the violations, and more violations never
    raise it. *)
Theorem calculateQualityScore_bounds (violations : list RuleViolation) (content : string) :
  (∃ score : Z, calculateQualityScore violations content = inject_Z score
                ∧ (20 ≤ score ≤ 100)%Z
                ∧ score = (100 - Z.min (fold_left severity_penalty violations 0) 80)%Z)
  ∧ (∀ content', calculateQualityScore violations content'
                 = calculateQualityScore violations content)
  ∧ (∀ violations', Permutation violations violations' →
       calculateQualityScore violations' content = calculateQualityScore violations content)
  ∧ (∀ more, (calculateQualityScore (violations ++ more) content
              <= calculateQualityScore violations content)%Q)
  ∧ (Forall (fun v => v_severity v ∉ ["critical"; "error"; "warning"; "info"]) violations →
     calculateQualityScore violations content = 100%Q).
Proof.
  destruct (fold_severity_penalty violations 0%Z) as [_ Hpos].
  split; [|split; [|split; [|split]]].
  - eexists. split; [apply calculateQualityScore_value|]. split; [lia|reflexivity].
  - intros content'. by rewrite !calculateQualityScore_value.
  - intros violations' Hperm. rewrite !calculateQualityScore_value.
    by rewrite (penalty_Permutation _ _ Hperm).
  - intros more. rewrite !calculateQualityScore_value, penalty_app.
    destruct (fold_severity_penalty more 0%Z) as [_ Hmore].
    rewrite <- Zle_Qle. lia.
  - intros Hall. rewrite calculateQualityScore_value.
    assert (Hzero : fold_left severity_penalty violations 0%Z = 0%Z).
    { clear Hpos. induction Hall as [|v vs Hv _ IH]; [reflexivity|].
      cbn [fold_left].
      destruct (fold_severity_penalty vs (severity_penalty 0%Z v)) as [-> _].
      rewrite IH. rewrite !not_elem_of_cons in Hv.
      destruct Hv as (H1 & H2 & H3 & H4 & _).
      unfold severity_penalty.
      repeat match goal with
      | |- context [String.eqb ?a ?b] =>
          destruct (String.eqb_spec a b); [contradiction|]
      end.
      reflexivity. }
    rewrite Hzero. reflexivity.
Qed.

(** ** The built-in line rules *)

Lemma length_chars (s : string) : List.length (JsString.chars s) = JsString.length s.
Proof. induction s as [|c s IH]; simpl; [reflexivity|]. by rewrite IH. Qed.

Lemma length_toLowerCase (s : string) :
  JsString.length (JsString.toLowerCase s) = JsString.length s.
Proof.
  unfold JsString.toLowerCase.
  by rewrite <- !length_chars, chars_of_chars, length_map.
Qed.

Lemma prefix_chars_app (p l : list ascii) :
  JsString.prefix_chars p l = true ↔ ∃ w, l = p ++ w.
Proof.
  revert l. induction p as [|a p IH]; intros l; simpl.
  - split; [intros _; by exists l | reflexivity].
  - destruct l as [|b l].
    + split; [discriminate | intros [w [=]]].
    + rewrite andb_true_iff, IH. split.
      * intros [Hab [w ->]]. apply Ascii.eqb_eq in Hab. subst b. by exists w.
      * intros [w [= -> ->]]. split; [apply Ascii.eqb_refl | by exists w].
Qed.

Lemma includes_chars_app (p k w : list ascii) :
  JsString.includes_chars p (k ++ p ++ w) = true.
Proof.
  induction k as [|c k IH].
  - simpl. destruct (p ++ w) eqn:Hpw.
    + simpl. rewrite orb_false_r. apply prefix_chars_app. by exists w.
    + simpl. apply orb_true_iff. left. rewrite <- Hpw. apply prefix_chars_app. by exists w.
  - simpl. rewrite IH. apply orb_true_r.
Qed.

Lemma indexOf_chars_Some (p l : list ascii) :
  JsString.includes_chars p l = true →
  ∃ i, indexOf_chars p l = Some i ∧ (i + List.length p ≤ List.length l)%nat.
Proof.
  induction l as [|c l IH]; simpl.
  - rewrite orb_false_r. intros Hp. rewrite Hp. exists 0. split; [reflexivity|].
    apply prefix_chars_app in Hp. destruct Hp as [w Hw].
    apply (f_equal (@List.length ascii)) in Hw. rewrite length_app in Hw. simpl in *. lia.
  - destruct (JsString.prefix_chars p (c :: l)) eqn:Hp.
    + intros _. exists 0. split; [reflexivity|].
      apply prefix_chars_app in Hp. destruct Hp as [w Hw].
      apply (f_equal (@List.length ascii)) in Hw. rewrite length_app in Hw. simpl in *. lia.
    + simpl. intros Hin. destruct (IH Hin) as (i & -> & Hi).
      exists (S i). split; [reflexivity|]. lia.
Qed.

Lemma indexOf_plus_1_range (s p : string) :
  JsString.includes s p = true →
  (1 ≤ indexOf_plus_1 s p)%nat
  ∧ (indexOf_plus_1 s p + JsString.length p ≤ JsString.length s + 1)%nat.
Proof.
  unfold JsString.includes, indexOf_plus_1. intros Hin.
  destruct (indexOf_chars_Some _ _ Hin) as (i & -> & Hi).
  rewrite !length_chars in Hi. lia.
Qed.

(** A text is its trimmed text between two runs of characters. *)
Lemma trim_middle (s : string) :
  ∃ k w, JsString.chars s = k ++ JsString.chars (JsString.trim s) ++ w.
Proof.
  unfold JsString.trim. rewrite chars_of_chars.
  destruct (drop_spaces_suffix (JsString.chars s)) as [k Hk].
  destruct (drop_spaces_suffix (rev (JsString.drop_spaces (JsString.chars s)))) as [k2 Hk2].
  exists k, (rev k2). rewrite Hk at 1. f_equal.
  rewrite <- rev_app_distr, <- Hk2. by rewrite rev_involutive.
Qed.

Lemma var_declaration_includes (line : string) :
  JsString.startsWith (JsString.trim line) "var " = true →
  JsString.includes line "var" = true.
Proof.
  unfold JsString.startsWith, JsString.includes. intros Hp.
  apply prefix_chars_app in Hp. destruct Hp as [t Ht].
  destruct (trim_middle line) as (k & w & Hline).
  rewrite Hline, Ht.
  change (JsString.chars "var ") with (JsString.chars "var" ++ JsString.chars " ").
  rewrite <- !app_assoc. apply includes_chars_app.
Qed.

Lemma basic_violation_intro (language line : string) (n : nat) (v : RuleViolation)
    (col : nat) :
  v_line v = n → v_column v = col →
  (1 ≤ col ≤ JsString.length line)%nat →
  ((v_rule v = "max-line-length" ∧ v_severity v = "warning"
    ∧ v_id v = "long-line-" +:+ JsString.of_nat n
    ∧ (120 < JsString.length line)%nat ∧ v_column v = 121)
   ∨ (v_rule v = "no-todo-comments" ∧ v_severity v = "info"
      ∧ v_id v = "todo-" +:+ JsString.of_nat n
      ∧ JsString.includes (JsString.toLowerCase line) "todo" = true)
   ∨ (v_rule v = "no-console" ∧ v_severity v = "warning"
      ∧ v_id v = "console-log-" +:+ JsString.of_nat n
      ∧ (language = "typescript" ∨ language = "javascript")
      ∧ JsString.includes line "console.log" = true)
   ∨ (v_rule v = "no-var" ∧ v_severity v = "error"
      ∧ v_id v = "var-declaration-" +:+ JsString.of_nat n
      ∧ (language = "typescript" ∨ language = "javascript")
      ∧ JsString.startsWith (JsString.trim line) "var " = true)
   ∨ (v_rule v = "no-print" ∧ v_severity v = "info"
      ∧ v_id v = "print-statement-" +:+ JsString.of_nat n
      ∧ language = "python"
      ∧ JsString.includes line "print(" = true)) →
  basic_violation language line n v.
Proof.
  intros Hl Hc Hr Hk. unfold basic_violation.
  split; [assumption|]. split; [by rewrite Hc | assumption].
Qed.

Lemma analyzeJavaScriptLine_spec (language line : string) (n : nat) :
  language = "typescript" ∨ language = "javascript" →
  ∃ new, (∀ violations, analyzeJavaScriptLine line n violations = violations ++ new)
    ∧ Forall (basic_violation language line n) new
    ∧ (List.length new ≤ 2)%nat.
Proof.
  intros Hlang. unfold analyzeJavaScriptLine.
  assert (Hconsole : ∀ v, JsString.includes line "console.log" = true →
    v_line v = n → v_column v = indexOf_plus_1 line "console.log" →
    v_rule v = "no-console" → v_severity v = "warning" →
    v_id v = "console-log-" +:+ JsString.of_nat n →
    basic_violation language line n v).
  { intros v Hin Hl Hc Hr Hs Hi.
    pose proof (indexOf_plus_1_range _ _ Hin) as Hrange.
    cbn [JsString.length String.length] in Hrange.
    apply (basic_violation_intro _ _ _ _ _ Hl Hc); [lia|]. tauto. }
  assert (Hvar : ∀ v, JsString.startsWith (JsString.trim line) "var " = true →
    v_line v = n → v_column v = indexOf_plus_1 line "var" →
    v_rule v = "no-var" → v_severity v = "error" →
    v_id v = "var-declaration-" +:+ JsString.of_nat n →
    basic_violation language line n v).
  { intros v Hin Hl Hc Hr Hs Hi.
    pose proof (indexOf_plus_1_range _ _ (var_declaration_includes _ Hin)) as Hrange.
    cbn [JsString.length String.length] in Hrange.
    apply (basic_violation_intro _ _ _ _ _ Hl Hc); [lia|]. tauto. }
  destruct (JsString.includes line "console.log") eqn:Hc;
    destruct (JsString.startsWith (JsString.trim line) "var ") eqn:Hv.
  - eexists. split; [intros violations; rewrite <- app_assoc; reflexivity|].
    split; [|simpl; lia].
    constructor; [by apply Hconsole | constructor; [by apply Hvar | constructor]].
  - eexists. split; [reflexivity|]. split; [|simpl; lia].
    constructor; [by apply Hconsole | constructor].
  - eexists. split; [reflexivity|]. split; [|simpl; lia].
    constructor; [by apply Hvar | constructor].
  - exists []. split; [intros violations; by rewrite app_nil_r|].
    split; [constructor|simpl; lia].
Qed.

Lemma analyzePythonLine_spec (line : string) (n : nat) :
  ∃ new, (∀ violations, analyzePythonLine line n violations = violations ++ new)
    ∧ Forall (basic_violation "python" line n) new
    ∧ (List.length new ≤ 1)%nat.
Proof.
  unfold analyzePythonLine.
  destruct (JsString.includes line "print(") eqn:Hp.
  - eexists. split; [reflexivity|]. split; [|simpl; lia].
    constructor; [|constructor].
    pose proof (indexOf_plus_1_range _ _ Hp) as Hrange.
    cbn [JsString.length String.length] in Hrange.
    eapply basic_violation_intro; [reflexivity|reflexivity|cbn [v_column]; lia|]. tauto.
  - exists []. split; [intros violations; by rewrite app_nil_r|].
    split; [constructor|simpl; lia].
Qed.

Lemma analyzeLine_spec (language line : string) (index : nat) :
  ∃ new, (∀ violations, analyzeLine language line index violations = violations ++ new)
    ∧ Forall (basic_violation language line (index + 1)) new
    ∧ (List.length new ≤ 4)%nat.
Proof.
  unfold analyzeLine. cbv zeta.
  set (long := {| v_id := "long-line-" +:+ JsString.of_nat (index + 1);
                  v_rule := "max-line-length" |}).
  set (todo := {| v_id := "todo-" +:+ JsString.of_nat (index + 1);
                  v_rule := "no-todo-comments" |}).
  assert (Hgeneric : ∃ new,
    (∀ violations,
       (if JsString.includes (JsString.toLowerCase line) "todo"
        then (if (120 <? JsString.length line)%nat then violations ++ [long] else violations)
             ++ [todo]
        else if (120 <? JsString.length line)%nat then violations ++ [long] else violations)
       = violations ++ new)
    ∧ Forall (basic_violation language line (index + 1)) new
    ∧ (List.length new ≤ 2)%nat).
  { assert (Hlong : (120 <? JsString.length line)%nat = true →
                    basic_violation language line (index + 1) long).
    { intros Hl. apply Nat.ltb_lt in Hl. unfold long.
      eapply basic_violation_intro; [reflexivity|reflexivity|cbn [v_column]; lia|].
      left. repeat split. assumption. }
    assert (Htodo : JsString.includes (JsString.toLowerCase line) "todo" = true →
                    basic_violation language line (index + 1) todo).
    { intros Hin. pose proof (indexOf_plus_1_range _ _ Hin) as Hrange.
      rewrite length_toLowerCase in Hrange. cbn [JsString.length String.length] in Hrange.
      unfold todo.
      eapply basic_violation_intro; [reflexivity|reflexivity|cbn [v_column]; lia|].
      right. left. repeat split. assumption. }
    destruct (120 <? JsString.length line)%nat;
      destruct (JsString.includes (JsString.toLowerCase line) "todo").
    - eexists. split; [intros violations; rewrite <- app_assoc; reflexivity|].
      split; [|simpl; lia].
      constructor; [auto|constructor; [auto|constructor]].
    - eexists. split; [reflexivity|]. split; [|simpl; lia].
      constructor; [auto|constructor].
    - eexists. split; [reflexivity|]. split; [|simpl; lia].
      constructor; [auto|constructor].
    - exists []. split; [intros violations; by rewrite app_nil_r|].
      split; [constructor|simpl; lia]. }
  destruct Hgeneric as (new1 & Hnew1 & Hall1 & Hlen1).
  destruct (String.eqb_spec language "typescript") as [Hts|Hts];
    [|destruct (String.eqb_spec language "javascript") as [Hjs|Hjs];
      [|destruct (String.eqb_spec language "python") as [Hpy|Hpy]]]; cbn [orb].
  - destruct (analyzeJavaScriptLine_spec language line (index + 1))
      as (new2 & Hnew2 & Hall2 & Hlen2); [by left|].
    exists (new1 ++ new2).
    split; [intros violations; by rewrite Hnew1, Hnew2, app_assoc|].
    split; [by apply Forall_app|rewrite length_app; lia].
  - destruct (analyzeJavaScriptLine_spec language line (index + 1))
      as (new2 & Hnew2 & Hall2 & Hlen2); [by right|].
    exists (new1 ++ new2).
    split; [intros violations; by rewrite Hnew1, Hnew2, app_assoc|].
    split; [by apply Forall_app|rewrite length_app; lia].
  - destruct (analyzePythonLine_spec line (index + 1))
      as (new2 & Hnew2 & Hall2 & Hlen2).
    exists (new1 ++ new2).
    split; [intros violations; by rewrite Hnew1, Hnew2, app_assoc|].
    split; [apply Forall_app; by subst language|rewrite length_app; lia].
  - exists new1. split; [assumption|]. split; [assumption|lia].
Qed.

Lemma analyzeLine_app (language line : string) (index : nat) (violations : list RuleViolation) :
  analyzeLine language line index violations
  = violations ++ analyzeLine language line index [].
Proof.
  destruct (analyzeLine_spec language line index) as (new & Hnew & _).
  by rewrite (Hnew violations), (Hnew []).
Qed.

Lemma analyzeLine_violations (language line : string) (index : nat) :
  Forall (basic_violation language line (index + 1)) (analyzeLine language line index [])
  ∧ (List.length (analyzeLine language line index []) ≤ 4)%nat.
Proof.
  destruct (analyzeLine_spec language line index) as (new & Hnew & Hall & Hlen).
  rewrite (Hnew []). by split.
Qed.

Lemma analyzeLines_spec (language : string) (lines : list string) :
  ∀ index violations,
    analyzeLines language lines index violations
    = violations
      ++ concat (imap (fun j line => analyzeLine language line (index + j) []) lines).
Proof.
  induction lines as [|line lines IH]; intros index violations.
  - simpl. by rewrite app_nil_r.
  - cbn [analyzeLines]. rewrite IH, analyzeLine_app, imap_cons. cbn [concat].
    rewrite Nat.add_0_r, <- app_assoc. do 3 f_equal.
    apply imap_ext. intros j l _. simpl. f_equal. lia.
Qed.

Lemma analyzeLines_violations (language : string) (lines : list string) :
  ∀ index,
    let found := concat (imap (fun j line => analyzeLine language line (index + j) []) lines) in
    Forall (fun v => ∃ j line, lines !! j = Some line
                       ∧ v_line v = index + j + 1
                       ∧ basic_violation language line (index + j + 1) v) found
    ∧ StronglySorted le (map v_line found)
    ∧ (List.length found ≤ 4 * List.length lines)%nat.
Proof.
  induction lines as [|line lines IH]; intros index; cbv zeta.
  - simpl. repeat split; constructor.
  - rewrite imap_cons. cbn [concat].
    assert (Hext : imap ((fun j line => analyzeLine language line (index + j) []) ∘ S) lines
                   = imap (fun j line => analyzeLine language line (S index + j) []) lines).
    { apply imap_ext. intros j l _. simpl. f_equal. lia. }
    rewrite Hext. clear Hext.
    destruct (IH (S index)) as (Hall & Hsorted & Hlen).
    destruct (analyzeLine_violations language line (index + 0)) as (Hhere & Hfour).
    set (rest := concat (imap (fun j line => analyzeLine language line (S index + j) [])
                           lines)) in *.
    set (here := analyzeLine language line (index + 0) []) in *.
    clearbody rest here.
    assert (Hline : Forall (fun v => v_line v = index + 1) here).
    { eapply Forall_impl; [exact Hhere|]. intros v (Hl & _). clear -Hl. lia. }
    assert (Hlater : Forall (fun v => (index + 2 ≤ v_line v)%nat) rest).
    { eapply Forall_impl; [exact Hall|]. intros v (j & l & _ & Hl & _). clear -Hl. lia. }
    split; [|split].
    + apply Forall_app. split.
      * eapply Forall_impl; [exact Hhere|]. intros v Hv.
        exists 0, line. split; [reflexivity|].
        destruct Hv as (Hl & Hrest). split; [clear -Hl; lia|]. by split.
      * eapply Forall_impl; [exact Hall|]. intros v (j & l & Hj & Hl & Hv).
        exists (S j), l. split; [exact Hj|].
        replace (index + S j + 1) with (S index + j + 1) by (clear; lia). by split.
    + rewrite map_app. apply StronglySorted_app. split; [|split].
      * intros a b Ha Hb.
        apply list_elem_of_fmap in Ha, Hb.
        destruct Ha as (va & -> & Hva), Hb as (vb & -> & Hvb).
        rewrite Forall_forall in Hline, Hlater.
        specialize (Hline _ Hva). specialize (Hlater _ Hvb). clear -Hline Hlater. lia.
      * clear -Hline. induction Hline as [|v vs Hv Hvs IHv]; [constructor|].
        cbn [map]. constructor; [assumption|].
        apply Forall_fmap. eapply Forall_impl; [exact Hvs|]. intros w Hw. simpl in *. clear -Hv Hw. lia.
      * assumption.
    + rewrite length_app. cbn [List.length]. clear -Hfour Hlen. lia.
Qed.

(** X14 — On a content of ASCII characters the built-in analysis returns,
    line after line, what the line rules find on each line. Every
    violation lies on a line of the content, at a column between 1 and the
    length of that line, and is one of: a long line (more than 120
    characters, column 121), a TODO in any letter case, and, only for the
    languages [typescript] and [javascript], a [console.log] or a line that
    starts with [var ], or, only for [python], a [print(]; none is
    critical. Line numbers never decrease and a line gives at most four
    violations. *)
Theorem performBasicAnalysis_shape (content language : string) :
  ascii_text content →
  performBasicAnalysis content language
  = concat (imap (fun j line => analyzeLine language line j [])
              (JsString.split_lines content))
  ∧ Forall (fun v => ∃ line,
              JsString.split_lines content !! (v_line v - 1) = Some line
              ∧ (1 ≤ v_line v)%nat
              ∧ basic_violation language line (v_line v) v
              ∧ v_severity v ∈ ["warning"; "info"; "error"])
      (performBasicAnalysis content language)
  ∧ StronglySorted le (map v_line (performBasicAnalysis content language))
  ∧ (List.length (performBasicAnalysis content language)
     ≤ 4 * List.length (JsString.split_lines content))%nat.
Proof.
  intros _. unfold performBasicAnalysis. rewrite analyzeLines_spec. cbn [app].
  split; [reflexivity|].
  destruct (analyzeLines_violations language (JsString.split_lines content) 0)
    as (Hall & Hsorted & Hlen).
  cbn [Nat.add] in *. split; [|split; assumption].
  eapply Forall_impl; [exact Hall|].
  intros v (j & line & Hj & Hl & Hv). exists line.
  rewrite Hl. replace (j + 1 - 1) with j by lia.
  split; [assumption|]. split; [lia|]. split; [assumption|].
  destruct Hv as (_ & _ & [Hk|[Hk|[Hk|[Hk|Hk]]]]);
    destruct Hk as (_ & -> & _); apply (bool_decide_eq_true_1 _); reflexivity.
Qed.

Lemma performBasicAnalysis_shape_witness :
  let content := unlines ["var total = 0; // TODO"; "console.log(total)"] in
  ascii_text content
  ∧ Forall (fun v => ∃ line,
              JsString.split_lines content !! (v_line v - 1) = Some line
              ∧ (1 ≤ v_line v)%nat
              ∧ basic_violation "javascript" line (v_line v) v
              ∧ v_severity v ∈ ["warning"; "info"; "error"])
      (performBasicAnalysis content "javascript")
  ∧ rule_positions (performBasicAnalysis content "javascript")
    = [("no-todo-comments", 1, 19); ("no-var", 1, 1); ("no-console", 2, 1)].
Proof.
  intros content.
  assert (Hascii : ascii_text content) by (vm_compute; reflexivity).
  split; [exact Hascii|].
  split; [exact (proj1 (proj2 (performBasicAnalysis_shape content "javascript" Hascii)))|].
  vm_compute. reflexivity.
Defined.

(** ** Lines of code *)

Lemma drop_spaces_nil (l : list ascii) :
  JsString.drop_spaces l = [] ↔ Forall (fun c => JsString.is_space c = true) l.
Proof.
  induction l as [|c l IH]; simpl.
  - split; [constructor|reflexivity].
  - destruct (JsString.is_space c) eqn:Hc.
    + rewrite IH. split; [by constructor|by inversion 1].
    + split; [discriminate|]. inversion 1; congruence.
Qed.

Lemma trim_blank (s : string) :
  JsString.length (JsString.trim s) = 0
  ↔ Forall (fun c => JsString.is_space c = true) (JsString.chars s).
Proof.
  rewrite <- length_chars. unfold JsString.trim. rewrite chars_of_chars, length_rev.
  rewrite length_zero_iff_nil, drop_spaces_nil. split.
  - intros Hall. apply Forall_rev in Hall. rewrite rev_involutive in Hall.
    apply drop_spaces_nil.
    destruct (JsString.drop_spaces (JsString.chars s)) as [|c l] eqn:Hd; [reflexivity|].
    assert (Hc : JsString.is_space c = false)
      by (apply (drop_spaces_head (JsString.chars s)); by rewrite Hd).
    inversion Hall; congruence.
  - intros Hall. apply drop_spaces_nil in Hall. rewrite Hall. constructor.
Qed.

Lemma split_lines_aux_blank (l : list ascii) :
  ∀ cur,
    Forall (fun line => Forall (fun c => JsString.is_space c = true) (JsString.chars line))
      (JsString.split_lines_aux cur l)
    ↔ Forall (fun c => JsString.is_space c = true) (rev cur ++ l).
Proof.
  induction l as [|c l IH]; intros cur; cbn [JsString.split_lines_aux].
  - rewrite app_nil_r, Forall_singleton, chars_of_chars. reflexivity.
  - destruct (Ascii.eqb_spec c JsString.newline) as [->|Hne].
    + rewrite Forall_cons, chars_of_chars, (IH []). cbn [rev app].
      rewrite Forall_app, Forall_cons. intuition.
    + rewrite IH. cbn [rev]. by rewrite <- app_assoc.
Qed.

(** X15 — On a content of ASCII characters the number of lines of code is
    the number of lines with a character that is not white space: it is at
    most one more than the number of newlines, and it is 0 exactly when
    every character of the content is white space. *)
Theorem countLines_blank (content : string) :
  ascii_text content →
  (countLines content
   ≤ S (List.length (filter (fun c => c = JsString.newline) (JsString.chars content))))%nat
  ∧ (countLines content = 0
     ↔ Forall (fun c => JsString.is_space c = true) (JsString.chars content)).
Proof.
  intros _. unfold countLines, JsString.split_lines. split.
  - rewrite <- (split_lines_aux_length (JsString.chars content) []).
    apply length_filter.
  - rewrite <- (split_lines_aux_blank (JsString.chars content) []).
    rewrite length_zero_iff_nil.
    induction (JsString.split_lines_aux [] (JsString.chars content)) as [|line lines IH].
    + split; [constructor|reflexivity].
    + rewrite filter_cons, Forall_cons, <- IH, <- trim_blank.
      destruct (JsString.length (JsString.trim line)) as [|n].
      * rewrite decide_False by discriminate. tauto.
      * rewrite decide_True by reflexivity. split; [discriminate|]. intros [[=] _].
Qed.

Lemma countLines_blank_witness :
  let content := unlines ["  "; "x = 1"; EmptyString] in
  ascii_text content
  ∧ countLines content = 1
  ∧ (countLines content
     ≤ S (List.length (filter (fun c => c = JsString.newline) (JsString.chars content))))%nat
  ∧ ¬ Forall (fun c => JsString.is_space c = true) (JsString.chars content).
Proof.
  intros content.
  assert (Hascii : ascii_text content) by (vm_compute; reflexivity).
  destruct (countLines_blank content Hascii) as [Hbound Hblank].
  split; [exact Hascii|]. split; [vm_compute; reflexivity|]. split; [exact Hbound|].
  intros Hall. apply Hblank in Hall. vm_compute in Hall. discriminate.
Defined.

(** ** One analysis *)

(** X16 — For a language other than TypeScript and JavaScript an analysis
    never fails and never consults the syntax-tree analyzer: its
    violations are those of the built-in line rules followed by those of
    the spec-driven rules the request selects, its score is the built-in
    score of these violations, between 20 and 100, and it reports no
    complexity. For TypeScript and JavaScript, what the syntax-tree
    analyzer throws is re-thrown with the prefix [Analysis failed: ]
    before any rule of the store is run. *)
Theorem analyzeCode_composition (H : Type) (now : H → Z * H)
    (analysis_stamp : H → string * H) (CodeAST : Type) (ast_complexity : CodeAST → Q)
    (analyzeWithAST : AnalysisRequest → M H (list RuleViolation))
    (parseCode : string → string → M H CodeAST)
    (overallQualityScore : list RuleViolation → CodeAST → M H Q)
    (svc : AnalysisService H) (request : AnalysisRequest) (h : H) :
  let run := analyzeCode H now analysis_stamp CodeAST ast_complexity analyzeWithAST
               parseCode overallQualityScore svc request h in
  (isTypeScriptOrJavaScript (language request) = false →
   ∃ result h',
     run = (Ok result, h')
     ∧ r_violations result
       = performBasicAnalysis (req_content request) (language request)
         ++ (contributions H (selected_rules H svc request) (req_content request)
               (language request) (now h).2).1
     ∧ qualityScore result
       = calculateQualityScore (r_violations result) (req_content request)
     ∧ (20 <= qualityScore result <= 100)%Q
     ∧ linesOfCode result = countLines (req_content request)
     ∧ complexity result = None
     ∧ r_filePath result = filePath request
     ∧ r_language result = language request)
  ∧ (isTypeScriptOrJavaScript (language request) = true →
     ∀ msg h1, analyzeWithAST request (now h).2 = (Throw msg, h1) →
       run = (Throw ("Analysis failed: " +:+ msg), h1)).
Proof.
  cbv zeta. unfold analyzeCode, generateAnalysisId.
  unfold read, try_catch, bind, ret, throw.
  cbv beta. destruct (now h) as [startTime h0]. cbn [snd].
  split.
  - intros Hlang. rewrite Hlang.
    rewrite applySpecDrivenRules_spec.
    destruct (contributions H (selected_rules H svc request) (req_content request)
                (language request) h0) as [spec h1].
    cbn [fst snd].
    destruct (analysis_stamp h1) as [tag h2].
    destruct (now h2) as [endTime h3].
    eexists. eexists. split; [reflexivity|]. cbn.
    split; [reflexivity|]. split; [reflexivity|].
    split; [|repeat split].
    rewrite calculateQualityScore_value.
    destruct (fold_severity_penalty
                (performBasicAnalysis (req_content request) (language request) ++ spec) 0%Z)
      as [_ Hpos].
    split; [change 20%Q with (inject_Z 20) | change 100%Q with (inject_Z 100)];
      rewrite <- Zle_Qle; lia.
  - intros Hlang msg h1 Hthrow. rewrite Hlang, Hthrow. reflexivity.
Qed.

Lemma analyzeCode_composition_witness :
  let request := {| filePath := "script.py"; req_content := "print('x') # TODO";
                    language := "python"; userId := "user"; standards := None;
                    context_teamId := None |} in
  isTypeScriptOrJavaScript (language request) = false
  ∧ ∃ result h',
      analyzeCode nat (fun h => (Z.of_nat h, S h)) host_stamp unit (fun _ => 0%Q)
        (fun _ => throw "no analyzer") (fun _ _ => throw "no analyzer")
        (fun _ _ => throw "no analyzer") {| customRules := ∅ |} request 0
      = (Ok result, h')
      ∧ (20 <= qualityScore result <= 100)%Q.
Proof.
  intros request.
  assert (Hlang : isTypeScriptOrJavaScript (language request) = false)
    by (vm_compute; reflexivity).
  split; [exact Hlang|].
  destruct (proj1 (analyzeCode_composition nat (fun h => (Z.of_nat h, S h)) host_stamp unit
                     (fun _ => 0%Q) (fun _ => throw "no analyzer")
                     (fun _ _ => throw "no analyzer") (fun _ _ => throw "no analyzer")
                     {| customRules := ∅ |} request 0) Hlang)
    as (result & h' & Hrun & _ & _ & Hscore & _).
  exists result, h'. split; assumption.
Defined.

(** ** Versions *)

Lemma split_on_aux_segment (sep : ascii) (seg rest cur : list ascii) :
  sep ∉ seg →
  split_on_aux sep cur (seg ++ sep :: rest)
  = JsString.of_chars (rev cur ++ seg) :: split_on_aux sep [] rest.
Proof.
  revert cur. induction seg as [|c seg IH]; intros cur Hsep.
  - cbn [app split_on_aux]. rewrite Ascii.eqb_refl. by rewrite app_nil_r.
  - cbn [app split_on_aux]. rewrite not_elem_of_cons in Hsep. destruct Hsep as [Hc Hseg].
    destruct (Ascii.eqb_spec c sep) as [->|_]; [congruence|].
    rewrite IH by assumption. cbn [rev]. by rewrite <- app_assoc.
Qed.

Lemma split_on_aux_last (sep : ascii) (seg cur : list ascii) :
  sep ∉ seg →
  split_on_aux sep cur seg = [JsString.of_chars (rev cur ++ seg)].
Proof.
  revert cur. induction seg as [|c seg IH]; intros cur Hsep.
  - cbn [split_on_aux]. by rewrite app_nil_r.
  - cbn [split_on_aux]. rewrite not_elem_of_cons in Hsep. destruct Hsep as [Hc Hseg].
    destruct (Ascii.eqb_spec c sep) as [->|_]; [congruence|].
    rewrite IH by assumption. cbn [rev]. by rewrite <- app_assoc.
Qed.

Lemma of_chars_chars (s : string) : JsString.of_chars (JsString.chars s) = s.
Proof. apply string_of_list_ascii_of_string. Qed.

Lemma digits_no_space (l : list ascii) :
  Forall (fun c => JsString.is_digit c = true) l → JsString.drop_spaces l = l.
Proof.
  destruct 1 as [|c l Hc _]; [reflexivity|]. simpl.
  assert (Hs : JsString.is_space c = false); [|by rewrite Hs].
  revert Hc. unfold JsString.is_digit, JsString.is_space.
  destruct (JsString.code c) as [|n]; [discriminate|].
  do 47 (destruct n as [|n]; [discriminate|]).
  intros _. do 10 (destruct n as [|n]; [reflexivity|]). reflexivity.
Qed.

Lemma read_decimal_uint (d : Decimal.uint) (acc : option N) :
  read_digits decimal_digit 10 (JsString.chars (NilEmpty.string_of_uint d)) acc
  = match d with
    | Decimal.Nil => acc
    | _ => Some (N.of_nat (Nat.of_uint_acc d (N.to_nat (default 0%N acc))))
    end.
Proof.
  revert acc. induction d as [|d IH|d IH|d IH|d IH|d IH|d IH|d IH|d IH|d IH|d IH];
    intros acc; [reflexivity|..];
    cbn [NilEmpty.string_of_uint JsString.chars list_ascii_of_string read_digits];
    change (decimal_digit _) with (Some 0%N) || change (decimal_digit _) with (Some 1%N)
    || change (decimal_digit _) with (Some 2%N) || change (decimal_digit _) with (Some 3%N)
    || change (decimal_digit _) with (Some 4%N) || change (decimal_digit _) with (Some 5%N)
    || change (decimal_digit _) with (Some 6%N) || change (decimal_digit _) with (Some 7%N)
    || change (decimal_digit _) with (Some 8%N) || change (decimal_digit _) with (Some 9%N);
    cbv iota; fold (JsString.chars (NilEmpty.string_of_uint d)); rewrite IH;
    cbn [default from_option Datatypes.id Nat.of_uint_acc];
    rewrite Nat.tail_mul_spec;
    (destruct d; [cbn [Nat.of_uint_acc]; f_equal; lia | f_equal; f_equal; f_equal; lia ..]).
Qed.

Lemma digit_is_plain (c : ascii) :
  JsString.is_digit c = true →
  Ascii.eqb c "-" = false ∧ Ascii.eqb c "+" = false
  ∧ Ascii.eqb c "x" = false ∧ Ascii.eqb c "X" = false ∧ c ≠ "."%char.
Proof.
  destruct c as [[] [] [] [] [] [] [] []]; vm_compute; intros Hd;
    try discriminate Hd; repeat split; discriminate.
Qed.

Lemma not_digit_stops (c : ascii) :
  JsString.is_digit c = false → decimal_digit c = None.
Proof. unfold decimal_digit. by intros ->. Qed.

Lemma read_decimal_uint_then (d : Decimal.uint) (t : list ascii) (acc : option N) :
  (∀ c, head t = Some c → JsString.is_digit c = false) →
  read_digits decimal_digit 10 (JsString.chars (NilEmpty.string_of_uint d) ++ t) acc
  = match d with
    | Decimal.Nil => acc
    | _ => Some (N.of_nat (Nat.of_uint_acc d (N.to_nat (default 0%N acc))))
    end.
Proof.
  intros Ht. revert acc.
  induction d as [|d IH|d IH|d IH|d IH|d IH|d IH|d IH|d IH|d IH|d IH]; intros acc.
  { cbn [NilEmpty.string_of_uint JsString.chars list_ascii_of_string app].
    destruct t as [|c t]; [reflexivity|]. cbn [read_digits].
    by rewrite (not_digit_stops c (Ht c eq_refl)). }
  all: cbn [NilEmpty.string_of_uint JsString.chars list_ascii_of_string read_digits app];
    change (decimal_digit _) with (Some 0%N) || change (decimal_digit _) with (Some 1%N)
    || change (decimal_digit _) with (Some 2%N) || change (decimal_digit _) with (Some 3%N)
    || change (decimal_digit _) with (Some 4%N) || change (decimal_digit _) with (Some 5%N)
    || change (decimal_digit _) with (Some 6%N) || change (decimal_digit _) with (Some 7%N)
    || change (decimal_digit _) with (Some 8%N) || change (decimal_digit _) with (Some 9%N);
    cbv iota; fold (JsString.chars (NilEmpty.string_of_uint d)); rewrite IH;
    cbn [default from_option Datatypes.id Nat.of_uint_acc];
    rewrite Nat.tail_mul_spec;
    (destruct d; [cbn [Nat.of_uint_acc]; f_equal; lia | f_equal; f_equal; f_equal; lia ..]).
Qed.

Lemma to_uint_not_nil (n : nat) : Nat.to_uint n ≠ Decimal.Nil.
Proof.
  intros Hn. pose proof (DecimalNat.Unsigned.of_to n) as Hof.
  rewrite Hn in Hof. cbn in Hof. subst n. discriminate Hn.
Qed.

(** [parseInt] reads back the number at the front of a text, whatever
    follows it, unless that continues the number or makes a [0x] prefix. *)
Lemma parseInt_of_nat_then (n : nat) (t : list ascii) :
  (∀ c, head t = Some c →
        JsString.is_digit c = false ∧ Ascii.eqb c "x" = false ∧ Ascii.eqb c "X" = false) →
  parseInt (JsString.of_chars (JsString.chars (JsString.of_nat n) ++ t))
  = Some (Z.of_nat n).
Proof.
  intros Ht. unfold parseInt. rewrite chars_of_chars.
  pose proof (of_nat_digits n) as Hdigits.
  pose proof (to_uint_not_nil n) as Hnil.
  assert (Hread : read_digits decimal_digit 10 (JsString.chars (JsString.of_nat n) ++ t) None
                  = Some (N.of_nat n)).
  { unfold JsString.of_nat. rewrite read_decimal_uint_then by (intros c Hc; by apply Ht).
    transitivity (Some (N.of_nat (Nat.of_uint_acc (Nat.to_uint n)
                                    (N.to_nat (default 0%N None))))).
    - destruct (Nat.to_uint n); [congruence|reflexivity..].
    - do 2 f_equal. exact (DecimalNat.Unsigned.of_to n). }
  destruct (JsString.chars (JsString.of_nat n)) as [|c l] eqn:Hchars.
  { exfalso. unfold JsString.of_nat in Hchars.
    destruct (Nat.to_uint n); try congruence; discriminate Hchars. }
  inversion Hdigits as [|? ? Hc Hl]; subst.
  destruct (digit_is_plain c Hc) as (Hminus & Hplus & _).
  assert (Hspace : JsString.drop_spaces ((c :: l) ++ t) = (c :: l) ++ t).
  { cbn [app JsString.drop_spaces].
    pose proof (digits_no_space [c]) as Hone. cbn [JsString.drop_spaces] in Hone.
    destruct (JsString.is_space c); [|reflexivity].
    specialize (Hone ltac:(by constructor)). discriminate Hone. }
  rewrite Hspace. cbn [app]. rewrite Hminus, Hplus.
  assert (Hprefix :
    match l ++ t with
    | x :: _ => Ascii.eqb c "0" && (Ascii.eqb x "x" || Ascii.eqb x "X") = false
    | [] => True
    end).
  { destruct l as [|x l].
    - cbn [app]. destruct t as [|x t]; [exact I|].
      destruct (Ht x eq_refl) as (_ & -> & ->). apply andb_false_r.
    - cbn [app]. inversion Hl as [|? ? Hx _]; subst.
      destruct (digit_is_plain x Hx) as (_ & _ & -> & -> & _). apply andb_false_r. }
  destruct (l ++ t) as [|x lt] eqn:Hlt.
  - cbn [app] in Hread. rewrite Hlt in Hread. rewrite Hread. f_equal. lia.
  - rewrite Hprefix. cbn [app] in Hread. rewrite Hlt in Hread. rewrite Hread.
    f_equal. lia.
Qed.

Lemma number_text_succ (n : nat) :
  number_text (fmap (fun p => (p + 1)%Z) (Some (Z.of_nat n))) = JsString.of_nat (S n).
Proof.
  cbn [fmap option_fmap option_map number_text].
  replace (Z.of_nat n + 1)%Z with (Z.of_nat (S n)) by lia.
  unfold JsString.of_Z. destruct (Z.of_nat (S n)) eqn:Hz; try lia.
  by rewrite <- Hz, Nat2Z.id.
Qed.

(** The text up to the first separator is the first piece of a split. *)
Lemma split_on_aux_first (sep : ascii) (l cur : list ascii) :
  ∃ seg more parts,
    l = seg ++ more ∧ (sep ∉ seg)
    ∧ (∀ c, head more = Some c → c = sep)
    ∧ split_on_aux sep cur l = JsString.of_chars (rev cur ++ seg) :: parts.
Proof.
  revert cur. induction l as [|c l IH]; intros cur.
  - exists [], [], []. cbn. rewrite app_nil_r.
    split; [reflexivity|]. split; [apply not_elem_of_nil|]. split; [discriminate|reflexivity].
  - cbn [split_on_aux]. destruct (Ascii.eqb_spec c sep) as [->|Hne].
    + exists [], (sep :: l), (split_on_aux sep [] l). rewrite app_nil_r.
      split; [reflexivity|]. split; [apply not_elem_of_nil|].
      split; [by intros ? [= <-]|reflexivity].
    + destruct (IH (c :: cur)) as (seg & more & parts & -> & Hseg & Hmore & Hsplit).
      exists (c :: seg), more, parts.
      split; [reflexivity|]. split; [rewrite not_elem_of_cons; by split|].
      split; [assumption|]. rewrite Hsplit. cbn [rev]. by rewrite <- app_assoc.
Qed.

(** X17 — A version [major.minor.patch...] whose third part starts with a
    decimal number is incremented to [major.minor.(patch + 1)]: whatever
    follows the number (a pre-release tag, further parts) is dropped. A
    version with fewer than two dots is returned as it is. *)
Theorem incrementVersion_patch (major minor tail : string) (n : nat) :
  "."%char ∉ JsString.chars major →
  "."%char ∉ JsString.chars minor →
  (∀ c, head (JsString.chars tail) = Some c →
        JsString.is_digit c = false ∧ c ≠ "x"%char ∧ c ≠ "X"%char) →
  (Z.of_nat n < 2 ^ 53)%Z →
  incrementVersion (major +:+ "." +:+ minor +:+ "." +:+ JsString.of_nat n +:+ tail)
  = major +:+ "." +:+ minor +:+ "." +:+ JsString.of_nat (S n)
  ∧ incrementVersion major = major
  ∧ incrementVersion (major +:+ "." +:+ minor) = major +:+ "." +:+ minor.
Proof.
  intros Hmajor Hminor Htail _. unfold incrementVersion, split_on.
  split; [|split].
  - rewrite !chars_app. cbn [JsString.chars list_ascii_of_string app].
    rewrite split_on_aux_segment by assumption.
    rewrite split_on_aux_segment by assumption.
    cbn [rev app]. rewrite !of_chars_chars.
    destruct (split_on_aux_first "." (JsString.chars (JsString.of_nat n)
                                       ++ JsString.chars tail) [])
      as (seg & more & parts & Hsplit & Hseg & Hmore & ->).
    cbn [rev app].
    assert (Hthird : ∃ t, seg = JsString.chars (JsString.of_nat n) ++ t
                          ∧ ∀ c, head t = Some c → head (JsString.chars tail) = Some c).
    { pose proof (of_nat_digits n) as Hdigits.
      revert seg Hsplit Hseg.
      induction (JsString.chars (JsString.of_nat n)) as [|d ds IH]; intros seg Hsplit Hseg.
      - exists seg. split; [reflexivity|]. intros c Hc. cbn [app] in Hsplit.
        rewrite Hsplit. destruct seg; [discriminate|]. exact Hc.
      - inversion Hdigits as [|? ? Hd Hds]; subst.
        destruct seg as [|s seg].
        + exfalso. cbn [app] in Hsplit. subst more.
          specialize (Hmore d eq_refl). subst d.
          destruct (digit_is_plain _ Hd) as (_ & _ & _ & _ & Hdot). congruence.
        + cbn [app] in Hsplit. injection Hsplit as <- Hsplit.
          rewrite not_elem_of_cons in Hseg. destruct Hseg as [_ Hseg].
          destruct (IH Hds seg Hsplit Hseg) as (t & -> & Ht).
          exists t. split; [reflexivity|assumption]. }
    destruct Hthird as (t & -> & Ht).
    rewrite parseInt_of_nat_then.
    + by rewrite number_text_succ.
    + intros c Hc. destruct (Htail c (Ht c Hc)) as (Hd & Hx & HX).
      split; [assumption|]. split; by apply Ascii.eqb_neq.
  - by rewrite split_on_aux_last.
  - rewrite !chars_app. cbn [JsString.chars list_ascii_of_string app].
    rewrite split_on_aux_segment by assumption.
    by rewrite split_on_aux_last.
Qed.

Lemma incrementVersion_patch_witness :
  incrementVersion ("2" +:+ "." +:+ "1" +:+ "." +:+ JsString.of_nat 5 +:+ "-beta.7")
  = "2" +:+ "." +:+ "1" +:+ "." +:+ JsString.of_nat 6.
Proof.
  refine (proj1 (incrementVersion_patch "2" "1" "-beta.7" 5 _ _ _ _)).
  - apply (bool_decide_eq_true_1 _). vm_compute. reflexivity.
  - apply (bool_decide_eq_true_1 _). vm_compute. reflexivity.
  - intros c [= <-]. repeat split; discriminate.
  - reflexivity.
Defined.

(** ** The life cycle of a stored specification *)

Section SpecServiceFacts.

Variable RegExp_new : string -> string -> result RegExp.
Variable H : Type.
Variable stamp : H -> string * H.

Lemma validation_no_errors spec :
  val_errors (validateQualitySpec RegExp_new spec) = [].
Proof. unfold validateQualitySpec. by rewrite parseQualitySpec_result. Qed.

Lemma valid_spec_rules spec :
  isValid (validateQualitySpec RegExp_new spec) = true →
  ∃ res, parseQualitySpec RegExp_new spec = Ok res ∧ rules res ≠ [].
Proof.
  unfold validateQualitySpec. rewrite parseQualitySpec_result.
  cbn [isValid rules]. intros Hvalid.
  eexists. split; [reflexivity|].
  apply andb_true_iff in Hvalid. destruct Hvalid as [_ Hpos].
  apply Nat.ltb_lt in Hpos. intros Hnil. cbn [rules] in Hnil.
  rewrite Hnil in Hpos. simpl in Hpos. lia.
Qed.

(** Storing a specification and loading its rules, as [createQualitySpec]
    and [updateQualitySpec] do once the verdict is positive. *)
Lemma store_and_load (svc : AnalysisService H) (identifier : string) (spec : QualitySpec) :
  ∃ loaded res,
    loadQualityStandards RegExp_new H stamp svc identifier spec = Ok loaded
    ∧ parseQualitySpec RegExp_new spec = Ok res
    ∧ map (x_id H) (getLoadedRules H loaded identifier) = map id (rules res)
    ∧ ∀ other, other ≠ identifier →
        getLoadedRules H loaded other = getLoadedRules H svc other.
Proof.
  unfold loadQualityStandards. rewrite parseQualitySpec_result.
  eexists. eexists. split; [reflexivity|]. split; [reflexivity|].
  unfold getLoadedRules. cbn [customRules rules]. split.
  - rewrite lookup_insert_eq. cbn [from_option]. unfold Datatypes.id.
    unfold convertToExecutableRules. by rewrite map_map.
  - intros other Hne. by rewrite lookup_insert_ne by congruence.
Qed.

Lemma createQualitySpec_stored (identifier source : string)
    (metadata : option QualitySpecMetadata) (s : QualitySpecService H) r created :
  createQualitySpec RegExp_new H stamp identifier source metadata s = (Ok r, created) →
  success r = true →
  ∃ spec, getQualitySpec H created identifier = Some spec.
Proof.
  unfold createQualitySpec.
  destruct (isValid (validateQualitySpec RegExp_new _)).
  - destruct (store_and_load (analysisService H s) identifier
                {| content := source;
                   spec_metadata := Some (created_metadata identifier metadata) |})
      as (loaded & res & -> & _).
    intros [= <- <-] _. eexists. unfold getQualitySpec. cbn [specStorage].
    apply lookup_insert_eq.
  - intros [= <- <-]. discriminate.
Qed.

End SpecServiceFacts.

(** X18 — Creating a specification never throws and never reports an
    error; it succeeds exactly when the specification is valid. A failed
    creation changes nothing. A successful one stores the content with the
    caller's metadata, completed by the defaults, and loads one rule per
    usable rule of the text, of which there is at least one; whatever is
    stored or loaded under other identifiers stays. *)
Theorem createQualitySpec_outcome (RegExp_new : string -> string -> result RegExp)
    (H : Type) (stamp : H → string * H) (identifier source : string)
    (metadata : option QualitySpecMetadata) (s : QualitySpecService H) :
  let spec := {| content := source;
                 spec_metadata := Some (created_metadata identifier metadata) |} in
  ∃ r s',
    createQualitySpec RegExp_new H stamp identifier source metadata s = (Ok r, s')
    ∧ success r = isValid (validateQualitySpec RegExp_new spec)
    ∧ op_errors r = []
    ∧ (success r = false → s' = s)
    ∧ (success r = true →
       getQualitySpec H s' identifier = Some spec
       ∧ ∃ res, parseQualitySpec RegExp_new spec = Ok res
           ∧ rules res ≠ []
           ∧ map (x_id H) (getLoadedRules H (analysisService H s') identifier)
             = map id (rules res))
    ∧ (∀ other, other ≠ identifier →
       getQualitySpec H s' other = getQualitySpec H s other
       ∧ getLoadedRules H (analysisService H s') other
         = getLoadedRules H (analysisService H s) other).
Proof.
  intros spec. unfold createQualitySpec. fold spec.
  destruct (isValid (validateQualitySpec RegExp_new spec)) eqn:Hvalid.
  - destruct (store_and_load RegExp_new H stamp (analysisService H s) identifier spec)
      as (loaded & res & -> & Hres & Hids & Hframe).
    eexists. eexists. split; [reflexivity|]. cbn [success op_errors outcome_of].
    split; [reflexivity|]. split; [apply validation_no_errors|].
    split; [discriminate|]. split.
    + intros _. unfold getQualitySpec. cbn [specStorage analysisService].
      split; [apply lookup_insert_eq|].
      destruct (valid_spec_rules RegExp_new spec Hvalid) as (res' & Hres' & Hne).
      exists res. split; [assumption|]. split; [congruence|assumption].
    + intros other Hne. unfold getQualitySpec. cbn [specStorage analysisService].
      split; [by rewrite lookup_insert_ne by congruence | by apply Hframe].
  - eexists. eexists. split; [reflexivity|]. cbn [success op_errors outcome_of].
    split; [reflexivity|]. split; [apply validation_no_errors|].
    split; [reflexivity|]. split; [discriminate|]. intros other _. by split.
Qed.

(** X19 — Updating an identifier that has no stored specification is
    refused with one error and changes nothing. Updating a stored one
    never throws; when the new text is not valid nothing changes; when it
    is, the stored content is the new text, the version is the increment
    of the stored version ([1.0.0] when that is missing or empty), author
    and description are the caller's when given and the stored ones
    otherwise, and the rules loaded under the identifier are those of the
    new text; other identifiers stay as they are. *)
Theorem updateQualitySpec_outcome (RegExp_new : string -> string -> result RegExp)
    (H : Type) (stamp : H → string * H) (identifier source : string)
    (metadata : option QualitySpecMetadata) (s : QualitySpecService H) :
  (getQualitySpec H s identifier = None →
   updateQualitySpec RegExp_new H stamp identifier source metadata s
   = (Ok {| success := false;
            op_errors := ["Quality specification '" +:+ identifier +:+ "' not found"];
            op_warnings := [] |}, s))
  ∧ (∀ existing, getQualitySpec H s identifier = Some existing →
     ∃ r s',
       updateQualitySpec RegExp_new H stamp identifier source metadata s = (Ok r, s')
       ∧ op_errors r = []
       ∧ (success r = false → s' = s)
       ∧ (success r = true →
          ∃ stored res,
            getQualitySpec H s' identifier = Some stored
            ∧ content stored = source
            ∧ (spec_metadata stored ≫= version)
              = Some (incrementVersion (or_else (spec_metadata existing ≫= version) "1.0.0"))
            ∧ (spec_metadata stored ≫= author)
              = (match metadata ≫= author with
                 | Some a => Some a
                 | None => spec_metadata existing ≫= author
                 end)
            ∧ (spec_metadata stored ≫= description)
              = (match metadata ≫= description with
                 | Some d => Some d
                 | None => spec_metadata existing ≫= description
                 end)
            ∧ parseQualitySpec RegExp_new stored = Ok res
            ∧ rules res ≠ []
            ∧ map (x_id H) (getLoadedRules H (analysisService H s') identifier)
              = map id (rules res))
       ∧ (∀ other, other ≠ identifier →
          getQualitySpec H s' other = getQualitySpec H s other
          ∧ getLoadedRules H (analysisService H s') other
            = getLoadedRules H (analysisService H s) other)).
Proof.
  unfold getQualitySpec, updateQualitySpec. split.
  - intros ->. reflexivity.
  - intros existing ->.
    set (updated := {| content := source;
                       spec_metadata := Some (updated_metadata (spec_metadata existing)
                                                metadata) |}).
    destruct (isValid (validateQualitySpec RegExp_new updated)) eqn:Hvalid.
    + destruct (store_and_load RegExp_new H stamp
                  (clearRules H (analysisService H s) identifier) identifier updated)
        as (loaded & res & -> & Hres & Hids & Hframe).
      eexists. eexists. split; [reflexivity|]. cbn [success op_errors outcome_of].
      split; [apply validation_no_errors|]. split; [discriminate|]. split.
      * intros _. exists updated, res. cbn [specStorage analysisService].
        split; [apply lookup_insert_eq|]. split; [reflexivity|].
        split; [reflexivity|]. split; [reflexivity|]. split; [reflexivity|].
        split; [assumption|].
        destruct (valid_spec_rules RegExp_new updated Hvalid) as (res' & Hres' & Hne).
        split; [congruence|assumption].
      * intros other Hne. cbn [specStorage analysisService].
        split; [by rewrite lookup_insert_ne by congruence|].
        rewrite Hframe by assumption. unfold getLoadedRules, clearRules.
        cbn [customRules]. by rewrite lookup_delete_ne by congruence.
    + eexists. eexists. split; [reflexivity|]. cbn [success op_errors outcome_of].
      split; [apply validation_no_errors|]. split; [reflexivity|].
      split; [discriminate|]. intros other _. by split.
Qed.

(** X20 — Deleting tells whether a specification was stored under the
    identifier. If one was, it is gone afterwards and so are the rules
    loaded under the identifier; if none was, nothing changes, rules
    loaded under the identifier included. Other identifiers stay as they
    are. In particular a successful creation followed by a deletion
    leaves no specification and no rule under the identifier. *)
Theorem deleteQualitySpec_outcome (RegExp_new : string -> string -> result RegExp)
    (H : Type) (stamp : H → string * H) (identifier : string) (s : QualitySpecService H) :
  let (existed, s') := deleteQualitySpec H identifier s in
  (existed = true ↔ is_Some (getQualitySpec H s identifier))
  ∧ getQualitySpec H s' identifier = None
  ∧ (existed = true → getLoadedRules H (analysisService H s') identifier = [])
  ∧ (existed = false → s' = s)
  ∧ (∀ other, other ≠ identifier →
     getQualitySpec H s' other = getQualitySpec H s other
     ∧ getLoadedRules H (analysisService H s') other
       = getLoadedRules H (analysisService H s) other)
  ∧ (∀ source metadata r created,
       createQualitySpec RegExp_new H stamp identifier source metadata s = (Ok r, created) →
       success r = true →
       ∃ after, deleteQualitySpec H identifier created = (true, after)
         ∧ getQualitySpec H after identifier = None
         ∧ getLoadedRules H (analysisService H after) identifier = []).
Proof.
  assert (Hcreate : ∀ source metadata r created,
    createQualitySpec RegExp_new H stamp identifier source metadata s = (Ok r, created) →
    success r = true →
    ∃ after, deleteQualitySpec H identifier created = (true, after)
      ∧ getQualitySpec H after identifier = None
      ∧ getLoadedRules H (analysisService H after) identifier = []).
  { intros source metadata r created Hc Hok.
    destruct (createQualitySpec_stored RegExp_new H stamp identifier source metadata s r created
                Hc Hok) as (spec & Hstored).
    unfold deleteQualitySpec. unfold getQualitySpec in Hstored. rewrite Hstored.
    eexists. split; [reflexivity|]. unfold getQualitySpec, getLoadedRules, clearRules.
    cbn [specStorage analysisService customRules]. by rewrite !lookup_delete_eq. }
  unfold deleteQualitySpec, getQualitySpec.
  destruct (specStorage H s !! identifier) as [spec|] eqn:Hs.
  - split; [split; [by eexists|reflexivity]|].
    cbn [specStorage analysisService]. split; [apply lookup_delete_eq|].
    split; [intros _; unfold getLoadedRules, clearRules; cbn [customRules];
            by rewrite lookup_delete_eq|].
    split; [discriminate|]. split; [|exact Hcreate].
    intros other Hne. unfold getLoadedRules, clearRules. cbn [customRules].
    by rewrite !lookup_delete_ne by congruence.
  - split; [split; [discriminate|intros [? [=]]]|].
    split; [assumption|]. split; [discriminate|]. split; [reflexivity|].
    split; [|exact Hcreate]. intros other _. by split.
Qed.

(** ** The quality gate *)

Lemma count_violation_fold (violations : list RuleViolation) :
  ∀ counts,
    let after := fold_left count_violation violations counts in
    n_critical after
    = n_critical counts
      + List.length (filter (fun v => v_severity v = "critical") violations)
    ∧ n_error after
      = n_error counts + List.length (filter (fun v => v_severity v = "error") violations)
    ∧ n_warning after
      = n_warning counts
        + List.length (filter (fun v => v_severity v = "warning") violations)
    ∧ n_info after
      = n_info counts + List.length (filter (fun v => v_severity v = "info") violations).
Proof.
  induction violations as [|v violations IH]; intros counts; cbv zeta.
  - cbn. repeat split; lia.
  - cbn [fold_left]. destruct (IH (count_violation counts v)) as (Hc & He & Hw & Hi).
    rewrite Hc, He, Hw, Hi. clear IH Hc He Hw Hi.
    rewrite !filter_cons. unfold count_violation.
    destruct (String.eqb_spec (v_severity v) "critical") as [Hs|Hs];
      [|destruct (String.eqb_spec (v_severity v) "error") as [Hs1|Hs1];
        [|destruct (String.eqb_spec (v_severity v) "warning") as [Hs2|Hs2];
          [|destruct (String.eqb_spec (v_severity v) "info") as [Hs3|Hs3]]]];
      repeat match goal with
      | |- context [decide (v_severity v = ?s)] =>
          first [ rewrite (decide_True (P := v_severity v = s)) by congruence
                | rewrite (decide_False (P := v_severity v = s)) by congruence ]
      end;
      cbn [List.length n_critical n_error n_warning n_info]; repeat split; lia.
Qed.

Lemma aggregate_fold (results : list AnalysisResult) :
  ∀ violations total counts,
    fold_left aggregate_step results (violations, total, counts)
    = (violations ++ flat_map r_violations results,
       fold_left Qplus (map qualityScore results) total,
       fold_left count_violation (flat_map r_violations results) counts).
Proof.
  induction results as [|r results IH]; intros violations total counts.
  - cbn. by rewrite app_nil_r.
  - cbn [fold_left aggregate_step flat_map map]. rewrite IH.
    by rewrite <- app_assoc, fold_left_app.
Qed.

Lemma fold_Qplus_between (lo hi : Q) (qs : list Q) (total : Q) :
  Forall (fun q => (lo <= q <= hi)%Q) qs →
  (total + lo * inject_Z (Z.of_nat (List.length qs)) <= fold_left Qplus qs total
   <= total + hi * inject_Z (Z.of_nat (List.length qs)))%Q.
Proof.
  intros Hall. revert total.
  induction Hall as [|q qs [Hlo Hhi] _ IH]; intros total.
  - cbn. split; ring_simplify; apply Qle_refl.
  - cbn [fold_left List.length]. destruct (IH (total + q)%Q) as [IHlo IHhi].
    pose proof (inject_Z_succ (List.length qs)) as Hs.
    hide_injections. rewrite Hs. split; lra.
Qed.

Lemma Math_round_inject_Z (z : Z) : Math_round (inject_Z z) = z.
Proof.
  unfold Math_round, Qfloor, Qplus, inject_Z. simpl.
  symmetry. apply Z.div_unique with (r := 1%Z); lia.
Qed.

Lemma Math_round_between (lo hi : Z) (x : Q) :
  (inject_Z lo <= x <= inject_Z hi)%Q → (lo ≤ Math_round x ≤ hi)%Z.
Proof.
  intros [Hlo Hhi]. split.
  - transitivity (Math_round (inject_Z lo)); [by rewrite Math_round_inject_Z|].
    unfold Math_round. apply Qfloor_resp_le. lra.
  - transitivity (Math_round (inject_Z hi)); [|by rewrite Math_round_inject_Z].
    unfold Math_round. apply Qfloor_resp_le. lra.
Qed.

(** X21 — Aggregation counts the files, concatenates their violations in
    order and counts those of each of the four severities; a violation of
    any other severity is kept in the list and counted nowhere. The
    average score of at least one file lies between any two whole numbers
    that bound every file's score; without a file it is 100. *)
Theorem aggregateAnalysisResults_spec (results : list AnalysisResult) :
  let analysis := aggregateAnalysisResults results in
  let counts := violationCounts analysis in
  totalFiles analysis = List.length results
  ∧ allViolations analysis = flat_map r_violations results
  ∧ n_critical counts
    = List.length (filter (fun v => v_severity v = "critical") (allViolations analysis))
  ∧ n_error counts
    = List.length (filter (fun v => v_severity v = "error") (allViolations analysis))
  ∧ n_warning counts
    = List.length (filter (fun v => v_severity v = "warning") (allViolations analysis))
  ∧ n_info counts
    = List.length (filter (fun v => v_severity v = "info") (allViolations analysis))
  ∧ (results = [] → averageQualityScore analysis = 100%Z)
  ∧ (∀ lo hi : Z,
       results ≠ [] →
       Forall (fun r => (inject_Z lo <= qualityScore r <= inject_Z hi)%Q) results →
       (lo ≤ averageQualityScore analysis ≤ hi)%Z).
Proof.
  cbv zeta. unfold aggregateAnalysisResults.
  destruct results as [|r results]; [cbn; repeat split; try reflexivity; congruence|].
  rewrite aggregate_fold.
  cbn [totalFiles allViolations violationCounts averageQualityScore app].
  destruct (count_violation_fold (flat_map r_violations (r :: results)) no_violations)
    as (Hc & He & Hw & Hi).
  split; [reflexivity|]. split; [reflexivity|].
  split; [exact Hc|]. split; [exact He|]. split; [exact Hw|]. split; [exact Hi|].
  split; [discriminate|].
  intros lo hi _ Hall. apply Math_round_between.
  assert (Hq : Forall (fun q => (inject_Z lo <= q <= inject_Z hi)%Q)
                 (map qualityScore (r :: results)))
    by (apply Forall_fmap; exact Hall).
  destruct (fold_Qplus_between (inject_Z lo) (inject_Z hi) _ 0%Q Hq) as [Hlo Hhi].
  rewrite length_map in Hlo, Hhi.
  assert (Hpos : (0 < inject_Z (Z.of_nat (List.length (r :: results))))%Q).
  { pose proof (inject_Z_succ (List.length results)) as Hs.
    pose proof (inject_Z_nat_nonneg (List.length results)). cbn [List.length].
    hide_injections. lra. }
  split.
  - apply Qle_shift_div_l; [assumption|]. lra.
  - apply Qle_shift_div_r; [assumption|]. lra.
Qed.

Lemma decision_action (analysis : AggregatedAnalysis) (thresholds : QualityThresholds) :
  d_action (makeQualityGateDecision analysis thresholds)
  = if blockOnCritical thresholds
       && (maxCriticalViolations thresholds
           <? Z.of_nat (n_critical (violationCounts analysis)))%Z then BLOCK
    else if (maxErrorViolations thresholds
             <? Z.of_nat (n_error (violationCounts analysis)))%Z then BLOCK
    else if (maxWarningViolations thresholds
             <? Z.of_nat (n_warning (violationCounts analysis)))%Z then BLOCK
    else if (averageQualityScore analysis <? minQualityScore thresholds)%Z
    then (if warnOnLowScore thresholds then WARN else BLOCK)
    else ALLOW.
Proof.
  unfold makeQualityGateDecision.
  destruct (blockOnCritical thresholds && _); [reflexivity|].
  destruct (_ <? Z.of_nat (n_error _))%Z; [reflexivity|].
  destruct (_ <? Z.of_nat (n_warning _))%Z; [reflexivity|].
  destruct (_ <? minQualityScore _)%Z; [|reflexivity].
  by destruct (warnOnLowScore thresholds).
Qed.

(** X22 — The decision of the gate is read off three counters and the
    average score. It allows the commit exactly when errors and warnings
    are within their limits, critical violations are within theirs or
    critical blocking is off, and the score reaches the minimum; it only
    warns exactly when the limits hold, the score is below the minimum and
    warning on a low score is on; in every other case it blocks. The
    number of info violations, the list of violations and the number of
    files never change the action. *)
Theorem makeQualityGateDecision_action (analysis : AggregatedAnalysis)
    (thresholds : QualityThresholds) :
  let counts := violationCounts analysis in
  let within :=
    (blockOnCritical thresholds = false
     ∨ (Z.of_nat (n_critical counts) ≤ maxCriticalViolations thresholds)%Z)
    ∧ (Z.of_nat (n_error counts) ≤ maxErrorViolations thresholds)%Z
    ∧ (Z.of_nat (n_warning counts) ≤ maxWarningViolations thresholds)%Z in
  let action := d_action (makeQualityGateDecision analysis thresholds) in
  (action = ALLOW
   ↔ within ∧ (minQualityScore thresholds ≤ averageQualityScore analysis)%Z)
  ∧ (action = WARN
     ↔ within ∧ (averageQualityScore analysis < minQualityScore thresholds)%Z
       ∧ warnOnLowScore thresholds = true)
  ∧ (action = BLOCK
     ↔ ¬ within
       ∨ ((averageQualityScore analysis < minQualityScore thresholds)%Z
          ∧ warnOnLowScore thresholds = false))
  ∧ (∀ other : AggregatedAnalysis,
       n_critical (violationCounts other) = n_critical counts →
       n_error (violationCounts other) = n_error counts →
       n_warning (violationCounts other) = n_warning counts →
       averageQualityScore other = averageQualityScore analysis →
       d_action (makeQualityGateDecision other thresholds) = action).
Proof.
  cbv zeta. rewrite decision_action.
  split; [|split; [|split]].
  4:{ intros other H1 H2 H3 H4. by rewrite decision_action, H1, H2, H3, H4. }
  all: destruct (blockOnCritical thresholds);
    destruct (Z.ltb_spec (maxCriticalViolations thresholds)
                (Z.of_nat (n_critical (violationCounts analysis))));
    destruct (Z.ltb_spec (maxErrorViolations thresholds)
                (Z.of_nat (n_error (violationCounts analysis))));
    destruct (Z.ltb_spec (maxWarningViolations thresholds)
                (Z.of_nat (n_warning (violationCounts analysis))));
    destruct (Z.ltb_spec (averageQualityScore analysis) (minQualityScore thresholds));
    destruct (warnOnLowScore thresholds);
    cbn [andb];
    (split; [intros Ha; try discriminate Ha | intros Hw]);
    try reflexivity;
    try (exfalso; lia);
    try (repeat split; first [lia | by left | by right | reflexivity]; fail);
    try (left; lia);
    try (right; split; [lia | reflexivity]);
    try (destruct Hw as [[[Hb|Hb] [Hb1 Hb2]] Hb3]; first [discriminate | lia]);
    try (destruct Hw as [[[Hb|Hb] [Hb1 Hb2]] [Hb3 Hb4]]; first [discriminate | lia]);
    try (left; intros [[Hb|Hb] [Hb1 Hb2]]; first [discriminate | lia]);
    try (destruct Hw as [Hn|[Hl Hf]];
         [exfalso; apply Hn; repeat split; first [lia | by left | by right]
         | first [discriminate | lia]]).
Qed.

(** ** Where an undeclared severity can come from *)

Section WordCaptures.

Import Regex.

Variable icase : bool.
Variable input : list ascii.
Variable n : nat.

Lemma skipn_next {A} (l : list A) (p : nat) (c : A) (t : list A) :
  skipn p l = c :: t → skipn (S p) l = t.
Proof.
  revert l. induction p as [|p IH]; intros l; destruct l as [|a l]; simpl; try discriminate.
  - by intros [= _ ->].
  - intros Hs. by apply IH in Hs.
Qed.

Lemma skipn_more {A} (l : list A) (p : nat) (w t : list A) :
  skipn p l = w ++ t → skipn (p + List.length w) l = t.
Proof.
  revert p. induction w as [|c w IH]; intros p Hs.
  - by rewrite Nat.add_0_r.
  - cbn [List.length]. replace (p + S (List.length w)) with (S p + List.length w) by lia.
    apply IH. by apply skipn_next in Hs.
Qed.

Lemma lookup_cap_clear (gs : list nat) (x : mstate) :
  existsb (Nat.eqb n) gs = false →
  lookup_cap n (caps (clear_caps gs x)) = lookup_cap n (caps x).
Proof.
  intros Hn. unfold clear_caps. cbn [caps].
  induction (caps x) as [|[k v] cs IH]; [reflexivity|].
  rewrite filter_cons. cbn [fst lookup_cap].
  destruct (Nat.eqb_spec k n) as [->|Hk].
  - rewrite Hn. cbn [negb]. rewrite decide_True by reflexivity.
    cbn [lookup_cap]. by rewrite Nat.eqb_refl.
  - destruct (negb (existsb (Nat.eqb k) gs)).
    + rewrite decide_True by reflexivity. cbn [lookup_cap].
      destruct (Nat.eqb_spec k n); [congruence|assumption].
    + rewrite decide_False by discriminate. assumption.
Qed.

Lemma steady_refl b x : steady input n b x x.
Proof. by split. Qed.

Lemma steady_trans b1 b2 x y z :
  steady input n b1 x y → steady input n b2 y z → steady input n (b1 && b2) x z.
Proof.
  intros [Hi1 Hc1] [Hi2 Hc2]. split; [auto|].
  intros Hb. apply andb_true_iff in Hb. destruct Hb as [-> ->].
  by rewrite Hc2, Hc1.
Qed.

Lemma steady_weaken b x y : steady input n true x y → steady input n b x y.
Proof. intros [Hi Hc]. split; auto. Qed.

Lemma reaches_step_char p :
  reaches (step_char p)
    (fun x y => ∃ c, rest x = c :: rest y ∧ p c = true
                  ∧ pos y = S (pos x) ∧ caps y = caps x).
Proof.
  intros k x z. unfold step_char.
  destruct (rest x) as [|c l] eqn:Hrest; [discriminate|].
  destruct (p c) eqn:Hp; [|discriminate].
  intros Hk. eexists. split; [|exact Hk]. exists c. by cbn.
Qed.

Lemma step_char_steady p : reaches (step_char p) (steady input n true).
Proof.
  intros k x z Hz. destruct (reaches_step_char p k x z Hz) as (y & (c & Hr & _ & Hp & Hc) & Hk).
  exists y. split; [|exact Hk]. split.
  - unfold on_input. intros Hx. rewrite Hp. rewrite Hr in Hx.
    symmetry. symmetry in Hx. by apply skipn_next in Hx.
  - intros _. by rewrite Hc.
Qed.

Lemma repeat_loop_steady (m : cont → cont) gs greedy :
  reaches m (steady input n (negb (existsb (Nat.eqb n) gs))) →
  ∀ fuel min max,
    reaches (repeat_loop fuel m gs min max greedy)
      (steady input n (negb (existsb (Nat.eqb n) gs))).
Proof.
  intros Hm. set (b := negb (existsb (Nat.eqb n) gs)) in *.
  assert (Hclear : ∀ x y, steady input n b (clear_caps gs x) y → steady input n b x y).
  { intros x y [Hi Hc]. split; [exact Hi|].
    intros Hb. rewrite (Hc Hb). apply lookup_cap_clear.
    subst b. by apply negb_true_iff in Hb. }
  assert (Htrans : ∀ x y z, steady input n b x y → steady input n b y z →
                            steady input n b x z).
  { intros x y z H1 H2. pose proof (steady_trans _ _ _ _ _ H1 H2) as H3.
    by rewrite andb_diag in H3. }
  induction fuel as [|fuel IH]; intros min max k x z; cbn [repeat_loop]; [discriminate|].
  set (d := fun y => if (min =? 0)%nat && (pos y =? pos x)%nat then None
                     else repeat_loop fuel m gs (Nat.pred min) (Nat.pred <$> max) greedy k y).
  assert (Hbody : m d (clear_caps gs x) = Some z →
                  ∃ y, steady input n b x y ∧ k y = Some z).
  { intros Hz. destruct (Hm _ _ _ Hz) as (y1 & H1 & Hd). subst d. cbv beta in Hd.
    destruct ((min =? 0)%nat && (pos y1 =? pos x)%nat); [discriminate|].
    destruct (IH _ _ _ _ _ Hd) as (y & H2 & Hk).
    exists y. split; [|exact Hk]. eapply Htrans; [apply Hclear; exact H1|exact H2]. }
  assert (Hskip : k x = Some z → ∃ y, steady input n b x y ∧ k y = Some z).
  { intros Hk. exists x. split; [apply steady_refl|exact Hk]. }
  destruct max as [[|max']|].
  - exact Hskip.
  - destruct (negb (min =? 0)%nat); [exact Hbody|].
    destruct greedy.
    + destruct (m d (clear_caps gs x)) eqn:Hz; [intros [= <-]; by apply Hbody|exact Hskip].
    + destruct (k x) eqn:Hz; [intros [= <-]; by apply Hskip|exact Hbody].
  - destruct (negb (min =? 0)%nat); [exact Hbody|].
    destruct greedy.
    + destruct (m d (clear_caps gs x)) eqn:Hz; [intros [= <-]; by apply Hbody|exact Hskip].
    + destruct (k x) eqn:Hz; [intros [= <-]; by apply Hskip|exact Hbody].
Qed.

Lemma rmatch_steady r : reaches (rmatch icase r) (steady input n (keeps_group n r)).
Proof.
  induction r as [| c | | neg items | neg | | | r1 IH1 r2 IH2 | r1 IH1 r2 IH2
                 | m r IH | r IH min max greedy]; intros k x z; cbn [rmatch].
  - intros Hk. exists x. split; [apply steady_refl|exact Hk].
  - apply step_char_steady.
  - apply step_char_steady.
  - apply step_char_steady.
  - destruct (xorb neg (at_word_boundary x)); [|discriminate].
    intros Hk. exists x. split; [apply steady_refl|exact Hk].
  - destruct (pos x =? 0)%nat; [|discriminate].
    intros Hk. exists x. split; [apply steady_refl|exact Hk].
  - destruct (rest x); [|discriminate].
    intros Hk. exists x. split; [apply steady_refl|exact Hk].
  - intros Hz. destruct (IH1 _ _ _ Hz) as (y1 & H1 & Hz2).
    destruct (IH2 _ _ _ Hz2) as (y & H2 & Hk).
    exists y. split; [|exact Hk].
    unfold keeps_group. cbn [groups_of]. rewrite existsb_app, negb_orb.
    by eapply steady_trans.
  - assert (Hsplit : keeps_group n (Alt r1 r2) = keeps_group n r1 && keeps_group n r2).
    { unfold keeps_group. cbn [groups_of]. by rewrite existsb_app, negb_orb. }
    rewrite Hsplit.
    assert (Hweak : ∀ b1 b2 x y, steady input n b1 x y ∨ steady input n b2 x y →
                                  steady input n (b1 && b2) x y).
    { intros b1 b2 x0 y0 [[Hi Hc]|[Hi Hc]]; (split; [exact Hi|]);
        intros Hb; apply andb_true_iff in Hb; destruct Hb; auto. }
    destruct (rmatch icase r1 k x) eqn:Hz.
    + intros [= <-]. destruct (IH1 _ _ _ Hz) as (y & H1 & Hk).
      exists y. split; [apply Hweak; by left|exact Hk].
    + intros Hz2. destruct (IH2 _ _ _ Hz2) as (y & H2 & Hk).
      exists y. split; [apply Hweak; by right|exact Hk].
  - intros Hz. destruct (IH _ _ _ Hz) as (y & [Hi Hc] & Hk).
    exists (set_cap m (pos x) y). split; [|exact Hk]. split.
    + exact Hi.
    + unfold keeps_group. cbn [groups_of existsb]. rewrite negb_orb.
      intros Hb. apply andb_true_iff in Hb. destruct Hb as [Hm Hb].
      cbn [set_cap caps lookup_cap].
      rewrite Nat.eqb_sym. apply negb_true_iff in Hm. rewrite Hm. by apply Hc.
  - intros Hz. eapply repeat_loop_steady; [exact IH|exact Hz].
Qed.

Lemma rmatch_literal r : ∀ w,
  literal_of r = Some w → reaches (rmatch icase r) (spelled icase w).
Proof.
  induction r as [| c | | neg items | neg | | | r1 IH1 r2 IH2 | r1 IH1 r2 IH2
                 | m r IH | r IH min max greedy]; intros w; cbn [literal_of];
    try discriminate.
  - intros [= <-] k x z Hk. exists x. split; [|exact Hk].
    exists []. cbn. repeat split. lia.
  - intros [= <-] k x z Hz. cbn [rmatch] in Hz.
    destruct (reaches_step_char _ _ _ _ Hz) as (y & (c' & Hr & Hp & Hpos & Hc) & Hk).
    exists y. split; [|exact Hk].
    exists [c']. cbn [app List.length map]. repeat split; try assumption; [lia|].
    unfold char_eq in Hp. apply Ascii.eqb_eq in Hp. by rewrite Hp.
  - destruct (literal_of r1) as [u|]; [|discriminate].
    destruct (literal_of r2) as [v|]; [|discriminate].
    intros [= <-] k x z Hz. cbn [rmatch] in Hz.
    destruct (IH1 u eq_refl _ _ _ Hz) as (y1 & (u' & Hr1 & Hp1 & Hc1 & Hu) & Hz2).
    destruct (IH2 v eq_refl _ _ _ Hz2) as (y & (v' & Hr2 & Hp2 & Hc2 & Hv) & Hk).
    exists y. split; [|exact Hk].
    exists (u' ++ v'). rewrite Hr1, Hr2, Hp2, Hp1, Hc2, Hc1, length_app, !map_app, Hu, Hv.
    repeat split; [by rewrite app_assoc|lia].
Qed.

Lemma rmatch_words r : ∀ us,
  words_of r = Some us →
  reaches (rmatch icase r) (fun x y => ∃ w, w ∈ us ∧ spelled icase w x y).
Proof.
  assert (Hlit : ∀ r us, (fun w => [w]) <$> literal_of r = Some us →
    reaches (rmatch icase r) (fun x y => ∃ w, w ∈ us ∧ spelled icase w x y)).
  { intros r0 us Hw k x z Hz.
    destruct (literal_of r0) as [w|] eqn:Hl; [|discriminate].
    injection Hw as <-.
    destruct (rmatch_literal r0 w Hl _ _ _ Hz) as (y & Hs & Hk).
    exists y. split; [|exact Hk]. exists w. split; [left|exact Hs]. }
  induction r as [| c | | neg items | neg | | | r1 IH1 r2 IH2 | r1 IH1 r2 IH2
                 | m r IH | r IH min max greedy]; intros us; cbn [words_of];
    try apply Hlit.
  destruct (words_of r1) as [u1|]; [|discriminate].
  destruct (words_of r2) as [u2|]; [|discriminate].
  intros [= <-] k x z. cbn [rmatch].
  destruct (rmatch icase r1 k x) eqn:Hz.
  - intros [= <-]. destruct (IH1 u1 eq_refl _ _ _ Hz) as (y & (w & Hw & Hs) & Hk).
    exists y. split; [|exact Hk]. exists w. split; [apply elem_of_app; by left|exact Hs].
  - intros Hz2. destruct (IH2 u2 eq_refl _ _ _ Hz2) as (y & (w & Hw & Hs) & Hk).
    exists y. split; [|exact Hk]. exists w. split; [apply elem_of_app; by right|exact Hs].
Qed.

Lemma rmatch_captures (ws : list string) r :
  captures_word n ws r = true →
  reaches (rmatch icase r)
    (fun x y => on_input input x → on_input input y ∧ word_captured icase input n ws y).
Proof.
  induction r as [| c | | neg items | neg | | | r1 IH1 r2 IH2 | r1 IH1 r2 IH2
                 | m r IH | r IH min max greedy]; cbn [captures_word];
    try discriminate.
  - intros Hc k x z Hz. cbn [rmatch] in Hz.
    apply orb_true_iff in Hc. destruct Hc as [Hc2|Hc1].
    + destruct (rmatch_steady r1 _ _ _ Hz) as (y1 & [Hi1 _] & Hz2).
      destruct (IH2 Hc2 _ _ _ Hz2) as (y & Hy & Hk).
      exists y. split; [|exact Hk]. intros Hx. apply Hy. by apply Hi1.
    + apply andb_true_iff in Hc1. destruct Hc1 as [Hc1 Hkeep].
      destruct (IH1 Hc1 _ _ _ Hz) as (y1 & Hy1 & Hz2).
      destruct (rmatch_steady r2 _ _ _ Hz2) as (y & [Hi2 Hcap] & Hk).
      exists y. split; [|exact Hk]. intros Hx.
      destruct (Hy1 Hx) as (Hi1 & s & e & w & Hl & Hw & Hspell).
      split; [by apply Hi2|].
      exists s, e, w. rewrite (Hcap Hkeep). by repeat split.
  - intros Hc k x z Hz. cbn [rmatch] in Hz.
    apply andb_true_iff in Hc. destruct Hc as [Hm Hws].
    apply Nat.eqb_eq in Hm. subst m.
    destruct (words_of r) as [us|] eqn:Hus; [|discriminate].
    destruct (rmatch_words r us Hus _ _ _ Hz)
      as (y & (w & Hw & w' & Hr & Hp & Hcaps & Hspell) & Hk).
    exists (set_cap n (pos x) y). split; [|exact Hk].
    intros Hx. unfold on_input in *. cbn [set_cap rest pos caps].
    assert (Hy : rest y = skipn (pos y) input).
    { rewrite Hp. symmetry. apply skipn_more. by rewrite <- Hx, Hr. }
    split; [exact Hy|].
    rewrite forallb_forall in Hws.
    assert (Hin : In w us) by (by apply list_elem_of_In).
    specialize (Hws w Hin). apply existsb_exists in Hws.
    destruct Hws as (word & Hword & Heq). apply String.eqb_eq in Heq.
    exists (pos x), (pos y), word.
    cbn [set_cap caps lookup_cap]. rewrite Nat.eqb_refl.
    split; [reflexivity|]. split; [by apply list_elem_of_In|].
    rewrite <- Heq, chars_of_chars, <- Hspell, <- Hx, Hr, Hp.
    replace (pos x + List.length w' - pos x) with (List.length w') by lia.
    by rewrite firstn_app, Nat.sub_diag, firstn_all, firstn_O, app_nil_r.
Qed.

Lemma search_captures (ws : list string) r :
  captures_word n ws r = true →
  ∀ l pv p i e, l = skipn p input →
    search icase r l pv p = Some (i, e) → word_captured icase input n ws e.
Proof.
  intros Hc. induction l as [|c l IH]; intros pv p i e Hl; cbn [search].
  - destruct (rmatch icase r Some _) as [z|] eqn:Hz; [|discriminate].
    intros [= <- <-].
    destruct (rmatch_captures ws r Hc _ _ _ Hz) as (y & Hy & [= ->]).
    by apply Hy.
  - destruct (rmatch icase r Some _) as [z|] eqn:Hz.
    + intros [= <- <-].
      destruct (rmatch_captures ws r Hc _ _ _ Hz) as (y & Hy & [= ->]).
      by apply Hy.
    + apply IH. symmetry. symmetry in Hl. by apply skipn_next in Hl.
Qed.

End WordCaptures.

Lemma exec_captures_word (icase : bool) (n : nat) (ws : list string) r s m :
  captures_word n ws r = true → (0 < n)%nat →
  Regex.exec icase r s = Some m →
  ∃ g w, grp m n = Ok g ∧ Regex.m_group m n = Some g ∧ w ∈ ws
    ∧ map (Regex.canon icase) (JsString.chars g)
      = map (Regex.canon icase) (JsString.chars w).
Proof.
  intros Hc Hn. unfold Regex.exec.
  destruct (Regex.search icase r (JsString.chars s) None 0) as [[i e]|] eqn:Hs;
    [|discriminate].
  intros [= <-].
  destruct (search_captures icase (JsString.chars s) n ws r Hc _ _ _ _ _ eq_refl Hs)
    as (st & en & w & Hl & Hw & Hspell).
  unfold grp, Regex.m_group. cbn [Regex.m_caps Regex.m_input].
  destruct n as [|n]; [lia|]. rewrite Hl. cbn [fmap option_fmap option_map fst snd].
  eexists. exists w. split; [reflexivity|]. split; [reflexivity|]. split; [assumption|].
  unfold Regex.slice. by rewrite chars_of_chars.
Qed.

Lemma in_all_ascii (c : ascii) : In c all_ascii.
Proof.
  unfold all_ascii. rewrite <- (ascii_nat_embedding c).
  apply in_map, in_seq. pose proof (nat_ascii_bounded c). lia.
Qed.

Lemma same_upper_lower (a b : ascii) :
  JsString.is_lower b = true →
  JsString.upper_char a = JsString.upper_char b →
  JsString.lower_char a = b.
Proof.
  assert (Hall : forallb (fun a => forallb (fun b =>
            implb (JsString.is_lower b
                   && Ascii.eqb (JsString.upper_char a) (JsString.upper_char b))
              (Ascii.eqb (JsString.lower_char a) b)) all_ascii) all_ascii = true)
    by (vm_compute; reflexivity).
  rewrite forallb_forall in Hall. specialize (Hall a (in_all_ascii a)).
  rewrite forallb_forall in Hall. specialize (Hall b (in_all_ascii b)).
  intros Hb Hu. rewrite Hb in Hall. apply Ascii.eqb_eq in Hu. rewrite Hu in Hall.
  cbn [andb implb] in Hall. by apply Ascii.eqb_eq.
Qed.

Lemma same_upper_toLowerCase (g w : string) :
  Forall (fun c => JsString.is_lower c = true) (JsString.chars w) →
  map (Regex.canon true) (JsString.chars g) = map (Regex.canon true) (JsString.chars w) →
  JsString.toLowerCase g = w.
Proof.
  intros Hw Hmap. unfold JsString.toLowerCase.
  rewrite <- (of_chars_chars w). f_equal.
  revert Hw Hmap. generalize (JsString.chars w). intros lw.
  generalize (JsString.chars g). intros lg. revert lw.
  induction lg as [|a lg IH]; intros [|b lw] Hw; cbn [map]; try discriminate;
    [reflexivity|].
  intros [= Hab Hrest]. inversion Hw as [|? ? Hb Hlw]; subst.
  f_equal; [by apply same_upper_lower | by apply IH].
Qed.

(** A modal verb, in any letter case, is mapped to a declared severity. *)
Lemma modal_verb_severity (icase_text : string) (w : string) :
  w ∈ modal_verbs →
  map (Regex.canon true) (JsString.chars icase_text)
  = map (Regex.canon true) (JsString.chars w) →
  is_severity (mapSeverity icase_text).
Proof.
  intros Hw Hmap. unfold modal_verbs in Hw.
  assert (Hlow : JsString.toLowerCase icase_text = w).
  { apply same_upper_toLowerCase; [|assumption].
    rewrite !elem_of_cons, elem_of_nil in Hw.
    destruct Hw as [->|[->|[->|[]]]]; repeat constructor. }
  unfold mapSeverity. rewrite Hlow. unfold is_severity.
  rewrite !elem_of_cons, elem_of_nil in Hw.
  destruct Hw as [->|[->|[->|[]]]]; vm_compute; tauto.
Qed.

Lemma mapSeverity_undeclared (severityText : string) :
  ¬ is_severity (mapSeverity severityText) →
  JsString.toLowerCase severityText ∈ ["flag"; "block"; "suggest"; "allow"]
  ∧ mapSeverity severityText ∈ ["violation"; "suggestion"].
Proof.
  unfold mapSeverity, is_severity.
  remember (JsString.toLowerCase severityText) as k eqn:Hlow. clear Hlow.
  destruct (keywordMappings !! k) as [v|] eqn:Hk.
  - pose proof (keywordMappings_lookup _ _ Hk) as Hin. clear Hk.
    rewrite !elem_of_cons, elem_of_nil in Hin.
    repeat match goal with Hx : _ ∨ _ |- _ => destruct Hx as [Hx|Hx] end;
      try contradiction; injection Hin as -> ->; cbn [JsString.truthy String.eqb negb];
      intros Hn;
      first [ exfalso; apply Hn; tauto
            | split; apply (bool_decide_eq_true_1 _); vm_compute; reflexivity ].
  - intros Hn. exfalso. apply Hn. tauto.
Qed.

Lemma modal_verb_groups :
  captures_word 3 modal_verbs function_rule_re = true
  ∧ captures_word 3 modal_verbs naming_rule_re = true
  ∧ captures_word 1 modal_verbs quality_rule_re = true.
Proof. repeat split; vm_compute; reflexivity. Qed.

Lemma clause_severity_cases (m : Regex.MatchArray) :
  is_severity (clause_severity m)
  ∨ ∃ clause, Regex.m_group m 3 = Some clause ∧ clause_severity m = mapSeverity clause.
Proof.
  unfold clause_severity.
  destruct (Regex.m_group m 3) as [clause|]; [destruct (JsString.truthy clause)|].
  - right. by exists clause.
  - left. unfold is_severity. tauto.
  - left. unfold is_severity. tauto.
Qed.

Section SeverityFacts.

Variable RegExp_new : string -> string -> result RegExp.

Lemma template_of_name t p :
  In (t, p) (rulePatterns RegExp_new) →
  (t = "when_then" ∧ re_exec (rp_pattern p) = Regex.exec true when_then_re
   ∧ parser p = parseWhenThenRule RegExp_new)
  ∨ (t = "if_then" ∧ re_exec (rp_pattern p) = Regex.exec true if_then_re
     ∧ parser p = parseIfThenRule RegExp_new)
  ∨ (t = "function_rule" ∧ re_exec (rp_pattern p) = Regex.exec true function_rule_re
     ∧ parser p = parseFunctionRule RegExp_new)
  ∨ (t = "naming_rule" ∧ re_exec (rp_pattern p) = Regex.exec true naming_rule_re
     ∧ parser p = parseNamingRule RegExp_new)
  ∨ (t = "quality_rule" ∧ re_exec (rp_pattern p) = Regex.exec true quality_rule_re
     ∧ parser p = parseQualityRule).
Proof.
  unfold rulePatterns. cbn [In].
  intros [[= <- <-]|[[= <- <-]|[[= <- <-]|[[= <- <-]|[[= <- <-]|[]]]]]]; cbn; tauto.
Qed.

(** The severity of a rule, by the template that built it. *)
Lemma template_severity statement index t rule :
  try_patterns (rulePatterns RegExp_new) statement index = Some (t, rule) →
  (∃ m, ((t = "when_then" ∧ Regex.exec true when_then_re (text statement) = Some m)
         ∨ (t = "if_then" ∧ Regex.exec true if_then_re (text statement) = Some m))
        ∧ severity rule = clause_severity m)
  ∨ (t ∈ ["function_rule"; "naming_rule"; "quality_rule"] ∧ is_severity (severity rule)).
Proof.
  intros Ht. destruct (try_patterns_Some _ _ _ _ _ Ht) as (p & m & r0 & Hin & Hm & Hp & ->).
  cbn [set_confidence severity].
  destruct (template_of_name _ _ Hin)
    as [(-> & He & Hb)|[(-> & He & Hb)|[(-> & He & Hb)|[(-> & He & Hb)|(-> & He & Hb)]]]];
    rewrite He in Hm; rewrite Hb in Hp.
  - left. exists m. split; [left; by split|].
    unfold parseWhenThenRule in Hp. invert_builder. reflexivity.
  - left. exists m. split; [right; by split|].
    unfold parseIfThenRule in Hp. invert_builder. reflexivity.
  - right. split; [rewrite !elem_of_cons; auto|]. destruct modal_verb_groups as (Hverb & _ & _).
    destruct (exec_captures_word true 3 modal_verbs _ _ _ Hverb ltac:(lia) Hm)
      as (g & w & Hg & _ & Hw & Hmap).
    unfold parseFunctionRule in Hp. rewrite Hg in Hp. cbn [rbind] in Hp.
    invert_builder. cbn [severity]. by eapply modal_verb_severity.
  - right. split; [rewrite !elem_of_cons; auto|]. destruct modal_verb_groups as (_ & Hverb & _).
    destruct (exec_captures_word true 3 modal_verbs _ _ _ Hverb ltac:(lia) Hm)
      as (g & w & Hg & _ & Hw & Hmap).
    unfold parseNamingRule in Hp.
    apply rbind_Ok in Hp. destruct Hp as (g1 & _ & Hp). cbv beta zeta in Hp.
    apply rbind_Ok in Hp. destruct Hp as (g2 & _ & Hp). cbv beta zeta in Hp.
    rewrite Hg in Hp. cbn [rbind] in Hp.
    invert_builder. cbn [severity]. by eapply modal_verb_severity.
  - right. split; [rewrite !elem_of_cons; auto|]. destruct modal_verb_groups as (_ & _ & Hverb).
    destruct (exec_captures_word true 1 modal_verbs _ _ _ Hverb ltac:(lia) Hm)
      as (g & w & Hg & _ & Hw & Hmap).
    unfold parseQualityRule in Hp. rewrite Hg in Hp. cbn [rbind] in Hp.
    invert_builder. cbn [severity]. by eapply modal_verb_severity.
Qed.

End SeverityFacts.

(** X23 — A constructed rule whose severity is none of the four declared
    ones was built, from the statement at its position, by the WHEN/THEN
    or the IF/THEN template, on a match whose SHALL clause is, in any
    letter case, [flag], [block], [suggest] or [allow]; its severity is
    then [violation] or [suggestion]. A rule built by the function, naming
    or quality template, and the fallback rule of a statement that no
    template builds a rule for, always carry a declared severity. *)
Theorem undeclared_severity_confined (RegExp_new : string -> string -> result RegExp)
    (spec_text : string) (i : nat) (r : ParsedRule) :
  constructed_rules RegExp_new spec_text !! i = Some r →
  ∃ statement,
    extractRuleStatements spec_text !! i = Some statement
    ∧ (¬ is_severity (severity r) →
       ∃ t m clause,
         try_patterns (rulePatterns RegExp_new) statement (i + 1) = Some (t, r)
         ∧ ((t = "when_then" ∧ Regex.exec true when_then_re (text statement) = Some m)
            ∨ (t = "if_then" ∧ Regex.exec true if_then_re (text statement) = Some m))
         ∧ Regex.m_group m 3 = Some clause
         ∧ JsString.toLowerCase clause ∈ ["flag"; "block"; "suggest"; "allow"]
         ∧ severity r = mapSeverity clause
         ∧ severity r ∈ ["violation"; "suggestion"])
    ∧ (∀ t, try_patterns (rulePatterns RegExp_new) statement (i + 1) = Some (t, r) →
         t ∈ ["function_rule"; "naming_rule"; "quality_rule"] →
         is_severity (severity r))
    ∧ (try_patterns (rulePatterns RegExp_new) statement (i + 1) = None →
       parseGenericRule statement (i + 1) = Some r ∧ is_severity (severity r)).
Proof.
  intros Hr.
  destruct (constructed_rules_lookup RegExp_new _ _ _ Hr) as (statement & Hs & Hp).
  exists statement. split; [exact Hs|].
  assert (Hgeneric : try_patterns (rulePatterns RegExp_new) statement (i + 1) = None →
                     parseGenericRule statement (i + 1) = Some r ∧ is_severity (severity r)).
  { intros Hnone. unfold parseRuleStatement in Hp. rewrite Hnone in Hp.
    assert (Hg : parseGenericRule statement (i + 1) = Some r) by congruence.
    split; [exact Hg|]. unfold parseGenericRule in Hg. injection Hg as <-.
    cbn [severity]. unfold is_severity.
    repeat match goal with |- context [if ?b then _ else _] => destruct b end; tauto. }
  split; [|split; [|exact Hgeneric]].
  - intros Hsev.
    destruct (try_patterns (rulePatterns RegExp_new) statement (i + 1)) as [[t r']|] eqn:Ht.
    2:{ exfalso. apply Hsev. by apply Hgeneric. }
    assert (r' = r) as -> by (unfold parseRuleStatement in Hp; rewrite Ht in Hp; congruence).
    destruct (template_severity RegExp_new _ _ _ _ Ht)
      as [(m & Hexec & Hclause)|[_ Hdeclared]]; [|contradiction].
    destruct (clause_severity_cases m) as [Hdeclared|(clause & Hgroup & Hmap)];
      [rewrite <- Hclause in Hdeclared; contradiction|].
    rewrite Hmap in Hclause. rewrite Hclause in Hsev.
    destruct (mapSeverity_undeclared _ Hsev) as [Hlow Hrange].
    exists t, m, clause. split; [reflexivity|]. split; [exact Hexec|].
    split; [exact Hgroup|]. split; [exact Hlow|]. split; [exact Hclause|].
    by rewrite Hclause.
  - intros t Ht Hin.
    destruct (template_severity RegExp_new _ _ _ _ Ht)
      as [(m & [[-> _]|[-> _]] & _)|[_ Hdeclared]]; [| |exact Hdeclared];
      rewrite !elem_of_cons, elem_of_nil in Hin;
      destruct Hin as [Hin|[Hin|[Hin|[]]]]; discriminate.
Qed.

Lemma undeclared_severity_confined_witness :
  ∃ r, constructed_rules host_RegExp_new shall_flag_text !! 0 = Some r
    ∧ ¬ is_severity (severity r)
    ∧ ∃ statement t m clause,
        extractRuleStatements shall_flag_text !! 0 = Some statement
        ∧ try_patterns (rulePatterns host_RegExp_new) statement (0 + 1) = Some (t, r)
        ∧ ((t = "when_then" ∧ Regex.exec true when_then_re (text statement) = Some m)
           ∨ (t = "if_then" ∧ Regex.exec true if_then_re (text statement) = Some m))
        ∧ Regex.m_group m 3 = Some clause
        ∧ JsString.toLowerCase clause ∈ ["flag"; "block"; "suggest"; "allow"]
        ∧ severity r = mapSeverity clause
        ∧ severity r ∈ ["violation"; "suggestion"].
Proof.
  assert (Hc : ∃ r, constructed_rules host_RegExp_new shall_flag_text = [r]
                    ∧ severity r = "violation").
  { eexists. split; [vm_compute; reflexivity | reflexivity]. }
  destruct Hc as (r & Hrules & Hsev).
  assert (Hr : constructed_rules host_RegExp_new shall_flag_text !! 0 = Some r)
    by (by rewrite Hrules).
  assert (Hn : ¬ is_severity (severity r)).
  { rewrite Hsev. unfold is_severity. intros [Hs|[Hs|[Hs|Hs]]]; discriminate. }
  exists r. split; [exact Hr|]. split; [exact Hn|].
  destruct (undeclared_severity_confined host_RegExp_new shall_flag_text 0 r Hr)
    as (statement & Hstatement & Hundeclared & _).
  destruct (Hundeclared Hn) as (t & m & clause & Hbuilt).
  exists statement, t, m, clause. split; [exact Hstatement|exact Hbuilt].
Defined.

(** ** Quality rules *)

Lemma quality_template (RegExp_new : string -> string -> result RegExp) p :
  In ("quality_rule", p) (rulePatterns RegExp_new) →
  p = {| rp_pattern := regexp_of true false quality_rule_re;
         rp_confidence := 7 # 10; parser := parseQualityRule |}.
Proof.
  unfold rulePatterns. cbn [In].
  intros [[=]|[[=]|[[=]|[[=]|[[= <-]|[]]]]]]. reflexivity.
Qed.

(** X24 — A rule built by the quality template ([code should ...])
    matches every content, whatever it is: the linked rule reports exactly
    one violation, at line 1, column 1, on every run, with a declared
    severity. Its confidence is 0.7, which makes it usable and spares it
    the low-confidence warning. *)
Theorem quality_rule_always_fires (RegExp_new : string -> string -> result RegExp)
    (H : Type) (stamp : H → string * H) (statement : RuleStatement) (index : nat)
    (r : ParsedRule) :
  try_patterns (rulePatterns RegExp_new) statement index = Some ("quality_rule", r) →
  (∀ code language,
     findMatches RegExp_new (condition r) code language
     = Ok [ {| m_line := 1; m_column := 1; m_text := "Custom condition matched";
               m_context := "File-level check" |} ])
  ∧ (∀ code language h,
       ∃ x v, convertToExecutableRules RegExp_new H stamp [r] = [x]
         ∧ (contribution H x code language h).1 = [v]
         ∧ v_line v = 1 ∧ v_column v = 1
         ∧ v_severity v = severity r)
  ∧ is_severity (severity r)
  ∧ confidence (metadata r) = 7 # 10
  ∧ Qltb (1 # 2) (confidence (metadata r)) = true
  ∧ Qltb (confidence (metadata r)) (7 # 10) = false.
Proof.
  intros Ht.
  destruct (try_patterns_Some _ _ _ _ _ Ht) as (p & m & r0 & Hin & Hm & Hp & ->).
  apply quality_template in Hin. subst p.
  cbn [rp_pattern regexp_of re_exec parser rp_confidence] in Hm, Hp |- *.
  destruct modal_verb_groups as (_ & _ & Hverb).
  destruct (exec_captures_word true 1 modal_verbs _ _ _ Hverb ltac:(lia) Hm)
    as (g & w & Hg & _ & Hw & Hmap).
  unfold parseQualityRule in Hp. rewrite Hg in Hp. cbn [rbind] in Hp.
  invert_builder.
  match goal with |- context [condition ?rule] => set (r := rule) end.
  assert (Hfind : ∀ code language,
    findMatches RegExp_new (condition r) code language
    = Ok [ {| m_line := 1; m_column := 1; m_text := "Custom condition matched";
              m_context := "File-level check" |} ]) by reflexivity.
  split; [exact Hfind|]. split; [|split; [by eapply modal_verb_severity|]].
  - intros code language h. destruct (stamp h) as [tag h'] eqn:Hstamp.
    eexists. eexists. split; [reflexivity|].
    unfold contribution. cbn [matcher x_action]. unfold createMatcher, of_result.
    rewrite Hfind. cbn [violations_until_throw]. unfold createAction.
    rewrite Hstamp. subst r. cbn. repeat split.
  - repeat split.
Qed.

Lemma quality_rule_always_fires_witness :
  let statement := {| text := "code should be well documented"; lineNumber := 1 |} in
  ∃ r, try_patterns (rulePatterns host_RegExp_new) statement 1 = Some ("quality_rule", r)
    ∧ ∀ code language,
        findMatches host_RegExp_new (condition r) code language
        = Ok [ {| m_line := 1; m_column := 1; m_text := "Custom condition matched";
                  m_context := "File-level check" |} ].
Proof.
  intros statement.
  assert (Ht : ∃ r, try_patterns (rulePatterns host_RegExp_new) statement 1
                    = Some ("quality_rule", r))
    by (eexists; vm_compute; reflexivity).
  destruct Ht as (r & Ht). exists r. split; [exact Ht|].
  exact (proj1 (quality_rule_always_fires host_RegExp_new nat host_stamp statement 1 r Ht)).
Defined.

(** ** Escaping *)

Lemma metachar_step (c : ascii) (l : list ascii) pv p cs :
  Regex.rmatch false metachar_re Some (Regex.MState (c :: l) pv p cs)
  = if is_metachar c then Some (Regex.MState l (Some c) (S p) cs) else None.
Proof.
  destruct c as [[] [] [] [] [] [] [] []]; vm_compute; reflexivity.
Qed.

Lemma search_metachar (l : list ascii) :
  ∀ pv p, Regex.search false metachar_re l pv p = find_metachar l p.
Proof.
  induction l as [|c l IH]; intros pv p; cbn [Regex.search find_metachar].
  - reflexivity.
  - rewrite metachar_step. destruct (is_metachar c); [reflexivity|apply IH].
Qed.

Lemma find_metachar_spec (l : list ascii) :
  ∀ p,
    match find_metachar l p with
    | None => flat_map escape_char l = l
    | Some (i, e) =>
        ∃ a c b, l = a ++ c :: b
          ∧ flat_map escape_char a = a
          ∧ is_metachar c = true
          ∧ i = p + List.length a
          ∧ e = Regex.MState b (Some c) (S i) []
    end.
Proof.
  induction l as [|c l IH]; intros p; cbn [find_metachar]; [reflexivity|].
  destruct (is_metachar c) eqn:Hc.
  - exists [], c, l. cbn [app flat_map List.length].
    split; [reflexivity|]. split; [reflexivity|]. split; [assumption|].
    split; [lia|]. reflexivity.
  - specialize (IH (S p)). destruct (find_metachar l (S p)) as [[i e]|].
    + destruct IH as (a & c' & b & -> & Ha & Hc' & -> & ->).
      exists (c :: a), c', b. cbn [app flat_map List.length].
      unfold escape_char at 1. rewrite Hc. cbn [app]. rewrite Ha.
      split; [reflexivity|]. split; [reflexivity|]. split; [assumption|].
      split; [lia|]. reflexivity.
    + cbn [flat_map]. unfold escape_char at 1. rewrite Hc. cbn [app]. by rewrite IH.
Qed.

Lemma replace_metachars (input : list ascii) :
  ∀ fuel l pv p,
    (List.length l < fuel)%nat → skipn p input = l →
    Regex.replace_all_aux fuel false metachar_re (fun hit => String "\" hit) input l pv p
    = flat_map escape_char l.
Proof.
  induction fuel as [|fuel IH]; intros l pv p Hfuel Hl; [lia|].
  cbn [Regex.replace_all_aux]. rewrite search_metachar.
  pose proof (find_metachar_spec l p) as Hfind.
  destruct (find_metachar l p) as [[i e]|]; [|by rewrite Hfind].
  destruct Hfind as (a & c & b & -> & Ha & Hc & -> & ->).
  cbn [Regex.pos Regex.rest Regex.prev].
  replace (S (p + List.length a) =? p + List.length a)%nat with false
    by (symmetry; apply Nat.eqb_neq; lia).
  replace (p + List.length a - p) with (List.length a) by lia.
  rewrite firstn_app, Nat.sub_diag, firstn_all, firstn_O, app_nil_r.
  assert (Hhere : Regex.slice input (p + List.length a) (S (p + List.length a))
                  = String c EmptyString).
  { unfold Regex.slice. rewrite (skipn_more input p a (c :: b) Hl).
    replace (S (p + List.length a) - (p + List.length a)) with 1 by lia. reflexivity. }
  rewrite Hhere. cbn [JsString.chars list_ascii_of_string].
  rewrite IH.
  - rewrite flat_map_app, Ha. cbn [flat_map]. unfold escape_char at 2. rewrite Hc.
    reflexivity.
  - rewrite length_app in Hfuel. cbn [List.length] in Hfuel. lia.
  - pose proof (skipn_more input p a (c :: b) Hl) as Hs.
    by apply skipn_next in Hs.
Qed.

(** X25 — Escaping a text for use in a pattern puts a backslash before
    each of its characters that is one of [. * + ? ^ $ { } ( ) | [ ] \],
    and copies every other character: the global replacement over the
    character class does what a character-by-character copy does. The
    result is as long as the text plus the number of such characters, and
    a text without any is returned as it is. *)
Theorem escapeRegExp_spec (s : string) :
  escapeRegExp s = JsString.of_chars (flat_map escape_char (JsString.chars s))
  ∧ JsString.length (escapeRegExp s)
    = JsString.length s
      + List.length (filter (fun c => is_metachar c = true) (JsString.chars s))
  ∧ (Forall (fun c => is_metachar c = false) (JsString.chars s) → escapeRegExp s = s).
Proof.
  assert (Hspec : escapeRegExp s
                  = JsString.of_chars (flat_map escape_char (JsString.chars s))).
  { unfold escapeRegExp, Regex.replace_all. f_equal.
    apply replace_metachars; [lia|reflexivity]. }
  split; [exact Hspec|]. rewrite Hspec. clear Hspec. split.
  - rewrite <- !length_chars, chars_of_chars.
    induction (JsString.chars s) as [|c l IH]; [reflexivity|].
    cbn [flat_map]. rewrite length_app, IH, filter_cons. unfold escape_char.
    destruct (is_metachar c).
    + rewrite decide_True by reflexivity. cbn [List.length]. lia.
    + rewrite decide_False by discriminate. cbn [List.length]. lia.
  - intros Hall. rewrite <- (of_chars_chars s) at 2. f_equal.
    induction Hall as [|c l Hc _ IH]; [reflexivity|].
    cbn [flat_map]. unfold escape_char at 1. rewrite Hc. cbn [app]. by rewrite IH.
Qed.

(** ** Compiled conditions *)

Lemma metric_operator_group : captures_word 2 comparison_operators metric_re = true.
Proof. vm_compute. reflexivity. Qed.

Lemma canon_exact (l : list ascii) : map (Regex.canon false) l = l.
Proof. induction l as [|c l IH]; [reflexivity|]. cbn [map]. by rewrite IH. Qed.

(** X26 — The condition compiled from the text of a WHEN or IF clause is
    either a metric condition, whose operator is one of the six comparison
    operators, or a pattern condition holding a regular expression; it is
    never a custom or a syntax-tree condition. When the host builds global
    expressions under the flags [gi], every pattern condition is global, so
    that each match of a compiled condition is reported at column 0 (a
    pattern) or at line 1, column 1 (a metric). *)
Theorem parseCondition_shape (RegExp_new : string -> string -> result RegExp)
    (conditionText : string) (c : RuleCondition) :
  (∀ src re, RegExp_new src "gi" = Ok re → re_global re = true) →
  parseCondition RegExp_new conditionText = Ok c →
  ((ctype c = TMetric ∧ pattern c = None
    ∧ ∃ m, metric c = Some m ∧ operator m ∈ comparison_operators)
   ∨ (ctype c = TPattern ∧ metric c = None
      ∧ ∃ re, pattern c = Some (PRegExp re) ∧ re_global re = true))
  ∧ ∀ code language matches,
      findMatches RegExp_new (Some c) code language = Ok matches →
      Forall (fun m => m_column m = 0 ∨ (m_line m = 1 ∧ m_column m = 1)) matches.
Proof.
  intros Hhost Hc.
  assert (Hshape :
    (ctype c = TMetric ∧ pattern c = None
     ∧ ∃ m, metric c = Some m ∧ operator m ∈ comparison_operators)
    ∨ (ctype c = TPattern ∧ metric c = None
       ∧ ∃ re, pattern c = Some (PRegExp re) ∧ re_global re = true)).
  { revert Hc. unfold parseCondition. cbv zeta.
    set (lowered := JsString.trim (JsString.toLowerCase conditionText)).
    destruct (Regex.exec false metric_re lowered) as [mm|] eqn:Hmetric.
    { destruct (exec_captures_word false 2 comparison_operators _ _ _
                  metric_operator_group ltac:(lia) Hmetric)
        as (g & w & Hg & _ & Hw & Hmap).
      rewrite !canon_exact in Hmap. apply chars_inj in Hmap. subst g.
      intros Hc. apply rbind_Ok in Hc. destruct Hc as (g1 & _ & Hc). cbv beta in Hc.
      rewrite Hg in Hc. cbn [rbind] in Hc.
      apply rbind_Ok in Hc. destruct Hc as (g3 & _ & Hc). cbv beta in Hc.
      injection Hc as <-. left. cbn. split; [reflexivity|]. split; [reflexivity|].
      eexists. split; [reflexivity|]. exact Hw. }
    destruct (JsString.includes lowered "console.log").
    { intros [= <-]. right. cbn. repeat split. eexists. split; reflexivity. }
    destruct (JsString.includes lowered "var declaration" || JsString.includes lowered "uses var").
    { intros [= <-]. right. cbn. repeat split. eexists. split; reflexivity. }
    destruct (if JsString.includes lowered "function" && JsString.includes lowered "more than"
              then Regex.exec false more_than_re lowered else None) as [nm|].
    { intros Hc. apply rbind_Ok in Hc. destruct Hc as (v & _ & Hc). cbv beta in Hc.
      injection Hc as <-. left. cbn. split; [reflexivity|]. split; [reflexivity|].
      eexists. split; [reflexivity|]. cbn [operator]. unfold comparison_operators.
      rewrite elem_of_cons. by left. }
    destruct (JsString.includes lowered "contains" || JsString.includes lowered "includes"
              || JsString.includes lowered "has").
    { cbv zeta. intros Hc. apply rbind_Ok in Hc. destruct Hc as (re & Hre & Hc).
      cbv beta in Hc. injection Hc as <-. right. cbn. repeat split.
      exists re. split; [reflexivity|]. by eapply Hhost. }
    intros Hc. apply rbind_Ok in Hc. destruct Hc as (re & Hre & Hc).
    cbv beta in Hc. injection Hc as <-. right. cbn. repeat split.
    exists re. split; [reflexivity|]. by eapply Hhost. }
  split; [exact Hshape|].
  intros code language matches. unfold findMatches.
  destruct Hshape as [(Hty & Hpat & m & Hm & _)|(Hty & Hmet & re & Hre & Hglobal)].
  - rewrite Hty, Hm. destruct (compareMetric _ _ _); intros [= <-];
      [constructor; [right; by split|constructor] | constructor].
  - rewrite Hty, Hre. cbn [pattern_truthy rbind]. intros [= <-].
    destruct (scan_lines_spec re (JsString.split_lines code) 0) as (Hall & _).
    eapply Forall_impl; [exact Hall|].
    intros m (j & _ & _ & Hline). left.
    unfold line_match in Hline. destruct (re_exec re (m_context m)); [|discriminate].
    rewrite Hglobal in Hline. congruence.
Qed.

Lemma parseCondition_shape_witness :
  (∀ src re, host_RegExp_new src "gi" = Ok re → re_global re = true)
  ∧ ∃ c, parseCondition host_RegExp_new "lines >= 100" = Ok c
      ∧ ctype c = TMetric
      ∧ ∀ code language matches,
          findMatches host_RegExp_new (Some c) code language = Ok matches →
          Forall (fun m => m_column m = 0 ∨ (m_line m = 1 ∧ m_column m = 1)) matches.
Proof.
  assert (Hhost : ∀ src re, host_RegExp_new src "gi" = Ok re → re_global re = true).
  { intros src re. unfold host_RegExp_new.
    destruct (RegexReader.read_pattern src); try discriminate.
    intros [= <-]. reflexivity. }
  split; [exact Hhost|].
  assert (Hc : ∃ c, parseCondition host_RegExp_new "lines >= 100" = Ok c
                    ∧ ctype c = TMetric)
    by (eexists; split; [vm_compute; reflexivity | reflexivity]).
  destruct Hc as (c & Hc & Hty). exists c. split; [exact Hc|]. split; [exact Hty|].
  exact (proj2 (parseCondition_shape host_RegExp_new "lines >= 100" c Hhost Hc)).
Defined.

(** ** Exclusion patterns *)

Section CharReplacement.

(** A pattern that matches exactly the characters [P] holds of, replaced
    by a fixed text. *)
Variable r : Regex.regex.
Variable P : ascii -> bool.
Variable replacement : string.

Hypothesis r_step : ∀ c l pv p cs,
  Regex.rmatch false r Some (Regex.MState (c :: l) pv p cs)
  = if P c then Some (Regex.MState l (Some c) (S p) cs) else None.
Hypothesis r_end : ∀ pv p cs, Regex.rmatch false r Some (Regex.MState [] pv p cs) = None.

Lemma search_char (l : list ascii) :
  ∀ pv p,
    match Regex.search false r l pv p with
    | None => Forall (fun c => P c = false) l
    | Some (i, e) =>
        ∃ a c b, l = a ++ c :: b
          ∧ Forall (fun c => P c = false) a
          ∧ P c = true
          ∧ i = p + List.length a
          ∧ e = Regex.MState b (Some c) (S i) []
    end.
Proof.
  induction l as [|c l IH]; intros pv p; cbn [Regex.search].
  - rewrite r_end. constructor.
  - rewrite r_step. destruct (P c) eqn:Hc.
    + exists [], c, l. cbn [app List.length].
      split; [reflexivity|]. split; [constructor|]. split; [assumption|].
      split; [lia|]. reflexivity.
    + specialize (IH (Some c) (S p)).
      destruct (Regex.search false r l (Some c) (S p)) as [[i e]|].
      * destruct IH as (a & c' & b & -> & Ha & Hc' & -> & ->).
        exists (c :: a), c', b. cbn [app List.length].
        split; [reflexivity|]. split; [by constructor|]. split; [assumption|].
        split; [lia|]. reflexivity.
      * by constructor.
Qed.

Lemma flat_map_unchanged (l : list ascii) :
  Forall (fun c => P c = false) l →
  flat_map (fun c => if P c then JsString.chars replacement else [c]) l = l.
Proof.
  induction 1 as [|c l Hc _ IH]; [reflexivity|].
  cbn [flat_map]. rewrite Hc. cbn [app]. by rewrite IH.
Qed.

Lemma replace_chars (input : list ascii) :
  ∀ fuel l pv p,
    (List.length l < fuel)%nat →
    Regex.replace_all_aux fuel false r (fun _ => replacement) input l pv p
    = flat_map (fun c => if P c then JsString.chars replacement else [c]) l.
Proof.
  induction fuel as [|fuel IH]; intros l pv p Hfuel; [lia|].
  cbn [Regex.replace_all_aux].
  pose proof (search_char l pv p) as Hfind.
  destruct (Regex.search false r l pv p) as [[i e]|];
    [|by rewrite flat_map_unchanged].
  destruct Hfind as (a & c & b & -> & Ha & Hc & -> & ->).
  cbn [Regex.pos Regex.rest Regex.prev].
  replace (S (p + List.length a) =? p + List.length a)%nat with false
    by (symmetry; apply Nat.eqb_neq; lia).
  replace (p + List.length a - p) with (List.length a) by lia.
  rewrite firstn_app, Nat.sub_diag, firstn_all, firstn_O, app_nil_r.
  rewrite IH by (rewrite length_app in Hfuel; cbn [List.length] in Hfuel; lia).
  rewrite flat_map_app, (flat_map_unchanged a Ha). cbn [flat_map]. by rewrite Hc.
Qed.

Lemma replace_all_chars (s : string) :
  Regex.replace_all false r (fun _ => replacement) s
  = JsString.of_chars
      (flat_map (fun c => if P c then JsString.chars replacement else [c])
         (JsString.chars s)).
Proof. unfold Regex.replace_all. f_equal. apply replace_chars. lia. Qed.

End CharReplacement.

Lemma star_step (c : ascii) (l : list ascii) pv p cs :
  Regex.rmatch false star_re Some (Regex.MState (c :: l) pv p cs)
  = if Ascii.eqb c "*" then Some (Regex.MState l (Some c) (S p) cs) else None.
Proof. destruct c as [[] [] [] [] [] [] [] []]; vm_compute; reflexivity. Qed.

Lemma question_mark_step (c : ascii) (l : list ascii) pv p cs :
  Regex.rmatch false question_mark_re Some (Regex.MState (c :: l) pv p cs)
  = if Ascii.eqb c "?" then Some (Regex.MState l (Some c) (S p) cs) else None.
Proof. destruct c as [[] [] [] [] [] [] [] []]; vm_compute; reflexivity. Qed.

Lemma double_star_step (l : list ascii) pv p cs :
  Regex.rmatch false double_star_re Some (Regex.MState l pv p cs)
  = if double_star_first l
    then Some (Regex.MState (skipn 2 l) (Some "*"%char) (S (S p)) cs)
    else None.
Proof.
  destruct l as [|c [|c' l]]; [reflexivity| |].
  - destruct c as [[] [] [] [] [] [] [] []]; vm_compute; reflexivity.
  - destruct c as [[] [] [] [] [] [] [] []]; try (vm_compute; reflexivity).
    destruct c' as [[] [] [] [] [] [] [] []]; vm_compute; reflexivity.
Qed.

Lemma search_double_star (l : list ascii) :
  ∀ pv p, Regex.search false double_star_re l pv p = find_double_star l p.
Proof.
  induction l as [|c l IH]; intros pv p; [reflexivity|].
  cbn [Regex.search find_double_star]. rewrite double_star_step.
  destruct (double_star_first (c :: l)); [reflexivity|apply IH].
Qed.

Lemma double_stars_cons (c : ascii) (l : list ascii) :
  double_star_first (c :: l) = false → double_stars (c :: l) = c :: double_stars l.
Proof.
  destruct l as [|c' l]; [reflexivity|].
  cbn [double_star_first double_stars]. by intros ->.
Qed.

Lemma find_double_star_spec (l : list ascii) :
  ∀ p,
    match find_double_star l p with
    | None => double_stars l = l
    | Some (i, e) =>
        ∃ a b, l = a ++ "*"%char :: "*"%char :: b
          ∧ double_stars l = a ++ JsString.chars ".*" ++ double_stars b
          ∧ i = p + List.length a
          ∧ e = Regex.MState b (Some "*"%char) (S (S i)) []
    end.
Proof.
  induction l as [|c l IH]; intros p; [reflexivity|].
  cbn [find_double_star]. destruct (double_star_first (c :: l)) eqn:Hfirst.
  - destruct l as [|c' l]; [discriminate|]. cbn [double_star_first] in Hfirst.
    apply andb_true_iff in Hfirst. destruct Hfirst as [Hc Hc'].
    apply Ascii.eqb_eq in Hc, Hc'. subst c c'.
    exists [], l. cbn [app List.length skipn].
    split; [reflexivity|]. split; [reflexivity|]. split; [lia|].
    reflexivity.
  - rewrite (double_stars_cons c l Hfirst). specialize (IH (S p)).
    destruct (find_double_star l (S p)) as [[i e]|].
    + destruct IH as (a & b & Hl & Hd & -> & ->).
      exists (c :: a), b. cbn [app List.length]. rewrite Hd, Hl.
      split; [reflexivity|]. split; [reflexivity|]. split; [lia|]. reflexivity.
    + by rewrite IH.
Qed.

Lemma replace_double_stars (input : list ascii) :
  ∀ fuel l pv p,
    (List.length l < fuel)%nat →
    Regex.replace_all_aux fuel false double_star_re (fun _ => ".*") input l pv p
    = double_stars l.
Proof.
  induction fuel as [|fuel IH]; intros l pv p Hfuel; [lia|].
  cbn [Regex.replace_all_aux]. rewrite search_double_star.
  pose proof (find_double_star_spec l p) as Hfind.
  destruct (find_double_star l p) as [[i e]|]; [|by rewrite Hfind].
  destruct Hfind as (a & b & Hl & Hd & -> & ->).
  cbn [Regex.pos Regex.rest Regex.prev].
  replace (S (S (p + List.length a)) =? p + List.length a)%nat with false
    by (symmetry; apply Nat.eqb_neq; lia).
  replace (p + List.length a - p) with (List.length a) by lia.
  rewrite Hd. rewrite Hl at 1.
  rewrite firstn_app, Nat.sub_diag, firstn_all, firstn_O, app_nil_r.
  rewrite IH; [reflexivity|].
  rewrite Hl, length_app in Hfuel. cbn [List.length] in Hfuel. lia.
Qed.

Lemma glob_chars_star (l : list ascii) :
  double_star_first ("*"%char :: l) = false →
  glob_chars ("*"%char :: l) = JsString.chars "[^/]*" ++ glob_chars l.
Proof.
  destruct l as [|c' l]; [reflexivity|].
  cbn [double_star_first andb Ascii.eqb Bool.eqb]. intros Hc'.
  cbn [glob_chars Ascii.eqb Bool.eqb]. by rewrite Hc'.
Qed.

Lemma glob_chars_passes (n : nat) :
  ∀ l, (List.length l ≤ n)%nat →
    flat_map (fun c => if Ascii.eqb c "?" then JsString.chars "." else [c])
      (flat_map (fun c => if Ascii.eqb c "*" then JsString.chars "[^/]*" else [c])
         (double_stars l))
    = glob_chars l.
Proof.
  induction n as [|n IH]; intros l Hn.
  - destruct l; [reflexivity|cbn [List.length] in Hn; lia].
  - destruct l as [|c l]; [reflexivity|]. cbn [List.length] in Hn.
    destruct (double_star_first (c :: l)) eqn:Hfirst.
    + destruct l as [|c' l]; [discriminate|]. cbn [double_star_first] in Hfirst.
      apply andb_true_iff in Hfirst. destruct Hfirst as [Hc Hc'].
      apply Ascii.eqb_eq in Hc, Hc'. subst c c'. cbn [List.length] in Hn.
      change (double_stars ("*"%char :: "*"%char :: l))
        with (JsString.chars ".*" ++ double_stars l).
      change (glob_chars ("*"%char :: "*"%char :: l))
        with (JsString.chars ".[^/]*" ++ glob_chars l).
      rewrite !flat_map_app, (IH l) by lia. reflexivity.
    + rewrite (double_stars_cons c l Hfirst). cbn [flat_map].
      destruct (Ascii.eqb_spec c "*") as [->|Hc].
      * rewrite (glob_chars_star l Hfirst), flat_map_app, (IH l) by lia. reflexivity.
      * cbn [app flat_map glob_chars].
        replace (Ascii.eqb c "*") with false by (symmetry; by apply Ascii.eqb_neq).
        rewrite (IH l) by lia. by destruct (Ascii.eqb c "?").
Qed.

Lemma glob_chars_plain (l : list ascii) :
  Forall (fun c => c ≠ "*"%char ∧ c ≠ "?"%char) l → glob_chars l = l.
Proof.
  induction 1 as [|c l [Hstar Hmark] _ IH]; [reflexivity|].
  cbn [glob_chars].
  replace (Ascii.eqb c "*") with false by (symmetry; by apply Ascii.eqb_neq).
  replace (Ascii.eqb c "?") with false by (symmetry; by apply Ascii.eqb_neq).
  by rewrite IH.
Qed.

(** X27 — The text [isFileExcluded] hands to the [RegExp] constructor is
    what one pass over the glob gives that writes [.[^/]*] for a pair of
    stars, [[^/]*] for a single star, [.] for a question mark, and copies
    every other character: the star of the [.*] the first replacement
    writes is rewritten by the second, so that a pair of stars stands for
    one character followed by characters other than [/], and nothing is
    escaped. A pattern without star and question mark is used as a
    regular expression as it stands. *)
Theorem glob_source_single_pass (pattern : string) :
  glob_source pattern = JsString.of_chars (glob_chars (JsString.chars pattern))
  ∧ (Forall (fun c => c ≠ "*"%char ∧ c ≠ "?"%char) (JsString.chars pattern) →
     glob_source pattern = pattern)
  ∧ (∀ a b, JsString.chars pattern = a ++ JsString.chars "**" ++ b →
       Forall (fun c => c ≠ "*"%char ∧ c ≠ "?"%char) a →
       glob_source pattern
       = JsString.of_chars (a ++ JsString.chars ".[^/]*" ++ glob_chars b)).
Proof.
  assert (Hpass : glob_source pattern
                  = JsString.of_chars (glob_chars (JsString.chars pattern))).
  { unfold glob_source.
    rewrite (replace_all_chars question_mark_re (fun c => Ascii.eqb c "?") "."
               question_mark_step ltac:(reflexivity)).
    rewrite (replace_all_chars star_re (fun c => Ascii.eqb c "*") "[^/]*"
               star_step ltac:(reflexivity)).
    unfold Regex.replace_all at 1.
    rewrite replace_double_stars by lia.
    rewrite !chars_of_chars. f_equal.
    by apply (glob_chars_passes (List.length (JsString.chars pattern))). }
  split; [exact Hpass|]. rewrite Hpass. split.
  - intros Hplain. rewrite (glob_chars_plain _ Hplain). apply of_chars_chars.
  - intros a b -> Ha. f_equal. clear Hpass.
    induction Ha as [|c a [Hstar Hmark] _ IH]; [reflexivity|].
    cbn [app glob_chars].
    replace (Ascii.eqb c "*") with false by (symmetry; by apply Ascii.eqb_neq).
    replace (Ascii.eqb c "?") with false by (symmetry; by apply Ascii.eqb_neq).
    by rewrite IH.
Qed.

(** ** QualityGateConfigService *)

Lemma getConfig_empty (svc : QualityGateConfigService) :
  getConfig svc (Some EmptyString) = defaultConfig svc.
Proof. reflexivity. Qed.

Lemma getConfig_named (svc : QualityGateConfigService) (teamId : string) :
  teamId ≠ EmptyString →
  getConfig svc (Some teamId) = default (defaultConfig svc) (configs svc !! teamId).
Proof.
  intros Hid. unfold getConfig, JsString.truthy.
  destruct (String.eqb_spec teamId EmptyString) as [->|_]; [congruence|].
  cbn [negb]. by destruct (configs svc !! teamId).
Qed.

Lemma spread_thresholds_twice (existing : QualityThresholds)
    (first second : PartialThresholds) :
  spread_thresholds (spread_thresholds existing first) second
  = spread_thresholds existing (spread_partial_thresholds first second).
Proof.
  unfold spread_thresholds, spread_partial_thresholds, later_of.
  cbn [minQualityScore maxCriticalViolations maxErrorViolations maxWarningViolations
       blockOnCritical warnOnLowScore p_minQualityScore p_maxCriticalViolations
       p_maxErrorViolations p_maxWarningViolations p_blockOnCritical p_warnOnLowScore].
  f_equal.
  - by destruct (p_minQualityScore second).
  - by destruct (p_maxCriticalViolations second).
  - by destruct (p_maxErrorViolations second).
  - by destruct (p_maxWarningViolations second).
  - by destruct (p_blockOnCritical second).
  - by destruct (p_warnOnLowScore second).
Qed.

Lemma spread_no_thresholds (existing : QualityThresholds) :
  spread_thresholds existing no_thresholds = existing.
Proof. by destruct existing. Qed.

Lemma spread_config_twice (existing : QualityGateConfig) (first second : PartialConfig) :
  spread_config (spread_config existing first) second
  = spread_config existing (spread_partial first second).
Proof.
  unfold spread_config, spread_partial, later_of.
  cbn [enabled thresholds excludePatterns config_teamId
       p_enabled p_thresholds p_excludePatterns p_teamId].
  f_equal.
  - by destruct (p_enabled second).
  - destruct (p_thresholds first) as [a|], (p_thresholds second) as [b|];
      cbn [from_option]; unfold Datatypes.id;
      rewrite ?spread_no_thresholds, ?spread_thresholds_twice; reflexivity.
  - by destruct (p_excludePatterns second).
  - by destruct (p_teamId second).
Qed.

(** X28 — An update of the configuration of a team leaves what every
    other team reads, and the default, as they were. Under a name that is
    not empty, the team then reads its former configuration (its own, or
    the default when it had none) overridden by the properties given, and
    a second update adds to the first: the two are worth one update with
    the properties of both, the later ones first, thresholds included one
    by one. Under the empty name the update is stored where nothing reads
    it: every team reads what it read before, and a further update starts
    from the default again. *)
Theorem updateConfig_getConfig (svc : QualityGateConfigService) (teamId : string)
    (config : PartialConfig) :
  let updated := updateConfig svc teamId config in
  defaultConfig updated = defaultConfig svc
  ∧ (∀ other, other ≠ Some teamId → getConfig updated other = getConfig svc other)
  ∧ (teamId ≠ EmptyString →
     getConfig updated (Some teamId)
     = spread_config (default (defaultConfig svc) (configs svc !! teamId)) config
     ∧ ∀ later, updateConfig updated teamId later
                = updateConfig svc teamId (spread_partial config later))
  ∧ (teamId = EmptyString →
     (∀ other, getConfig updated other = getConfig svc other)
     ∧ ∀ later, updateConfig updated teamId later = updateConfig svc teamId later).
Proof.
  cbv zeta. split; [reflexivity|]. split; [|split].
  - intros [other|] Hother; [|reflexivity].
    unfold getConfig. destruct (JsString.truthy other); [|reflexivity].
    unfold updateConfig. cbn [configs defaultConfig].
    rewrite lookup_insert_ne by congruence. reflexivity.
  - intros Hid.
    assert (Hread : getConfig (updateConfig svc teamId config) (Some teamId)
                    = spread_config (getConfig svc (Some teamId)) config).
    { rewrite (getConfig_named _ teamId Hid). unfold updateConfig. cbn [configs].
      by rewrite lookup_insert_eq. }
    split; [by rewrite Hread, (getConfig_named svc teamId Hid)|].
    intros later. unfold updateConfig at 1 3. cbv zeta. rewrite Hread.
    unfold updateConfig. cbn [configs defaultConfig].
    by rewrite insert_insert_eq, spread_config_twice.
  - intros ->. split.
    + intros [other|]; [|reflexivity].
      unfold getConfig, JsString.truthy.
      destruct (String.eqb_spec other EmptyString) as [->|Hother]; [reflexivity|].
      cbn [negb]. unfold updateConfig. cbn [configs defaultConfig].
      rewrite lookup_insert_ne by congruence. reflexivity.
    + intros later. unfold updateConfig at 1 3. rewrite !getConfig_empty.
      unfold updateConfig. cbn [configs defaultConfig]. by rewrite insert_insert_eq.
Qed.

(** ** enforceQualityGate *)

Lemma aggregate_allViolations (results : list AnalysisResult) :
  allViolations (aggregateAnalysisResults results) = flat_map r_violations results.
Proof.
  unfold aggregateAnalysisResults. destruct results as [|r results]; [reflexivity|].
  by rewrite aggregate_fold.
Qed.

Lemma aggregate_average_between (lo hi : Z) (results : list AnalysisResult) :
  results ≠ [] →
  Forall (fun r => (inject_Z lo <= qualityScore r <= inject_Z hi)%Q) results →
  (lo ≤ averageQualityScore (aggregateAnalysisResults results) ≤ hi)%Z.
Proof.
  intros Hsome Hall. unfold aggregateAnalysisResults.
  destruct results as [|r results]; [congruence|].
  rewrite aggregate_fold. cbn [averageQualityScore].
  apply Math_round_between.
  assert (Hq : Forall (fun q => (inject_Z lo <= q <= inject_Z hi)%Q)
                 (map qualityScore (r :: results)))
    by (apply Forall_fmap; exact Hall).
  destruct (fold_Qplus_between (inject_Z lo) (inject_Z hi) _ 0%Q Hq) as [Hlo Hhi].
  rewrite length_map in Hlo, Hhi.
  assert (Hpos : (0 < inject_Z (Z.of_nat (List.length (r :: results))))%Q).
  { pose proof (inject_Z_succ (List.length results)) as Hs.
    pose proof (inject_Z_nat_nonneg (List.length results)). cbn [List.length].
    hide_injections. lra. }
  split.
  - apply Qle_shift_div_l; [assumption|]. lra.
  - apply Qle_shift_div_r; [assumption|]. lra.
Qed.

Lemma applySpecDrivenRules_plain (H : Type) (svc : AnalysisService H)
    (request : AnalysisRequest) (h : H) :
  standards request = None → context_teamId request = None →
  applySpecDrivenRules H svc request h = (Ok [], h).
Proof.
  intros Hstandards Hcontext. rewrite applySpecDrivenRules_spec.
  rewrite (selected_rules_unloaded H svc request); [reflexivity|].
  intros k Hk. unfold requested_identifiers in Hk.
  rewrite Hstandards, Hcontext in Hk. cbn in Hk. by apply elem_of_nil in Hk.
Qed.

Section GateFacts.

Variable RegExp_new : string -> string -> result RegExp.
Variable H : Type.
Variable now : H -> Z * H.
Variable analysis_stamp : H -> string * H.
Variable CodeAST : Type.
Variable ast_complexity : CodeAST -> Q.
Variable analyzeWithAST : AnalysisRequest -> M H (list RuleViolation).
Variable parseCode : string -> string -> M H CodeAST.
Variable overallQualityScore : list RuleViolation -> CodeAST -> M H Q.

Local Abbreviation analyze_change :=
  (analyze H now analysis_stamp CodeAST ast_complexity analyzeWithAST parseCode
     overallQualityScore).
Local Abbreviation analyze_all :=
  (analyze_files H now analysis_stamp CodeAST ast_complexity analyzeWithAST parseCode
     overallQualityScore).
Local Abbreviation enforce :=
  (enforceQualityGate RegExp_new H now analysis_stamp CodeAST ast_complexity
     analyzeWithAST parseCode overallQualityScore).

(** The analysis of a changed file does not look at the rule store. *)
Lemma analyze_change_frame (svc1 svc2 : AnalysisService H) (change : FileChange)
    (userId : string) (h : H) :
  analyze_change svc1 (change_request change userId) h
  = analyze_change svc2 (change_request change userId) h.
Proof.
  unfold analyze, analyzeCode, generateAnalysisId.
  unfold read, try_catch, bind, ret, throw. cbv beta.
  destruct (now h) as [startTime h0].
  destruct (isTypeScriptOrJavaScript (language (change_request change userId))).
  - destruct (analyzeWithAST (change_request change userId) h0) as [[astViolations|msg] h1];
      [|reflexivity].
    destruct (parseCode (req_content (change_request change userId))
                (filePath (change_request change userId)) h1) as [[ast|msg] h2];
      [|reflexivity].
    by rewrite !(applySpecDrivenRules_plain H _ (change_request change userId) h2
                   eq_refl eq_refl).
  - by rewrite !(applySpecDrivenRules_plain H _ (change_request change userId) h0
                   eq_refl eq_refl).
Qed.

(** Outside TypeScript and JavaScript the analysis of a changed file
    returns, with the violations of the line rules and their score. *)
Lemma analyze_change_plain (svc : AnalysisService H) (change : FileChange)
    (userId : string) (h : H) :
  isTypeScriptOrJavaScript (c_language change) = false →
  ∃ result h',
    analyze_change svc (change_request change userId) h = (Ok result, h')
    ∧ r_violations result = performBasicAnalysis (c_content change) (c_language change)
    ∧ qualityScore result
      = calculateQualityScore
          (performBasicAnalysis (c_content change) (c_language change)) (c_content change).
Proof.
  intros Hlang.
  unfold analyze, analyzeCode, generateAnalysisId.
  unfold read, try_catch, bind, ret, throw. cbv beta.
  destruct (now h) as [startTime h0].
  change (language (change_request change userId)) with (c_language change).
  rewrite Hlang.
  rewrite (applySpecDrivenRules_plain H _ (change_request change userId) h0
             eq_refl eq_refl).
  destruct (analysis_stamp h0) as [tag h1].
  destruct (now h1) as [endTime h2].
  eexists. eexists. split; [reflexivity|].
  cbn [r_violations qualityScore change_request req_content language].
  by rewrite app_nil_r.
Qed.

Lemma analyze_files_frame (svc1 svc2 : AnalysisService H) (userId : string)
    (files : list FileChange) :
  ∀ analysisResults h,
    analyze_all svc1 userId files analysisResults h
    = analyze_all svc2 userId files analysisResults h.
Proof.
  induction files as [|change files IH]; intros analysisResults h; [reflexivity|].
  cbn [analyze_files]. unfold bind at 1 3. unfold try_catch, bind.
  rewrite (analyze_change_frame svc1 svc2 change userId h).
  destruct (analyze_change svc2 (change_request change userId) h) as [[result|msg] h1];
    unfold ret; apply IH.
Qed.

(** The loop returns: the results it was given, then those of the files
    whose analysis returned, each file analysed at most once. *)
Lemma analyze_files_returns (svc : AnalysisService H) (userId : string)
    (files : list FileChange) :
  ∀ analysisResults h,
    ∃ results h',
      analyze_all svc userId files analysisResults h = (Ok (analysisResults ++ results), h')
      ∧ (List.length results ≤ List.length files)%nat.
Proof.
  induction files as [|change files IH]; intros analysisResults h.
  - exists [], h. rewrite app_nil_r. split; [reflexivity|cbn [List.length]; lia].
  - cbn [analyze_files]. unfold bind at 1. unfold try_catch, bind.
    destruct (analyze_change svc (change_request change userId) h) as [[result|msg] h1];
      unfold ret.
    + destruct (IH (analysisResults ++ [result]) h1) as (results & h' & -> & Hlen).
      exists (result :: results), h'. rewrite <- app_assoc.
      split; [reflexivity|]. cbn [List.length]. lia.
    + destruct (IH analysisResults h1) as (results & h' & -> & Hlen).
      exists results, h'. split; [reflexivity|]. cbn [List.length]. lia.
Qed.

Local Abbreviation analysed_files :=
  (analysed H now analysis_stamp CodeAST ast_complexity analyzeWithAST parseCode
     overallQualityScore).

(** The loop appends, to the results it was given, the results of the
    files whose analysis returns. *)
Lemma analyze_files_analysed (svc : AnalysisService H) (userId : string)
    (files : list FileChange) :
  ∀ analysisResults h,
    ∃ results h',
      analyze_all svc userId files analysisResults h = (Ok (analysisResults ++ results), h')
      ∧ analysed_files svc userId files h results h'.
Proof.
  induction files as [|change files IH]; intros analysisResults h.
  - exists [], h. rewrite app_nil_r. split; [reflexivity|constructor].
  - cbn [analyze_files]. unfold bind at 1. unfold try_catch, bind.
    destruct (analyze_change svc (change_request change userId) h)
      as [[result|msg] h1] eqn:Hrun; unfold ret.
    + destruct (IH (analysisResults ++ [result]) h1) as (results & h' & -> & Hrest).
      exists (result :: results), h'. rewrite <- app_assoc.
      split; [reflexivity|]. by eapply analysed_returned.
    + destruct (IH analysisResults h1) as (results & h' & -> & Hrest).
      exists results, h'. split; [reflexivity|]. by eapply analysed_thrown.
Qed.

Lemma analysed_length (svc : AnalysisService H) (userId : string) files h results h' :
  analysed_files svc userId files h results h' →
  (List.length results ≤ List.length files)%nat.
Proof. induction 1; cbn [List.length]; lia. Qed.

Lemma analysed_all_thrown (svc : AnalysisService H) (userId : string) files h results h' :
  (∀ change h0, change ∈ files →
     ∃ msg h1, analyze_change svc (change_request change userId) h0 = (Throw msg, h1)) →
  analysed_files svc userId files h results h' → results = [].
Proof.
  intros Hthrown Hrun.
  induction Hrun as [h|change files h result h1 results h2 Hone _ _
                       |change files h msg h1 results h2 _ _ IH].
  - reflexivity.
  - destruct (Hthrown change h ltac:(rewrite elem_of_cons; by left)) as (msg & h0 & Hno).
    congruence.
  - apply IH. intros change' h0 Hin. apply Hthrown. rewrite elem_of_cons. by right.
Qed.

Lemma analysed_plain (svc : AnalysisService H) (userId : string) files h results h' :
  Forall (fun change => isTypeScriptOrJavaScript (c_language change) = false) files →
  analysed_files svc userId files h results h' →
  Forall2 (fun change result =>
             r_violations result
             = performBasicAnalysis (c_content change) (c_language change)
             ∧ qualityScore result
               = calculateQualityScore (r_violations result) (c_content change))
    files results.
Proof.
  intros Hplain Hrun.
  induction Hrun as [h|change files h result h1 results h2 Hone _ IH
                       |change files h msg h1 results h2 Hone _ _].
  - constructor.
  - inversion Hplain as [|? ? Hlang Hrest]; subst.
    destruct (analyze_change_plain svc change userId h Hlang)
      as (result' & h1' & Hrun' & Hviolations & Hscore).
    assert (result' = result) as -> by congruence.
    constructor; [|by apply IH].
    split; [exact Hviolations|]. by rewrite Hviolations.
  - inversion Hplain as [|? ? Hlang Hrest]; subst.
    destruct (analyze_change_plain svc change userId h Hlang)
      as (result' & h1' & Hrun' & _).
    congruence.
Qed.

Lemma enforce_unfold (gate : QualityGateService H) (event : PreCommitEvent) (h : H) :
  enforce gate event h
  = let config := getConfig (gate_configService H gate) (e_teamId event) in
    let finish (h1 : H) action message violations score :=
      (Ok {| commit_action := action;
             commit_message := message;
             commit_violations := violations;
             commit_qualityScore := score;
             commit_processingTime := ((now h1).1 - (now h).1)%Z |},
       (now h1).2) in
    if negb (enabled config) then
      finish (now h).2 ALLOW "Quality gate is disabled" None None
    else
      match files_to_analyze RegExp_new config (changes event) with
      | Throw msg =>
          finish (now h).2 WARN ("Quality gate check failed: " +:+ msg) None None
      | Ok files =>
          if (List.length files =? 0)%nat then
            finish (now h).2 ALLOW "No files to analyze (all excluded or deleted)"
              None None
          else
            match analyze_all (gate_analysisService H gate) (e_userId event) files []
                    (now h).2 with
            | (Ok results, h1) =>
                let aggregated := aggregateAnalysisResults results in
                let decision := makeQualityGateDecision aggregated (thresholds config) in
                finish h1 (d_action decision) (d_message decision)
                  (Some (allViolations aggregated))
                  (Some (averageQualityScore aggregated))
            | (Throw msg, h1) =>
                finish h1 WARN ("Quality gate check failed: " +:+ msg) None None
            end
      end.
Proof.
  cbv zeta. unfold enforceQualityGate.
  unfold read, try_catch, bind, ret, of_result. cbv beta.
  destruct (now h) as [startTime h0]. cbn [fst snd].
  destruct (negb (enabled (getConfig (gate_configService H gate) (e_teamId event)))).
  { by destruct (now h0). }
  destruct (files_to_analyze RegExp_new
              (getConfig (gate_configService H gate) (e_teamId event)) (changes event))
    as [files|msg].
  2:{ by destruct (now h0). }
  destruct (List.length files =? 0)%nat.
  { by destruct (now h0). }
  destruct (analyze_files H now analysis_stamp CodeAST ast_complexity analyzeWithAST
              parseCode overallQualityScore (gate_analysisService H gate) (e_userId event)
              files [] h0) as [[results|msg] h1];
    by destruct (now h1).
Qed.

Lemma files_to_analyze_filter (config : QualityGateConfig) (changes : list FileChange) :
  ∀ files,
    files_to_analyze RegExp_new config changes = Ok files →
    files
    = List.filter
        (fun change =>
           negb (String.eqb (changeType change) "deleted")
           && match isFileExcluded RegExp_new (c_filePath change) config with
              | Ok excluded => negb excluded
              | Throw _ => false
              end)
        changes.
Proof.
  induction changes as [|change changes IH]; intros files Hfiles.
  - cbn in Hfiles. by injection Hfiles as <-.
  - cbn [files_to_analyze] in Hfiles. cbn [List.filter].
    destruct (String.eqb (changeType change) "deleted").
    + cbn [rbind negb andb] in *.
      destruct (files_to_analyze RegExp_new config changes) as [kept|msg];
        [|discriminate].
      cbn [rbind] in Hfiles. injection Hfiles as <-. by apply IH.
    + destruct (isFileExcluded RegExp_new (c_filePath change) config) as [excluded|msg];
        [|discriminate].
      cbn [rbind negb andb] in *.
      destruct (files_to_analyze RegExp_new config changes) as [kept|msg];
        [|discriminate].
      cbn [rbind] in Hfiles. injection Hfiles as <-.
      rewrite <- (IH kept eq_refl). by destruct excluded.
Qed.

End GateFacts.

Lemma validateThresholds_complete (thresholds : QualityThresholds) :
  validateThresholds (all_thresholds thresholds) = [] →
  (0 ≤ minQualityScore thresholds ≤ 100)%Z
  ∧ (0 ≤ maxCriticalViolations thresholds)%Z
  ∧ (0 ≤ maxErrorViolations thresholds)%Z
  ∧ (0 ≤ maxWarningViolations thresholds)%Z.
Proof.
  unfold validateThresholds, all_thresholds.
  cbn [p_minQualityScore p_maxCriticalViolations p_maxErrorViolations
       p_maxWarningViolations].
  destruct (Z.ltb_spec (minQualityScore thresholds) 0); [discriminate|].
  destruct (Z.ltb_spec 100 (minQualityScore thresholds)); [discriminate|].
  destruct (Z.ltb_spec (maxCriticalViolations thresholds) 0); [discriminate|].
  destruct (Z.ltb_spec (maxErrorViolations thresholds) 0); [discriminate|].
  destruct (Z.ltb_spec (maxWarningViolations thresholds) 0); [discriminate|].
  intros _. lia.
Qed.

(** X29 — The quality gate always returns a result and never throws. When it is
    disabled for the team it allows the commit without looking at a file;
    when an exclusion pattern is not a regular expression it only warns,
    with the message of the error, and when every change is a deletion or
    is excluded it allows the commit. No result depends on the rules
    loaded into its analysis service: the requests it builds
    name no standard and carry no team. *)
Theorem enforceQualityGate_returns (RegExp_new : string -> string -> result RegExp)
    (H : Type) (now : H → Z * H) (analysis_stamp : H → string * H) (CodeAST : Type)
    (ast_complexity : CodeAST → Q)
    (analyzeWithAST : AnalysisRequest → M H (list RuleViolation))
    (parseCode : string → string → M H CodeAST)
    (overallQualityScore : list RuleViolation → CodeAST → M H Q)
    (gate : QualityGateService H) (event : PreCommitEvent) (h : H) :
  let run := enforceQualityGate RegExp_new H now analysis_stamp CodeAST ast_complexity
               analyzeWithAST parseCode overallQualityScore in
  let config := getConfig (gate_configService H gate) (e_teamId event) in
  let files := files_to_analyze RegExp_new config (changes event) in
  (∃ result h',
     run gate event h = (Ok result, h')
     ∧ (enabled config = false →
        commit_action result = ALLOW
        ∧ commit_message result = "Quality gate is disabled"
        ∧ commit_violations result = None ∧ commit_qualityScore result = None)
     ∧ (enabled config = true → ∀ msg, files = Throw msg →
        commit_action result = WARN
        ∧ commit_message result = "Quality gate check failed: " +:+ msg
        ∧ commit_violations result = None ∧ commit_qualityScore result = None)
     ∧ (enabled config = true → files = Ok [] →
        commit_action result = ALLOW
        ∧ commit_message result = "No files to analyze (all excluded or deleted)"
        ∧ commit_violations result = None ∧ commit_qualityScore result = None)
     ∧ (enabled config = true → ∀ analysed, files = Ok analysed → analysed ≠ [] →
        ∃ violations score,
          commit_violations result = Some violations
          ∧ commit_qualityScore result = Some score))
  ∧ (∀ svc,
       run {| gate_analysisService := svc;
              gate_configService := gate_configService H gate |} event h
       = run gate event h).
Proof.
  cbv zeta. split.
  - rewrite enforce_unfold. cbv zeta.
    destruct (enabled (getConfig (gate_configService H gate) (e_teamId event)));
      cbn [negb].
    2:{ eexists. eexists. split; [reflexivity|]. cbn.
        split; [done|]. split; [discriminate|]. split; discriminate. }
    destruct (files_to_analyze RegExp_new
                (getConfig (gate_configService H gate) (e_teamId event)) (changes event))
      as [files|msg].
    2:{ eexists. eexists. split; [reflexivity|]. cbn.
        split; [discriminate|]. split; [|split; discriminate].
        intros _ msg' Hmsg. by injection Hmsg as <-. }
    destruct files as [|change files].
    { eexists. eexists. split; [reflexivity|]. cbn.
      split; [discriminate|]. split; [discriminate|]. split; [done|].
      intros _ analysed Hfiles. injection Hfiles as <-. congruence. }
    cbn [List.length Nat.eqb].
    destruct (analyze_files_returns H now analysis_stamp CodeAST ast_complexity
                analyzeWithAST parseCode overallQualityScore
                (gate_analysisService H gate) (e_userId event) (change :: files) []
                (now h).2) as (results & h1 & -> & _).
    eexists. eexists. split; [reflexivity|]. cbn.
    split; [discriminate|]. split; [discriminate|]. split; [discriminate|].
    intros _ analysed _ _. eexists. eexists. split; reflexivity.
  - intros svc. rewrite !enforce_unfold. cbv zeta.
    cbn [gate_configService gate_analysisService].
    destruct (negb _); [reflexivity|].
    destruct (files_to_analyze _ _ _) as [files|msg]; [|reflexivity].
    destruct (List.length files =? 0)%nat; [reflexivity|].
    by rewrite (analyze_files_frame H now analysis_stamp CodeAST ast_complexity
                  analyzeWithAST parseCode overallQualityScore svc
                  (gate_analysisService H gate)).
Qed.

(** X30 — When the quality gate is enabled and its filter returns at
    least one file, the files analysed are the changes that are not
    deletions and that no exclusion pattern matches, in order. They are
    analysed one after the other, each on the request built from it; the
    result carries the violations of the files whose analysis returned, in
    order, the average of their scores, and the action and message decided
    on them. When no file is TypeScript or JavaScript, the violations are
    exactly those of the built-in line rules on each file and the score
    lies between 20 and 100. When the analysis of every file throws, it
    reports no violation and the score 100, and allows the commit under
    any thresholds that pass validation. *)
Theorem enforceQualityGate_outcome (RegExp_new : string -> string -> result RegExp)
    (H : Type) (now : H → Z * H) (analysis_stamp : H → string * H) (CodeAST : Type)
    (ast_complexity : CodeAST → Q)
    (analyzeWithAST : AnalysisRequest → M H (list RuleViolation))
    (parseCode : string → string → M H CodeAST)
    (overallQualityScore : list RuleViolation → CodeAST → M H Q)
    (gate : QualityGateService H) (event : PreCommitEvent) (h : H)
    (files : list FileChange) :
  let config := getConfig (gate_configService H gate) (e_teamId event) in
  enabled config = true →
  files_to_analyze RegExp_new config (changes event) = Ok files →
  files ≠ [] →
  files
  = List.filter
      (fun change =>
         negb (String.eqb (changeType change) "deleted")
         && match isFileExcluded RegExp_new (c_filePath change) config with
            | Ok excluded => negb excluded
            | Throw _ => false
            end)
      (changes event)
  ∧ ∃ results h1,
      analysed H now analysis_stamp CodeAST ast_complexity analyzeWithAST parseCode
        overallQualityScore (gate_analysisService H gate) (e_userId event)
        files (now h).2 results h1
      ∧ enforceQualityGate RegExp_new H now analysis_stamp CodeAST ast_complexity
          analyzeWithAST parseCode overallQualityScore gate event h
        = (Ok {| commit_action :=
                   d_action (makeQualityGateDecision (aggregateAnalysisResults results)
                               (thresholds config));
                 commit_message :=
                   d_message (makeQualityGateDecision (aggregateAnalysisResults results)
                                (thresholds config));
                 commit_violations := Some (flat_map r_violations results);
                 commit_qualityScore :=
                   Some (averageQualityScore (aggregateAnalysisResults results));
                 commit_processingTime := ((now h1).1 - (now h).1)%Z |},
           (now h1).2)
      ∧ (Forall (fun change => isTypeScriptOrJavaScript (c_language change) = false)
           files →
         flat_map r_violations results
         = flat_map (fun change =>
                       performBasicAnalysis (c_content change) (c_language change))
             files
         ∧ (20 ≤ averageQualityScore (aggregateAnalysisResults results) ≤ 100)%Z)
      ∧ ((∀ change h0, change ∈ files →
            ∃ msg h2,
              analyze H now analysis_stamp CodeAST ast_complexity analyzeWithAST
                parseCode overallQualityScore (gate_analysisService H gate)
                (change_request change (e_userId event)) h0
              = (Throw msg, h2)) →
         results = []
         ∧ averageQualityScore (aggregateAnalysisResults results) = 100%Z
         ∧ (validateThresholds (all_thresholds (thresholds config)) = [] →
            d_action (makeQualityGateDecision (aggregateAnalysisResults results)
                        (thresholds config))
            = ALLOW)).
Proof.
  cbv zeta. intros Henabled Hfiles Hsome.
  split; [by apply files_to_analyze_filter|].
  rewrite enforce_unfold. cbv zeta. rewrite Henabled, Hfiles. cbn [negb].
  replace (List.length files =? 0)%nat with false
    by (symmetry; apply Nat.eqb_neq; destruct files; [congruence|discriminate]).
  destruct (analyze_files_analysed H now analysis_stamp CodeAST ast_complexity
              analyzeWithAST parseCode overallQualityScore
              (gate_analysisService H gate) (e_userId event) files [] (now h).2)
    as (results & h1 & Hrun & Hanalysed).
  rewrite Hrun. cbn [app].
  exists results, h1. split; [exact Hanalysed|].
  rewrite aggregate_allViolations. split; [reflexivity|]. split.
  - intros Hplain.
    pose proof (analysed_plain H now analysis_stamp CodeAST ast_complexity analyzeWithAST
                  parseCode overallQualityScore _ _ _ _ _ _ Hplain Hanalysed) as Hall.
    split.
    + clear -Hall.
      induction Hall as [|change result files results [Hv _] _ IH]; [reflexivity|].
      cbn [flat_map]. by rewrite Hv, IH.
    + apply aggregate_average_between.
      * intros ->. apply Forall2_length in Hall. destruct files; [congruence|discriminate].
      * clear -Hall.
        induction Hall as [|change result files results [_ Hq] _ IH]; constructor;
          [|exact IH].
        rewrite Hq, calculateQualityScore_value.
        destruct (fold_severity_penalty (r_violations result) 0%Z) as [_ Hpos].
        rewrite <- !Zle_Qle. lia.
  - intros Hthrown.
    pose proof (analysed_all_thrown H now analysis_stamp CodeAST ast_complexity
                  analyzeWithAST parseCode overallQualityScore _ _ _ _ _ _
                  Hthrown Hanalysed) as ->.
    split; [reflexivity|]. split; [reflexivity|].
    intros Hvalid. apply validateThresholds_complete in Hvalid.
    rewrite decision_action.
    cbn [aggregateAnalysisResults violationCounts averageQualityScore no_violations
         n_critical n_error n_warning Z.of_nat].
    destruct Hvalid as ([Hmin0 Hmin] & Hcritical & Herror & Hwarning).
    replace (maxCriticalViolations _ <? 0)%Z with false by (symmetry; apply Z.ltb_ge; lia).
    rewrite andb_false_r.
    replace (maxErrorViolations _ <? 0)%Z with false by (symmetry; apply Z.ltb_ge; lia).
    replace (maxWarningViolations _ <? 0)%Z with false by (symmetry; apply Z.ltb_ge; lia).
    replace (100 <? minQualityScore _)%Z with false by (symmetry; apply Z.ltb_ge; lia).
    reflexivity.
Qed.

Lemma enforceQualityGate_outcome_witness :
  let files := [ {| c_filePath := "lib/index.py"; c_content := "print('x') # TODO";
                    c_language := "python"; changeType := "modified" |} ] in
  let event := commit_of None files in
  let config := getConfig (gate_configService nat new_gate) (e_teamId event) in
  enabled config = true
  ∧ files_to_analyze host_RegExp_new config (changes event) = Ok files
  ∧ files ≠ []
  ∧ ∃ results h1,
      analysed nat (fun h => (Z.of_nat h, S h)) host_stamp unit (fun _ => 0%Q)
        (fun _ => throw "no analyzer") (fun _ _ => throw "no analyzer")
        (fun _ _ => throw "no analyzer") (gate_analysisService nat new_gate)
        (e_userId event) files 1 results h1
      ∧ flat_map r_violations results
        = performBasicAnalysis "print('x') # TODO" "python"
      ∧ (20 ≤ averageQualityScore (aggregateAnalysisResults results) ≤ 100)%Z.
Proof.
  intros files event config.
  assert (Henabled : enabled config = true) by reflexivity.
  assert (Hfiles : files_to_analyze host_RegExp_new config (changes event) = Ok files)
    by (vm_compute; reflexivity).
  assert (Hsome : files ≠ []) by discriminate.
  assert (Hplain : Forall (fun change => isTypeScriptOrJavaScript (c_language change) = false)
                     files)
    by (constructor; [vm_compute; reflexivity|constructor]).
  split; [exact Henabled|]. split; [exact Hfiles|]. split; [exact Hsome|].
  destruct (enforceQualityGate_outcome host_RegExp_new nat (fun h => (Z.of_nat h, S h))
              host_stamp unit (fun _ => 0%Q) (fun _ => throw "no analyzer")
              (fun _ _ => throw "no analyzer") (fun _ _ => throw "no analyzer")
              new_gate event 0 files Henabled Hfiles Hsome)
    as [_ (results & h1 & Hanalysed & _ & Hscore & _)].
  exists results, h1. split; [exact Hanalysed|].
  destruct (Hscore Hplain) as [Hviolations Hbounds].
  split; [|exact Hbounds]. rewrite Hviolations. cbn [flat_map files]. by rewrite app_nil_r.
Defined.

(** * Worked examples: the repository's test suite and the scenarios *)

Example literals_are_read :
  forallb (fun src => is_parsed (RegexReader.read_pattern src)) literal_sources = true.
Proof. vm_compute. reflexivity. Qed.

Example split_lines_empty : JsString.split_lines EmptyString = [EmptyString].
Proof. reflexivity. Qed.

Example trim_both_ends : JsString.trim "  a b  " = "a b".
Proof. reflexivity. Qed.

Example when_then_rules :
  compile_summary
    [ "WHEN function has more than 20 lines THEN warn about complexity";
      "WHEN variable name is less than 3 characters THEN suggest longer names" ]
  = Some ([("when_then_1", "warning"); ("when_then_2", "warning")], 0, 2, 2).
Proof. vm_compute. reflexivity. Qed.

Example if_then_rules :
  compile_summary
    [ "IF code uses var declaration THEN flag for modernization";
      "IF TODO comment exists THEN suggest creating proper task" ]
  = Some ([("if_then_1", "warning"); ("if_then_2", "warning")], 0, 2, 2).
Proof. vm_compute. reflexivity. Qed.

Example function_rules :
  compile_summary
    [ "function calculateTotal should have proper error handling";
      "method processData must validate input parameters" ]
  = Some ([("function_1", "warning"); ("function_2", "error")], 0, 2, 2).
Proof. vm_compute. reflexivity. Qed.

Example naming_rules :
  compile_summary
    [ "variable names should be descriptive";
      "class UserService must follow naming conventions" ]
  = Some ([("naming_1", "warning"); ("naming_2", "error")], 0, 2, 2).
Proof. vm_compute. reflexivity. Qed.

Example quality_rules :
  compile_summary
    [ "code should be well documented"; "code must have proper error handling" ]
  = Some ([("quality_1", "warning"); ("quality_2", "error")], 0, 2, 2).
Proof. vm_compute. reflexivity. Qed.

Example comments_and_empty_lines_skipped :
  compile_summary
    [ "# This is a comment"; "// Another comment"; EmptyString;
      "WHEN function has more than 20 lines THEN warn about complexity"; EmptyString;
      "# More comments"; "IF code uses var THEN flag for review" ]
  = Some ([("when_then_1", "warning"); ("if_then_2", "warning")], 0, 2, 2).
Proof. vm_compute. reflexivity. Qed.

Example unparseable_statements :
  compile_summary
    [ "WHEN function has more than 20 lines THEN warn about complexity";
      "This is not a valid rule format";
      "IF code uses var THEN flag for review";
      "Another invalid rule" ]
  = Some ([("when_then_1", "warning"); ("if_then_3", "warning")], 0, 4, 4).
Proof. vm_compute. reflexivity. Qed.

(** Scenario B: two fallback rules, none usable. *)
Example malformed_statements :
  compile_summary ["WHEN THEN"; "IF THEN"] = Some ([], 0, 2, 2)
  ∧ map (fun r => (id r, confidence (metadata r)))
      (constructed_rules host_RegExp_new (unlines ["WHEN THEN"; "IF THEN"]))
    = [("generic_1", 3 # 10); ("generic_2", 3 # 10)].
Proof. split; vm_compute; reflexivity. Qed.

Example console_log_matcher :
  first_rule_matches
    ["WHEN code contains console.log THEN warn about debug statements"]
    ["function test() {"; "  console.log(x);"; "  return true;"; "}"]
  = Some [(2, "console.log")].
Proof. vm_compute. reflexivity. Qed.

(** Scenario C: one violation, a warning, at line 1. *)
Example console_log_violation :
  run_summary
    ["WHEN code contains console.log THEN warn about debug statements"]
    ["console.log(x)"]
  = Some [("warning", 1)].
Proof. vm_compute. reflexivity. Qed.

(** Scenario A: the function-length statement gives the metric
    [function lines > 20], and the rule stays silent whatever the code. *)
Example function_length_condition :
  parseCondition host_RegExp_new "function has more than 20 lines"
  = Ok (function_lines_condition 20).
Proof. vm_compute. reflexivity. Qed.

Example metric_conditions :
  map (fun r => condition r ≫= metric)
    (constructed_rules host_RegExp_new
       (unlines ["WHEN lines > 100 THEN warn about file size";
                 "WHEN functions >= 10 THEN suggest refactoring"]))
  = [ Some {| name := "lines"; operator := ">"; value := whole 100 |};
      Some {| name := "functions"; operator := ">="; value := whole 10 |} ].
Proof. vm_compute. reflexivity. Qed.

(** In the two-template text the IF/THEN statement is the first its
    template builds. *)
Example if_then_ordinal_is_one :
  template_ordinal host_RegExp_new two_templates_text 1 "if_then" = 1
  ∧ map id (constructed_rules host_RegExp_new two_templates_text)
    = ["when_then_1"; "if_then_2"].
Proof. split; vm_compute; reflexivity. Qed.

(** The other action words of the lexicon leak into the severity too. *)
Example shall_clause_lexicon :
  map mapSeverity ["flag"; "block"; "suggest"; "allow"; "warn"; "MUST"; "never"]
  = ["violation"; "violation"; "suggestion"; "suggestion"; "warning"; "error"; "warning"].
Proof. vm_compute. reflexivity. Qed.

Example escapeRegExp_metacharacters :
  escapeRegExp "a.b*c (d) [e] x|y \ ^$ {2}" = "a\.b\*c \(d\) \[e\] x\|y \\ \^\$ \{2\}".
Proof. vm_compute. reflexivity. Qed.

(** Heuristic (e): the text after the verb, taken literally. *)
Example contains_condition_is_literal :
  first_rule_matches
    ["WHEN code includes eval(x) THEN flag as unsafe"]
    ["let a = 1;"; "EVAL(x); evalx"; "eval(y)"]
  = Some [(2, "EVAL(x)")].
Proof. vm_compute. reflexivity. Qed.

(** The function-count metric. *)
Example functions_metric :
  calculateMetric (unlines ["function a() {}"; "function  b() {}"; "functions"]) "Functions"
  = 2.
Proof. vm_compute. reflexivity. Qed.

(** ** The services *)

(** The built-in rules on the test suite's TypeScript and Python inputs. *)
Example basic_analysis_typescript :
  rule_positions
    (performBasicAnalysis
       (unlines ["var oldVariable = 'test';"; "console.log('debug');"; "// TODO: fix this"])
       "typescript")
  = [("no-var", 1, 1); ("no-console", 2, 1); ("no-todo-comments", 3, 4)]
  ∧ countLines
      (unlines ["var oldVariable = 'test';"; "console.log('debug');"; "// TODO: fix this"])
    = 3.
Proof. split; vm_compute; reflexivity. Qed.

Example basic_analysis_python :
  rule_positions
    (performBasicAnalysis
       (unlines ["def test_function():"; "    print('debug output')";
                 "    # TODO: implement properly"; "    return 42"])
       "python")
  = [("no-print", 2, 5); ("no-todo-comments", 3, 7)].
Proof. vm_compute. reflexivity. Qed.

(** The line rules of JavaScript are not applied under the short names
    that [isTypeScriptOrJavaScript] accepts. *)
Example basic_analysis_short_name :
  isTypeScriptOrJavaScript "TS" = true
  ∧ performBasicAnalysis (unlines ["var x = 1;"; "console.log(x);"]) "ts" = [].
Proof. split; vm_compute; reflexivity. Qed.

Example clean_code_scores_100 :
  let code := unlines ["function cleanFunction() {"; "  const message = 'Hello, world!';";
                       "  return message;"; "}"] in
  performBasicAnalysis code "typescript" = []
  ∧ calculateQualityScore (performBasicAnalysis code "typescript") code = 100%Q.
Proof. split; vm_compute; reflexivity. Qed.

Example version_increments :
  map incrementVersion
    ["2.1.5"; "1.0.0"; "1.0"; "7"; "1.2.3.4"; "1.2.3-beta"; "1.2.x"; "1.2.0x10"; "1.2.-3";
     "1.2. 9"; "a.b.09"]
  = ["2.1.6"; "1.0.1"; "1.0"; "7"; "1.2.4"; "1.2.4"; "1.2.NaN"; "1.2.17"; "1.2.-2";
     "1.2.10"; "a.b.10"].
Proof. vm_compute. reflexivity. Qed.

(** The test suite of the specification service. *)
Example create_valid_specification :
  let source := unlines ["WHEN function has more than 20 lines THEN warn about complexity";
                         "IF code uses var declaration THEN flag for modernization"] in
  let metadata := Some {| version := Some "1.0.0"; author := Some "Test Author";
                          description := Some "Test specification" |} in
  operation_summary (create "test-team" source metadata) new_spec_service
  = Some (true, 0, 0)
  ∧ (content <$> getQualitySpec nat
                   (then_service (create "test-team" source metadata) new_spec_service)
                   "test-team") = Some source
  ∧ loaded_count (then_service (create "test-team" source metadata) new_spec_service)
      "test-team" = 2.
Proof. split; [|split]; vm_compute; reflexivity. Qed.

Example create_invalid_specification :
  operation_summary (create "invalid-team" (unlines ["WHEN THEN"; "IF THEN"]) None)
    new_spec_service
  = Some (false, 0, 2)
  ∧ (content <$> getQualitySpec nat
                   (then_service (create "invalid-team" (unlines ["WHEN THEN"; "IF THEN"])
                                    None) new_spec_service)
                   "invalid-team") = None.
Proof. split; vm_compute; reflexivity. Qed.

Example create_with_low_confidence_rule :
  operation_summary
    (create "warning-team"
       (unlines ["WHEN function has more than 20 lines THEN warn about complexity";
                 "This is not a proper rule format"]) None)
    new_spec_service
  = Some (true, 0, 1).
Proof. vm_compute. reflexivity. Qed.

Example update_increments_version :
  let created :=
    then_service (create "version-team" "WHEN function THEN warn"
                    (Some {| version := Some "2.1.5"; author := None; description := None |}))
      new_spec_service in
  stored_version created "version-team" = Some "2.1.5"
  ∧ operation_summary (update "version-team" "WHEN function THEN error" None) created
    = Some (true, 0, 0)
  ∧ stored_version
      (then_service (update "version-team" "WHEN function THEN error" None) created)
      "version-team" = Some "2.1.6".
Proof. split; [|split]; vm_compute; reflexivity. Qed.

Example update_missing_specification :
  match (update "non-existent" "some content" None new_spec_service).1 with
  | Ok r => op_errors r
  | Throw _ => []
  end = ["Quality specification 'non-existent' not found"].
Proof. vm_compute. reflexivity. Qed.

Example delete_clears_rules :
  let created :=
    then_service (create "delete-team" "WHEN function THEN warn" None) new_spec_service in
  loaded_count created "delete-team" = 1
  ∧ fst (deleteQualitySpec nat "delete-team" created) = true
  ∧ loaded_count (snd (deleteQualitySpec nat "delete-team" created)) "delete-team" = 0
  ∧ fst (deleteQualitySpec nat "non-existent" created) = false.
Proof. repeat split; vm_compute; reflexivity. Qed.

(** ** QualityGateService and its configuration *)

Example default_configuration :
  let config := getConfig new_QualityGateConfigService None in
  enabled config = true
  ∧ minQualityScore (thresholds config) = 70%Z
  ∧ maxCriticalViolations (thresholds config) = 0%Z
  ∧ blockOnCritical (thresholds config) = true
  ∧ getConfig new_QualityGateConfigService (Some "unknown-team") = config.
Proof. repeat split. Qed.

Example team_configuration :
  let config := getConfig new_QualityGateConfigService (Some "strict-team") in
  enabled config = true
  ∧ minQualityScore (thresholds config) = 85%Z
  ∧ config_teamId config = Some "strict-team".
Proof. repeat split. Qed.

Example updated_configuration :
  let given :=
    {| p_enabled := Some false;
       p_thresholds :=
         Some {| p_minQualityScore := Some 95%Z; p_maxCriticalViolations := Some 0%Z;
                 p_maxErrorViolations := Some 0%Z; p_maxWarningViolations := Some 2%Z;
                 p_blockOnCritical := Some true; p_warnOnLowScore := Some false |};
       p_excludePatterns := None; p_teamId := None |} in
  let config :=
    getConfig (updateConfig new_QualityGateConfigService "test-team" given)
      (Some "test-team") in
  enabled config = false
  ∧ minQualityScore (thresholds config) = 95%Z
  ∧ maxWarningViolations (thresholds config) = 2%Z
  ∧ excludePatterns config = excludePatterns createDefaultConfig
  ∧ config_teamId config = None.
Proof. vm_compute. repeat split. Qed.

Example exclusion_sources :
  map glob_source ["node_modules/**"; "*.test.ts"; "a?b**c***d"]
  = ["node_modules/.[^/]*"; "[^/]*.test.ts"; "a.b.[^/]*c.[^/]*[^/]*d"].
Proof. vm_compute. reflexivity. Qed.

Example excluded_files :
  map excluded_by_default
    ["node_modules/package/index.js"; "src/component.test.ts"; "src/utils.spec.js";
     "README.md"; "src/component.ts"; "src/utils.js"; "lib/index.py"]
  = [Ok true; Ok true; Ok true; Ok true; Ok false; Ok false; Ok false].
Proof. vm_compute. reflexivity. Qed.

(** The sources are neither anchored nor escaped: a path is excluded as
    soon as some part of it fits. *)
Example excluded_by_a_part_of_the_path :
  map excluded_by_default ["src/parsejson.ts"; "src/mdx.py"; "src/dist/x.py"; "dist/"]
  = [Ok true; Ok true; Ok true; Ok false].
Proof. vm_compute. reflexivity. Qed.

Example threshold_validation :
  let only_score score :=
    {| p_minQualityScore := Some score; p_maxCriticalViolations := None;
       p_maxErrorViolations := None; p_maxWarningViolations := None;
       p_blockOnCritical := None; p_warnOnLowScore := None |} in
  validateThresholds (only_score (-10)%Z) = ["minQualityScore must be between 0 and 100"]
  ∧ validateThresholds (only_score 150%Z) = ["minQualityScore must be between 0 and 100"]
  ∧ validateThresholds (only_score 75%Z) = []
  ∧ validateThresholds
      {| p_minQualityScore := Some 150%Z; p_maxCriticalViolations := Some (-1)%Z;
         p_maxErrorViolations := Some 1%Z; p_maxWarningViolations := Some 3%Z;
         p_blockOnCritical := Some true; p_warnOnLowScore := Some true |}
    = ["minQualityScore must be between 0 and 100";
       "maxCriticalViolations must be non-negative"].
Proof. repeat split. Qed.

Example gate_on_a_script :
  gate_summary new_gate
    (commit_of None
       [ {| c_filePath := "lib/index.py"; c_content := "print('x') # TODO";
            c_language := "python"; changeType := "modified" |} ])
  = Some (ALLOW, "Quality gate passed. Found: 2 info. Quality score: 98/100",
          Some [("no-todo-comments", 1, 14); ("no-print", 1, 1)], Some 98%Z).
Proof. vm_compute. reflexivity. Qed.

Example gate_skips_excluded_files :
  gate_summary new_gate
    (commit_of (Some "default")
       [ {| c_filePath := "src/component.test.ts"; c_content := "var bad = 1;";
            c_language := "typescript"; changeType := "modified" |};
         {| c_filePath := "README.md"; c_content := "# Documentation";
            c_language := "markdown"; changeType := "modified" |} ])
  = Some (ALLOW, "No files to analyze (all excluded or deleted)", None, None).
Proof. vm_compute. reflexivity. Qed.

Example gate_skips_deleted_files :
  gate_summary new_gate
    (commit_of (Some "default")
       [ {| c_filePath := "src/oldFile.ts"; c_content := EmptyString;
            c_language := "typescript"; changeType := "deleted" |} ])
  = Some (ALLOW, "No files to analyze (all excluded or deleted)", None, None).
Proof. vm_compute. reflexivity. Qed.

Example gate_disabled :
  let disabled :=
    {| p_enabled := Some false; p_thresholds := None; p_excludePatterns := None;
       p_teamId := None |} in
  gate_summary
    {| gate_analysisService := {| customRules := ∅ |};
       gate_configService := updateConfig new_QualityGateConfigService "test-team" disabled |}
    (commit_of (Some "test-team")
       [ {| c_filePath := "src/anyCode.ts"; c_content := "var bad = 1;";
            c_language := "typescript"; changeType := "added" |} ])
  = Some (ALLOW, "Quality gate is disabled", None, None).
Proof. vm_compute. reflexivity. Qed.

(** A file whose analysis throws is passed over: here the host has no
    syntax-tree analyzer, and the commit is allowed with the score 100. *)
Example gate_without_a_result :
  gate_summary new_gate
    (commit_of None
       [ {| c_filePath := "src/app.ts"; c_content := "var bad = 1;";
            c_language := "typescript"; changeType := "added" |} ])
  = Some (ALLOW, "Quality gate passed. No violations found. Quality score: 100/100",
          Some [], Some 100%Z).
Proof. vm_compute. reflexivity. Qed.

Example gate_with_a_broken_pattern :
  let broken :=
    {| p_enabled := None; p_thresholds := None; p_excludePatterns := Some ["("];
       p_teamId := None |} in
  gate_summary
    {| gate_analysisService := {| customRules := ∅ |};
       gate_configService := updateConfig new_QualityGateConfigService "team" broken |}
    (commit_of (Some "team")
       [ {| c_filePath := "lib/index.py"; c_content := "print('x')";
            c_language := "python"; changeType := "added" |} ])
  = Some (WARN, "Quality gate check failed: SyntaxError: Invalid regular expression",
          None, None).
Proof. vm_compute. reflexivity. Qed.

(** ** Thresholds given as strings *)

Example parseFloat_readings :
  map parseFloat ["5"; " 12.5e1x"; "-.5"; "5."; "1e"; "0x10"; "+Infinity"; "."; "abc"]
  = [Rat 5; Rat 125; Rat (-5 # 10); Rat 5; Rat 1; Rat 0; Infinity false; NaN; NaN].
Proof. vm_compute. reflexivity. Qed.

(** Against a string that is not a number, [>] and [<=] are both false. *)
Example threshold_that_is_not_a_number :
  map (fun op => compareMetric 5 op (StringValue "abc")) [">"; "<"; ">="; "<="; "=="; "!="]
  = [false; false; false; false; false; true].
Proof. vm_compute. reflexivity. Qed.

Example threshold_with_a_fraction :
  map (fun op => compareMetric 5 op (StringValue "4.5")) [">"; "<"; ">="; "<="; "=="; "!="]
  = [true; false; true; false; false; true].
Proof. vm_compute. reflexivity. Qed.
